(* ===== verification/_CoqProject ===== *)
-Q . S2P
Prelude.v
Pmm.v
Memory.v
Task.v
Scheduler.v
SchedulerProps.v
Blocking.v
Preempt.v
PreemptProps.v
Races.v
Atomic.v
Tasks.v
TasksProps.v
Vga.v
Bytes.v
Elf.v
E1000.v
NicRun.v
ArpDemo.v
Vfs.v
Net.v
NetProps.v
NetTypes.v
Initrd.v
Devices.v
Syscall.v
SyscallProps.v
SyscallErrors.v
Gdt.v
Interrupts.v
Entry.v
NetDemo.v
Shell.v
ShellProps.v
ShellSession.v
Boot.v
BootProps.v
BootRun.v
ShellAnswers.v
Locks.v
LocksProps.v
