(* ===== verification/Prelude.v ===== *)
(** * SimpleLinux: a verification development

    SimpleLinux is a small x86_64 kernel (kernel/src/). This library models its Rust code
    and its hand-written assembly as executable definitions and proves what makes them
    correct. Paths below are relative to kernel/src/.

    ** The program and its parts

    [kernel_main] (main.rs) brings the machine up: segments (gdt.rs), interrupts and the
    timer (interrupts.rs, timer.rs), memory (memory/*.rs: the frame allocator, page
    mapping, the heap), files (fs/*.rs: the VFS, /dev, /proc and a ramdisk), two user
    programs (process/elf.rs loads them, syscall/mod.rs enters ring 3 and serves [int 0x80]),
    the network card (drivers/e1000.rs) and the network stack (net/*.rs), and at last the
    scheduler (process/*.rs) with some tasks, one of them the shell (shell.rs). The parts meet in
    few places: everything that needs memory takes frames from the allocator; the timer
    interrupt drives the scheduler; the shell, the system calls and the boot tests reach
    the keyboard, the serial port, the counters and the sockets through the VFS; and the stack sends
    and receives through the rings of the card.

    ** Files, in order

    - [Prelude]: widths and overflow, panics, loops, vectors indexed by [Z], lists; the
      tactics and hints the other files share.
    - [Pmm] (memory/pmm.rs): the bitmap allocator, and its abstraction to the set of free
      frames. [FrameAlloc] is the interface the clients are proved against.
    - [Memory] (memory/vmm.rs, heap.rs, mod.rs): mapping, translation, heap set-up, seeding
      from the boot memory map, the frame half of [memory_self_test].
    - [Task] (process/task.rs, context.rs): tasks, their stacks, [__switch] as instructions of
      a small machine. [Scheduler] (process/scheduler.rs, timer.rs): every operation of the
      scheduler and its invariant. [SchedulerProps], [Blocking]: what holds of all runs.
    - [Preempt] (process/scheduler.rs, interrupts.rs): the scheduler again, at the grain of its
      critical sections, with the lock and a timer that can interrupt before any instruction.
      [PreemptProps], [Races]: what holds then, and what does not. [Atomic]: without interrupts the two models agree.
    - [Tasks] (main.rs): the tasks started at boot (workers, manager, clock, stress test) as interaction trees
      over the calls of the scheduler, and the machine that runs them, preemption included.
      [TasksProps]: what holds of every interleaving.
    - [Vga] (vga.rs): the text screen.
    - [Bytes] (net/mod.rs): byte fields and the internet checksum.
    - [Elf] (process/elf.rs): the loader, on a memory with translations and page rights.
    - [E1000] (drivers/e1000.rs): PCI discovery, the rings, send, receive. [NicRun]: all
      sequences of these. [ArpDemo] (drivers/e1000/arp.rs): the ARP demo task.
    - [Vfs] (fs/vfs.rs, fs/mod.rs): the class [Inode], mounts, paths, the descriptor table.
    - [Net] (net/*.rs): the layers over the statics they share. [NetProps], [NetTypes]: what it
      does with packets; that its state stays well typed. [NetDemo]: its self-test.
    - [Initrd] (fs/initrd.rs): the ustar parser and the tree it fills.
    - [Devices] (drivers/keyboard.rs, fs/devfs.rs, fs/procfs.rs, [fs::init]): the leaves of
      the namespace; [Node] is every type that implements the trait.
    - [Syscall] (syscall/mod.rs): the dispatcher and its handlers. [SyscallProps],
      [SyscallErrors]: that they are safe; that a failing call has no effect.
      [Entry]: the assembly around the dispatcher.
    - [Gdt] (gdt.rs): selectors, the stacks of the TSS, the segment registers [init] loads. [Interrupts] (interrupts.rs): the
      vectors, the handlers, the interrupt controller.
    - [Shell], [ShellProps], [ShellSession] (shell.rs): the commands, the line editor and
      the loop. [ShellAnswers]: a specification of what it answers.
    - [Boot], [BootProps] (main.rs): [kernel_main] and its phases over all of the above.
      [BootRun]: the tasks running from the state it leaves.
    - [Locks] (all files): the lock skeleton of each function that tasks and interrupt handlers
      run, and the processor that runs them. [LocksProps]: when they cannot hang, and when they can.

    ** How code becomes a definition

    A [w]-bit integer is a [Z]; [checked] and [wrap] write out the edge of the width, and
    the class [Profile] says whether an overflowing operator panics (a development build) or
    wraps (a release build); the theorems hold for both unless they name one. A panic stops the
    kernel, so a computation gives an [outcome]: [Ret] or [Panic]. A static is a
    record passed along, and a function runs as if it had the static to itself; the lock that
    is to give it that is modelled apart, in [Locks], and for the scheduler, together with its state,
    in [Preempt]. [Scheduler] reports a call of [__switch] as a value, [Task] says what the
    instructions of it do. A byte is a [Z] below 256, a string its UTF-8 bytes. [Net] and
    [Shell] run in small monads of state, panic and, for the shell and [kernel_main],
    exhausted fuel.

    What belongs to a crate or to the hardware is a class, with its documented
    behaviour as laws where a proof needs them: the page tables of [x86_64] ([Mapper],
    [MapperOk]), its addresses ([X86Addr], [VirtAddrNew]) and descriptor table
    ([GdtTable]), the interrupt controller of [pic8259] ([Pics]), the scancode decoder of [pc_keyboard] ([Decoder]), the counters of the
    heap crate ([Heap], [HeapVecs]), the registers of the card and of the PCI bus ([Hw]), the user
    programs ([UserCode]), and what the other tasks do while the shell or the ARP demo
    sleeps ([Others], [Wire]). Each theorem that has such a hypothesis has a witness with a concrete
    instance.

    ** What the theorems show

    - Memory: the allocator refines a set of free frames with next-fit choice; a frame is never
      held twice; seeding frees what the boot map says; the heap gets frames of its own.
    - Tasks: a suspended task continues where it was, with its registers; a new one
      starts on its own stack. No legal sequence of operations breaks the task table or
      panics; no runnable task waits more than a round; [sleep] and [join] resume their caller
      only when it is time, [exit] and the clock wake exactly those that wait.
      Two situations the code does not handle are proved too (a lone [sleep] or [join]
      returns at once, the idle loop never dispatches), and that a preemption holds back the
      interrupt controller.
    - Preemption: with interrupts inside operations and critical sections the table stays well
      formed and sections work on the right task. Exactly which sections a timer interrupt
      deadlocks, and that [join] can miss the exit of the task it waits for, are proved too.
    - The boot tasks: under every interleaving no task panics, and while the clock task runs the
      manager reports its workers joined only when they have all finished.
    - Programs and system calls: the loader shows the program its file; the stubs keep every register but
      [rax]; no sequence of calls panics the kernel; reads copy exactly the bytes of the file; a call that fails
      changes nothing (one leak excepted).
    - Files: paths, mounts, descriptors and the ramdisk against abstract specifications,
      with the round trip through the archive format; the keyboard is a queue.
    - Network: checksums (RFC 1071), each protocol's answer, the round trip of a datagram through
      two stacks, and which received frames stop the kernel (two kinds, both findings); the receive ring
      is a queue; the driver stays within its pages; types are kept.
    - Screen and shell: the screen shows the layout of the text; a session is the evaluation
      of its lines, and ends; each line is answered as the specification says, the script of the boot
      included.
    - Boot: [kernel_main] reaches the scheduler without a panic, with the hardware set up, and its
      self-tests report success; the run from there on, preempted anywhere, never panics, and the
      boot tasks report in order.
    - Locks: the functions take their locks in one order and never keep one across a
      voluntary switch, so that no task waits for ever as long as no interrupt arrives while a
      lock its handler or an exit needs is held. The locks do not disable interrupts: with one
      at the wrong moment the machine can hang, which is proved too.

    ** Fuel and bounds

    Where a loop of the code is not structural its fuel is a bound the code itself implies:
    the 20 digits of a [u64] ([dec]); one step per byte ([utf8_valid_loop], [Kbd_loop]) or
    per 512-byte block ([parse_loop]); two folds for the carries of a sum below 2^32
    ([fold_carry]); 16 frames a [pump]; 100000 polls of the card's reset bit. The bounds
    are those of the source or are proved sufficient. Three loops can run for ever, and there the result is an
    [option] and the theorems say how much fuel suffices: a user program (one unit per
    system call, [user_loop]); the shell (202 rounds per key and 202 more, [enough]); [cat]
    (one unit per 256 bytes; it is also proved that no fuel suffices for /dev/zero).
    The inner loop of the ARP demo polls until the ring is empty: eight polls suffice when
    at most seven frames arrive during a nap, all the ring can hold.

    ** What is not modelled

    Diagnostics ([println!]) other than those of the shell, the boot tests and the boot tasks,
    with the macros and the formatting behind them; the crates named above; the
    instruction that loads the IDT; the locks taken before the tasks start; heap
    exhaustion; interrupts in the middle of a boot phase (they are taken between phases); user
    programs other than by their system calls; the constants and the enumeration [TcpState]
    that no code uses; the host runner, the build script and the empty user crate. *)

From Stdlib Require Export ZArith Lia.
From stdpp Require Export base gmap strings numbers list.

#[global] Open Scope Z_scope.

(** ** Machine integers

    A Rust integer of width [w] is a [Z]; the functions below write out what
    the language does at the edge of the width. *)

Definition U64_MAX : Z := 2 ^ 64 - 1.

(** [x as uN]: truncation to the low [w] bits. *)
Definition wrap (w z : Z) : Z := z `mod` 2 ^ w.

Definition fits (w z : Z) : Prop := 0 ≤ z < 2 ^ w.

#[global] Instance fits_dec w z : Decision (fits w z).
Proof. unfold fits; apply _. Defined.

Lemma wrap_fits w z : 0 ≤ w → fits w (wrap w z).
Proof. intros; unfold fits, wrap. apply Z.mod_pos_bound. lia. Qed.

Lemma wrap_small w z : fits w z → wrap w z = z.
Proof. intros; unfold wrap. by apply Z.mod_small. Qed.

(** ** Panics

    A panic halts the kernel (the panic handler of main.rs prints and loops on
    [hlt]), so a computation that panics has no final state. *)

Inductive panic :=
  | PIndex        (* index out of bounds *)
  | PSlice        (* slice start after end, or end after length *)
  | POverflow     (* arithmetic overflow, in a build with overflow checks *)
  | PUnwrap       (* [unwrap]/[expect] on [None] or [Err] *)
  | PFault        (* a page fault in the kernel, whose handler panics *)
  | PNull         (* a slice made from a null pointer, in a build with debug assertions *)
  | PAlloc        (* an allocation the heap cannot serve *)
  | PWild         (* not a panic: the kernel has overwritten its own memory *)
  | PTrap (vector : Z).  (* an exception whose handler panics *)

Inductive outcome (A : Type) :=
  | Ret (a : A)
  | Panic (p : panic).
Arguments Ret {A} a.
Arguments Panic {A} p.

#[global] Instance panic_eq_dec : EqDecision panic.
Proof. solve_decision. Defined.

#[global] Instance outcome_ret : MRet outcome := @Ret.
#[global] Instance outcome_bind : MBind outcome :=
  λ A B f m, match m with Ret a => f a | Panic p => Panic p end.

Lemma bind_Ret {R R'} (m : outcome R) (f : R → outcome R') y : m ≫= f = Ret y → ∃ x, m = Ret x ∧ f x = Ret y.
Proof. destruct m; cbn; [by eauto|done]. Qed.

Definition expect {A} (o : option A) : outcome A :=
  match o with Some a => Ret a | None => Panic PUnwrap end.

(** ** The build profile

    [cargo build] compiles the kernel with overflow checks, [cargo build
    --release] without: an overflowing [+] panics in the first and wraps in
    the second. *)

Class Profile := { overflow_checks : bool }.
Definition dev : Profile := {| overflow_checks := true |}.
Definition release : Profile := {| overflow_checks := false |}.

Definition checked `{Profile} (w z : Z) : outcome Z :=
  if bool_decide (fits w z) then Ret z
  else if overflow_checks then Panic POverflow else Ret (wrap w z).

Lemma checked_fits `{Profile} w z : fits w z → checked w z = Ret z.
Proof. intros; unfold checked. by rewrite bool_decide_true. Qed.

(** ** Stateful computations *)

Definition M (S A : Type) : Type := S → outcome (A * S).

#[global] Instance M_ret S : MRet (M S) := λ A a s, Ret (a, s).
#[global] Instance M_bind S : MBind (M S) :=
  λ A B f m s, match m s with Ret (a, s') => f a s' | Panic p => Panic p end.

Definition getS {S} : M S S := λ s, Ret (s, s).
Definition putS {S} (s : S) : M S unit := λ _, Ret (tt, s).
Definition gets {S A} (f : S → A) : M S A := λ s, Ret (f s, s).
Definition modify {S} (f : S → S) : M S unit := λ s, Ret (tt, f s).
Definition lift {S A} (o : outcome A) : M S A :=
  λ s, match o with Ret a => Ret (a, s) | Panic p => Panic p end.

(** ** Computations that may not end

    [None] is a computation that has used up its fuel. *)

Definition T (S A : Type) : Type := S → option (outcome (A * S)).

#[global] Instance T_ret S : MRet (T S) := λ A a s, Some (Ret (a, s)).
#[global] Instance T_bind S : MBind (T S) :=
  λ A B f m s, match m s with
               | Some (Ret (a, s')) => f a s'
               | Some (Panic p) => Some (Panic p)
               | None => None
               end.

(** A computation that ends, and one that panics or returns. *)
Definition fin {S A} (m : M S A) : T S A := λ s, Some (m s).
Definition out_of_fuel {S A} : T S A := λ _, None.

Lemma bind_fin {S A B} (m : M S A) (f : A → T S B) s a s' : m s = Ret (a, s') → (fin m ≫= f) s = f a s'.
Proof. intros E. unfold mbind, T_bind, fin. by rewrite E. Qed.

Lemma bind_some {S A B} (m : T S A) (f : A → T S B) s a s' : m s = Some (Ret (a, s')) → (m ≫= f) s = f a s'.
Proof. intros E. unfold mbind, T_bind. by rewrite E. Qed.

Lemma bind_none {S A B} (m : T S A) (f : A → T S B) s : m s = None → (m ≫= f) s = None.
Proof. intros E. unfold mbind, T_bind. by rewrite E. Qed.

(** ** Vectors and slices

    [vget] is [slice::get] and the test behind a checked index; [vset] is the
    in-range element assignment; [slice l a b] is [&l[a..b]]. Indices are [Z]
    (usize values up to [2^64 - 1] occur, such as the sentinel [NO_TASK]). *)

Definition vlen {A} (l : list A) : Z := Z.of_nat (length l).

Definition vget {A} (l : list A) (i : Z) : option A :=
  if bool_decide (0 ≤ i < vlen l) then l !! Z.to_nat i else None.

Definition vset {A} (l : list A) (i : Z) (x : A) : list A :=
  if bool_decide (0 ≤ i < vlen l) then <[Z.to_nat i := x]> l else l.

Definition index {A} (l : list A) (i : Z) : outcome A :=
  match vget l i with Some x => Ret x | None => Panic PIndex end.

Definition slice {A} (l : list A) (a b : Z) : outcome (list A) :=
  if bool_decide (0 ≤ a ≤ b ∧ b ≤ vlen l)
  then Ret (take (Z.to_nat (b - a)) (drop (Z.to_nat a) l))
  else Panic PSlice.

Section vectors.
Context {A : Type}.
Implicit Types (l : list A) (x y : A) (i j : Z).

Lemma vget_Some l i x :
  vget l i = Some x ↔ 0 ≤ i ∧ l !! Z.to_nat i = Some x.
Proof.
  unfold vget, vlen. case_bool_decide as Hi; split; [intuition lia|by intros []|done|].
  intros [Hp Hl]. apply lookup_lt_Some in Hl. lia.
Qed.

Lemma vget_lt l i x : vget l i = Some x → 0 ≤ i < vlen l.
Proof. unfold vget. by case_bool_decide. Qed.

Lemma vget_in l i : 0 ≤ i < vlen l → ∃ x, vget l i = Some x.
Proof.
  intros Hi. unfold vget. rewrite bool_decide_true by done.
  apply lookup_lt_is_Some. unfold vlen in Hi. lia.
Qed.

Lemma vget_None l i : vget l i = None ↔ ¬ (0 ≤ i < vlen l).
Proof.
  split; [|intros; unfold vget; by rewrite bool_decide_false].
  intros Hn Hi. destruct (vget_in l i Hi). congruence.
Qed.

Lemma vget_nat l (n : nat) : vget l (Z.of_nat n) = l !! n.
Proof.
  unfold vget, vlen. case_bool_decide; [by rewrite Nat2Z.id|].
  symmetry. apply lookup_ge_None. lia.
Qed.

Lemma vlen_nonneg l : 0 ≤ vlen l.
Proof. unfold vlen; lia. Qed.

Lemma vlen_vset l i x : vlen (vset l i x) = vlen l.
Proof. unfold vset, vlen. case_bool_decide; by rewrite ?length_insert. Qed.

Lemma length_vset l i x : length (vset l i x) = length l.
Proof. unfold vset. case_bool_decide; by rewrite ?length_insert. Qed.

Lemma vget_vset_eq l i x : 0 ≤ i < vlen l → vget (vset l i x) i = Some x.
Proof.
  intros Hi. apply vget_Some. split; [lia|].
  unfold vset. rewrite bool_decide_true by done.
  apply list_lookup_insert_eq. unfold vlen in Hi. lia.
Qed.

Lemma vget_vset_ne l i j x : i ≠ j → vget (vset l i x) j = vget l j.
Proof.
  intros Hne. unfold vget. rewrite vlen_vset. case_bool_decide; [|done].
  unfold vset. case_bool_decide; [|done].
  apply list_lookup_insert_ne. lia.
Qed.

Lemma vget_vset l i j x :
  vget (vset l i x) j =
    if bool_decide (i = j ∧ 0 ≤ i < vlen l) then Some x else vget l j.
Proof.
  case_bool_decide as H; [destruct H as [-> H]; by apply vget_vset_eq|].
  destruct (decide (i = j)) as [->|]; [|by apply vget_vset_ne].
  unfold vset. rewrite bool_decide_false; [done|intros ?; apply H; by split].
Qed.

Lemma vget_ext l1 l2 : vlen l1 = vlen l2 →
  (∀ i, 0 ≤ i < vlen l1 → vget l1 i = vget l2 i) → l1 = l2.
Proof.
  intros Hlen H. apply list_eq. intros n. rewrite <- !vget_nat.
  destruct (decide (Z.of_nat n < vlen l1)) as [Hn|Hn]; [apply H; lia|].
  transitivity (@None A); [|symmetry]; apply vget_None; lia.
Qed.

Lemma vlen_app l1 l2 : vlen (l1 ++ l2) = vlen l1 + vlen l2.
Proof. unfold vlen. rewrite length_app. lia. Qed.

Lemma vlen_cons x l : vlen (x :: l) = vlen l + 1.
Proof. unfold vlen. simpl. lia. Qed.

Lemma vget_cons_succ x l i : 0 ≤ i → vget (x :: l) (i + 1) = vget l i.
Proof.
  intros Hi. rewrite <- (Z2Nat.id i) by done. change (Z.of_nat (Z.to_nat i) + 1) with
    (Z.of_nat (Z.to_nat i) + Z.of_nat 1). rewrite <- Nat2Z.inj_add, !vget_nat, Nat.add_comm. done.
Qed.

Lemma vlen_nil : vlen (@nil A) = 0.
Proof. done. Qed.

Lemma vlen_replicate n x : vlen (replicate n x) = Z.of_nat n.
Proof. unfold vlen. by rewrite length_replicate. Qed.

Lemma vget_app_l l1 l2 i : i < vlen l1 → vget (l1 ++ l2) i = vget l1 i.
Proof.
  intros Hi. unfold vget. rewrite vlen_app. pose proof (vlen_nonneg l2).
  repeat case_bool_decide; try lia; [|done].
  apply lookup_app_l. unfold vlen in *; lia.
Qed.

Lemma vget_snoc l x : vget (l ++ [x]) (vlen l) = Some x.
Proof.
  unfold vlen. rewrite vget_nat, lookup_app_r by lia.
  by rewrite Nat.sub_diag.
Qed.

Lemma index_vget l i x : vget l i = Some x → index l i = Ret x.
Proof. unfold index. by intros ->. Qed.

Lemma vget_elem_of l i x : vget l i = Some x → x ∈ l.
Proof. intros [_ H]%vget_Some. by eapply list_elem_of_lookup_2. Qed.

Lemma elem_of_vget l x : x ∈ l → ∃ i, vget l i = Some x.
Proof.
  intros [n H]%list_elem_of_lookup_1. exists (Z.of_nat n). by rewrite vget_nat.
Qed.

Lemma Forall_vget (P : A → Prop) l :
  Forall P l ↔ ∀ i x, vget l i = Some x → P x.
Proof.
  rewrite Forall_lookup. split.
  - intros H i x [_ Hl]%vget_Some. eauto.
  - intros H i x Hl. apply (H (Z.of_nat i)). by rewrite vget_nat.
Qed.

Lemma Forall_vset (P : A → Prop) l i x :
  Forall P l → P x → Forall P (vset l i x).
Proof.
  intros Hl Hx. unfold vset. case_bool_decide; [|done].
  by apply Forall_insert.
Qed.
End vectors.

Lemma vlen_fmap {A B} (f : A → B) l : vlen (f <$> l) = vlen l.
Proof. unfold vlen. by rewrite length_fmap. Qed.

(** Lengths compute by rewriting, then [lia]. *)
Create Rewrite HintDb vlen.
#[export] Hint Rewrite @vlen_app @vlen_cons @vlen_nil @vlen_vset @vlen_fmap @vlen_replicate : vlen.
Ltac vlia := autorewrite with vlen in *; lia.

(** ** Searching a vector

    [position p l] is [l.iter().position(p)]. *)

Fixpoint position_from {A} (p : A → bool) (l : list A) (i : Z) : option Z :=
  match l with
  | [] => None
  | x :: l' => if p x then Some i else position_from p l' (i + 1)
  end.

Definition position {A} (p : A → bool) (l : list A) : option Z :=
  position_from p l 0.

Section position.
Context {A : Type} (p : A → bool).
Implicit Types (l : list A).

Lemma position_from_Some l k i :
  position_from p l k = Some i ↔
    k ≤ i ∧ (∃ x, vget l (i - k) = Some x ∧ p x = true) ∧
    (∀ j x, k ≤ j < i → vget l (j - k) = Some x → p x = false).
Proof.
  revert k. induction l as [|a l IH]; intros k; simpl.
  - split; [done|]. intros (_ & (x & Hx & _) & _).
    apply vget_lt in Hx. unfold vlen in Hx. simpl in Hx. lia.
  - assert (∀ j, k < j → vget (a :: l) (j - k) = vget l (j - (k + 1))) as Hcons.
    { intros j Hj. replace (j - k) with (Z.of_nat (S (Z.to_nat (j - (k+1))))) by lia.
      rewrite vget_nat. simpl. rewrite <- vget_nat. f_equal; lia. }
    assert (vget (a :: l) (k - k) = Some a) as H0.
    { replace (k - k) with (Z.of_nat 0) by lia. by rewrite vget_nat. }
    destruct (p a) eqn:Hp.
    + split; [intros [= ->]|].
      * split_and!; [lia|eauto|intros; lia].
      * intros (Hle & (x & Hx & Hpx) & Hmin).
        destruct (decide (k = i)) as [->|]; [done|].
        specialize (Hmin k a ltac:(lia) H0). congruence.
    + rewrite IH. split; intros (Hle & (x & Hx & Hpx) & Hmin).
      * split_and!; [lia| |].
        -- exists x. by rewrite Hcons by lia.
        -- intros j y Hj Hy. destruct (decide (j = k)) as [->|]; [congruence|].
           rewrite Hcons in Hy by lia. eapply Hmin; [|done]; lia.
      * destruct (decide (i = k)) as [->|]; [congruence|]. split_and!; [lia| |].
        -- exists x. by rewrite <- Hcons by lia.
        -- intros j y Hj Hy. rewrite <- Hcons in Hy by lia.
           eapply Hmin; [|done]; lia.
Qed.

Lemma position_Some l i :
  position p l = Some i ↔
    (∃ x, vget l i = Some x ∧ p x = true) ∧
    (∀ j x, j < i → vget l j = Some x → p x = false).
Proof.
  unfold position. rewrite position_from_Some. rewrite !Z.sub_0_r. split.
  - intros (? & ? & Hmin). split; [done|]. intros j x Hj Hx.
    pose proof (vget_lt _ _ _ Hx). eapply Hmin; [|by rewrite Z.sub_0_r]; lia.
  - intros ((x & Hx & ?) & Hmin). pose proof (vget_lt _ _ _ Hx). split_and!; eauto; [lia|].
    intros j y Hj. rewrite Z.sub_0_r. apply Hmin. lia.
Qed.

Lemma position_from_shift l k : position_from p l k = (λ i, i + k) <$> position_from p l 0.
Proof.
  revert k. induction l as [|a l IH]; intros k; simpl; [done|]. destruct (p a); [done|].
  rewrite (IH (k + 1)), (IH (0 + 1)). destruct (position_from p l 0); simpl; [f_equal; lia|done].
Qed.

Lemma position_cons a l : position p (a :: l) = if p a then Some 0 else Z.succ <$> position p l.
Proof. unfold position. simpl. destruct (p a); [done|]. apply position_from_shift. Qed.

Lemma position_None l :
  position p l = None ↔ ∀ x, x ∈ l → p x = false.
Proof.
  unfold position. generalize 0. induction l as [|a l IH]; intros k; simpl.
  - split; [intros _ x Hx; by apply not_elem_of_nil in Hx|done].
  - destruct (p a) eqn:Hp.
    + split; [done|]. intros H. specialize (H a (list_elem_of_here _ _)). congruence.
    + rewrite IH. split; intros H x; [rewrite elem_of_cons; intros [->|]; auto|].
      intros Hx. apply H. by right.
Qed.
End position.

(** ** Loops

    [for_each l f s] is [for x in l { s = f(x, s) }]; [for_until] also has a
    [return] in its body. *)

Fixpoint for_each {A S} (l : list A) (f : A → S → outcome S) (s : S) : outcome S :=
  match l with
  | [] => Ret s
  | x :: l' => s' ← f x s; for_each l' f s'
  end.

Inductive flow (R S : Type) :=
  | Next (s : S)          (* the body fell through, or said [continue] *)
  | Return (r : R).       (* the body returned [r] *)
Arguments Next {R S} s.
Arguments Return {R S} r.

Fixpoint for_until {A R S} (l : list A) (f : A → S → outcome (flow R S)) (s : S)
    : outcome (flow R S) :=
  match l with
  | [] => Ret (Next s)
  | x :: l' =>
      r ← f x s;
      match r with
      | Next s' => for_until l' f s'
      | Return r => Ret (Return r)
      end
  end.

(** Loop rule: an invariant indexed by the elements already visited. *)
Lemma for_each_split {A S} (I : list A → S → Prop) (f : A → S → outcome S) l :
  ∀ pre s, I pre s →
  (∀ pre' x s' suf, pre ++ l = pre' ++ x :: suf → I pre' s' →
     ∃ s'', f x s' = Ret s'' ∧ I (pre' ++ [x]) s'') →
  ∃ s', for_each l f s = Ret s' ∧ I (pre ++ l) s'.
Proof.
  induction l as [|x l IH]; intros pre s HI Hstep; simpl.
  - exists s. by rewrite app_nil_r.
  - destruct (Hstep pre x s l eq_refl HI) as (s1 & -> & H1). simpl.
    destruct (IH (pre ++ [x]) s1 H1) as (s2 & -> & H2).
    { intros pre' y s' suf Heq. apply (Hstep pre' y s' suf).
      by rewrite <- Heq, <- app_assoc. }
    exists s2. by rewrite <- app_assoc in H2.
Qed.

Lemma for_each_app {A S} (l1 l2 : list A) (f : A → S → outcome S) s :
  for_each (l1 ++ l2) f s = for_each l1 f s ≫= for_each l2 f.
Proof.
  revert s. induction l1 as [|x l1 IH]; intros s; [done|]. cbn [app for_each].
  destruct (f x s) as [s'|]; [apply IH|done].
Qed.

Lemma for_each_inv {A S} (I : list A → S → Prop) (f : A → S → outcome S) l s :
  I [] s →
  (∀ pre' x s', x ∈ l → I pre' s' → ∃ s'', f x s' = Ret s'' ∧ I (pre' ++ [x]) s'') →
  ∃ s', for_each l f s = Ret s' ∧ I l s'.
Proof.
  intros HI Hstep. apply (for_each_split I f l [] s HI).
  intros pre' x s' suf Heq. apply Hstep. simpl in Heq. rewrite Heq.
  apply elem_of_app. right. by left.
Qed.

(** What no round changes, the loop does not change. *)
Lemma for_each_same {A S B} (g : S → B) (f : A → S → outcome S) l :
  (∀ x s s', f x s = Ret s' → g s' = g s) → ∀ s s', for_each l f s = Ret s' → g s' = g s.
Proof.
  intros Hf. induction l as [|x l IH]; intros s s'; simpl; [congruence|].
  destruct (f x s) as [s1|] eqn:E; simpl; [|done]. intros E'. rewrite (IH _ _ E'). by eapply Hf.
Qed.

Lemma for_until_next {A R S} (I : list A → S → Prop)
    (f : A → S → outcome (flow R S)) (Q : R → Prop) l :
  ∀ pre s, I pre s →
  (∀ pre' x s' suf, pre ++ l = pre' ++ x :: suf → I pre' s' →
     (∃ s'', f x s' = Ret (Next s'') ∧ I (pre' ++ [x]) s'') ∨
     (∃ r, f x s' = Ret (Return r) ∧ Q r)) →
  (∃ s', for_until l f s = Ret (Next s') ∧ I (pre ++ l) s') ∨
  (∃ r, for_until l f s = Ret (Return r) ∧ Q r).
Proof.
  induction l as [|x l IH]; intros pre s HI Hstep; simpl.
  - left. exists s. by rewrite app_nil_r.
  - destruct (Hstep pre x s l eq_refl HI) as [(s1 & -> & H1)|(r & -> & HQ)];
      simpl; [|by eauto].
    destruct (IH (pre ++ [x]) s1 H1) as [(s2 & -> & H2)|?]; [| |by eauto].
    { intros pre' y s' suf Heq. apply (Hstep pre' y s' suf).
      by rewrite <- Heq, <- app_assoc. }
    left. exists s2. by rewrite <- app_assoc in H2.
Qed.

(** A loop over [a..a+n] that cannot panic, by an invariant of the next index. *)
Lemma foldl_seqZ_inv {S} (I : Z → S → Prop) (f : S → Z → S) a n s :
  0 ≤ n → I a s → (∀ i s, a ≤ i < a + n → I i s → I (i + 1) (f s i)) → I (a + n) (foldl f s (seqZ a n)).
Proof.
  intros Hn Ha. rewrite <- (Z2Nat.id n Hn). generalize (Z.to_nat n) as k.
  induction k as [|k IH]; intros Hstep.
  - change (Z.of_nat 0) with 0. by rewrite Z.add_0_r.
  - rewrite seqZ_S, foldl_app. cbn [foldl].
    replace (a + Z.of_nat (Datatypes.S k)) with (a + Z.of_nat k + 1) by lia.
    apply Hstep; [lia|]. apply IH. intros; apply Hstep; [lia|done].
Qed.

Lemma seqZ_split s n pre x suf :
  seqZ s n = pre ++ x :: suf →
  s ≤ x < s + n ∧ ∀ y, y ∈ pre ↔ s ≤ y < x.
Proof.
  intros H.
  assert (seqZ s n !! length pre = Some x) as [Hx Hl]%lookup_seqZ.
  { by rewrite H, lookup_app_r, Nat.sub_diag by lia. }
  split; [lia|]. intros y. split.
  - intros [i Hi]%list_elem_of_lookup_1. pose proof (lookup_lt_Some _ _ _ Hi).
    assert (seqZ s n !! i = Some y) as ?%lookup_seqZ by (by rewrite H, lookup_app_l).
    lia.
  - intros Hy. apply (list_elem_of_lookup_2 _ (Z.to_nat (y - s))).
    rewrite <- (lookup_app_l pre (x :: suf)) by lia. rewrite <- H.
    apply lookup_seqZ. lia.
Qed.

(** ** Counting with [filter] *)

Section filter_counting.
Context {A : Type}.

Lemma list_filter_iff' (P Q : A → Prop) `{∀ x, Decision (P x), ∀ x, Decision (Q x)} (l : list A) :
  (∀ x, x ∈ l → P x ↔ Q x) → filter P l = filter Q l.
Proof.
  induction l as [|x l IH]; intros H1; [done|].
  rewrite !filter_cons, IH by (intros; apply H1; by right).
  pose proof (H1 x (list_elem_of_here _ _)). repeat case_decide; tauto.
Qed.

Lemma vlen_filter_ext (P Q : A → Prop) `{∀ x, Decision (P x), ∀ x, Decision (Q x)} (l : list A) :
  (∀ x, x ∈ l → P x ↔ Q x) → vlen (filter P l) = vlen (filter Q l).
Proof. intros. f_equal. by apply list_filter_iff'. Qed.

Lemma vlen_filter_compl (P : A → Prop) `{∀ x, Decision (P x)} (l : list A) :
  vlen (filter P l) + vlen (filter (λ x, ¬ P x) l) = vlen l.
Proof.
  unfold vlen. induction l as [|x l IH]; [done|]. rewrite !filter_cons.
  repeat case_decide; simpl in *; tauto || lia.
Qed.

Lemma vlen_filter_fmap {B} (f : B → A) (P : A → Prop) `{∀ x, Decision (P x)} (l : list B) :
  vlen (filter P (f <$> l)) = vlen (filter (λ x, P (f x)) l).
Proof.
  unfold vlen. induction l as [|x l IH]; [done|]. rewrite fmap_cons, !filter_cons.
  case_decide; cbn [length]; lia.
Qed.
End filter_counting.

Lemma size_set_map_inj (f : Z → Z) `{!Inj (=) (=) f} (X : gset Z) :
  size (set_map f X : gset Z) = size X.
Proof.
  induction X as [|x X Hx IH] using set_ind_L; [by rewrite set_map_empty|].
  rewrite set_map_union_L, set_map_singleton_L, !size_union, !size_singleton by set_solver.
  lia.
Qed.

(** ** Bits *)

Lemma U64_MAX_ones : U64_MAX = Z.ones 64.
Proof. reflexivity. Qed.

Lemma fits_testbit w : 0 ≤ w → fits 64 w ↔ ∀ i, 64 ≤ i → Z.testbit w i = false.
Proof.
  intros Hw. split; intros H.
  - intros i Hi. apply Z.bits_above_log2; [done|]. destruct H as [_ H].
    destruct (decide (w = 0)) as [->|]; [change (Z.log2 0) with 0; lia|].
    apply Z.log2_lt_pow2 in H; lia.
  - split; [done|]. destruct (decide (w = 0)) as [->|]; [done|].
    apply Z.log2_lt_pow2; [lia|]. apply Z.nle_gt. intros Hl.
    pose proof (Z.bit_log2 w ltac:(lia)) as Hb. rewrite H in Hb; done.
Qed.
