(* ===== verification/Pmm.v ===== *)
(** * Pmm: the physical frame allocator (kernel/src/memory/pmm.rs)

    Module [pmm] translates the bitmap allocator operation by operation; the
    rest of the file relates it to its abstract specification, the finite set of
    free frame numbers. *)

From S2P Require Import Prelude.

Module pmm.

Definition PAGE_SIZE : Z := 4096.
Definition MAX_PHYS : Z := Z.shiftl 1 30.
Definition NUM_FRAMES : Z := MAX_PHYS `div` PAGE_SIZE.
Definition WORDS : Z := NUM_FRAMES `div` 64.

(** [used] is the array [[u64; WORDS]]. *)
Record BitmapFrameAllocator := mkAlloc {
  used : list Z;
  next_word : Z;
}.

Definition new : BitmapFrameAllocator :=
  {| used := replicate (Z.to_nat WORDS) U64_MAX; next_word := 0 |}.

Definition bit_index (frame : Z) : Z * Z := (frame `div` 64, frame `mod` 64).

Definition frame_used (a : BitmapFrameAllocator) (frame : Z) : outcome bool :=
  let '(w, b) := bit_index frame in
  word ← index (used a) w;
  Ret (bool_decide (Z.land (Z.shiftr word b) 1 = 1)).

(** [!(1 << b)] on a [u64] is the complement within 64 bits. *)
Definition set_used (frame : Z) (value : bool) (a : BitmapFrameAllocator)
    : outcome BitmapFrameAllocator :=
  let '(w, b) := bit_index frame in
  word ← index (used a) w;
  let word' := if value then Z.lor word (Z.shiftl 1 b)
               else Z.land word (Z.lxor U64_MAX (Z.shiftl 1 b)) in
  Ret {| used := vset (used a) w word'; next_word := next_word a |}.

Definition div_ceil (a b : Z) : Z := (a + b - 1) `div` b.

Definition frames_for (start_ end_ : Z) : option (Z * Z) :=
  let start := start_ `div` PAGE_SIZE in
  let end' := div_ceil end_ PAGE_SIZE in
  let end' := Z.min end' NUM_FRAMES in
  if start <? end' then Some (start, end') else None.

Definition mark_range (value : bool) (start_ end_ : Z) (a : BitmapFrameAllocator)
    : outcome BitmapFrameAllocator :=
  match frames_for start_ end_ with
  | Some (s, e) => for_each (seqZ s (e - s)) (λ f a, set_used f value a) a
  | None => Ret a
  end.

Definition mark_used_range := mark_range true.
Definition mark_free_range := mark_range false.

(** The inner loop of [alloc_frame], over the bits [bs] of word [idx]. *)
Definition scan_word (idx : Z) (a : BitmapFrameAllocator)
    : outcome (flow (option Z * BitmapFrameAllocator) unit) :=
  for_until (seqZ 0 64) (λ b _,
    let frame := idx * 64 + b in
    if NUM_FRAMES <=? frame then Ret (Return (None, a))
    else
      u ← frame_used a frame;
      if (u : bool) then Ret (Next tt)
      else
        a' ← set_used frame true a;
        Ret (Return (Some (frame * PAGE_SIZE), mkAlloc (used a') idx))) tt.

(** A frame is represented by its start address. *)
Definition alloc_frame (a : BitmapFrameAllocator)
    : outcome (option Z * BitmapFrameAllocator) :=
  r ← for_until (seqZ 0 WORDS) (λ wi _,
    let idx := (next_word a + wi) `mod` WORDS in
    word ← index (used a) idx;
    if bool_decide (word = U64_MAX) then Ret (Next tt)
    else scan_word idx a) tt;
  match r with
  | Return res => Ret res
  | Next _ => Ret (None, a)
  end.

Definition free_frame (frame : Z) (a : BitmapFrameAllocator)
    : outcome BitmapFrameAllocator :=
  let idx := frame `div` PAGE_SIZE in
  if idx <? NUM_FRAMES then set_used idx false a else Ret a.

(** [u64::count_ones]. *)
Definition count_ones (w : Z) : Z :=
  vlen (filter (λ i, Z.testbit w i = true) (seqZ 0 64)).

Definition free_count (a : BitmapFrameAllocator) : Z :=
  NUM_FRAMES - foldl (λ n w, n + count_ones w) 0 (used a).

Definition allocate_frame := alloc_frame.
Definition deallocate_frame := free_frame.

End pmm.

Import pmm.

(** ** The abstraction: the set of free frames *)

Definition bit_free (ws : list Z) (f : Z) : bool :=
  match vget ws (f `div` 64) with
  | Some w => negb (Z.testbit w (f `mod` 64))
  | None => false
  end.

Definition free_list (ws : list Z) (lo n : Z) : list Z :=
  filter (λ f, bit_free ws f = true) (seqZ lo n).

Definition free_frames (a : BitmapFrameAllocator) : gset Z :=
  list_to_set (free_list (used a) 0 NUM_FRAMES).

Record wf (a : BitmapFrameAllocator) : Prop := {
  wf_len : vlen (used a) = WORDS;
  wf_u64 : Forall (fits 64) (used a);
  wf_next : 0 ≤ next_word a < WORDS;
}.

Lemma NUM_FRAMES_WORDS : NUM_FRAMES = 64 * WORDS.
Proof. reflexivity. Qed.

Lemma WORDS_pos : 0 < WORDS.
Proof. reflexivity. Qed.

Lemma frame_word f : 0 ≤ f < NUM_FRAMES → 0 ≤ f `div` 64 < WORDS.
Proof. rewrite NUM_FRAMES_WORDS. intros; split; [apply Z.div_pos|apply Z.div_lt_upper_bound]; lia. Qed.

Lemma frame_split f g : f `div` 64 = g `div` 64 → f `mod` 64 = g `mod` 64 → f = g.
Proof. intros. rewrite (Z.div_mod f 64), (Z.div_mod g 64) by lia. congruence. Qed.

Lemma elem_of_free_frames a f :
  f ∈ free_frames a ↔ 0 ≤ f < NUM_FRAMES ∧ bit_free (used a) f = true.
Proof.
  unfold free_frames, free_list. rewrite elem_of_list_to_set, list_elem_of_filter, elem_of_seqZ.
  split; intros; split; lia || tauto.
Qed.

(** ** Bit-level facts *)

Lemma land1_testbit w b : 0 ≤ b →
  bool_decide (Z.land (Z.shiftr w b) 1 = 1) = Z.testbit w b.
Proof.
  intros. rewrite (Z.land_ones _ 1 ltac:(lia) : Z.land _ 1 = _), Z.shiftr_div_pow2 by lia.
  change (2 ^ 1) with 2. rewrite <- Z.testbit_spec' by lia. by destruct (Z.testbit w b).
Qed.

Lemma testbit_set w b i : 0 ≤ b → 0 ≤ i →
  Z.testbit (Z.lor w (Z.shiftl 1 b)) i = Z.testbit w i || bool_decide (i = b).
Proof.
  intros. rewrite Z.lor_spec. f_equal. rewrite Z.shiftl_1_l, Z.pow2_bits_eqb by done.
  case_bool_decide; [subst; apply Z.eqb_refl|apply Z.eqb_neq; lia].
Qed.

Lemma testbit_clear w b i : fits 64 w → 0 ≤ b → 0 ≤ i →
  Z.testbit (Z.land w (Z.lxor U64_MAX (Z.shiftl 1 b))) i =
    Z.testbit w i && negb (bool_decide (i = b)).
Proof.
  intros Hw Hb Hi. rewrite Z.land_spec, Z.lxor_spec, Z.shiftl_1_l, Z.pow2_bits_eqb by done.
  rewrite U64_MAX_ones, Z.testbit_ones_nonneg by lia.
  destruct (Z.ltb_spec i 64); [|rewrite (proj1 (fits_testbit w (proj1 Hw)) Hw i) by lia; done].
  f_equal. case_bool_decide; [subst; by rewrite Z.eqb_refl|].
  by rewrite (proj2 (Z.eqb_neq b i)) by lia.
Qed.

Lemma fits_set w b : fits 64 w → 0 ≤ b < 64 → fits 64 (Z.lor w (Z.shiftl 1 b)).
Proof.
  intros Hw Hb. apply fits_testbit.
  - apply Z.lor_nonneg. split; [apply Hw|apply Z.shiftl_nonneg; lia].
  - intros i Hi. rewrite testbit_set by lia.
    rewrite (proj1 (fits_testbit w (proj1 Hw)) Hw i Hi), bool_decide_false by lia. done.
Qed.

Lemma fits_clear w m : fits 64 w → 0 ≤ m → fits 64 (Z.land w m).
Proof.
  intros Hw Hm. apply fits_testbit; [apply Z.land_nonneg; left; apply Hw|].
  intros i Hi. rewrite Z.land_spec, (proj1 (fits_testbit w (proj1 Hw)) Hw i Hi). done.
Qed.

(** ** [frame_used] and [set_used] against the abstraction *)

Lemma frame_used_spec a f : wf a → 0 ≤ f < NUM_FRAMES →
  frame_used a f = Ret (negb (bit_free (used a) f)).
Proof.
  intros Ha Hf. pose proof (frame_word f Hf) as Hw. rewrite <- (wf_len a Ha) in Hw.
  destruct (vget_in _ _ Hw) as [w Hg]. unfold frame_used, bit_index, bit_free.
  rewrite (index_vget _ _ _ Hg), Hg. simpl.
  rewrite land1_testbit by (apply Z.mod_pos_bound; lia). by rewrite negb_involutive.
Qed.

Lemma set_used_spec a f v : wf a → 0 ≤ f < NUM_FRAMES →
  ∃ a', set_used f v a = Ret a' ∧ wf a' ∧ next_word a' = next_word a ∧
    ∀ g, bit_free (used a') g = if bool_decide (g = f) then negb v else bit_free (used a) g.
Proof.
  intros Ha Hf. pose proof (frame_word f Hf) as Hw. rewrite <- (wf_len a Ha) in Hw.
  destruct (vget_in _ _ Hw) as [w Hg].
  assert (fits 64 w) as Hfw by (eapply Forall_vget; [apply (wf_u64 a Ha)|done]).
  pose proof (Z.mod_pos_bound f 64 ltac:(lia)) as Hb.
  unfold set_used, bit_index. rewrite (index_vget _ _ _ Hg). simpl.
  eexists. split; [done|]. split; [constructor; simpl|split; [done|]].
  - by rewrite vlen_vset, (wf_len a Ha).
  - apply Forall_vset; [apply (wf_u64 a Ha)|]. destruct v; [by apply fits_set|].
    apply fits_clear; [done|]. apply Z.lxor_nonneg. split; intros; [|done].
    apply Z.shiftl_nonneg; lia.
  - apply (wf_next a Ha).
  - intros g. simpl. pose proof (Z.mod_pos_bound g 64 ltac:(lia)) as Hgb.
    unfold bit_free. destruct (decide (f `div` 64 = g `div` 64)) as [He|Hne].
    + rewrite <- He, vget_vset_eq, Hg by done.
      destruct v; [rewrite testbit_set by lia|rewrite testbit_clear by (done || lia)];
        repeat case_bool_decide; subst; try (exfalso; eauto using frame_split; fail);
        rewrite ?orb_true_r, ?orb_false_r, ?andb_true_r, ?andb_false_r; try done;
        exfalso; eauto using frame_split.
    + rewrite vget_vset_ne by done. rewrite bool_decide_false by congruence. done.
Qed.

(** ** Range marking *)

Lemma frames_for_Some s e lo hi :
  0 ≤ s → frames_for s e = Some (lo, hi) →
  lo = s `div` PAGE_SIZE ∧ 0 ≤ lo < hi ∧ hi ≤ NUM_FRAMES ∧
  hi = Z.min (div_ceil e PAGE_SIZE) NUM_FRAMES.
Proof.
  intros Hs. unfold frames_for. destruct (Z.ltb_spec (s `div` PAGE_SIZE)
    (Z.min (div_ceil e PAGE_SIZE) NUM_FRAMES)); [|done].
  intros [= <- <-]. split_and!; try done; [|lia].
  apply Z.div_pos; [done|]. reflexivity.
Qed.

(** The frames [frames_for] selects: those that overlap the byte range. *)
Definition touches (s e f : Z) : Prop :=
  0 ≤ f < NUM_FRAMES ∧ s `div` PAGE_SIZE ≤ f ∧ f * PAGE_SIZE < e.

#[global] Instance touches_dec s e f : Decision (touches s e f).
Proof. unfold touches; apply _. Defined.

Lemma lt_div_ceil f e : f < div_ceil e PAGE_SIZE ↔ f * PAGE_SIZE < e.
Proof.
  unfold div_ceil, PAGE_SIZE. split; intros H.
  - assert (f + 1 ≤ (e + 4096 - 1) `div` 4096) as H1 by lia.
    apply (Z.mul_le_mono_nonneg_l _ _ 4096) in H1; [|lia].
    pose proof (Z.mul_div_le (e + 4096 - 1) 4096). lia.
  - apply Z.lt_le_trans with (f + 1); [lia|]. apply Z.div_le_lower_bound; lia.
Qed.

Lemma mark_range_spec v s e a : wf a → 0 ≤ s →
  ∃ a', mark_range v s e a = Ret a' ∧ wf a' ∧ next_word a' = next_word a ∧
    ∀ g, bit_free (used a') g =
      if bool_decide (touches s e g) then negb v else bit_free (used a) g.
Proof.
  intros Ha Hs. unfold mark_range. destruct (frames_for s e) as [[lo hi]|] eqn:Hr.
  - destruct (frames_for_Some _ _ _ _ Hs Hr) as (-> & Hlo & Hhi & ->).
    set (lo := s `div` PAGE_SIZE) in *.
    set (hi := Z.min (div_ceil e PAGE_SIZE) NUM_FRAMES) in *.
    destruct (for_each_inv (λ pre a', wf a' ∧ next_word a' = next_word a ∧
      ∀ g, bit_free (used a') g =
        if bool_decide (g ∈ pre) then negb v else bit_free (used a) g)
      (λ f a, set_used f v a) (seqZ lo (hi - lo)) a) as (a' & -> & Hw & Hn & Hb).
    + split_and!; [done..|]. intros g. by rewrite bool_decide_false by (apply not_elem_of_nil).
    + intros pre x a1 Hx%elem_of_seqZ (Hw & Hn & Hb).
      destruct (set_used_spec a1 x v Hw) as (a2 & -> & Hw2 & Hn2 & Hb2); [lia|].
      exists a2. split_and!; [done..|congruence|]. intros g. rewrite Hb2, Hb.
      assert (g ∈ pre ++ [x] ↔ g ∈ pre ∨ g = x) as Hin
        by (rewrite elem_of_app; by rewrite list_elem_of_singleton).
      repeat case_bool_decide; tauto.
    + exists a'. split_and!; [done..|]. intros g. rewrite Hb. simpl.
      apply (f_equal (λ b : bool, if b then negb v else bit_free (used a) g)).
      apply bool_decide_ext. rewrite elem_of_seqZ. unfold touches. fold lo.
      rewrite <- lt_div_ceil. lia.
  - exists a. split_and!; [done..|]. intros g. rewrite bool_decide_false; [done|].
    intros (Hg & Hlo & Hhi). rewrite <- lt_div_ceil in Hhi. revert Hr. unfold frames_for.
    destruct (Z.ltb_spec (s `div` PAGE_SIZE) (Z.min (div_ceil e PAGE_SIZE) NUM_FRAMES));
      [done|lia].
Qed.

(** ** Allocation *)

Definition scan_key (a : BitmapFrameAllocator) (f : Z) : Z :=
  ((f `div` 64 - next_word a) `mod` WORDS) * 64 + f `mod` 64.

(** What one allocation does: frame [f] was free, it is the first free frame in
    scan order, only its bit changes. *)
Definition allocated (a : BitmapFrameAllocator) (f : Z) (a' : BitmapFrameAllocator) : Prop :=
  wf a' ∧ f ∈ free_frames a ∧ next_word a' = f `div` 64 ∧
  (∀ g, bit_free (used a') g = if bool_decide (g = f) then false else bit_free (used a) g).

Lemma scan_word_spec idx a : wf a → 0 ≤ idx < WORDS →
  (scan_word idx a = Ret (Next tt) ∧
     ∀ g, g `div` 64 = idx → bit_free (used a) g = false) ∨
  (∃ r, scan_word idx a = Ret (Return r) ∧ ∃ f a',
     r = (Some (f * PAGE_SIZE), a') ∧ allocated a f a' ∧ f `div` 64 = idx ∧
     ∀ g, g `div` 64 = idx → bit_free (used a) g = true → f `mod` 64 ≤ g `mod` 64).
Proof.
  intros Ha Hidx. unfold scan_word.
  assert (∀ b, 0 ≤ b < 64 → (idx * 64 + b) `div` 64 = idx ∧ (idx * 64 + b) `mod` 64 = b
    ∧ 0 ≤ idx * 64 + b < NUM_FRAMES) as Hfr.
  { intros b Hb. rewrite NUM_FRAMES_WORDS. rewrite Z.add_comm, Z.div_add, Z.mod_add by lia.
    rewrite Z.div_small, Z.mod_small by lia. lia. }
  match goal with |- context [for_until _ ?body tt] =>
  destruct (for_until_next (λ pre _, ∀ g, g `div` 64 = idx → g `mod` 64 ∈ pre →
      bit_free (used a) g = false) body
    (λ r, ∃ f a', r = (Some (f * PAGE_SIZE), a') ∧ allocated a f a' ∧ f `div` 64 = idx ∧
     ∀ g, g `div` 64 = idx → bit_free (used a) g = true → f `mod` 64 ≤ g `mod` 64)
    (seqZ 0 64) [] tt) as [([] & Hf & HI)|Hret] end; [| |left|right; exact Hret].
  - intros g _ H. by apply not_elem_of_nil in H.
  - intros pre b [] suf [Hb Hpre]%seqZ_split HI. destruct (Hfr b Hb) as (Hd & Hm & Hn).
    destruct (Z.leb_spec NUM_FRAMES (idx * 64 + b)); [lia|].
    rewrite frame_used_spec by done. simpl.
    destruct (bit_free (used a) (idx * 64 + b)) eqn:Hfree; simpl.
    + right. destruct (set_used_spec a (idx * 64 + b) true Ha Hn) as (a' & -> & Hw & Hnx & Hb').
      simpl. eexists. split; [done|]. exists (idx * 64 + b), (mkAlloc (used a') idx).
      split_and!; [done| |done|].
      * split_and!; simpl; [destruct Hw; by constructor| |by rewrite Hd|done].
        apply elem_of_free_frames. done.
      * intros g Hg Hgf. rewrite Hm. apply Z.nlt_ge. intros Hlt.
        rewrite (HI g Hg) in Hgf; [done|]. apply Hpre.
        pose proof (Z.mod_pos_bound g 64). lia.
    + left. exists tt. split; [done|]. intros g Hg.
      rewrite elem_of_app, list_elem_of_singleton. intros [?|Hgb]; [by apply HI|].
      assert (g = idx * 64 + b) as -> by (apply frame_split; congruence). done.
  - split; [done|]. intros g Hg. apply HI; [done|]. simpl. apply elem_of_seqZ.
    pose proof (Z.mod_pos_bound g 64). lia.
Qed.

Lemma full_word_not_free ws i g :
  vget ws i = Some U64_MAX → g `div` 64 = i → bit_free ws g = false.
Proof.
  intros Hg <-. unfold bit_free. rewrite Hg, U64_MAX_ones.
  pose proof (Z.mod_pos_bound g 64 ltac:(lia)).
  by rewrite Z.ones_spec_low by lia.
Qed.

(** The word a scan index names, and back. *)
Lemma scan_index a k w : wf a → 0 ≤ k < WORDS → 0 ≤ w < WORDS →
  (next_word a + k) `mod` WORDS = w ↔ k = (w - next_word a) `mod` WORDS.
Proof.
  intros Ha Hk Hw. pose proof WORDS_pos. split.
  - intros <-. rewrite Zminus_mod_idemp_l, Z.add_simpl_l. by rewrite Z.mod_small.
  - intros ->. rewrite Zplus_mod_idemp_r. replace (next_word a + (w - next_word a)) with w by lia.
    by apply Z.mod_small.
Qed.

Lemma alloc_frame_spec a : wf a →
  (alloc_frame a = Ret (None, a) ∧ ∀ g, 0 ≤ g < NUM_FRAMES → bit_free (used a) g = false) ∨
  (∃ f a', alloc_frame a = Ret (Some (f * PAGE_SIZE), a') ∧ allocated a f a' ∧
     ∀ g, g ∈ free_frames a → scan_key a f ≤ scan_key a g).
Proof.
  intros Ha. pose proof WORDS_pos. unfold alloc_frame.
  match goal with |- context [for_until _ ?body tt] =>
  destruct (for_until_next
    (λ pre _, ∀ g, 0 ≤ g < NUM_FRAMES →
       (g `div` 64 - next_word a) `mod` WORDS ∈ pre → bit_free (used a) g = false) body
    (λ r, ∃ f a', r = (Some (f * PAGE_SIZE), a') ∧ allocated a f a' ∧
       ∀ g, g ∈ free_frames a → scan_key a f ≤ scan_key a g)
    (seqZ 0 WORDS) [] tt) as [([] & -> & HI)|(r & -> & f & a' & -> & ?)] end;
    [| |left|right; by eauto].
  - intros g _ H1. by apply not_elem_of_nil in H1.
  - intros pre k [] suf [Hk Hpre]%seqZ_split HI.
    set (idx := (next_word a + k) `mod` WORDS).
    assert (0 ≤ idx < WORDS) as Hidx by (apply Z.mod_pos_bound; lia).
    destruct (vget_in (used a) idx) as [w Hw]; [by rewrite (wf_len a Ha)|].
    rewrite (index_vget _ _ _ Hw). simpl.
    assert (∀ g, 0 ≤ g < NUM_FRAMES → (g `div` 64 - next_word a) `mod` WORDS ∈ pre ++ [k] →
      (g `div` 64 - next_word a) `mod` WORDS ∈ pre ∨ g `div` 64 = idx) as Hsnoc.
    { intros g Hg. rewrite elem_of_app, list_elem_of_singleton. intros [?|He]; [by left|right].
      symmetry. apply scan_index; auto using frame_word. }
    case_bool_decide as Hmax; [subst w|].
    + left. exists tt. split; [done|]. intros g Hg Hin.
      destruct (Hsnoc g Hg Hin) as [?|Hi]; [by apply HI|by eapply full_word_not_free].
    + destruct (scan_word_spec idx a Ha Hidx) as [[-> Hno]|(r & -> & f & a' & -> & Hal & Hfi & Hmin)].
      * left. exists tt. split; [done|]. intros g Hg Hin.
        destruct (Hsnoc g Hg Hin) as [?|Hi]; [by apply HI|by apply Hno].
      * right. eexists. split; [done|]. exists f, a'. split_and!; [done..|].
        intros g [Hg Hgf]%elem_of_free_frames. unfold scan_key.
        assert ((f `div` 64 - next_word a) `mod` WORDS = k) as ->.
        { symmetry. apply scan_index; [done|lia| |by rewrite Hfi].
          apply frame_word, (elem_of_free_frames a f), Hal. }
        pose proof (Z.mod_pos_bound f 64 ltac:(lia)). pose proof (Z.mod_pos_bound g 64 ltac:(lia)).
        pose proof (Z.mod_pos_bound (g `div` 64 - next_word a) WORDS ltac:(lia)).
        destruct (Z.lt_trichotomy ((g `div` 64 - next_word a) `mod` WORDS) k) as [Hlt|[Heq|?]];
          [|rewrite Heq|lia].
        -- rewrite HI in Hgf; [done..|]. apply Hpre. lia.
        -- enough (f `mod` 64 ≤ g `mod` 64) by lia. apply Hmin; [|done].
           symmetry in Heq. apply scan_index in Heq; [done|done|lia|by apply frame_word].
  - split; [done|]. intros g Hg. apply HI; [done|]. apply elem_of_seqZ.
    pose proof (Z.mod_pos_bound (g `div` 64 - next_word a) WORDS ltac:(lia)). lia.
Qed.

Lemma free_frame_spec addr a : wf a → 0 ≤ addr →
  ∃ a', free_frame addr a = Ret a' ∧ wf a' ∧ next_word a' = next_word a ∧
    ∀ g, 0 ≤ g < NUM_FRAMES →
      bit_free (used a') g =
        if bool_decide (g = addr `div` PAGE_SIZE) then true else bit_free (used a) g.
Proof.
  intros Ha Hp. unfold free_frame. assert (0 ≤ addr `div` PAGE_SIZE) by (apply Z.div_pos; done).
  destruct (Z.ltb_spec (addr `div` PAGE_SIZE) NUM_FRAMES).
  - destruct (set_used_spec a (addr `div` PAGE_SIZE) false Ha) as (a' & -> & ? & ? & Hb); [lia|].
    exists a'. split_and!; eauto.
  - exists a. split_and!; [done..|]. intros g Hg. by rewrite bool_decide_false by lia.
Qed.

(** ** Counting *)

(** A word contributes its clear bits. *)
Lemma free_list_last ws w :
  vlen (free_list (ws ++ [w]) (64 * vlen ws) 64) = 64 - count_ones w.
Proof.
  unfold free_list. replace (64 * vlen ws) with (64 * vlen ws + 0) by lia.
  rewrite <- fmap_add_seqZ, vlen_filter_fmap.
  rewrite (vlen_filter_ext _ (λ i, ¬ Z.testbit w i = true)).
  - pose proof (vlen_filter_compl (λ i, Z.testbit w i = true) (seqZ 0 64)) as Hc.
    unfold count_ones. unfold vlen at 3 in Hc. rewrite length_seqZ in Hc. lia.
  - intros i Hi%elem_of_seqZ. unfold bit_free.
    rewrite (Z.mul_comm 64), Z.add_comm, Z.div_add, Z.mod_add, Z.div_small, Z.mod_small by lia.
    rewrite Z.add_0_l, vget_snoc. by destruct (Z.testbit w i).
Qed.

Lemma free_list_app ws w n : 0 ≤ n ≤ 64 * vlen ws →
  free_list (ws ++ [w]) 0 n = free_list ws 0 n.
Proof.
  intros Hn. unfold free_list. apply list_filter_iff'. intros f Hf%elem_of_seqZ.
  unfold bit_free. rewrite vget_app_l; [done|]. apply Z.div_lt_upper_bound; lia.
Qed.

Lemma count_free ws :
  vlen (free_list ws 0 (64 * vlen ws)) =
    64 * vlen ws - foldl (λ n w, n + count_ones w) 0 ws.
Proof.
  induction ws as [|w ws IH] using rev_ind; [done|].
  rewrite foldl_app, vlen_app. simpl. change (vlen [w]) with 1.
  unfold free_list in *. rewrite Z.mul_add_distr_l, seqZ_app by (unfold vlen; lia).
  rewrite filter_app, vlen_app. fold (free_list (ws ++ [w]) 0 (64 * vlen ws)).
  rewrite free_list_app by (unfold vlen; lia). rewrite Z.add_0_l.
  fold (free_list (ws ++ [w]) (64 * vlen ws) (64 * 1)).
  rewrite free_list_last. unfold free_list. lia.
Qed.

Lemma size_free_list ws n :
  Z.of_nat (size (list_to_set (free_list ws 0 n) : gset Z)) = vlen (free_list ws 0 n).
Proof.
  rewrite size_list_to_set; [done|]. apply NoDup_filter, NoDup_seqZ.
Qed.

Lemma free_count_size a : wf a → free_count a = Z.of_nat (size (free_frames a)).
Proof.
  intros Ha. unfold free_count, free_frames.
  rewrite size_free_list, NUM_FRAMES_WORDS, <- (wf_len a Ha). symmetry. apply count_free.
Qed.

(** ** Properties *)

Lemma allocated_free a f a' : allocated a f a' → free_frames a' = free_frames a ∖ {[f]}.
Proof.
  intros (_ & Hf & _ & Hb). apply set_eq. intros g.
  rewrite elem_of_difference, elem_of_singleton, !elem_of_free_frames, Hb.
  case_bool_decide; intuition congruence.
Qed.

Lemma no_free_empty a :
  (∀ g, 0 ≤ g < NUM_FRAMES → bit_free (used a) g = false) → free_frames a = ∅.
Proof.
  intros Hn. apply set_eq. intros g. rewrite elem_of_free_frames.
  split; [|by intros ?%not_elem_of_empty]. intros [Hg Hb]. rewrite Hn in Hb; done.
Qed.

(** C16. [alloc_frame] refines the abstract allocator, the set of free frames: it
    never panics; it returns a free frame, the first one in the circular scan
    that starts at the hint word, and removes exactly that frame from the set;
    it returns [None], and changes nothing, only when no frame is free. *)
Theorem alloc_frame_refines a : wf a →
  match alloc_frame a with
  | Ret (Some addr, a') => ∃ f,
      addr = f * PAGE_SIZE ∧ f ∈ free_frames a ∧
      free_frames a' = free_frames a ∖ {[f]} ∧ wf a' ∧
      (∀ g, g ∈ free_frames a → scan_key a f ≤ scan_key a g)
  | Ret (None, a') => free_frames a = ∅ ∧ a' = a
  | Panic _ => False
  end.
Proof.
  intros Ha. destruct (alloc_frame_spec a Ha) as [[-> Hn]|(f & a' & -> & Hal & Hmin)].
  - split; [by apply no_free_empty|done].
  - exists f. split_and!; [done|apply Hal|by apply allocated_free|apply Hal|done].
Qed.

Lemma wf_new : wf new.
Proof. constructor; [by vm_compute|by apply Forall_replicate|done]. Qed.

Lemma bit_free_new f : bit_free (used new) f = false.
Proof.
  destruct (vget (used new) (f `div` 64)) as [w|] eqn:E; [|unfold bit_free; by rewrite E].
  assert (w = U64_MAX) as ->.
  { apply vget_elem_of in E. by apply elem_of_replicate_inv in E. }
  by eapply full_word_not_free.
Qed.

(** A sample state: frames 1 and 2 free, everything else used. *)
Definition sample : BitmapFrameAllocator :=
  {| used := (U64_MAX - 6) :: replicate (Z.to_nat WORDS - 1) U64_MAX; next_word := 5 |}.

Lemma wf_sample : wf sample.
Proof. constructor; [by vm_compute| |done]. apply Forall_cons. split; [done|]. by apply Forall_replicate. Qed.

Lemma sample_alloc : ∃ a', alloc_frame sample = Ret (Some 4096, a').
Proof.
  assert (match alloc_frame sample with Ret (Some p, _) => p =? 4096 | _ => false end = true) as H
    by (vm_compute; reflexivity).
  destruct (alloc_frame sample) as [[[p|] a']|]; [|discriminate..].
  apply Z.eqb_eq in H. rewrite H. exists a'. exact eq_refl.
Qed.

Lemma alloc_frame_refines_witness :
  wf sample ∧ ∃ f a', alloc_frame sample = Ret (Some (f * PAGE_SIZE), a') ∧
    f ∈ free_frames sample.
Proof.
  split; [exact wf_sample|]. pose proof (alloc_frame_refines sample wf_sample) as H.
  destruct sample_alloc as [a' E]. rewrite E in H |- *. destruct H as (f & Hp & Hf & _).
  exists f, a'. split; [by rewrite Hp|exact Hf].
Defined.

(** Marking a byte range free makes free exactly the frames the range
    overlaps (its partial first and last frames included, clamped to the bitmap)
    and no other; marking it used removes exactly those. Neither panics. *)
Theorem mark_range_refines v s e a : wf a → 0 ≤ s →
  ∃ a', mark_range v s e a = Ret a' ∧ wf a' ∧
    ∀ f, f ∈ free_frames a' ↔
      if v then f ∈ free_frames a ∧ ¬ touches s e f
      else f ∈ free_frames a ∨ touches s e f.
Proof.
  intros Ha Hs. destruct (mark_range_spec v s e a Ha Hs) as (a' & -> & Hw & _ & Hb).
  exists a'. split_and!; [done..|]. intros f. destruct v;
  rewrite !elem_of_free_frames, Hb; case_bool_decide as Ht; simpl; try tauto;
    unfold touches in *; intuition congruence.
Qed.

Lemma mark_range_refines_witness :
  wf new ∧ 0 ≤ 4096 ∧ ∃ a', mark_range false 4096 12289 new = Ret a' ∧
    3 ∈ free_frames a' ∧ 0 ∉ free_frames a'.
Proof.
  pose proof wf_new as Hn.
  split; [exact Hn|split; [lia|]].
  destruct (mark_range_refines false 4096 12289 new Hn ltac:(lia)) as (a' & E & _ & H).
  exists a'. split; [exact E|]. split; [apply H; right; vm_compute; intuition congruence|].
  rewrite H. intros [[_ Hc]%elem_of_free_frames|(_ & Hc & _)]; [by vm_compute in Hc|by vm_compute in Hc].
Defined.

(** ** The allocator interface

    What the memory components that take frames rely on: the contract of the
    [FrameAllocator]/[FrameDeallocator] traits, as laws over an abstract set of
    free frame addresses. *)

Class FrameAlloc (S : Type) := {
  fa_alloc : S → outcome (option Z * S);
  fa_dealloc : Z → S → outcome S;
  fa_wf : S → Prop;
  fa_free : S → gset Z;
  fa_alloc_law s : fa_wf s →
    (∃ p s', fa_alloc s = Ret (Some p, s') ∧ fa_wf s' ∧ p ∈ fa_free s ∧
       fa_free s' = fa_free s ∖ {[p]}) ∨
    (fa_alloc s = Ret (None, s) ∧ fa_free s = ∅);
  fa_range s p : p ∈ fa_free s → ∃ f, 0 ≤ f < 2 ^ 18 ∧ p = f * 4096;
  fa_dealloc_law s p f : fa_wf s → 0 ≤ f < 2 ^ 18 → p = f * 4096 →
    ∃ s', fa_dealloc p s = Ret s' ∧ fa_wf s' ∧ fa_free s' = {[p]} ∪ fa_free s;
}.

Definition frame_addr (f : Z) : Z := f * PAGE_SIZE.

#[global] Instance frame_addr_inj : Inj (=) (=) frame_addr.
Proof. intros f g. unfold frame_addr, PAGE_SIZE. lia. Qed.

(** The set of free frames by address. *)
Definition free_addrs (a : BitmapFrameAllocator) : gset Z := set_map frame_addr (free_frames a).

(** Conversion must not enumerate the bitmap. *)
Strategy 1000 [NUM_FRAMES WORDS free_list free_frames free_addrs].

Lemma elem_of_free_addrs a p :
  p ∈ free_addrs a ↔ ∃ f, p = frame_addr f ∧ f ∈ free_frames a.
Proof. unfold free_addrs. rewrite elem_of_map. naive_solver. Qed.

Lemma frame_addr_div f : frame_addr f `div` PAGE_SIZE = f.
Proof. unfold frame_addr. apply Z.div_mul. done. Qed.

Lemma free_frame_free a f : wf a → 0 ≤ f < NUM_FRAMES →
  ∃ a', free_frame (frame_addr f) a = Ret a' ∧ wf a' ∧
    free_frames a' = {[f]} ∪ free_frames a.
Proof.
  intros Ha Hf. destruct (free_frame_spec (frame_addr f) a Ha) as (a' & E & Hw & _ & Hb).
  { unfold frame_addr, PAGE_SIZE. lia. }
  exists a'. split_and!; [done..|]. apply set_eq. intros g.
  rewrite elem_of_union, elem_of_singleton, !elem_of_free_frames. rewrite frame_addr_div in Hb.
  split; intros Hg.
  - destruct Hg as [Hg Hbg]. rewrite Hb in Hbg by done. case_bool_decide; tauto.
  - assert (0 ≤ g < NUM_FRAMES) as Hgr by (destruct Hg; [congruence|tauto]).
    split; [done|]. rewrite Hb by done. case_bool_decide; [done|tauto].
Qed.

Lemma pmm_alloc_law a : wf a →
  (∃ p a', alloc_frame a = Ret (Some p, a') ∧ wf a' ∧ p ∈ free_addrs a ∧
     free_addrs a' = free_addrs a ∖ {[p]}) ∨
  (alloc_frame a = Ret (None, a) ∧ free_addrs a = ∅).
Proof.
  intros Ha. destruct (alloc_frame_spec a Ha) as [[E Hn]|(f & a' & E & Hal & _)].
  - right. split; [done|]. unfold free_addrs. rewrite (no_free_empty a Hn).
    apply set_map_empty.
  - left. exists (frame_addr f), a'. split_and!; [done|apply Hal| |].
    + apply elem_of_free_addrs. exists f. split; [done|apply Hal].
    + unfold free_addrs. rewrite (allocated_free _ _ _ Hal). apply set_eq. intros p.
      rewrite elem_of_difference, elem_of_singleton, !elem_of_map.
      setoid_rewrite elem_of_difference. setoid_rewrite elem_of_singleton.
      split; [intros (g & -> & Hg & Hne)|intros ((g & -> & Hg) & Hne)].
      * split; [by eauto|]. intros ?%(inj frame_addr). done.
      * exists g. split_and!; [done..|]. by intros ->.
Qed.

Lemma pmm_range a p : p ∈ free_addrs a → ∃ f, 0 ≤ f < 2 ^ 18 ∧ p = f * 4096.
Proof.
  intros (f & -> & [Hf _]%elem_of_free_frames)%elem_of_free_addrs. by exists f.
Qed.

Lemma pmm_dealloc_law a p f : wf a → 0 ≤ f < 2 ^ 18 → p = f * 4096 →
  ∃ a', free_frame p a = Ret a' ∧ wf a' ∧ free_addrs a' = {[p]} ∪ free_addrs a.
Proof.
  intros Ha Hf ->. destruct (free_frame_free a f Ha Hf) as (a' & E & Hw & Hfr).
  exists a'. split_and!; [done..|]. unfold free_addrs. rewrite Hfr, set_map_union_L.
  by rewrite set_map_singleton_L.
Qed.

#[global] Instance pmm_FrameAlloc : FrameAlloc BitmapFrameAllocator := {|
  fa_alloc := allocate_frame;
  fa_dealloc := deallocate_frame;
  fa_wf := wf;
  fa_free := free_addrs;
  fa_alloc_law := pmm_alloc_law;
  fa_range := pmm_range;
  fa_dealloc_law := pmm_dealloc_law;
|}.

Lemma size_free_addrs a : wf a → Z.of_nat (size (free_addrs a)) = free_count a.
Proof.
  intros Ha. rewrite (free_count_size a Ha). unfold free_addrs. f_equal.
  apply (size_set_map_inj frame_addr).
Qed.

(** ** Clients of the interface *)

Section clients.
Context {St : Type} `{FrameAlloc St}.
Implicit Types (s : St) (held : gset Z).

(** A client run: [held] is what it was handed and has not given back. It only
    gives back what it holds, the safety contract of [deallocate_frame]. *)
Inductive own_step : St * gset Z → St * gset Z → Prop :=
  | own_alloc s s' p held :
      fa_alloc s = Ret (Some p, s') → own_step (s, held) (s', {[p]} ∪ held)
  | own_dealloc s s' p held :
      p ∈ held → fa_dealloc p s = Ret s' → own_step (s, held) (s', held ∖ {[p]}).

(** The invariant of a run that started with the free set [F]. *)
Definition own_inv (F : gset Z) (c : St * gset Z) : Prop :=
  fa_wf c.1 ∧ c.2 ## fa_free c.1 ∧ c.2 ∪ fa_free c.1 = F ∧
  ∀ p, p ∈ F → ∃ f, 0 ≤ f < 2 ^ 18 ∧ p = f * 4096.

Lemma own_inv_step F c c' : own_inv F c → own_step c c' → own_inv F c'.
Proof.
  intros (Hw & Hd & HF & Hr) Hs. destruct Hs as [s s' p held E|s s' p held Hp E]; simpl in *.
  - destruct (fa_alloc_law s Hw) as [(p' & s1 & E' & Hw' & Hin & Hfree)|[E' _]];
      rewrite E' in E; simplify_eq. unfold own_inv. simpl. rewrite Hfree.
    split_and!; [done|set_solver| |done].
    apply set_eq. intros q. rewrite !elem_of_union, elem_of_difference, elem_of_singleton.
    destruct (decide (q = p)) as [->|]; tauto.
  - destruct (Hr p) as (f & Hf & Hpf); [set_solver|].
    destruct (fa_dealloc_law s p f Hw Hf Hpf) as (s1 & E' & Hw' & Hfree).
    rewrite E' in E. simplify_eq. unfold own_inv. simpl. rewrite Hfree.
    split_and!; [done|set_solver| |done].
    apply set_eq. intros q. rewrite !elem_of_union, elem_of_difference, elem_of_singleton.
    destruct (decide (q = f * 4096)) as [->|]; tauto.
Qed.

Lemma own_inv_rtc s c : fa_wf s → rtc own_step (s, ∅) c → own_inv (fa_free s) c.
Proof.
  intros Hw. assert (own_inv (fa_free s) (s, ∅)) as Hinit.
  { split_and!; simpl; [done|set_solver|set_solver|intros p Hp; by eapply fa_range]. }
  revert Hinit. generalize (s, (∅ : gset Z)). intros c0 HI Hrtc.
  induction Hrtc; eauto using own_inv_step.
Qed.

Lemma own_inv_alloc F s held p s' :
  own_inv F (s, held) → fa_alloc s = Ret (Some p, s') → (p ∉ held) ∧ p ∈ F.
Proof.
  intros (Hw & Hd & HF & _) E. simpl in *.
  destruct (fa_alloc_law s Hw) as [(p' & s1 & E' & _ & Hin & _)|[E' _]];
    rewrite E' in E; simplify_eq. set_solver.
Qed.

(** [(0..n).map(|_| alloc.allocate_frame()).collect::<Option<Vec<_>>>()] *)
Fixpoint alloc_n (n : nat) (s : St) : outcome (option (list Z) * St) :=
  match n with
  | O => Ret (Some [], s)
  | S n' =>
      r ← fa_alloc s;
      match r with
      | (None, s') => Ret (None, s')
      | (Some p, s') =>
          r' ← alloc_n n' s';
          Ret (option_map (cons p) (fst r'), snd r')
      end
  end.

Definition dealloc_all (ps : list Z) (s : St) : outcome St := for_each ps fa_dealloc s.

Lemma alloc_n_spec n s : fa_wf s → (n ≤ size (fa_free s))%nat →
  ∃ ps s', alloc_n n s = Ret (Some ps, s') ∧ fa_wf s' ∧ NoDup ps ∧ length ps = n ∧
    list_to_set ps ⊆ fa_free s ∧ fa_free s' = fa_free s ∖ list_to_set ps.
Proof.
  revert s. induction n as [|n IH]; intros s Hw Hn; simpl.
  - exists [], s. split_and!; [done..|by constructor|done|set_solver|set_solver].
  - destruct (fa_alloc_law s Hw) as [(p & s1 & -> & Hw1 & Hin & Hfree)|[_ He]].
    2: { rewrite He, size_empty in Hn. lia. }
    simpl. destruct (IH s1 Hw1) as (ps & s2 & -> & Hw2 & Hnd & Hlen & Hsub & Hf2).
    { rewrite Hfree, size_difference, size_singleton by set_solver. lia. }
    simpl. exists (p :: ps), s2. rewrite Hfree in *. split_and!; [done..| | | |].
    + constructor; [|done]. intros Hp. apply (elem_of_list_to_set (C := gset Z)) in Hp. set_solver.
    + simpl. lia.
    + set_solver.
    + rewrite Hf2. set_solver.
Qed.

Lemma dealloc_all_spec ps s : fa_wf s →
  (∀ p, p ∈ ps → ∃ f, 0 ≤ f < 2 ^ 18 ∧ p = f * 4096) →
  ∃ s', dealloc_all ps s = Ret s' ∧ fa_wf s' ∧ fa_free s' = list_to_set ps ∪ fa_free s.
Proof.
  intros Hw Hr. destruct (for_each_inv (λ pre s', fa_wf s' ∧
    fa_free s' = list_to_set pre ∪ fa_free s) fa_dealloc ps s) as (s' & E & Hw' & Hf).
  - split; [done|set_solver].
  - intros pre p s1 Hp (Hw1 & Hf1). destruct (Hr p Hp) as (f & Hf & Hpf).
    destruct (fa_dealloc_law s1 p f Hw1 Hf Hpf) as (s2 & -> & Hw2 & Hf2).
    exists s2. split_and!; [done..|]. rewrite Hf2, Hf1. set_solver.
  - exists s'. by split_and!.
Qed.
End clients.

(** C28. No frame is ever handed out twice: in any run that allocates frames and
    gives back only frames it holds, what the client holds and what the
    allocator has free stay disjoint and together make up exactly the frames
    that were free at the start, so the next frame allocated is one the client
    does not hold. *)
Theorem frames_never_shared a a' held : wf a →
  rtc own_step (a, ∅) (a', held) →
  held ## free_addrs a' ∧ held ∪ free_addrs a' = free_addrs a ∧
  ∀ p a'', allocate_frame a' = Ret (Some p, a'') → p ∉ held.
Proof.
  intros Hw Hrun. pose proof (own_inv_rtc a (a', held) Hw Hrun) as HI.
  pose proof HI as (_ & Hd & HF & _). split; [exact Hd|split; [exact HF|]].
  intros p a'' E. exact (proj1 (own_inv_alloc _ _ _ _ _ HI E)).
Qed.

Lemma frames_never_shared_witness :
  wf sample ∧ ∃ a', rtc own_step (sample, ∅) (a', {[4096]} ∪ ∅) ∧ {[4096]} ∪ ∅ ## free_addrs a'.
Proof.
  split; [exact wf_sample|].
  destruct sample_alloc as [a' E].
  assert (rtc own_step (sample, ∅) (a', {[4096]} ∪ ∅)) as Hrun.
  { apply rtc_once, own_alloc. exact E. }
  exists a'. split; [exact Hrun|]. apply (frames_never_shared sample a' _ wf_sample Hrun).
Defined.
