(* ===== verification/Memory.v ===== *)
(** * Memory: virtual memory, kernel heap and memory bring-up
    (kernel/src/memory/{vmm,heap,mod}.rs, the frame half of
    [memory_self_test] in main.rs)

    The page tables are walked by the [x86_64] crate ([OffsetPageTable]): they
    are a parameter, the class [Mapper], with its documented behaviour as the
    laws of [MapperOk]. The frame allocator is used through [FrameAlloc]. *)

From S2P Require Import Prelude Pmm.

(** The page-table flags the kernel sets. *)
Record PageTableFlags := mkFlags {
  PRESENT : bool;
  WRITABLE : bool;
  USER_ACCESSIBLE : bool;
  NO_CACHE : bool;
  NO_EXECUTE : bool;
}.

(** [VirtAddr::new] of the [x86_64] crate: canonical addresses are kept as they are, others panic. *)
Class VirtAddrNew := {
  vaddr_new : Z → outcome Z;
  vaddr_new_ok a : 0 ≤ a < 2 ^ 47 ∨ 2 ^ 64 - 2 ^ 47 ≤ a < 2 ^ 64 → vaddr_new a = Ret a;
}.

(** [Mapper::map_to] and [Translate::translate_addr] of the [x86_64] crate over
    the page-table memory [PT]; a page and a frame are their start addresses.
    [map_to] answers whether it succeeded and may take frames for tables. *)
Class Mapper (St PT : Type) := {
  map_to : Z → Z → PageTableFlags → PT → St → bool * PT * St;
  translate_addr : PT → Z → option Z;
}.

Definition in_page (page v : Z) : Prop := page ≤ v < page + 4096.

Class MapperOk (St PT : Type) `{FrameAlloc St} `{Mapper St PT} := {
  (** On success the page translates to the frame, other pages are as before,
      and at most three frames went to tables. *)
  map_to_ok page frame fl pt s pt' s' : fa_wf s → page `mod` 4096 = 0 →
    map_to page frame fl pt s = (true, pt', s') →
    (∀ v, in_page page v → translate_addr pt' v = Some (frame + (v - page))) ∧
    (∀ v, ¬ in_page page v → translate_addr pt' v = translate_addr pt v) ∧
    fa_wf s' ∧ fa_free s' ⊆ fa_free s ∧ (size (fa_free s) ≤ size (fa_free s') + 3)%nat;
  (** It fails only when the page is mapped already or frames run out. *)
  map_to_total page frame fl pt s : fa_wf s → page `mod` 4096 = 0 →
    translate_addr pt page = None → (3 ≤ size (fa_free s))%nat →
    (map_to page frame fl pt s).1.1 = true;
}.

Section memory.
Context {St PT : Type} `{FrameAlloc St} `{Mapper St PT}.

(** The statics of the memory subsystem: FRAME_ALLOCATOR, the tables reached
    from CR3, [READY]/[PHYS_OFFSET], and the region handed to ALLOCATOR. *)
Record Mem := mkMem {
  falloc : St;
  tables : PT;
  phys_off : option Z;
  heap_region : option (Z * Z);
}.

Definition set_falloc (s : St) (m : Mem) : Mem :=
  mkMem s (tables m) (phys_off m) (heap_region m).
Definition set_tables (t : PT) (m : Mem) : Mem :=
  mkMem (falloc m) t (phys_off m) (heap_region m).

(** *** vmm.rs *)

Inductive MapError := MapFailed | OutOfFrames.

Definition set_phys_offset (off : Z) (m : Mem) : Mem :=
  mkMem (falloc m) (tables m) (Some off) (heap_region m).

Definition phys_offset (m : Mem) : option Z := phys_off m.

(** Building a mapper needs the offset; the tables themselves are in memory. *)
Definition active_mapper (m : Mem) : outcome PT :=
  _ ← expect (phys_offset m); Ret (tables m).

Definition map_page (page frame : Z) (fl : PageTableFlags) (m : Mem)
    : outcome ((unit + MapError) * Mem) :=
  t ← active_mapper m;
  let '(ok, t', s') := map_to page frame fl t (falloc m) in
  Ret (if (ok : bool) then inl tt else inr MapFailed, set_falloc s' (set_tables t' m)).

Definition vmm_alloc_frame (m : Mem) : outcome (option Z * Mem) :=
  r ← fa_alloc (falloc m);
  Ret (fst r, set_falloc (snd r) m).

Definition allocate_and_map (page : Z) (fl : PageTableFlags) (m : Mem)
    : outcome ((Z + MapError) * Mem) :=
  r ← vmm_alloc_frame m;
  match r with
  | (None, m1) => Ret (inr OutOfFrames, m1)
  | (Some frame, m1) =>
      r2 ← map_page page frame fl m1;
      match r2 with
      | (inl _, m2) => Ret (inl frame, m2)
      | (inr e, m2) => Ret (inr e, m2)
      end
  end.

Definition translate (v : Z) (m : Mem) : outcome (option Z) :=
  t ← active_mapper m; Ret (translate_addr t v).

Definition kernel_data_flags : PageTableFlags := mkFlags true true false false true.

(** *** heap.rs *)

Definition HEAP_START : Z := 0xffffa00000000000.
Definition HEAP_SIZE : Z := 1024 * 1024.

Definition heap_page (i : Z) : Z := HEAP_START + i * 4096.

Definition map_heap_page (i : Z) (m : Mem) : outcome Mem :=
  r ← allocate_and_map (heap_page i) kernel_data_flags m;
  match r with
  | (inl _, m') => Ret m'
  | (inr _, _) => Panic PUnwrap
  end.

Definition heap_init (m : Mem) : outcome Mem :=
  let page_count := HEAP_SIZE `div` 4096 in
  m' ← for_each (seqZ 0 page_count) map_heap_page m;
  Ret (mkMem (falloc m') (tables m') (phys_off m') (Some (HEAP_START, HEAP_SIZE))).
End memory.

Arguments Mem : clear implicits.
Arguments mkMem {St PT} _ _ _ _.

(** *** memory/mod.rs *)

(** [Usable] is the only kind the kernel tells apart. *)
Inductive MemoryRegionKind := Usable | NotUsable.

Record MemoryRegion := mkRegion {
  start : Z;
  end_ : Z;
  kind : MemoryRegionKind;
}.

Record BootInfo := mkBootInfo {
  physical_memory_offset : option Z;
  kernel_addr : Z;
  kernel_len : Z;
  memory_regions : list MemoryRegion;
}.

Definition is_usable (r : MemoryRegion) : bool :=
  match kind r with Usable => true | NotUsable => false end.

Definition count_usable (rs : list MemoryRegion) : Z :=
  vlen (filter (λ r, is_usable r = true) rs).

Definition mark_region (r : MemoryRegion) (a : pmm.BitmapFrameAllocator)
    : outcome pmm.BitmapFrameAllocator :=
  match kind r with
  | Usable => pmm.mark_free_range (start r) (end_ r) a
  | NotUsable => pmm.mark_used_range (start r) (end_ r) a
  end.

(** Step 2 of [memory::init]: seed the frame allocator. *)
Definition seed_frames `{Profile} (b : BootInfo) (a : pmm.BitmapFrameAllocator)
    : outcome pmm.BitmapFrameAllocator :=
  let kernel_start := kernel_addr b in
  kernel_end ← checked 64 (kernel_start + kernel_len b);
  a1 ← for_each (memory_regions b) mark_region a;
  a2 ← pmm.mark_used_range kernel_start kernel_end a1;
  pmm.mark_used_range 0 pmm.PAGE_SIZE a2.

Definition memory_init `{Profile} `{VirtAddrNew} `{Mapper pmm.BitmapFrameAllocator PT} (b : BootInfo)
    (m : Mem pmm.BitmapFrameAllocator PT) : outcome (Mem pmm.BitmapFrameAllocator PT) :=
  off ← expect (physical_memory_offset b);
  off ← vaddr_new off;
  let m1 := set_phys_offset off m in
  a ← seed_frames b (falloc m1);
  heap_init (set_falloc a m1).

(** *** main.rs, [memory_self_test]: the three counts it prints *)
Definition frame_self_test (n : nat) (a : pmm.BitmapFrameAllocator)
    : outcome (Z * Z * Z * pmm.BitmapFrameAllocator) :=
  let before := pmm.free_count a in
  r ← alloc_n n a;
  frames ← expect (fst r);
  let during := pmm.free_count (snd r) in
  a' ← dealloc_all frames (snd r);
  let after := pmm.free_count a' in
  Ret (before, during, after, a').

(** ** Mapping *)

Section mapping.
Context {St PT : Type} `{MapperOk St PT}.
Implicit Types (m : Mem St PT).

(** A mapping made by [allocate_and_map]: [frame] was free and is not any more,
    [page] translates to it, every other page is untouched. *)
Record mapped_fresh (page frame : Z) (m m' : Mem St PT) : Prop := {
  mf_wf : fa_wf (falloc m');
  mf_off : phys_off m' = phys_off m;
  mf_taken : frame ∈ fa_free (falloc m);
  mf_gone : frame ∉ fa_free (falloc m');
  mf_sub : fa_free (falloc m') ⊆ fa_free (falloc m);
  mf_cost : (size (fa_free (falloc m)) ≤ size (fa_free (falloc m')) + 4)%nat;
  mf_in v : in_page page v → translate_addr (tables m') v = Some (frame + (v - page));
  mf_out v : ¬ in_page page v → translate_addr (tables m') v = translate_addr (tables m) v;
}.

Lemma allocate_and_map_fresh page fl m off :
  fa_wf (falloc m) → phys_off m = Some off → page `mod` 4096 = 0 →
  translate_addr (tables m) page = None → (4 ≤ size (fa_free (falloc m)))%nat →
  ∃ frame m', allocate_and_map page fl m = Ret (inl frame, m') ∧ mapped_fresh page frame m m'.
Proof.
  intros Hw Ho Hpg Hun Hsz. unfold allocate_and_map, vmm_alloc_frame.
  destruct (fa_alloc_law _ Hw) as [(p & s' & -> & Hw' & Hin & Hf)|[_ He]].
  2: { rewrite He, size_empty in Hsz. lia. }
  simpl. unfold map_page, active_mapper, phys_offset. simpl. rewrite Ho. simpl.
  assert (size (fa_free (falloc m)) = S (size (fa_free s'))) as Hs1.
  { rewrite Hf, size_difference, size_singleton by set_solver. lia. }
  destruct (map_to page p fl (tables m) s') as [[ok pt'] s''] eqn:Em.
  pose proof (map_to_total page p fl (tables m) s' Hw' Hpg Hun ltac:(lia)) as Hok.
  rewrite Em in Hok. simpl in Hok. subst ok. simpl.
  destruct (map_to_ok _ _ _ _ _ _ _ Hw' Hpg Em) as (Hi & Hout & Hw2 & Hsub & Hcost).
  eexists _, _. split; [done|]. rewrite Hf in *.
  constructor; simpl; try done; [set_solver|set_solver|lia].
Qed.

Lemma heap_pages_apart i j v : in_page (heap_page i) v → in_page (heap_page j) v → i = j.
Proof. unfold in_page, heap_page. lia. Qed.

(** The heap after mapping its first [vlen frs] pages to the frames [frs]. *)
Record heap_mapped (m0 : Mem St PT) (frs : list Z) (m : Mem St PT) : Prop := {
  hm_wf : fa_wf (falloc m);
  hm_off : phys_off m = phys_off m0;
  hm_nodup : NoDup frs;
  hm_sub : fa_free (falloc m) ⊆ fa_free (falloc m0);
  hm_frames f : f ∈ frs → f ∈ fa_free (falloc m0) ∖ fa_free (falloc m);
  hm_in i f v : vget frs i = Some f → in_page (heap_page i) v →
    translate_addr (tables m) v = Some (f + (v - heap_page i));
  hm_out v : (∀ i, 0 ≤ i < vlen frs → ¬ in_page (heap_page i) v) →
    translate_addr (tables m) v = translate_addr (tables m0) v;
}.

Lemma heap_mapped_snoc m0 frs m m' f :
  heap_mapped m0 frs m → mapped_fresh (heap_page (vlen frs)) f m m' →
  heap_mapped m0 (frs ++ [f]) m'.
Proof.
  intros [Hw Ho Hnd Hsub Hfr Hin Hout] [Fw Fo Ft Fg Fs Fc Fi Fx].
  constructor; try done; [congruence| |set_solver| | |].
  - apply NoDup_app. split_and!; [done| |apply NoDup_singleton].
    intros x Hx%Hfr. set_solver.
  - intros x. rewrite elem_of_app, list_elem_of_singleton. intros [?%Hfr| ->]; set_solver.
  - intros i x v Hx Hv. destruct (decide (i = vlen frs)) as [->|Hne].
    + rewrite vget_snoc in Hx. simplify_eq. by apply Fi.
    + pose proof (vget_lt _ _ _ Hx) as Hlt. rewrite vlen_app in Hlt. change (vlen [f]) with 1 in Hlt.
      rewrite vget_app_l in Hx by lia. rewrite Fx; [by apply Hin|].
      intros Hv'. by eapply Hne, heap_pages_apart.
  - intros v Hv. rewrite vlen_app in Hv. change (vlen [f]) with 1 in Hv.
    pose proof (vlen_nonneg frs). rewrite Fx by (apply Hv; lia).
    apply Hout. intros i Hi. apply Hv. lia.
Qed.

(** [heap::init], with what it costs. *)
Lemma heap_init_ok m off :
  fa_wf (falloc m) → phys_off m = Some off →
  (∀ i, 0 ≤ i < 256 → translate_addr (tables m) (heap_page i) = None) →
  (1024 ≤ size (fa_free (falloc m)))%nat →
  ∃ m' frs, heap_init m = Ret m' ∧ vlen frs = 256 ∧ heap_mapped m frs m' ∧
    heap_region m' = Some (HEAP_START, HEAP_SIZE) ∧
    (size (fa_free (falloc m)) ≤ size (fa_free (falloc m')) + 1024)%nat.
Proof.
  intros Hw Ho Hun Hsz. unfold heap_init. change (HEAP_SIZE `div` 4096) with 256.
  destruct (for_each_split (λ pre m', ∃ frs, vlen frs = vlen pre ∧ heap_mapped m frs m' ∧
      (size (fa_free (falloc m)) ≤ size (fa_free (falloc m')) + 4 * length pre)%nat)
    map_heap_page (seqZ 0 256) [] m) as (m' & -> & frs & Hl & Hm & Hc).
  - exists []. split_and!; [done| |simpl; lia].
    constructor; try done; [by constructor|by intros f ?%not_elem_of_nil|].
    intros i f v Hv%vget_lt. change (vlen []) with 0 in Hv. lia.
  - intros pre i m1 suf Hsp (frs & Hl & Hm & Hc). simpl in Hsp.
    destruct (seqZ_split _ _ _ _ _ Hsp) as [Hi Hpre].
    assert (vlen pre = i) as Hpi.
    { assert (seqZ 0 256 !! length pre = Some i) as ?%lookup_seqZ
        by (by rewrite Hsp, lookup_app_r, Nat.sub_diag by lia). unfold vlen. lia. }
    assert (translate_addr (tables m1) (heap_page i) = None) as Hn.
    { rewrite (hm_out _ _ _ Hm); [by apply Hun|]. unfold in_page, heap_page. lia. }
    destruct (allocate_and_map_fresh (heap_page i) kernel_data_flags m1 off)
      as (f & m2 & E & Hf); [apply Hm|by rewrite (hm_off _ _ _ Hm)| |done| |].
    { unfold heap_page. rewrite Z.mod_add by lia. reflexivity. }
    { unfold vlen in *. lia. }
    unfold map_heap_page. rewrite E. simpl. exists m2. split; [done|]. exists (frs ++ [f]).
    pose proof (mf_cost _ _ _ _ Hf). rewrite <- Hpi, <- Hl in Hf. split_and!.
    + rewrite !vlen_app, Hl. done.
    + by eapply heap_mapped_snoc.
    + rewrite length_app. simpl. lia.
  - simpl. eexists _, frs. split_and!; [done|by rewrite Hl| |done|exact Hc].
    destruct Hm. by constructor.
Qed.

(** C21. Kernel heap bring-up: with the physical offset recorded, the heap range
    unmapped and at least four frames per page free, [heap::init] does not
    panic; it maps every page of the 1 MiB range to a frame of its own that was
    free before and is not any more, leaves every other translation unchanged,
    and hands exactly that range to the heap allocator. *)
Theorem heap_init_maps m off :
  fa_wf (falloc m) → phys_off m = Some off →
  (∀ i, 0 ≤ i < 256 → translate_addr (tables m) (heap_page i) = None) →
  (1024 ≤ size (fa_free (falloc m)))%nat →
  ∃ m' frs, heap_init m = Ret m' ∧ vlen frs = 256 ∧ heap_mapped m frs m' ∧
    heap_region m' = Some (HEAP_START, HEAP_SIZE).
Proof.
  intros Hw Ho Hun Hsz. destruct (heap_init_ok m off) as (m' & frs & ? & ? & ? & ? & _); [done..|]. by exists m', frs.
Qed.
End mapping.

(** A table of single-level mappings, to instantiate the mapper. *)
Definition toy_map_to {St} (page frame : Z) (fl : PageTableFlags) (t : gmap Z Z) (s : St)
    : bool * gmap Z Z * St :=
  match t !! page with
  | Some _ => (false, t, s)
  | None => (true, <[page := frame]> t, s)
  end.

Definition toy_translate (t : gmap Z Z) (v : Z) : option Z :=
  f ← t !! (v - v `mod` 4096); Some (f + v `mod` 4096).

Definition toy_Mapper {St} : Mapper St (gmap Z Z) :=
  {| map_to := toy_map_to; translate_addr := toy_translate |}.

Lemma in_page_base page v : page `mod` 4096 = 0 → in_page page v ↔ v - v `mod` 4096 = page.
Proof.
  intros Hp. unfold in_page. pose proof (Z.mod_pos_bound v 4096).
  split; [|lia]. intros Hv. pose proof (Z.div_mod page 4096) as Hpq. rewrite Hp in Hpq.
  rewrite (Z.mod_eq v 4096) by lia.
  assert (v `div` 4096 = page `div` 4096); [|lia].
  symmetry. apply (Z.div_unique_pos _ _ _ (v - 4096 * (page `div` 4096))); lia.
Qed.

Lemma toy_MapperOk `{FrameAlloc St} : @MapperOk St (gmap Z Z) _ toy_Mapper.
Proof.
  constructor; simpl; unfold toy_map_to.
  - intros page frame fl pt s pt' s' Hw Hpg. destruct (pt !! page) eqn:E; [done|].
    intros [= <- <-]. unfold toy_translate. split_and!; [..|done|done|lia].
    + intros v Hv. pose proof Hv as ->%in_page_base; [|done]. rewrite lookup_insert_eq. simpl.
      apply in_page_base in Hv; [|done]. f_equal. lia.
    + intros v Hv. rewrite lookup_insert_ne; [done|]. intros He. apply Hv.
      by apply in_page_base.
  - intros page frame fl pt s Hw Hpg Hn _. unfold toy_translate in Hn.
    rewrite Hpg, Z.sub_0_r in Hn. by destruct (pt !! page).
Qed.

(** The first 128 MiB free but for the first megabyte. *)
Definition sample_big : pmm.BitmapFrameAllocator :=
  {| pmm.used := replicate 4 U64_MAX ++ replicate 508 0 ++ replicate (Z.to_nat pmm.WORDS - 512) U64_MAX;
     pmm.next_word := 0 |}.

Lemma wf_sample_big : wf sample_big.
Proof.
  constructor; [by vm_compute| |done].
  repeat apply Forall_app_2; by apply Forall_replicate.
Qed.

Lemma sample_big_count : pmm.free_count sample_big = 508 * 64.
Proof. by vm_compute. Qed.

Lemma heap_init_maps_witness :
  let m := mkMem sample_big (∅ : gmap Z Z) (Some 0) None in
  let _ := @toy_Mapper pmm.BitmapFrameAllocator in
  ∃ m' frs, heap_init m = Ret m' ∧ vlen frs = 256 ∧ heap_mapped m frs m'.
Proof.
  intros m inst. pose proof toy_MapperOk as Hok.
  destruct (heap_init_maps (St := pmm.BitmapFrameAllocator) m 0) as (m' & frs & E & Hl & Hm & _).
  - exact wf_sample_big.
  - exact eq_refl.
  - intros i _. exact eq_refl.
  - pose proof (size_free_addrs sample_big wf_sample_big) as Hs. rewrite sample_big_count in Hs.
    change (fa_free (falloc m)) with (free_addrs sample_big). lia.
  - exists m', frs. split; [exact E|split; [exact Hl|exact Hm]].
Defined.

(** ** Bring-up of the frame allocator *)

(** Whether frame [f] is free after the region loop: the last region that
    overlaps the frame decides; [b0] is the bit before the loop. *)
Definition seeded (rs : list MemoryRegion) (f : Z) (b0 : bool) : bool :=
  foldl (λ b r, if bool_decide (touches (start r) (end_ r) f) then is_usable r else b) b0 rs.

Lemma mark_region_spec r a : wf a → 0 ≤ start r →
  ∃ a', mark_region r a = Ret a' ∧ wf a' ∧ ∀ f, bit_free (pmm.used a') f =
    if bool_decide (touches (start r) (end_ r) f) then is_usable r
    else bit_free (pmm.used a) f.
Proof.
  intros Ha Hs. unfold mark_region, is_usable. destruct (kind r).
  - destruct (mark_range_spec false _ (end_ r) a Ha Hs) as (a' & E & Hw & _ & Hb); by exists a'.
  - destruct (mark_range_spec true _ (end_ r) a Ha Hs) as (a' & E & Hw & _ & Hb); by exists a'.
Qed.

Lemma mark_regions_spec rs a : wf a → Forall (λ r, 0 ≤ start r) rs →
  ∃ a', for_each rs mark_region a = Ret a' ∧ wf a' ∧
    ∀ f, bit_free (pmm.used a') f = seeded rs f (bit_free (pmm.used a) f).
Proof.
  intros Ha Hrs. apply (for_each_inv (λ pre a', wf a' ∧
    ∀ f, bit_free (pmm.used a') f = seeded pre f (bit_free (pmm.used a) f))); [done|].
  intros pre r a1 Hr (Hw & Hb). rewrite Forall_forall in Hrs.
  destruct (mark_region_spec r a1 Hw (Hrs r Hr)) as (a2 & -> & Hw2 & Hb2).
  exists a2. split_and!; [done..|]. intros f. unfold seeded.
  rewrite foldl_app. simpl. by rewrite Hb2, Hb.
Qed.

Lemma touches_page0 f : touches 0 pmm.PAGE_SIZE f ↔ f = 0.
Proof.
  unfold touches. pose proof (eq_refl : pmm.NUM_FRAMES = 262144) as ->.
  change (0 `div` pmm.PAGE_SIZE) with 0. unfold pmm.PAGE_SIZE. lia.
Qed.

Lemma seed_frames_bits `{Profile} b a : wf a →
  Forall (λ r, 0 ≤ start r) (memory_regions b) →
  0 ≤ kernel_addr b → fits 64 (kernel_addr b + kernel_len b) →
  ∃ a', seed_frames b a = Ret a' ∧ wf a' ∧ ∀ f,
    bit_free (pmm.used a') f =
      negb (bool_decide (f = 0)) &&
      negb (bool_decide (touches (kernel_addr b) (kernel_addr b + kernel_len b) f)) &&
      seeded (memory_regions b) f (bit_free (pmm.used a) f).
Proof.
  intros Ha Hrs Hk Hfit. unfold seed_frames. rewrite checked_fits by done. simpl.
  destruct (mark_regions_spec _ a Ha Hrs) as (a1 & -> & Hw1 & Hb1). simpl.
  destruct (mark_range_spec true (kernel_addr b) (kernel_addr b + kernel_len b) a1 Hw1 Hk)
    as (a2 & E2 & Hw2 & _ & Hb2).
  unfold pmm.mark_used_range. rewrite E2. simpl.
  destruct (mark_range_spec true 0 pmm.PAGE_SIZE a2 Hw2) as (a3 & -> & Hw3 & _ & Hb3); [lia|].
  exists a3. split_and!; [done..|]. intros f. rewrite Hb3, Hb2, Hb1.
  rewrite (bool_decide_ext _ _ (touches_page0 f)).
  repeat case_bool_decide; done.
Qed.

(** C31. Seeding the frame allocator from the boot memory map never panics when
    the kernel's end address fits in 64 bits, and leaves free exactly the frames
    whose last overlapping region is usable, outside the kernel image, frame 0
    excluded; starting from the all-used bitmap, a frame no region overlaps
    stays used. *)
Theorem seed_frames_free `{Profile} b :
  Forall (λ r, 0 ≤ start r) (memory_regions b) →
  0 ≤ kernel_addr b → fits 64 (kernel_addr b + kernel_len b) →
  ∃ a', seed_frames b pmm.new = Ret a' ∧ wf a' ∧ ∀ f,
    f ∈ free_frames a' ↔
      0 < f < pmm.NUM_FRAMES ∧ seeded (memory_regions b) f false = true ∧
      ¬ touches (kernel_addr b) (kernel_addr b + kernel_len b) f.
Proof.
  intros Hrs Hk Hfit.
  destruct (seed_frames_bits b pmm.new wf_new Hrs Hk Hfit) as (a' & E & Hw & Hb).
  exists a'. split_and!; [exact E|exact Hw|]. intros f. rewrite elem_of_free_frames, Hb.
  rewrite bit_free_new. rewrite !andb_true_iff, !negb_true_iff, !bool_decide_eq_false.
  intuition lia.
Qed.

Lemma seed_frames_free_witness :
  let b := mkBootInfo (Some 0) 0x200000 0x10000
             [mkRegion 0 0xa0000 Usable; mkRegion 0xa0000 0x100000 NotUsable;
              mkRegion 0x100000 0x8000000 Usable] in
  ∃ a', @seed_frames dev b pmm.new = Ret a' ∧ 0x100 ∈ free_frames a' ∧
    (0x205 ∉ free_frames a') ∧ (0xa5 ∉ free_frames a').
Proof.
  intros b. destruct (@seed_frames_free dev b) as (a' & E & _ & Hf).
  - repeat constructor; simpl; lia.
  - simpl; lia.
  - by vm_compute.
  - exists a'. split; [exact E|].
    assert (pmm.NUM_FRAMES = 262144) as HN by reflexivity.
    split_and!; rewrite Hf, HN; unfold touches; rewrite HN.
    + split_and!; [lia|lia|by vm_compute|].
      simpl. change pmm.PAGE_SIZE with 4096. change (2097152 `div` 4096) with 512. lia.
    + simpl. change pmm.PAGE_SIZE with 4096. change (2097152 `div` 4096) with 512. lia.
    + intros (_ & Hs & _). by vm_compute in Hs.
Defined.

(** A frame that a usable region only partly covers is handed out whole: if
    the last listed region overlapping frame [f] is usable, [f] becomes free even
    when another region, not usable, also holds bytes of it. *)
Theorem partial_frame_freed `{Profile} b rs r r' f x :
  memory_regions b = rs ++ [r] → r' ∈ rs → kind r' = NotUsable → kind r = Usable →
  Forall (λ r, 0 ≤ start r) (memory_regions b) →
  0 ≤ kernel_addr b → fits 64 (kernel_addr b + kernel_len b) →
  0 < f → touches (start r) (end_ r) f →
  ¬ touches (kernel_addr b) (kernel_addr b + kernel_len b) f →
  start r' ≤ x < end_ r' → x `div` pmm.PAGE_SIZE = f →
  ∃ a', seed_frames b pmm.new = Ret a' ∧ f ∈ free_frames a'.
Proof.
  intros Hm _ _ Hu Hrs Hk Hfit Hf Ht Hnk _ _.
  destruct (seed_frames_bits b pmm.new wf_new Hrs Hk Hfit) as (a' & E & _ & Hb).
  exists a'. split; [exact E|]. apply elem_of_free_frames. split; [apply Ht|].
  rewrite Hb, Hm. unfold seeded. rewrite foldl_app. simpl.
  rewrite (bool_decide_true (touches (start r) _ f) Ht), bool_decide_false by lia.
  rewrite (bool_decide_false _ Hnk). unfold is_usable. by rewrite Hu.
Qed.

Lemma partial_frame_freed_witness :
  let b := mkBootInfo (Some 0) 0x200000 0x10000
             [mkRegion 0x1800 0x3000 NotUsable; mkRegion 0x1000 0x1800 Usable] in
  ∃ a', @seed_frames dev b pmm.new = Ret a' ∧ 1 ∈ free_frames a'.
Proof.
  intros b. apply (@partial_frame_freed dev b [mkRegion 0x1800 0x3000 NotUsable]
    (mkRegion 0x1000 0x1800 Usable) (mkRegion 0x1800 0x3000 NotUsable) 1 0x1fff);
    try exact eq_refl.
  - by left.
  - repeat constructor; simpl; lia.
  - simpl; lia.
  - by vm_compute.
  - vm_compute. intuition congruence.
  - vm_compute. intuition congruence.
  - simpl; lia.
Defined.

(** The frame self-test: when at least [n] frames are free, allocating [n]
    frames lowers the free count by exactly [n], and giving them back restores
    both the count and the very set of free frames. *)
Theorem frame_self_test_restores n a : wf a → Z.of_nat n ≤ pmm.free_count a →
  ∃ a', frame_self_test n a =
      Ret (pmm.free_count a, pmm.free_count a - Z.of_nat n, pmm.free_count a, a') ∧
    wf a' ∧ free_addrs a' = free_addrs a.
Proof.
  intros Ha Hn. unfold frame_self_test. pose proof (size_free_addrs a Ha) as Hsz.
  destruct (alloc_n_spec (H := pmm_FrameAlloc) n a Ha) as (ps & a1 & -> & Hw1 & Hnd & Hlen & Hsub & Hf1).
  { change (fa_free a) with (free_addrs a). lia. }
  cbn [mbind outcome_bind fst snd expect].
  destruct (dealloc_all_spec (H := pmm_FrameAlloc) ps a1 Hw1) as (a2 & -> & Hw2 & Hf2).
  { intros p Hp. apply (fa_range (FrameAlloc := pmm_FrameAlloc) a). apply Hsub. by apply elem_of_list_to_set. }
  change (fa_free a) with (free_addrs a) in *. change (fa_free a1) with (free_addrs a1) in *.
  change (fa_free a2) with (free_addrs a2) in *.
  assert (free_addrs a2 = free_addrs a) as Heq.
  { rewrite Hf2, Hf1. symmetry. by apply union_difference_L. }
  exists a2. split; [cbn [mbind outcome_bind]|by split].
  pose proof (size_free_addrs a1 Hw1) as Hs1. rewrite Hf1, size_difference in Hs1 by done.
  rewrite size_list_to_set in Hs1 by done.
  assert (size (list_to_set ps : gset Z) ≤ size (free_addrs a))%nat as Hle by (by apply subseteq_size).
  rewrite size_list_to_set in Hle by done.
  pose proof (size_free_addrs a2 Hw2) as Hs2. rewrite Heq, Hsz in Hs2.
  rewrite <- Hs2. repeat f_equal. lia.
Qed.

Lemma frame_self_test_restores_witness :
  ∃ a', frame_self_test 1000 sample_big = Ret (32512, 31512, 32512, a') ∧
    free_addrs a' = free_addrs sample_big.
Proof.
  destruct (frame_self_test_restores 1000 sample_big wf_sample_big) as (a' & E & _ & Hf).
  - rewrite sample_big_count. lia.
  - rewrite sample_big_count in E. exists a'. split; [exact E|exact Hf].
Defined.
