(* ===== verification/Task.v ===== *)
(** * Task: task data, kernel stacks and the context switch
    (kernel/src/process/{task,context}.rs)

    Module [asm] is a small machine for the instructions of the hand-written
    [__switch]; [context] holds the routine itself and [initial_context]; [task]
    the task record and its kernel stack. *)

From S2P Require Import Prelude.

(** ** The machine *)
Module asm.

Inductive reg := RBX | RBP | R12 | R13 | R14 | R15 | RSP | RDI | RSI.

Definition reg_eqb (a b : reg) : bool :=
  match a, b with
  | RBX, RBX | RBP, RBP | R12, R12 | R13, R13 | R14, R14 | R15, R15
  | RSP, RSP | RDI, RDI | RSI, RSI => true
  | _, _ => false
  end.

(** Memory is a map from addresses of 8-byte words to their values. *)
Definition memory := Z → Z.

Definition upd (m : memory) (a v : Z) : memory :=
  λ x, if bool_decide (x = a) then v else m x.

Record cpu := mkCpu {
  regs : reg → Z;
  rip : Z;
  mem : memory;
}.

Definition set_reg (r : reg) (v : Z) (c : cpu) : cpu :=
  mkCpu (λ r', if reg_eqb r' r then v else regs c r') (rip c) (mem c).

Inductive instr :=
  | Push (r : reg)            (* push r *)
  | Pop (r : reg)             (* pop r *)
  | Store (dst src : reg)     (* mov [dst], src *)
  | Load (dst src : reg)      (* mov dst, [src] *)
  | RetI.                     (* ret *)

Definition exec1 (i : instr) (c : cpu) : cpu :=
  match i with
  | Push r =>
      let sp := regs c RSP - 8 in
      let v := regs c r in
      set_reg RSP sp (mkCpu (regs c) (rip c) (upd (mem c) sp v))
  | Pop r =>
      let v := mem c (regs c RSP) in
      set_reg r v (set_reg RSP (regs c RSP + 8) c)
  | Store d s => mkCpu (regs c) (rip c) (upd (mem c) (regs c d) (regs c s))
  | Load d s => set_reg d (mem c (regs c s)) c
  | RetI => set_reg RSP (regs c RSP + 8) (mkCpu (regs c) (mem c (regs c RSP)) (mem c))
  end.

Definition exec (p : list instr) (c : cpu) : cpu := foldl (λ c i, exec1 i c) c p.

End asm.
Import asm.

(** ** context.rs *)
Module context.

(** Only the saved stack pointer. *)
Record TaskContext := mkCtx { rsp : Z }.

Definition __switch : list instr :=
  [Push RBX; Push RBP; Push R12; Push R13; Push R14; Push R15;
   Store RDI RSP;
   Load RSP RSI;
   Pop R15; Pop R14; Pop R13; Pop R12; Pop RBP; Pop RBX;
   RetI].

Definition callee_saved : list reg := [RBX; RBP; R12; R13; R14; R15].

(** [x & !15u64] *)
Definition align_down16 (x : Z) : Z := Z.land x (Z.lxor U64_MAX 15).

(** The frame is built in the memory [m]; [trampoline] is the address of
    [task_trampoline]. *)
Definition initial_context `{Profile} (trampoline stack_base stack_size : Z) (m : memory)
    : outcome (TaskContext * memory) :=
  sum ← checked 64 (stack_base + stack_size);
  let top := align_down16 sum in
  ret_slot ← checked 64 (top - 16);
  let m1 := upd m ret_slot trampoline in
  m2 ← for_each (seqZ 0 6) (λ i m,
         a ← checked 64 (ret_slot - 8 - i * 8);
         Ret (upd m a 0)) m1;
  sp ← checked 64 (ret_slot - 48);
  Ret (mkCtx sp, m2).

End context.
Import context.

(** ** task.rs *)
Module task.

Definition TaskId := Z.

Inductive TaskState := Ready | Running | Blocked | Zombie.

Inductive BlockReason :=
  | BNone
  | Sleep (wake_at : Z)
  | Join (id : TaskId).

#[global] Instance TaskState_eq_dec : EqDecision TaskState.
Proof. solve_decision. Defined.
#[global] Instance BlockReason_eq_dec : EqDecision BlockReason.
Proof. solve_decision. Defined.

Definition KERNEL_STACK_SIZE : Z := 16 * 1024.

(** A heap buffer: the address the allocator gave it, and its length. *)
Record KernelStack := mkStack { buf_ptr : Z; buf_len : Z }.

Definition KernelStack_new (ptr : Z) : KernelStack := mkStack ptr KERNEL_STACK_SIZE.

Definition aligned_base `{Profile} (k : KernelStack) : outcome Z :=
  s ← checked 64 (buf_ptr k + 15);
  Ret (align_down16 s).

Definition usable_size `{Profile} (k : KernelStack) : outcome Z :=
  base ← aligned_base k;
  e ← checked 64 (buf_ptr k + buf_len k);
  checked 64 (align_down16 e - base).

Definition stack_initial_context `{Profile} (trampoline : Z) (k : KernelStack) (m : memory)
    : outcome (TaskContext * memory) :=
  base ← aligned_base k;
  size ← usable_size k;
  initial_context trampoline base size m.

Definition range `{Profile} (k : KernelStack) : outcome (Z * Z) :=
  base ← aligned_base k;
  size ← usable_size k;
  Ret (base, size).

(** A task body is known by a name: closures are run, never inspected. *)
Record Task := mkTask {
  id : TaskId;
  state : TaskState;
  block : BlockReason;
  ctx : TaskContext;
  slice : Z;
  stack : KernelStack;
  func : option string;
}.

(** [ptr] is the address the heap returns for the stack buffer. *)
Definition Task_new `{Profile} (trampoline ptr : Z) (i : TaskId) (f : string) (sl : Z)
    (m : memory) : outcome (Task * memory) :=
  let st := KernelStack_new ptr in
  r ← stack_initial_context trampoline st m;
  Ret (mkTask i Ready BNone (fst r) sl st (Some f), snd r).

Definition take_func (t : Task) : option string * Task :=
  (func t, mkTask (id t) (state t) (block t) (ctx t) (slice t) (stack t) None).

Definition set_state (s : TaskState) (t : Task) : Task :=
  mkTask (id t) s (block t) (ctx t) (slice t) (stack t) (func t).
Definition set_block (b : BlockReason) (t : Task) : Task :=
  mkTask (id t) (state t) b (ctx t) (slice t) (stack t) (func t).
Definition set_slice (s : Z) (t : Task) : Task :=
  mkTask (id t) (state t) (block t) (ctx t) s (stack t) (func t).

End task.
Import task.

(** ** The context switch *)

Lemma upd_eq m a v : upd m a v a = v.
Proof. unfold upd. by rewrite bool_decide_true. Qed.

Lemma upd_ne m a b v : b ≠ a → upd m a v b = m b.
Proof. intros. unfold upd. by rewrite bool_decide_false. Qed.

(** The words of a saved context whose stack pointer is [sp]. *)
Definition frame_at (m : memory) (sp : Z) (f : reg → Z) (ra : Z) : Prop :=
  m sp = f R15 ∧ m (sp + 8) = f R14 ∧ m (sp + 16) = f R13 ∧ m (sp + 24) = f R12 ∧
  m (sp + 32) = f RBP ∧ m (sp + 40) = f RBX ∧ m (sp + 48) = ra.

(** The words [__switch] writes: the save area and the old context's cell. *)
Definition switch_writes (c : cpu) (a : Z) : Prop :=
  a = regs c RDI ∨ regs c RSP - 48 ≤ a < regs c RSP.

Lemma switch_mem_other c a : ¬ switch_writes c a → mem (exec __switch c) a = mem c a.
Proof.
  unfold switch_writes. intros Ha. cbn. rewrite upd_ne by tauto.
  rewrite !upd_ne by lia. done.
Qed.

(** What the old context's stack and cell hold after the switch. *)
Lemma switch_saves c :
  ¬ (regs c RSP - 48 ≤ regs c RDI ≤ regs c RSP) →
  mem (exec __switch c) (regs c RDI) = regs c RSP - 48 ∧
  frame_at (mem (exec __switch c)) (regs c RSP - 48) (regs c) (mem c (regs c RSP)).
Proof.
  intros Hd. split; [cbn; rewrite upd_eq; lia|]. unfold frame_at. cbn.
  split_and!; rewrite upd_ne by lia;
    repeat first [rewrite upd_ne by lia
      | match goal with |- upd _ ?a _ ?b = _ => replace b with a by lia; rewrite upd_eq; reflexivity end].
  f_equal. lia.
Qed.

(** The two halves of the routine. *)
Definition switch_save : list instr := take 7 __switch.
Definition switch_load : list instr := drop 7 __switch.

Lemma switch_halves c : exec __switch c = exec switch_load (exec switch_save c).
Proof. reflexivity. Qed.

Lemma load_effect c f ra :
  frame_at (mem c) (mem c (regs c RSI)) f ra →
  (∀ r, r ∈ callee_saved → regs (exec switch_load c) r = f r) ∧
  rip (exec switch_load c) = ra ∧
  regs (exec switch_load c) RSP = mem c (regs c RSI) + 56.
Proof.
  intros (F0 & F1 & F2 & F3 & F4 & F5 & F6).
  assert (∀ x y, x = y → mem c x = mem c y) as Hm by (by intros ?? ->).
  split_and!.
  - unfold callee_saved. intros r. rewrite !elem_of_cons.
    intros [->|[->|[->|[->|[->|[->|[]%not_elem_of_nil]]]]]]; cbn;
      [rewrite <- F5|rewrite <- F4|rewrite <- F3|rewrite <- F2|rewrite <- F1|rewrite <- F0];
      apply Hm; lia.
  - cbn. rewrite <- F6. apply Hm. lia.
  - cbn. lia.
Qed.

(** What the CPU holds after the switch: the registers, the stack pointer and
    the return address of the new context. *)
Lemma switch_loads c f ra :
  ¬ switch_writes c (regs c RSI) →
  (∀ k, 0 ≤ k ≤ 6 → ¬ switch_writes c (mem c (regs c RSI) + 8 * k)) →
  frame_at (mem c) (mem c (regs c RSI)) f ra →
  (∀ r, r ∈ callee_saved → regs (exec __switch c) r = f r) ∧
  rip (exec __switch c) = ra ∧
  regs (exec __switch c) RSP = mem c (regs c RSI) + 56.
Proof.
  intros Hnew Hfr (F0 & F1 & F2 & F3 & F4 & F5 & F6).
  assert (∀ a, ¬ switch_writes c a → mem (exec switch_save c) a = mem c a) as HM.
  { intros a Ha. rewrite <- (switch_mem_other c a Ha). reflexivity. }
  rewrite switch_halves. rewrite <- (HM _ Hnew).
  change (regs c RSI) with (regs (exec switch_save c) RSI). apply load_effect.
  change (regs (exec switch_save c) RSI) with (regs c RSI). rewrite (HM _ Hnew).
  assert (∀ k x, 0 ≤ k ≤ 6 → x = mem c (regs c RSI) + 8 * k →
    mem (exec switch_save c) x = mem c x) as HM' by (intros k x Hk ->; auto).
  unfold frame_at. split_and!;
    [rewrite (HM' 0)|rewrite (HM' 1)|rewrite (HM' 2)|rewrite (HM' 3)|rewrite (HM' 4)
    |rewrite (HM' 5)|rewrite (HM' 6)]; done || lia.
Qed.

(** C22. The context switch resumes a task exactly where it left: after a task
    with stack pointer [sp] switches out through its cell [old], any later
    switch to [old] (by whatever code, as long as the saved words and the cell
    were left alone) returns to the task's own return address with its six
    callee-saved registers and its stack pointer (past that address) restored. *)
Theorem switch_resumes c c2 :
  let old := regs c RDI in
  let sp := regs c RSP in
  ¬ (sp - 48 ≤ old ≤ sp) →
  (∀ a, a = old ∨ sp - 48 ≤ a ≤ sp → mem c2 a = mem (exec __switch c) a) →
  regs c2 RSI = old →
  (∀ a, a = old ∨ sp - 48 ≤ a ≤ sp → ¬ switch_writes c2 a) →
  (∀ r, r ∈ callee_saved → regs (exec __switch c2) r = regs c r) ∧
  rip (exec __switch c2) = mem c sp ∧
  regs (exec __switch c2) RSP = sp + 8.
Proof.
  intros old sp Hd Hkeep Hsi Hnw.
  destruct (switch_saves c Hd) as [Hcell (F0 & F1 & F2 & F3 & F4 & F5 & F6)].
  assert (mem c2 (regs c2 RSI) = sp - 48) as Hc2.
  { rewrite Hsi, Hkeep by tauto. exact Hcell. }
  replace (sp + 8) with (mem c2 (regs c2 RSI) + 56) by lia.
  apply switch_loads.
  - rewrite Hsi. apply Hnw. tauto.
  - intros k Hk. apply Hnw. lia.
  - rewrite Hc2. unfold frame_at. fold sp in F0, F1, F2, F3, F4, F5, F6.
    split_and!; rewrite Hkeep by lia; assumption.
Qed.

Definition cpu0 (f : reg → Z) (m : memory) : cpu := mkCpu f 0 m.

Lemma mem_cpu0 f m : mem (cpu0 f m) = m.
Proof. reflexivity. Qed.

(** Task A (stack at 1000, cell 5000) switches to B (cell 5008) and B back. *)
Lemma switch_resumes_witness :
  let a := cpu0 (λ r, match r with RSP => 1000 | RDI => 5000 | RSI => 5008 | RBX => 7 | _ => 1 end)
             (upd (upd (λ _, 0) 5008 2000) 1000 0xabc) in
  let b := cpu0 (λ r, match r with RSP => 3000 | RDI => 5008 | RSI => 5000 | _ => 2 end)
             (mem (exec __switch a)) in
  regs (exec __switch b) RBX = 7 ∧ rip (exec __switch b) = 0xabc ∧
  regs (exec __switch b) RSP = 1008.
Proof.
  intros a b. destruct (switch_resumes a b) as (Hr & Hi & Hs).
  - change (¬ (1000 - 48 ≤ 5000 ≤ 1000)). lia.
  - intros x _. unfold b. rewrite mem_cpu0. apply eq_refl.
  - exact eq_refl.
  - intros x Hx. change (x = 5000 ∨ 1000 - 48 ≤ x ≤ 1000) in Hx.
    change (¬ (x = 5008 ∨ 3000 - 48 ≤ x < 3000)). lia.
  - split_and!; [apply (Hr RBX); by left|exact Hi|exact Hs].
Defined.

(** ** Fresh stacks *)

Lemma align_down16_spec x : fits 64 x → align_down16 x = 16 * (x `div` 16).
Proof.
  intros Hx. unfold align_down16. change (Z.lxor U64_MAX 15) with (Z.shiftl (Z.ones 60) 4).
  replace (16 * (x `div` 16)) with (Z.shiftl (Z.shiftr x 4) 4)
    by (rewrite Z.shiftl_mul_pow2, Z.shiftr_div_pow2 by lia; change (2 ^ 4) with 16; lia).
  apply Z.bits_inj'. intros i Hi. rewrite Z.land_spec, !Z.shiftl_spec by lia.
  destruct (decide (i < 4)).
  - rewrite !(Z.testbit_neg_r _ (i - 4)) by lia. apply andb_false_r.
  - rewrite Z.shiftr_spec, Z.sub_add by lia.
    rewrite Z.testbit_ones_nonneg by lia. destruct (Z.ltb_spec (i - 4) 60); [apply andb_true_r|].
    rewrite (proj1 (fits_testbit x (proj1 Hx)) Hx i) by lia. done.
Qed.

Lemma align_down16_bounds x : fits 64 x →
  align_down16 x ≤ x < align_down16 x + 16 ∧ 0 ≤ align_down16 x ∧ align_down16 x `mod` 16 = 0.
Proof.
  intros Hx. rewrite align_down16_spec by done. unfold fits in Hx.
  pose proof (Z.div_mod x 16 ltac:(lia)). pose proof (Z.mod_pos_bound x 16 ltac:(lia)).
  split_and!; [lia..|]. rewrite Z.mul_comm. by apply Z.mod_mul.
Qed.

(** The frame [initial_context] builds, when the region is large enough. *)
Lemma initial_context_frame `{Profile} tr base size m :
  0 ≤ base → 80 ≤ size → fits 64 (base + size) →
  ∃ sp m', initial_context tr base size m = Ret (mkCtx sp, m') ∧
    frame_at m' sp (λ _, 0) tr ∧ sp `mod` 16 = 0 ∧
    base ≤ sp ∧ sp + 64 ≤ base + size ∧
    (∀ a, ¬ (sp ≤ a < sp + 56) → m' a = m a).
Proof.
  intros Hb Hs Hf. unfold initial_context. rewrite (checked_fits 64 _ Hf). simpl.
  destruct (align_down16_bounds _ Hf) as (Ht & _ & Hm).
  set (top := align_down16 (base + size)) in *. unfold fits in Hf.
  rewrite (checked_fits 64 (top - 16)) by (unfold fits; lia). simpl.
  rewrite !checked_fits by (unfold fits; lia). simpl.
  eexists _, _. split; [done|]. split_and!.
  - unfold frame_at. split_and!; repeat first [rewrite upd_ne by lia
      | match goal with |- upd _ ?a _ ?b = _ => replace b with a by lia; rewrite upd_eq; reflexivity end].
  - replace (top - 16 - 48) with (top + (-4) * 16) by lia. rewrite Z.mod_add by lia. done.
  - lia.
  - lia.
  - intros a Ha. rewrite !upd_ne by lia. done.
Qed.

Lemma stack_region `{Profile} ptr : 0 ≤ ptr → ptr + KERNEL_STACK_SIZE + 15 < 2 ^ 64 →
  ∃ base size, aligned_base (KernelStack_new ptr) = Ret base ∧
    usable_size (KernelStack_new ptr) = Ret size ∧
    ptr ≤ base ∧ base + size ≤ ptr + KERNEL_STACK_SIZE ∧
    KERNEL_STACK_SIZE - 31 ≤ size ∧ base `mod` 16 = 0.
Proof.
  unfold KERNEL_STACK_SIZE. intros Hp Hl. unfold usable_size, aligned_base. simpl.
  assert (fits 64 (ptr + 15)) as F1 by (unfold fits; lia).
  assert (fits 64 (ptr + 16 * 1024)) as F2 by (unfold fits; lia).
  unfold KERNEL_STACK_SIZE. rewrite (checked_fits 64 _ F1), (checked_fits 64 _ F2). simpl.
  destruct (align_down16_bounds _ F1) as (B1 & _ & M1).
  destruct (align_down16_bounds _ F2) as (B2 & _ & M2).
  eexists _, _. split; [done|]. rewrite checked_fits by (unfold fits; lia).
  split_and!; [done|lia..|done].
Qed.

Lemma Task_new_fields `{Profile} tr ptr i f sl m :
  0 ≤ ptr → ptr + KERNEL_STACK_SIZE + 15 < 2 ^ 64 →
  ∃ t m', Task_new tr ptr i f sl m = Ret (t, m') ∧
    id t = i ∧ state t = Ready ∧ block t = BNone ∧ slice t = sl ∧ func t = Some f.
Proof.
  intros Hp Hl. destruct (stack_region ptr Hp Hl) as (base & size & Eb & Es & Hb & He & Hs & Hm).
  unfold Task_new, stack_initial_context. rewrite Eb. cbn [mbind outcome_bind]. rewrite Es.
  cbn [mbind outcome_bind]. unfold KERNEL_STACK_SIZE in *.
  destruct (initial_context_frame tr base size m) as (sp & m' & -> & _);
    [lia|lia|unfold fits; lia|].
  cbn [mbind outcome_bind fst snd]. eexists _, _. by split_and!.
Qed.

(** C30. A new task is ready to run: [Task::new] never panics on a stack buffer
    inside the address space; it writes only inside that buffer, and the first
    switch to the task, from any context whose own save area is elsewhere,
    clears the callee-saved registers and enters the trampoline with the stack
    pointer at 8 modulo 16, as the ABI wants at a function's first
    instruction. *)
Theorem fresh_task_starts `{Profile} tr ptr i f sl m :
  0 ≤ ptr → ptr + KERNEL_STACK_SIZE + 15 < 2 ^ 64 →
  ∃ t m', Task_new tr ptr i f sl m = Ret (t, m') ∧
    id t = i ∧ state t = Ready ∧ block t = BNone ∧ slice t = sl ∧ func t = Some f ∧
    (∀ a, ¬ (ptr ≤ a < ptr + KERNEL_STACK_SIZE) → m' a = m a) ∧
    ∀ c, (∀ a, ptr ≤ a < ptr + KERNEL_STACK_SIZE → mem c a = m' a) →
      mem c (regs c RSI) = rsp (ctx t) →
      ¬ switch_writes c (regs c RSI) →
      (∀ a, ptr ≤ a < ptr + KERNEL_STACK_SIZE → ¬ switch_writes c a) →
      rip (exec __switch c) = tr ∧ regs (exec __switch c) RSP `mod` 16 = 8 ∧
      ∀ r, r ∈ callee_saved → regs (exec __switch c) r = 0.
Proof.
  intros Hp Hl. destruct (stack_region ptr Hp Hl) as (base & size & Eb & Es & Hb & He & Hs & Hm).
  unfold Task_new, stack_initial_context. rewrite Eb. cbn [mbind outcome_bind]. rewrite Es.
  cbn [mbind outcome_bind].
  unfold KERNEL_STACK_SIZE in *.
  destruct (initial_context_frame tr base size m) as (sp & m' & -> & Hfr & Hal & Hlo & Hhi & Hout);
    [lia|lia|unfold fits; lia|].
  cbn [mbind outcome_bind fst snd]. eexists _, _. split_and!; [done..| |].
  - intros a Ha. apply Hout. lia.
  - cbn [ctx context.rsp]. intros c Hmem Hsp Hsi Hnw.
    destruct (switch_loads c (λ _, 0) tr Hsi) as (Hr & Hi & Hrsp).
    + intros k Hk. apply Hnw. lia.
    + rewrite Hsp. unfold frame_at in *. rewrite !Hmem by lia. done.
    + split_and!; [done| |done]. rewrite Hrsp, Hsp, <- Z.add_mod_idemp_l, Hal by lia. done.
Qed.

Lemma fresh_task_starts_witness :
  ∃ t m', @Task_new dev 0x8000 0x10001 3 "worker" 2 (λ _, 0) = Ret (t, m') ∧
    rip (exec __switch (cpu0 (λ r, match r with RSI => 500 | RDI => 508 | RSP => 900 | _ => 1 end)
      (upd m' 500 (rsp (ctx t))))) = 0x8000.
Proof.
  destruct (@fresh_task_starts dev 0x8000 0x10001 3 "worker" 2 (λ _, 0))
    as (t & m' & E & _ & _ & _ & _ & _ & _ & Hsw); [lia|by vm_compute|].
  exists t, m'. split; [exact E|]. unfold KERNEL_STACK_SIZE in Hsw. apply Hsw.
  - intros a Ha. rewrite mem_cpu0. apply upd_ne. lia.
  - rewrite mem_cpu0. apply upd_eq.
  - change (¬ (500 = 508 ∨ 900 - 48 ≤ 500 < 900)). lia.
  - intros a Ha. change (¬ (a = 508 ∨ 900 - 48 ≤ a < 900)). lia.
Defined.
