(* ===== verification/Scheduler.v ===== *)
(** * Scheduler: the round-robin scheduler (kernel/src/process/scheduler.rs)

    Every operation is a function on [Kern], the statics it touches. A call to
    [__switch] is reported as a [Switch]: which context is saved, which one is
    resumed, and what the suspended caller does with the interrupt flag when it
    is resumed; [None] means that the operation returns to its caller without
    having switched. *)

From S2P Require Import Prelude Task.
Import asm context task.

Module scheduler.

Definition DEFAULT_SLICE : Z := 2.
Definition NO_TASK : Z := U64_MAX.

Record Scheduler := mkSched {
  slots : list (option Task);
  current : Z;
  next_id : Z;
  cursor : Z;
}.

Definition new : Scheduler := mkSched [] NO_TASK 1 0.

(** [raw_boot()] or the context of a slot. *)
Inductive CtxPtr := BootCtx | SlotCtx (i : Z).

Record Switch := mkSwitch {
  sw_old : CtxPtr;
  sw_new : CtxPtr;
  sw_resume : bool;     (* enable interrupts once resumed *)
}.

(** SCHEDULER, ACTIVE, timer::TICKS, the interrupt flag, memory. *)
Record Kern := mkKern {
  sched : Scheduler;
  active : bool;
  ticks : Z;
  irq : bool;
  kmem : memory;
}.

Definition set_sched (g : Scheduler) (k : Kern) : Kern :=
  mkKern g (active k) (ticks k) (irq k) (kmem k).
Definition set_irq (b : bool) (k : Kern) : Kern :=
  mkKern (sched k) (active k) (ticks k) b (kmem k).

Definition set_slots (s : list (option Task)) (g : Scheduler) : Scheduler :=
  mkSched s (current g) (next_id g) (cursor g).

(** [if let Some(t) = &mut g.slots[i] { f(t) }] *)
Definition update_slot (i : Z) (f : Task → Task) (g : Scheduler) : outcome Scheduler :=
  s ← index (slots g) i;
  match s with
  | Some t => Ret (set_slots (vset (slots g) i (Some (f t))) g)
  | None => Ret g
  end.

Definition is_none {A} (o : option A) : bool :=
  match o with Some _ => false | None => true end.

(** Takes the address of the new stack buffer; builds the first frame in memory. *)
Definition add `{Profile} (trampoline ptr : Z) (f : string) (g : Scheduler) (m : memory)
    : outcome (TaskId * Scheduler * memory) :=
  let i := next_id g in
  n ← checked 32 (next_id g + 1);
  r ← Task_new trampoline ptr i f DEFAULT_SLICE m;
  let '(t, m') := r in
  let slots' := match position is_none (slots g) with
                | Some hole => vset (slots g) hole (Some t)
                | None => slots g ++ [Some t]
                end in
  Ret (i, mkSched slots' (current g) n (cursor g), m').

Definition find_slot (i : TaskId) (g : Scheduler) : option Z :=
  position (λ s, match s with Some t => id t =? i | None => false end) (slots g).

Definition is_ready (s : option Task) : bool :=
  match s with Some t => bool_decide (state t = Ready) | None => false end.

Definition next_ready `{Profile} (g : Scheduler) : outcome (option Z) :=
  let n := vlen (slots g) in
  r ← for_until (seqZ 0 n) (λ i _,
        c ← checked 64 (cursor g + i);
        let idx := c `mod` n in
        s ← index (slots g) idx;
        if is_ready s then Ret (Return idx) else Ret (Next tt)) tt;
  Ret (match r with Return idx => Some idx | Next _ => None end).

Definition ctx_ptr (i : Z) : CtxPtr := if i =? NO_TASK then BootCtx else SlotCtx i.

Definition prep_switch `{Profile} (idx : Z) (g : Scheduler) : outcome (CtxPtr * CtxPtr * Scheduler) :=
  let old := ctx_ptr (current g) in
  g1 ← update_slot idx (set_state Running) g;
  c ← checked 64 (idx + 1);
  Ret (old, ctx_ptr idx, mkSched (slots g1) idx (next_id g1) c).

Definition init (k : Kern) : Kern := mkKern (sched k) true (ticks k) (irq k) (kmem k).

Definition spawn `{Profile} (trampoline ptr : Z) (f : string) (k : Kern) : outcome (TaskId * Kern) :=
  r ← add trampoline ptr f (sched k) (kmem k);
  let '(i, g, m) := r in
  Ret (i, mkKern g (active k) (ticks k) (irq k) m).

(** Up to [__switch]; [None] ends in [idle]. *)
Definition start `{Profile} (k : Kern) : outcome (option Switch * Kern) :=
  nxt ← next_ready (sched k);
  match nxt with
  | None => Ret (None, set_irq true k)
  | Some idx =>
      let k1 := set_irq false k in
      r ← prep_switch idx (sched k1);
      let '(old, nw, g) := r in
      Ret (Some (mkSwitch old nw true), set_sched g k1)
  end.

Definition demote (t : Task) : Task :=
  if bool_decide (state t = Running) then set_state Ready t else t.

(** Up to [__switch]. *)
Definition schedule `{Profile} (k : Kern) : outcome (option Switch * Kern) :=
  let was_enabled := irq k in
  let k1 := set_irq false k in
  let cur := current (sched k1) in
  g1 ← (if cur =? NO_TASK then Ret (sched k1) else update_slot cur demote (sched k1));
  nxt ← next_ready g1;
  match nxt with
  | Some idx =>
      r ← prep_switch idx g1;
      let '(old, nw, g2) := r in
      Ret (Some (mkSwitch old nw was_enabled), set_sched g2 k1)
  | None =>
      let k2 := set_sched g1 k1 in
      Ret (None, if was_enabled then set_irq true k2 else k2)
  end.

(** What a suspended [schedule] does once [__switch] comes back to it. *)
Definition schedule_resumed (sw : Switch) (k : Kern) : Kern :=
  if sw_resume sw then set_irq true k else k.

Definition yield_now `{Profile} (k : Kern) : outcome (option Switch * Kern) :=
  if active k then schedule k else Ret (None, k).

Definition block_as (b : BlockReason) (t : Task) : Task := set_block b (set_state Blocked t).

Definition sleep `{Profile} (n : Z) (k : Kern) : outcome (option Switch * Kern) :=
  if negb (active k) then Ret (None, k)
  else
    wake ← checked 64 (ticks k + n);
    g ← update_slot (current (sched k)) (block_as (Sleep wake)) (sched k);
    schedule (set_sched g k).

Definition join `{Profile} (i : TaskId) (k : Kern) : outcome (option Switch * Kern) :=
  if negb (active k) then Ret (None, k)
  else
    done ← match find_slot i (sched k) with
           | None => Ret true
           | Some s =>
               o ← index (slots (sched k)) s;
               t ← expect o;
               Ret (bool_decide (state t = Zombie))
           end;
    if (done : bool) then Ret (None, k)
    else
      g ← update_slot (current (sched k)) (block_as (Join i)) (sched k);
      schedule (set_sched g k).

Definition wake (t : Task) : Task := set_block BNone (set_state Ready t).

Definition wake_joiner (dead : TaskId) (s : option Task) : option Task :=
  match s with
  | Some t =>
      if bool_decide (state t = Blocked ∧ block t = Join dead) then Some (wake t) else Some t
  | None => None
  end.

(** Up to [__switch]; [None] ends in [idle]. *)
Definition exit_current `{Profile} (k : Kern) : outcome (option Switch * Kern) :=
  let k1 := set_irq false k in
  let g := sched k1 in
  let cur := current g in
  o ← index (slots g) cur;
  t ← expect o;
  let dead_id := id t in
  let slots1 := vset (slots g) cur (Some (set_state Zombie t)) in
  let slots2 := wake_joiner dead_id <$> slots1 in
  nxt ← next_ready (set_slots slots2 g);
  let g2 := mkSched (vset slots2 cur None) NO_TASK (next_id g) (cursor g) in
  match nxt with
  | Some idx =>
      r ← prep_switch idx g2;
      let '(_, nw, g3) := r in
      Ret (Some (mkSwitch BootCtx nw false), set_sched g3 k1)
  | None => Ret (None, set_irq true (set_sched g2 k1))
  end.

(** The entry of a fresh task: the body to call (with interrupts on), before
    [exit_current]. *)
Definition current_task_body (k : Kern) : outcome (option string * Kern) :=
  let g := sched k in
  o ← index (slots g) (current g);
  t ← expect o;
  let '(f, t') := take_func t in
  let k1 := set_sched (set_slots (vset (slots g) (current g) (Some t')) g) k in
  Ret (f, match f with Some _ => set_irq true k1 | None => k1 end).

Definition wake_sleeper (now : Z) (s : option Task) : option Task :=
  match s with
  | Some t =>
      if bool_decide (state t = Blocked) then
        match block t with
        | Sleep wake_at => if wake_at <=? now then Some (wake t) else Some t
        | _ => Some t
        end
      else Some t
  | None => None
  end.

Definition tick `{Profile} (k : Kern) : outcome (option Switch * Kern) :=
  if negb (active k) then Ret (None, k)
  else
    let now := ticks k in
    let g1 := set_slots (wake_sleeper now <$> slots (sched k)) (sched k) in
    let cur := current g1 in
    if cur =? NO_TASK then Ret (None, set_sched g1 k)
    else
      o ← index (slots g1) cur;
      match o with
      | Some t =>
          if slice t =? 0 then
            let g2 := set_slots (vset (slots g1) cur (Some (set_slice DEFAULT_SLICE t))) g1 in
            schedule (set_sched g2 k)
          else
            let g2 := set_slots (vset (slots g1) cur (Some (set_slice (slice t - 1) t))) g1 in
            Ret (None, set_sched g2 k)
      | None => Ret (None, set_sched g1 k)
      end.

Definition task_count (k : Kern) : Z :=
  vlen (filter (λ s, is_none s = false) (slots (sched k))).

Definition state_name (s : TaskState) : string :=
  match s with
  | Ready => "ready" | Running => "running" | Blocked => "blocked" | Zombie => "zombie"
  end.

Definition snapshot (k : Kern) : list (Z * string) :=
  omap (λ s, match s with Some t => Some (id t, state_name (state t)) | None => None end)
    (slots (sched k)).

End scheduler.

(** timer.rs *)
Module timer.
Import scheduler.

Definition HZ : Z := 100.
Definition PIT_BASE_FREQUENCY : Z := 1193182.

(** [fetch_add] wraps. *)
Definition timer_tick (k : Kern) : Kern :=
  mkKern (sched k) (active k) (wrap 64 (ticks k + 1)) (irq k) (kmem k).

(** The three port writes of [timer::init]: command, low byte, high byte. *)
Definition timer_init : list (Z * Z) :=
  let divisor := wrap 16 (PIT_BASE_FREQUENCY `div` HZ) in
  [(0x43, 0x36); (0x40, wrap 8 divisor); (0x40, wrap 8 (Z.shiftr divisor 8))].
End timer.
Import scheduler.

(** ** The task table *)

Definition slot (g : Scheduler) (i : Z) : option Task := mjoin (vget (slots g) i).

Lemma slot_Some g i t : slot g i = Some t ↔ vget (slots g) i = Some (Some t).
Proof. unfold slot. destruct (vget (slots g) i) as [[]|]; simpl; naive_solver. Qed.

Lemma slot_lt g i t : slot g i = Some t → 0 ≤ i < vlen (slots g).
Proof. intros H%slot_Some. by apply vget_lt in H. Qed.

Definition task_ok (t : Task) : Prop :=
  state t ≠ Zombie ∧ (state t = Blocked ↔ block t ≠ BNone) ∧ 0 ≤ slice t ≤ DEFAULT_SLICE.

(** The scheduler invariant. *)
Record sched_wf (g : Scheduler) : Prop := {
  sw_cursor : 0 ≤ cursor g ≤ vlen (slots g);
  sw_next : vlen (slots g) < next_id g ∧ fits 32 (next_id g);
  sw_ids i t : slot g i = Some t → 1 ≤ id t < next_id g;
  sw_uniq i j t u : slot g i = Some t → slot g j = Some u → id t = id u → i = j;
  sw_current : current g = NO_TASK ∨ ∃ t, slot g (current g) = Some t;
  sw_running i t : slot g i = Some t → state t = Running → i = current g;
  sw_task i t : slot g i = Some t → task_ok t;
}.

Lemma slot_not_NO_TASK g i t : sched_wf g → slot g i = Some t → i ≠ NO_TASK.
Proof.
  intros [_ [Hl Hf] _ _ _ _ _] Hs%slot_lt. unfold NO_TASK, U64_MAX, fits in *. lia.
Qed.

Lemma no_slot_NO_TASK g : sched_wf g → slot g NO_TASK = None.
Proof.
  intros Hw. destruct (slot g NO_TASK) eqn:E; [|done]. by destruct (slot_not_NO_TASK _ _ _ Hw E).
Qed.

(** Every operation but [add] rewrites or drops tasks in place, slot by slot. *)
Lemma wf_modify g g' (h : Z → Task → option Task) :
  sched_wf g →
  (∀ i, slot g' i = slot g i ≫= h i) →
  vlen (slots g') = vlen (slots g) → next_id g' = next_id g →
  0 ≤ cursor g' ≤ vlen (slots g) →
  (current g' = NO_TASK ∨ ∃ t, slot g' (current g') = Some t) →
  (∀ i t u, slot g i = Some t → h i t = Some u →
     id u = id t ∧ task_ok u ∧ (state u = Running → i = current g')) →
  sched_wf g'.
Proof.
  intros Hw Hs Hlen Hn Hc Hcur Hh.
  assert (∀ i u, slot g' i = Some u → ∃ t, slot g i = Some t ∧ h i t = Some u) as Hinv.
  { intros i u. rewrite Hs. destruct (slot g i) as [t|]; [by eauto|done]. }
  constructor.
  - by rewrite Hlen.
  - rewrite Hlen, Hn. apply Hw.
  - intros i u (t & Ht & Hu)%Hinv. destruct (Hh _ _ _ Ht Hu) as (-> & _).
    rewrite Hn. by eapply sw_ids.
  - intros i j u v (t & Ht & Hu)%Hinv (t' & Ht' & Hv)%Hinv Hid.
    destruct (Hh _ _ _ Ht Hu) as (He & _). destruct (Hh _ _ _ Ht' Hv) as (He' & _).
    eapply (sw_uniq g); eauto. congruence.
  - done.
  - intros i u (t & Ht & Hu)%Hinv Hr. by eapply Hh.
  - intros i u (t & Ht & Hu)%Hinv. by eapply Hh.
Qed.

Lemma slot_set_slots_vset g i o j :
  0 ≤ i < vlen (slots g) →
  slot (set_slots (vset (slots g) i o) g) j = if bool_decide (j = i) then o else slot g j.
Proof.
  intros Hi. unfold slot. simpl. rewrite vget_vset. case_bool_decide as H; case_bool_decide; try done.
  - naive_solver.
  - exfalso. apply H. naive_solver.
Qed.

Lemma slot_set_slots_map g (F : option Task → option Task) j :
  F None = None → slot (set_slots (F <$> slots g) g) j = slot g j ≫= λ t, F (Some t).
Proof.
  intros HN. unfold slot. simpl. destruct (decide (0 ≤ j)) as [Hj|Hj].
  - rewrite <- (Z2Nat.id j) by done. rewrite !vget_nat, list_lookup_fmap.
    by destruct (slots g !! Z.to_nat j) as [[]|].
  - rewrite !(proj2 (vget_None _ j)) by lia. done.
Qed.

(** ** Choosing the next task *)

(** How far slot [j] is from the scan's start, going round. *)
Definition rr_dist (g : Scheduler) (j : Z) : Z := (j - cursor g) `mod` vlen (slots g).

Definition ready_at (g : Scheduler) (i : Z) : Prop :=
  ∃ t, slot g i = Some t ∧ state t = Ready.

Lemma ready_at_is_ready g i :
  ready_at g i ↔ ∃ s, vget (slots g) i = Some s ∧ is_ready s = true.
Proof.
  unfold ready_at, is_ready. split.
  - intros (t & Ht%slot_Some & Hr). exists (Some t). split; [done|]. by apply bool_decide_eq_true.
  - intros ([t|] & Hs & Hr); [|done]. exists t. rewrite slot_Some. by apply bool_decide_eq_true in Hr.
Qed.

Lemma next_ready_spec `{Profile} g : 0 ≤ cursor g ≤ vlen (slots g) → vlen (slots g) < 2 ^ 32 →
  (next_ready g = Ret None ∧ ∀ i, ¬ ready_at g i) ∨
  (∃ idx, next_ready g = Ret (Some idx) ∧ ready_at g idx ∧
     ∀ j, ready_at g j → rr_dist g idx ≤ rr_dist g j).
Proof.
  intros Hc Hlen. unfold next_ready. set (n := vlen (slots g)).
  assert (∀ i, 0 ≤ i < n → ∀ j, (cursor g + i) `mod` n = j ↔ 0 ≤ j < n ∧ i = rr_dist g j) as Hij.
  { intros i Hi j. unfold rr_dist. fold n. split.
    - intros <-. split; [apply Z.mod_pos_bound; lia|].
      rewrite Zminus_mod_idemp_l, Z.add_simpl_l. by rewrite Z.mod_small.
    - intros [Hj ->]. rewrite Zplus_mod_idemp_r.
      replace (cursor g + (j - cursor g)) with j by lia. by apply Z.mod_small. }
  match goal with |- context [for_until _ ?body tt] =>
  destruct (for_until_next (λ pre _, ∀ j, rr_dist g j ∈ pre → ¬ ready_at g j) body
    (λ idx, ready_at g idx ∧ ∀ j, ready_at g j → rr_dist g idx ≤ rr_dist g j)
    (seqZ 0 n) [] tt) as [([] & -> & HI)|(idx & -> & Hidx)] end.
  - intros j Hn. by apply not_elem_of_nil in Hn.
  - intros pre i [] suf [Hi Hpre]%seqZ_split HI. set (idx := (cursor g + i) `mod` n).
    assert (0 ≤ idx < n ∧ i = rr_dist g idx) as [Hidx Hd] by (by apply Hij).
    rewrite checked_fits by (unfold fits; fold n in Hc, Hlen; lia). cbn [mbind outcome_bind]. fold idx.
    destruct (vget_in (slots g) idx Hidx) as [s Hs]. rewrite (index_vget _ _ _ Hs). simpl.
    destruct (is_ready s) eqn:Hr.
    + right. exists idx. split; [done|]. split; [apply ready_at_is_ready; eauto|].
      intros j Hj. apply Z.nlt_ge. intros Hlt. eapply HI; [|exact Hj]. apply Hpre.
      split; [|lia]. apply Z.mod_pos_bound. lia.
    + left. exists tt. split; [done|]. intros j. rewrite elem_of_app, list_elem_of_singleton.
      intros [?|Hji] Hrj; [by eapply HI|].
      assert (j = idx) as ->;
        [|apply ready_at_is_ready in Hrj as (s' & Hs' & Hr'); congruence].
      symmetry. apply Hij; [lia|]. split; [|done]. destruct Hrj as (t & Ht & _).
      by eapply slot_lt.
  - left. split; [done|]. intros j Hj. eapply HI; [|done]. simpl. apply elem_of_seqZ.
    destruct Hj as (t & Ht%slot_lt & _). fold n in Ht. unfold rr_dist. fold n.
    pose proof (Z.mod_pos_bound (j - cursor g) n). lia.
  - right. exists idx. by destruct Hidx.
Qed.

(** ** Effects of the building blocks *)

Definition put (i : Z) (t : Task) (g : Scheduler) : Scheduler :=
  set_slots (vset (slots g) i (Some t)) g.

Definition dispatch (idx : Z) (t : Task) (g : Scheduler) : Scheduler :=
  mkSched (slots (put idx (set_state Running t) g)) idx (next_id g) (idx + 1).

Definition none_running (g : Scheduler) : Prop :=
  ∀ i t, slot g i = Some t → state t ≠ Running.

Lemma slot_put g i u t j :
  slot g i = Some t → slot (put i u g) j = if bool_decide (j = i) then Some u else slot g j.
Proof. intros Hs%slot_lt. by apply slot_set_slots_vset. Qed.

Lemma update_slot_put g i f t :
  slot g i = Some t → update_slot i f g = Ret (put i (f t) g).
Proof. intros Hs%slot_Some. unfold update_slot. by rewrite (index_vget _ _ _ Hs). Qed.

Lemma vlen_put g i t : vlen (slots (put i t g)) = vlen (slots g).
Proof. unfold put. simpl. apply vlen_vset. Qed.

Lemma wf_put g i t u :
  sched_wf g → slot g i = Some t → id u = id t → task_ok u →
  (state u = Running → i = current g) → sched_wf (put i u g).
Proof.
  intros Hw Hs Hid Hok Hrun.
  apply (wf_modify g _ (λ j v, Some (if bool_decide (j = i) then u else v)));
    rewrite ?vlen_put; try done.
  - intros j. rewrite (slot_put g i u t j Hs). case_bool_decide as E; subst.
    + by rewrite Hs.
    + by destruct (slot g j).
  - apply Hw.
  - destruct (sw_current g Hw) as [Hc|[v Hv]]; [by left|right].
    change (current (put i u g)) with (current g).
    rewrite (slot_put g i u t _ Hs). case_bool_decide; eauto.
  - intros j v w Hv [= <-]. change (current (put i u g)) with (current g).
    case_bool_decide as E; [subst|].
    + assert (v = t) as -> by congruence. done.
    + split_and!; [done|by eapply sw_task|by intros; eapply sw_running].
Qed.

Lemma wf_map g F :
  sched_wf g → F None = None →
  (∀ t, task_ok t → ∃ u, F (Some t) = Some u ∧ id u = id t ∧ task_ok u ∧
     (state u = Running → state t = Running)) →
  sched_wf (set_slots (F <$> slots g) g).
Proof.
  intros Hw HN HF.
  apply (wf_modify g _ (λ _ t, F (Some t))); simpl; rewrite ?vlen_fmap; try done.
  - intros i. by apply slot_set_slots_map.
  - apply Hw.
  - destruct (sw_current g Hw) as [Hc|[v Hv]]; [by left|right].
    rewrite slot_set_slots_map, Hv by done. simpl.
    destruct (HF v) as (u & -> & _); [by eapply sw_task|eauto].
  - intros i t u Ht Hu. destruct (HF t) as (u' & Hu' & Hid & Hok & Hr); [by eapply sw_task|].
    assert (u' = u) as -> by congruence. split_and!; [done..|].
    intros Hx. eapply sw_running; eauto.
Qed.

Section ops.
Context `{Profile}.

Lemma prep_switch_dispatch g idx t :
  sched_wf g → slot g idx = Some t →
  prep_switch idx g = Ret (ctx_ptr (current g), SlotCtx idx, dispatch idx t g).
Proof.
  intros Hw Hs. unfold prep_switch. rewrite (update_slot_put _ _ _ _ Hs). simpl.
  pose proof (slot_lt _ _ _ Hs). destruct (sw_next g Hw) as [? [? ?]].
  rewrite checked_fits by (unfold fits; lia). simpl. unfold ctx_ptr at 2.
  rewrite (proj2 (Z.eqb_neq _ _)) by (by eapply slot_not_NO_TASK). done.
Qed.

Lemma wf_dispatch g idx t :
  sched_wf g → none_running g → slot g idx = Some t → state t = Ready →
  sched_wf (dispatch idx t g).
Proof.
  intros Hw Hnr Hs Hr. pose proof (slot_lt _ _ _ Hs).
  assert (∀ j, slot (dispatch idx t g) j =
    if bool_decide (j = idx) then Some (set_state Running t) else slot g j) as Hsl.
  { intros j. by apply (slot_put g idx (set_state Running t) t j). }
  apply (wf_modify g _ (λ j v, Some (if bool_decide (j = idx) then set_state Running t else v)));
    simpl; rewrite ?vlen_vset; try done; try lia.
  - intros j. rewrite Hsl. case_bool_decide as E; subst; [by rewrite Hs|by destruct (slot g j)].
  - right. eexists. rewrite Hsl. by rewrite bool_decide_true.
  - intros j v w Hv [= <-]. case_bool_decide as E; [subst|].
    + assert (v = t) as -> by congruence. destruct (sw_task g Hw _ _ Hs) as (H1 & H2 & H3).
      split_and!; [done| |done]. split_and!; [done| |apply H3..].
      rewrite Hr in H2. simpl. intuition congruence.
    + split_and!; [done|by eapply sw_task|]. intros Hx. by destruct (Hnr _ _ Hv).
Qed.

(** [next_ready] and then [prep_switch]. *)
Lemma pick g :
  sched_wf g → none_running g →
  (next_ready g = Ret None ∧ ∀ i, ¬ ready_at g i) ∨
  (∃ idx t, next_ready g = Ret (Some idx) ∧ slot g idx = Some t ∧ state t = Ready ∧
     (∀ j, ready_at g j → rr_dist g idx ≤ rr_dist g j) ∧
     prep_switch idx g = Ret (ctx_ptr (current g), SlotCtx idx, dispatch idx t g) ∧
     sched_wf (dispatch idx t g)).
Proof.
  intros Hw Hnr. destruct (sw_next g Hw) as [Hl [_ Hn]].
  destruct (next_ready_spec g (sw_cursor g Hw)) as [?|(idx & E & (t & Ht & Hr) & Hmin)];
    [lia|by left|].
  right. exists idx, t. split_and!; try done; [by apply prep_switch_dispatch|by apply wf_dispatch].
Qed.

(** The demotion step of [schedule]. *)
Definition demoted (g : Scheduler) : Scheduler :=
  match slot g (current g) with Some t => put (current g) (demote t) g | None => g end.

Lemma demote_id t : id (demote t) = id t.
Proof. unfold demote. by case_bool_decide. Qed.

Lemma demote_ok t : task_ok t → task_ok (demote t) ∧ state (demote t) ≠ Running.
Proof.
  unfold demote, task_ok. case_bool_decide as E; [|done]. rewrite E. intros (_ & Hb & Hs).
  simpl. split; [|done]. split_and!; [done| |lia..]. split; [done|]. intros Hx. by apply Hb in Hx.
Qed.

Lemma schedule_demotes g :
  sched_wf g →
  (if current g =? NO_TASK then Ret g else update_slot (current g) demote g) = Ret (demoted g).
Proof.
  intros Hw. unfold demoted. case (Z.eqb_spec (current g) NO_TASK) as [->|Hc].
  - by rewrite no_slot_NO_TASK.
  - destruct (sw_current g Hw) as [|[t Ht]]; [done|]. rewrite Ht. by apply update_slot_put.
Qed.

Lemma demoted_wf g : sched_wf g → sched_wf (demoted g) ∧ none_running (demoted g).
Proof.
  intros Hw. unfold demoted. destruct (slot g (current g)) as [t|] eqn:Ht.
  - destruct (demote_ok t) as [Hok Hnr]; [by eapply sw_task|]. split.
    + eapply wf_put; eauto using demote_id.
    + intros i u. rewrite (slot_put _ _ _ _ _ Ht). case_bool_decide as E; [by intros [= <-]|].
      intros Hu Hr. by eapply E, sw_running.
  - split; [done|]. intros i u Hu Hr.
    pose proof (sw_running g Hw _ _ Hu Hr) as ->. congruence.
Qed.

Lemma demoted_frame g :
  current (demoted g) = current g ∧ next_id (demoted g) = next_id g ∧
  cursor (demoted g) = cursor g ∧ vlen (slots (demoted g)) = vlen (slots g).
Proof. unfold demoted. destruct (slot g (current g)); rewrite ?vlen_put; done. Qed.

Lemma demoted_slot g j : sched_wf g → slot (demoted g) j = demote <$> slot g j.
Proof.
  intros Hw. unfold demoted. destruct (slot g (current g)) as [t|] eqn:Ht.
  - rewrite (slot_put _ _ _ _ _ Ht). case_bool_decide as E; subst; [by rewrite Ht|].
    destruct (slot g j) as [u|] eqn:Hu; [|done]. simpl. unfold demote.
    case_bool_decide as Hr; [|done]. by destruct E; eapply sw_running.
  - destruct (slot g j) as [u|] eqn:Hu; [|done]. simpl. unfold demote.
    case_bool_decide as Hr; [|done]. pose proof (sw_running g Hw _ _ Hu Hr) as ->. congruence.
Qed.

(** [schedule] up to the switch. *)
Lemma schedule_spec k :
  sched_wf (sched k) →
  let g := demoted (sched k) in
  (schedule k = Ret (None, set_sched g k) ∧ ∀ i, ¬ ready_at g i) ∨
  (∃ idx t, schedule k = Ret (Some (mkSwitch (ctx_ptr (current (sched k))) (SlotCtx idx) (irq k)),
              set_sched (dispatch idx t g) (set_irq false k)) ∧
     slot g idx = Some t ∧ state t = Ready ∧
     (∀ j, ready_at g j → rr_dist g idx ≤ rr_dist g j) ∧
     sched_wf (dispatch idx t g)).
Proof.
  intros Hw g. destruct (demoted_wf _ Hw) as [Hw1 Hnr]. unfold schedule.
  change (sched (set_irq false k)) with (sched k). rewrite schedule_demotes by done.
  cbn [mbind outcome_bind]. fold g. destruct (demoted_frame (sched k)) as (Hc & _).
  destruct (pick g Hw1 Hnr) as [[-> Hno]|(idx & t & -> & Hs & Hr & Hm & Hp & Hw2)];
    cbn [mbind outcome_bind].
  - left. split; [|done]. destruct k as [? ? ? []]; done.
  - right. exists idx, t. rewrite Hp. cbn [mbind outcome_bind]. fold g in Hc. rewrite Hc. done.
Qed.
End ops.

(** ** What an operation does to the tasks that wait for the CPU *)

Definition cur_slice (g : Scheduler) : Z :=
  match slot g (current g) with Some t => task.slice t | None => 0 end.

(** [j] is runnable and somebody else has the CPU. *)
Definition waiting (g : Scheduler) (j : Z) : Prop :=
  ready_at g j ∧ j ≠ current g ∧ current g ≠ NO_TASK.

(** Rewriting slots without moving the cursor or unreadying anybody else. *)
Record quiet (g g' : Scheduler) : Prop := {
  q_cursor : cursor g' = cursor g;
  q_current : current g' = current g;
  q_vlen : vlen (slots g') = vlen (slots g);
  q_ready j : j ≠ current g → ready_at g j → ready_at g' j;
}.

(** One operation, from [g] to [g'] with the switch [o] if it made one. *)
Record moves (g : Scheduler) (o : option Switch) (g' : Scheduler) : Prop := {
  mv_wf : sched_wf g';
  mv_switch sw : o = Some sw →
    (sw_old sw = ctx_ptr (current g) ∨ sw_old sw = BootCtx) ∧
    sw_new sw = SlotCtx (current g') ∧
    ∃ t, slot g' (current g') = Some t ∧ state t = Running;
  mv_wait j : waiting g j →
    match o with
    | None => waiting g' j ∧ rr_dist g' j ≤ rr_dist g j + (vlen (slots g') - vlen (slots g))
    | Some _ => current g' = j ∨ (waiting g' j ∧ rr_dist g' j < rr_dist g j)
    end;
  mv_vlen : vlen (slots g) ≤ vlen (slots g') ∧
    (o ≠ None → vlen (slots g') = vlen (slots g));
}.

Lemma rr_dist_frame g g' j :
  cursor g' = cursor g → vlen (slots g') = vlen (slots g) → rr_dist g' j = rr_dist g j.
Proof. unfold rr_dist. by intros -> ->. Qed.

Lemma rr_dist_bound g j : 0 < vlen (slots g) → 0 ≤ rr_dist g j < vlen (slots g).
Proof. intros. unfold rr_dist. by apply Z.mod_pos_bound. Qed.

Lemma rr_dist_inj g i j :
  0 ≤ i < vlen (slots g) → 0 ≤ j < vlen (slots g) → rr_dist g i = rr_dist g j → i = j.
Proof.
  unfold rr_dist. set (n := vlen (slots g)). intros Hi Hj He.
  assert (∀ x, 0 ≤ x < n → (cursor g + (x - cursor g) `mod` n) `mod` n = x) as Hx.
  { intros x Hx. rewrite Zplus_mod_idemp_r.
    replace (cursor g + (x - cursor g)) with x by lia. by apply Z.mod_small. }
  rewrite <- (Hx i Hi), <- (Hx j Hj). by rewrite He.
Qed.

Lemma quiet_waiting g g' j : quiet g g' → waiting g j → waiting g' j ∧ rr_dist g' j = rr_dist g j.
Proof.
  intros [Hc Hcur Hn Hr] (H1 & H2 & H3). split; [|by apply rr_dist_frame].
  unfold waiting. rewrite Hcur. auto.
Qed.

Lemma quiet_trans g1 g2 g3 : quiet g1 g2 → quiet g2 g3 → quiet g1 g3.
Proof.
  intros [c1 u1 v1 r1] [c2 u2 v2 r2].
  constructor; [congruence..|]. intros j Hj Hr. rewrite <- u1 in Hj. apply r2; [done|].
  apply r1; [congruence|done].
Qed.

Lemma quiet_put g t u : slot g (current g) = Some t → quiet g (put (current g) u g).
Proof.
  intros Hs. constructor; [done|done|apply vlen_put|].
  intros j Hj (v & Hv & Hr). exists v. rewrite (slot_put _ _ _ _ _ Hs).
  by rewrite bool_decide_false.
Qed.

Lemma quiet_map g F :
  F None = None → (∀ t, state t = Ready → F (Some t) = Some t) →
  quiet g (set_slots (F <$> slots g) g).
Proof.
  intros HN HR. constructor; [done|done|simpl; apply vlen_fmap|].
  intros j _ (v & Hv & Hr). exists v. rewrite slot_set_slots_map, Hv by done. simpl. auto.
Qed.

Lemma quiet_demoted g : sched_wf g → quiet g (demoted g).
Proof.
  intros Hw. unfold demoted. destruct (slot g (current g)) as [t|] eqn:E; [by eapply quiet_put|].
  by constructor.
Qed.

Lemma moves_quiet g g' : sched_wf g' → quiet g g' → moves g None g'.
Proof.
  intros Hw Hq. constructor; [done|done| |].
  - intros j Hj. destruct (quiet_waiting _ _ _ Hq Hj) as [? ->].
    rewrite (q_vlen _ _ Hq). split; [done|lia].
  - rewrite (q_vlen _ _ Hq). split; [lia|done].
Qed.

Lemma moves_trans_quiet g g1 o g' : quiet g g1 → moves g1 o g' → moves g o g'.
Proof.
  intros Hq [Hw Hs Hwt Hv]. rewrite (q_vlen _ _ Hq) in Hv. constructor; [done| | |done].
  - rewrite <- (q_current _ _ Hq). exact Hs.
  - intros j Hj. destruct (quiet_waiting _ _ _ Hq Hj) as [Hj1 Hd].
    specialize (Hwt j Hj1). rewrite Hd, (q_vlen _ _ Hq) in Hwt. exact Hwt.
Qed.

(** Everybody passed over gets strictly closer to the front. *)
Lemma dispatch_closer g idx t j :
  0 ≤ cursor g ≤ vlen (slots g) →
  slot g idx = Some t → ready_at g j → rr_dist g idx ≤ rr_dist g j → j ≠ idx →
  ready_at (dispatch idx t g) j ∧ rr_dist (dispatch idx t g) j < rr_dist g j.
Proof.
  intros Hc Hs Hr Hle Hne. pose proof (slot_lt _ _ _ Hs) as Hi.
  assert (0 ≤ j < vlen (slots g)) as Hj by (destruct Hr as (u & Hu & _); by eapply slot_lt).
  split.
  - destruct Hr as (u & Hu & Hr). exists u. split; [|done].
    change (slot (put idx (set_state Running t) g) j = Some u).
    rewrite (slot_put _ _ _ _ _ Hs). by rewrite bool_decide_false.
  - assert (rr_dist g idx ≠ rr_dist g j) as Hd.
    { intros E. apply Hne. symmetry. by apply (rr_dist_inj g idx j). }
    pose proof (rr_dist_bound g idx ltac:(lia)). pose proof (rr_dist_bound g j ltac:(lia)).
    assert (rr_dist (dispatch idx t g) j =
      (rr_dist g j - rr_dist g idx - 1) `mod` vlen (slots g)) as ->; [|rewrite Z.mod_small; lia].
    unfold rr_dist. simpl. rewrite vlen_vset.
    rewrite <- (Zminus_mod_idemp_l (_ - _)), <- Zminus_mod, Zminus_mod_idemp_l.
    f_equal. lia.
Qed.

Section ops.
Context `{Profile}.

Lemma moves_dispatch g g1 k0 b idx t :
  sched_wf g1 → (k0 = ctx_ptr (current g) ∨ k0 = BootCtx) →
  cursor g1 = cursor g → vlen (slots g1) = vlen (slots g) →
  (∀ j, waiting g j → ready_at g1 j) →
  slot g1 idx = Some t → state t = Ready →
  (∀ j, ready_at g1 j → rr_dist g1 idx ≤ rr_dist g1 j) →
  sched_wf (dispatch idx t g1) →
  moves g (Some (mkSwitch k0 (SlotCtx idx) b)) (dispatch idx t g1).
Proof.
  intros Hw Hk Hcu Hlen Hwt Hs Hr Hmin Hw'. constructor; [done| | |].
  - intros sw [= <-]. split_and!; [done..|]. exists (set_state Running t). split; [|done].
    change (slot (put idx (set_state Running t) g1) idx = Some (set_state Running t)).
    rewrite (slot_put _ _ _ _ _ Hs). by rewrite bool_decide_true.
  - intros j Hjw. pose proof (Hwt j Hjw) as Hj. change (current (dispatch idx t g1)) with idx.
    destruct (decide (idx = j)) as [|Hne]; [by left|right].
    rewrite <- (rr_dist_frame g g1 j) by done.
    destruct (dispatch_closer g1 idx t j (sw_cursor g1 Hw) Hs Hj (Hmin j Hj)) as [? ?]; [done|].
    split; [|done]. split; [done|]. split; [done|].
    exact (slot_not_NO_TASK g1 idx t Hw Hs).
  - simpl. rewrite vlen_vset, Hlen. lia.
Qed.

Lemma schedule_moves k :
  sched_wf (sched k) →
  ∃ o k', schedule k = Ret (o, k') ∧ moves (sched k) o (sched k') ∧
    active k' = active k ∧ ticks k' = ticks k ∧ kmem k' = kmem k ∧
    (o = None → cur_slice (sched k') = cur_slice (sched k) ∧ ∀ j, ¬ waiting (sched k) j).
Proof.
  intros Hw. destruct (demoted_wf _ Hw) as [Hw1 _]. pose proof (quiet_demoted _ Hw) as Hq.
  destruct (schedule_spec k Hw) as [[-> Hno]|(idx & t & -> & Hs & Hr & Hm & Hw2)].
  - eexists _, _. split; [done|]. split_and!; try done; [by apply moves_quiet|].
    intros _. split; [|intros j (Hj & Hjc & _); by eapply Hno, (q_ready _ _ Hq)].
    simpl. unfold cur_slice. rewrite (q_current _ _ Hq), demoted_slot by done.
    destruct (slot (sched k) _) as [t|]; [|done]. simpl. unfold demote. by case_bool_decide.
  - eexists _, _. split; [done|]. split_and!; try done.
    apply moves_dispatch; try done; [by left|apply Hq..|].
    intros j (Hj & Hjc & _). by apply (q_ready _ _ Hq).
Qed.

(** The common shape of the blocking operations: rewrite the current task,
    then [schedule]. *)
Lemma put_schedule k t u :
  sched_wf (sched k) → slot (sched k) (current (sched k)) = Some t →
  id u = id t → task_ok u →
  ∃ o k', schedule (set_sched (put (current (sched k)) u (sched k)) k) = Ret (o, k') ∧
    moves (sched k) o (sched k') ∧
    active k' = active k ∧ ticks k' = ticks k ∧ kmem k' = kmem k ∧
    (o = None → cur_slice (sched k') = task.slice u ∧ ∀ j, ¬ waiting (sched k) j).
Proof.
  intros Hw Hs Hid Hok. set (g1 := put _ u _).
  pose proof (quiet_put (sched k) t u Hs) as Hq.
  assert (sched_wf g1) as Hw1 by (by eapply wf_put).
  destruct (schedule_moves (set_sched g1 k) Hw1) as (o & k' & E & Hm & Ha & Ht & Hk & Hno).
  exists o, k'. split; [done|]. split; [by eapply moves_trans_quiet|]. split_and!; [done..|].
  intros Ho. destruct (Hno Ho) as [-> Hno']. split.
  - unfold cur_slice. change (sched (set_sched g1 k)) with g1.
    change (current g1) with (current (sched k)). unfold g1. rewrite (slot_put _ _ _ _ _ Hs).
    by rewrite bool_decide_true.
  - intros j Hj. by eapply Hno', quiet_waiting.
Qed.

Lemma block_as_ok b t : b ≠ BNone → task_ok t → task_ok (block_as b t).
Proof. intros Hb (_ & _ & Hs). split_and!; [done| |apply Hs..]. simpl. tauto. Qed.

Lemma current_Some g : sched_wf g → current g ≠ NO_TASK → ∃ t, slot g (current g) = Some t.
Proof. intros Hw Hc. by destruct (sw_current g Hw). Qed.
End ops.

(** ** Every operation *)

Inductive event :=
  | ESpawn (trampoline ptr : Z) (f : string)
  | EStart
  | EBody                  (* a fresh task reaches [current_task_body] *)
  | EYield
  | ESleep (n : Z)
  | EJoin (i : TaskId)
  | EExit
  | ETimer.                (* IRQ0: the clock, then the scheduler *)

Definition step `{Profile} (e : event) (k : Kern) : outcome (option Switch * Kern) :=
  match e with
  | ESpawn tr ptr f => r ← spawn tr ptr f k; Ret (None, snd r)
  | EStart => start k
  | EBody => r ← current_task_body k; Ret (None, snd r)
  | EYield => yield_now k
  | ESleep n => sleep n k
  | EJoin i => join i k
  | EExit => exit_current k
  | ETimer => tick (timer.timer_tick k)
  end.

(** What the callers guarantee: a task calls the operations of a task, ids and
    ticks have not run out, the heap returns addresses of the address space. *)
Definition legal (e : event) (k : Kern) : Prop :=
  match e with
  | ESpawn _ ptr _ =>
      fits 32 (next_id (sched k) + 1) ∧ 0 ≤ ptr ∧ ptr + KERNEL_STACK_SIZE + 15 < 2 ^ 64
  | EStart => current (sched k) = NO_TASK
  | EYield | ETimer => True
  | ESleep n => current (sched k) ≠ NO_TASK ∧ fits 64 (ticks k + n)
  | EBody | EJoin _ | EExit => current (sched k) ≠ NO_TASK
  end.

Section ops.
Context `{Profile}.

(** What one step guarantees, besides [moves]. *)
Definition good_step (e : event) (k : Kern) : Prop :=
  ∃ o k', step e k = Ret (o, k') ∧ moves (sched k) o (sched k') ∧ active k' = active k ∧
    (o = None → ∀ j, waiting (sched k) j →
       (e = ETimer → active k = true → cur_slice (sched k') = cur_slice (sched k) - 1) ∧
       (e ≠ ETimer → cur_slice (sched k') = cur_slice (sched k))).

Lemma good_quiet e k k' :
  step e k = Ret (None, k') → e ≠ ETimer → sched_wf (sched k') → quiet (sched k) (sched k') →
  active k' = active k → cur_slice (sched k') = cur_slice (sched k) → good_step e k.
Proof.
  intros E He Hw Hq Ha Hs. exists None, k'. split_and!; [done|by apply moves_quiet|done|]. done.
Qed.

Lemma cur_slice_put g t u :
  slot g (current g) = Some t → cur_slice (put (current g) u g) = task.slice u.
Proof.
  intros Hs. unfold cur_slice. change (current (put (current g) u g)) with (current g).
  by rewrite (slot_put _ _ _ _ _ Hs), bool_decide_true.
Qed.

Lemma good_body k : sched_wf (sched k) → legal EBody k → good_step EBody k.
Proof.
  intros Hw Hc. destruct (current_Some _ Hw Hc) as [t Ht].
  pose proof (proj1 (slot_Some _ _ _) Ht) as Hv.
  assert (∃ k', current_task_body k = Ret (func t, k') ∧ active k' = active k ∧
    sched k' = put (current (sched k)) (snd (take_func t)) (sched k)) as (k' & E & Ha & Hg).
  { unfold current_task_body. rewrite (index_vget _ _ _ Hv). simpl.
    eexists. split; [done|]. by destruct (func t). }
  apply (good_quiet EBody k k').
  - simpl. by rewrite E.
  - done.
  - rewrite Hg. eapply wf_put; [done|exact Ht|done| |done]. by eapply (sw_task _ Hw _ t).
  - rewrite Hg. by eapply quiet_put.
  - done.
  - rewrite Hg, (cur_slice_put _ _ _ Ht). unfold cur_slice. by rewrite Ht.
Qed.

Lemma good_schedule e k :
  e ≠ ETimer → sched_wf (sched k) → step e k = schedule k → good_step e k.
Proof.
  intros He Hw E. destruct (schedule_moves k Hw) as (o & k' & E' & Hm & Ha & _ & _ & Hno).
  exists o, k'. split_and!; [by rewrite E|done|done|]. intros Ho j Hj. by destruct (proj2 (Hno Ho) j).
Qed.

Lemma good_put_schedule e k t u :
  e ≠ ETimer → sched_wf (sched k) → slot (sched k) (current (sched k)) = Some t →
  id u = id t → task_ok u →
  step e k = schedule (set_sched (put (current (sched k)) u (sched k)) k) → good_step e k.
Proof.
  intros He Hw Hs Hid Hok E.
  destruct (put_schedule k t u Hw Hs Hid Hok) as (o & k' & E' & Hm & Ha & _ & _ & Hno).
  exists o, k'. split_and!; [by rewrite E|done|done|]. intros Ho j Hj. by destruct (proj2 (Hno Ho) j).
Qed.

Lemma good_idle e k :
  e ≠ ETimer → sched_wf (sched k) → step e k = Ret (None, k) → good_step e k.
Proof. intros He Hw E. by apply (good_quiet e k k). Qed.

Lemma good_yield k : sched_wf (sched k) → good_step EYield k.
Proof.
  intros Hw. destruct (active k) eqn:Ha.
  - apply good_schedule; [done|done|]. simpl. unfold yield_now. by rewrite Ha.
  - apply good_idle; [done|done|]. simpl. unfold yield_now. by rewrite Ha.
Qed.

Lemma good_sleep n k : sched_wf (sched k) → legal (ESleep n) k → good_step (ESleep n) k.
Proof.
  intros Hw [Hc Hf]. destruct (current_Some _ Hw Hc) as [t Ht].
  destruct (active k) eqn:Ha.
  - eapply (good_put_schedule _ _ t (block_as (Sleep (ticks k + n)) t)); try done.
    + apply block_as_ok; [done|by eapply sw_task].
    + simpl. unfold sleep. rewrite Ha. simpl. rewrite checked_fits by done. simpl.
      by rewrite (update_slot_put _ _ _ _ Ht).
  - apply good_idle; [done|done|]. simpl. unfold sleep. by rewrite Ha.
Qed.

Lemma find_slot_Some i g s :
  find_slot i g = Some s → ∃ t, slot g s = Some t ∧ id t = i.
Proof.
  unfold find_slot. rewrite position_Some. intros [([t|] & Ht & Hi) _]; [|done].
  exists t. rewrite slot_Some. split; [done|]. by apply Z.eqb_eq.
Qed.

(** [join]: nothing to wait for, or block and switch. *)
Lemma join_eq i k t :
  sched_wf (sched k) → active k = true → slot (sched k) (current (sched k)) = Some t →
  join i k = match find_slot i (sched k) with
             | None => Ret (None, k)
             | Some _ => schedule (set_sched (put (current (sched k)) (block_as (Join i) t)
                                                (sched k)) k)
             end.
Proof.
  intros Hw Ha Ht. unfold join. rewrite Ha. simpl.
  destruct (find_slot i (sched k)) as [s|] eqn:E; [|done].
  destruct (find_slot_Some _ _ _ E) as (u & Hu & _).
  rewrite (index_vget _ _ _ (proj1 (slot_Some _ _ _) Hu)). simpl.
  rewrite bool_decide_false by (by eapply sw_task). simpl. by rewrite (update_slot_put _ _ _ _ Ht).
Qed.

Lemma good_join i k : sched_wf (sched k) → legal (EJoin i) k → good_step (EJoin i) k.
Proof.
  intros Hw Hc. destruct (current_Some _ Hw Hc) as [t Ht]. destruct (active k) eqn:Ha.
  - pose proof (join_eq i k t Hw Ha Ht) as E. destruct (find_slot i (sched k)).
    + eapply (good_put_schedule _ _ t (block_as (Join i) t)); try done.
      apply block_as_ok; [done|by eapply sw_task].
    + by apply good_idle.
  - apply good_idle; [done|done|]. simpl. unfold join. by rewrite Ha.
Qed.
End ops.

Section ops.
Context `{Profile}.

Lemma no_current_none_running g : sched_wf g → current g = NO_TASK → none_running g.
Proof.
  intros Hw Hc i t Ht Hr. pose proof (sw_running g Hw _ _ Ht Hr) as ->.
  rewrite Hc, no_slot_NO_TASK in Ht; done.
Qed.

Lemma good_start k : sched_wf (sched k) → legal EStart k → good_step EStart k.
Proof.
  intros Hw Hc. simpl in Hc. unfold good_step. simpl. unfold start.
  destruct (pick (sched k) Hw) as [[-> Hno]|(idx & t & -> & Hs & Hr & Hm & Hp & Hw2)];
    [by apply no_current_none_running|..]; cbn [mbind outcome_bind].
  - eexists _, _. split; [done|]. split_and!; [|done..]. simpl. by apply moves_quiet.
  - change (sched (set_irq false k)) with (sched k). rewrite Hp. cbn [mbind outcome_bind].
    eexists _, _. split; [done|]. split_and!; [|done..].
    apply moves_dispatch; try done; [by left|]. by intros j (? & _ & []).
Qed.

Lemma wake_ok t : task_ok t → task_ok (wake t).
Proof. intros (_ & _ & Hs). split_and!; [done|done|apply Hs..]. Qed.

(** A wake-up loop either leaves a task alone or wakes it. *)
Lemma wake_joiner_cases d t :
  wake_joiner d (Some t) = Some (if bool_decide (state t = Blocked ∧ block t = Join d) then wake t else t).
Proof. unfold wake_joiner. by case_bool_decide. Qed.

Definition expired (now : Z) (t : Task) : bool :=
  bool_decide (state t = Blocked) &&
  match block t with Sleep w => w <=? now | _ => false end.

Lemma wake_sleeper_cases now t :
  wake_sleeper now (Some t) = Some (if expired now t then wake t else t).
Proof.
  unfold wake_sleeper, expired. case_bool_decide; [|done]. destruct (block t); try done.
  simpl. by case (_ <=? _).
Qed.

Lemma wake_if_ok (b : bool) t :
  task_ok t → id (if b then wake t else t) = id t ∧ task_ok (if b then wake t else t) ∧
    (state (if b then wake t else t) = Running → state t = Running) ∧
    task.slice (if b then wake t else t) = task.slice t.
Proof. intros Hok. destruct b; [|done]. split_and!; [done|by apply wake_ok|done..]. Qed.

(** The table [exit_current] leaves, before it switches. *)
Definition reaped (t : Task) (g : Scheduler) : Scheduler :=
  let z := wake_joiner (id t) <$> vset (slots g) (current g) (Some (set_state Zombie t)) in
  mkSched (vset z (current g) None) NO_TASK (next_id g) (cursor g).

Lemma reaped_slot g t j :
  slot g (current g) = Some t →
  slot (reaped t g) j =
    if bool_decide (j = current g) then None else slot g j ≫= λ u, wake_joiner (id t) (Some u).
Proof.
  intros Hs. pose proof (slot_lt _ _ _ Hs) as Hi.
  set (gz := put (current g) (set_state Zombie t) g).
  set (gw := set_slots (wake_joiner (id t) <$> slots gz) gz).
  change (slot (reaped t g) j) with (slot (set_slots (vset (slots gw) (current g) None) gw) j).
  rewrite slot_set_slots_vset by (simpl; by rewrite vlen_fmap, vlen_vset).
  case_bool_decide as E; [done|]. unfold gw. rewrite slot_set_slots_map by done.
  unfold gz. rewrite (slot_put _ _ _ _ _ Hs). by rewrite bool_decide_false.
Qed.

Lemma reaped_frame g t :
  vlen (slots (reaped t g)) = vlen (slots g) ∧ next_id (reaped t g) = next_id g ∧
  cursor (reaped t g) = cursor g ∧ current (reaped t g) = NO_TASK.
Proof. simpl. by rewrite vlen_vset, vlen_fmap, vlen_vset. Qed.

Lemma wf_reaped g t : sched_wf g → slot g (current g) = Some t → sched_wf (reaped t g).
Proof.
  intros Hw Hs. destruct (reaped_frame g t) as (Hl & Hn & Hc & Hcur).
  apply (wf_modify g _ (λ j u, if bool_decide (j = current g) then None
                               else wake_joiner (id t) (Some u))); try done.
  - intros j. rewrite (reaped_slot _ _ _ Hs). case_bool_decide; [by destruct (slot g j)|].
    by destruct (slot g j).
  - rewrite Hc. apply Hw.
  - by left.
  - intros j u v Hu Hv. case_bool_decide as E; [done|]. rewrite wake_joiner_cases in Hv.
    injection Hv as <-. destruct (wake_if_ok (bool_decide (state u = Blocked ∧ block u = Join (id t))) u)
      as (? & ? & Hr & _); [by eapply sw_task|].
    split_and!; [done..|]. intros Hx%Hr. by destruct E; eapply sw_running.
Qed.

(** [exit_current] with the zombie's slot already empty: a zombie is not Ready. *)
Lemma exit_eq k t :
  sched_wf (sched k) → slot (sched k) (current (sched k)) = Some t →
  let g := reaped t (sched k) in
  (exit_current k = Ret (None, set_irq true (set_sched g (set_irq false k))) ∧
     ∀ i, ¬ ready_at g i) ∨
  (∃ idx u, exit_current k = Ret (Some (mkSwitch BootCtx (SlotCtx idx) false),
              set_sched (dispatch idx u g) (set_irq false k)) ∧
     slot g idx = Some u ∧ state u = Ready ∧
     (∀ j, ready_at g j → rr_dist g idx ≤ rr_dist g j) ∧ sched_wf (dispatch idx u g)).
Proof.
  intros Hw Hs g. pose proof (wf_reaped _ _ Hw Hs) as Hwg. fold g in Hwg.
  unfold exit_current. change (sched (set_irq false k)) with (sched k).
  rewrite (index_vget _ _ _ (proj1 (slot_Some _ _ _) Hs)). cbn [mbind outcome_bind expect].
  change (mkSched (vset (wake_joiner (id t) <$> vset (slots (sched k)) (current (sched k))
    (Some (set_state Zombie t))) (current (sched k)) None) NO_TASK (next_id (sched k))
    (cursor (sched k))) with g.
  set (gz := set_slots (wake_joiner (id t) <$> vset (slots (sched k)) (current (sched k))
    (Some (set_state Zombie t))) (sched k)).
  assert (∀ j, ready_at gz j ↔ ready_at g j) as Hready.
  { intros j. unfold ready_at. rewrite (reaped_slot _ _ _ Hs).
    change gz with (set_slots (wake_joiner (id t) <$> slots (put (current (sched k))
      (set_state Zombie t) (sched k))) (put (current (sched k)) (set_state Zombie t) (sched k))).
    rewrite slot_set_slots_map, (slot_put _ _ _ _ _ Hs) by done. case_bool_decide; [|done].
    simpl. split; [intros (u & [= <-] & ?); done|by intros (? & ? & _)]. }
  assert (vlen (slots gz) = vlen (slots (sched k))) as Hlz
    by (simpl; by rewrite vlen_fmap, vlen_vset).
  destruct (reaped_frame (sched k) t) as (Hlg & _). fold g in Hlg.
  assert (∀ j, rr_dist gz j = rr_dist g j) as Hd by (intros j; apply rr_dist_frame; congruence || done).
  destruct (sw_next _ Hw) as [? [? ?]].
  destruct (next_ready_spec gz) as [[-> Hno]|(idx & -> & Hr & Hmin)];
    [rewrite Hlz; apply Hw|lia|left|right]; cbn [mbind outcome_bind].
  - split; [done|]. intros i Hi%Hready. by eapply Hno.
  - apply Hready in Hr as (u & Hu & Hr). exists idx, u.
    rewrite (prep_switch_dispatch _ _ _ Hwg Hu). cbn [mbind outcome_bind]. split_and!; try done.
    + intros j Hj%Hready. rewrite <- !Hd. auto.
    + apply wf_dispatch; try done. by apply no_current_none_running.
Qed.

Lemma good_exit k : sched_wf (sched k) → legal EExit k → good_step EExit k.
Proof.
  intros Hw Hc. destruct (current_Some _ Hw Hc) as [t Ht].
  destruct (reaped_frame (sched k) t) as (Hl & Hn & Hcu & Hcur).
  assert (∀ j, waiting (sched k) j → ready_at (reaped t (sched k)) j) as Hkeep.
  { intros j ((u & Hu & Hr) & Hjc & _). exists u. rewrite (reaped_slot _ _ _ Ht).
    rewrite bool_decide_false, Hu by done. cbn [mbind option_bind]. rewrite wake_joiner_cases.
    rewrite bool_decide_false; [done|]. rewrite Hr. by intros []. }
  unfold good_step. simpl.
  destruct (exit_eq k t Hw Ht) as [[-> Hno]|(idx & u & -> & Hu & Hr & Hm & Hw2)].
  - eexists _, _. split; [done|]. assert (∀ j, ¬ waiting (sched k) j) as Hnw.
    { intros j Hj. by eapply Hno, Hkeep. }
    split_and!; [|done|by intros _ j []%Hnw]. constructor.
    + by apply wf_reaped.
    + done.
    + by intros j []%Hnw.
    + cbn [sched set_irq set_sched]. rewrite Hl. split; [lia|done].
  - eexists _, _. split; [done|]. split_and!; [|done|done].
    apply moves_dispatch; try done; [by apply wf_reaped|by right].
Qed.
End ops.

Section ops.
Context `{Profile}.

(** The sleepers whose time has come. *)
Definition woken (now : Z) (g : Scheduler) : Scheduler :=
  set_slots (wake_sleeper now <$> slots g) g.

Lemma woken_slot now g j :
  slot (woken now g) j = (λ t, if expired now t then wake t else t) <$> slot g j.
Proof.
  unfold woken. rewrite slot_set_slots_map by done. destruct (slot g j) as [t|]; [|done].
  cbn [mbind option_bind]. apply wake_sleeper_cases.
Qed.

Lemma woken_wf now g : sched_wf g → sched_wf (woken now g).
Proof.
  intros Hw. apply wf_map; [done|done|]. intros t Hok. rewrite wake_sleeper_cases.
  destruct (wake_if_ok (expired now t) t Hok) as (? & ? & ? & _). eauto.
Qed.

Lemma woken_quiet now g : quiet g (woken now g).
Proof.
  apply quiet_map; [done|]. intros t Hr. rewrite wake_sleeper_cases. unfold expired.
  by rewrite Hr.
Qed.

Lemma woken_cur_slice now g : cur_slice (woken now g) = cur_slice g.
Proof.
  unfold cur_slice. change (current (woken now g)) with (current g). rewrite woken_slot.
  destruct (slot g (current g)) as [t|]; [|done]. simpl. by destruct (expired now t).
Qed.

Lemma set_slice_ok n t : 0 ≤ n ≤ DEFAULT_SLICE → task_ok t → task_ok (set_slice n t).
Proof. intros Hn (H1 & H2 & _). exact (conj H1 (conj H2 Hn)). Qed.

(** [tick], once the sleepers are awake. *)
Lemma tick_eq k :
  sched_wf (sched k) → active k = true →
  let g := woken (ticks k) (sched k) in
  tick k = match slot g (current g) with
           | None => Ret (None, set_sched g k)
           | Some t =>
               if task.slice t =? 0
               then schedule (set_sched (put (current g) (set_slice DEFAULT_SLICE t) g) k)
               else Ret (None, set_sched (put (current g) (set_slice (task.slice t - 1) t) g) k)
           end.
Proof.
  intros Hw Ha g. pose proof (woken_wf (ticks k) _ Hw) as Hwg. fold g in Hwg.
  unfold tick. rewrite Ha. cbn [negb]. fold (woken (ticks k) (sched k)). fold g.
  case (Z.eqb_spec (current g) NO_TASK) as [Hc|Hc].
  - rewrite Hc. by rewrite no_slot_NO_TASK.
  - destruct (current_Some _ Hwg Hc) as [t Ht]. rewrite Ht.
    rewrite (index_vget _ _ _ (proj1 (slot_Some _ _ _) Ht)). cbn [mbind outcome_bind].
    by case (task.slice t =? 0).
Qed.

Lemma good_timer k : sched_wf (sched k) → good_step ETimer k.
Proof.
  set (k1 := timer.timer_tick k). intros Hw. unfold good_step. change (step ETimer k) with (tick k1).
  change (sched k) with (sched k1) in *. change (active k) with (active k1).
  destruct (active k1) eqn:Ha.
  2:{ exists None, k1. split_and!; [unfold tick; by rewrite Ha|by apply moves_quiet|done|done]. }
  rewrite (tick_eq k1 Hw Ha). set (g := woken _ _).
  assert (sched_wf g) as Hwg by (by apply woken_wf). assert (quiet (sched k1) g) as Hq by apply woken_quiet.
  destruct (slot g (current g)) as [t|] eqn:Ht.
  2:{ exists None, (set_sched g k1). split_and!; [done|by apply moves_quiet|done|].
      intros _ j Hj. destruct (quiet_waiting _ _ _ Hq Hj) as [(_ & _ & Hc) _].
      destruct (current_Some _ Hwg Hc). congruence. }
  assert (task.slice t = cur_slice (sched k1)) as Hsl.
  { rewrite <- (woken_cur_slice (ticks k1)). fold g. unfold cur_slice. by rewrite Ht. }
  destruct (sw_task g Hwg _ _ Ht) as (_ & _ & Hs0).
  case (Z.eqb_spec (task.slice t) 0) as [Hz|Hz].
  - destruct (put_schedule (set_sched g k1) t (set_slice DEFAULT_SLICE t)) as
      (o & k' & E & Hm & Hak & _ & _ & Hno); try done.
    { apply set_slice_ok; [done|]. by eapply (sw_task g). }
    exists o, k'. split; [exact E|]. split; [by eapply moves_trans_quiet|].
    split; [by rewrite Hak|]. intros Ho j Hj. destruct (proj2 (Hno Ho) j). by eapply quiet_waiting.
  - eexists None, _. split; [done|]. split; [|split; [done|]].
    + eapply moves_trans_quiet; [exact Hq|]. apply moves_quiet.
      * eapply wf_put; [done|exact Ht|done| |done]. apply set_slice_ok; [lia|].
        by eapply (sw_task g).
      * by eapply quiet_put.
    + intros _ j Hj. split; [|done]. intros _ _. cbn [sched set_sched].
      rewrite (cur_slice_put _ _ _ Ht). cbn [task.slice set_slice]. lia.
Qed.
End ops.

Section ops.
Context `{Profile}.

(** [add] puts one new Ready task in the first hole, or at the end. *)
Lemma add_spec tr ptr f g m :
  sched_wf g → fits 32 (next_id g + 1) → 0 ≤ ptr → ptr + KERNEL_STACK_SIZE + 15 < 2 ^ 64 →
  ∃ s t m' g', add tr ptr f g m = Ret (next_id g, g', m') ∧
    slot g s = None ∧ (∀ j, 0 ≤ j < s → slot g j ≠ None) ∧ 0 ≤ s ≤ vlen (slots g) ∧
    id t = next_id g ∧ state t = Ready ∧ block t = BNone ∧ task.slice t = DEFAULT_SLICE ∧
    func t = Some f ∧
    (∀ j, slot g' j = if bool_decide (j = s) then Some t else slot g j) ∧
    vlen (slots g') = Z.max (vlen (slots g)) (s + 1) ∧
    current g' = current g ∧ cursor g' = cursor g ∧ next_id g' = next_id g + 1.
Proof.
  intros Hw Hf Hp Hl.
  destruct (Task_new_fields tr ptr (next_id g) f DEFAULT_SLICE m Hp Hl)
    as (t & m' & E & Hid & Hst & Hb & Hsl & Hfn).
  unfold add. rewrite checked_fits by done. cbn [mbind outcome_bind]. rewrite E.
  cbn [mbind outcome_bind]. pose proof (vlen_nonneg (slots g)).
  destruct (position is_none (slots g)) as [s|] eqn:Ep.
  - apply position_Some in Ep as [([|] & Hv & Hn) Hmin]; [done|].
    pose proof (vget_lt _ _ _ Hv) as Hs. exists s, t, m'. eexists. split; [done|].
    assert (slot g s = None) by (unfold slot; by rewrite Hv).
    split_and!; simpl; rewrite ?vlen_vset; try done; try lia.
    + intros j Hj Hx. destruct (vget_in (slots g) j) as [o Ho]; [lia|].
      unfold slot in Hx. rewrite Ho in Hx. simpl in Hx. subst o.
      specialize (Hmin j None ltac:(lia) Ho). done.
    + intros j. change (slot (set_slots (vset (slots g) s (Some t)) g) j =
        if bool_decide (j = s) then Some t else slot g j). by apply slot_set_slots_vset.
  - rewrite position_None in Ep. exists (vlen (slots g)), t, m'. eexists. split; [done|].
    split_and!; simpl; rewrite ?vlen_app; try done; try lia.
    + unfold slot. by rewrite (proj2 (vget_None _ _)) by lia.
    + intros j Hj Hx. destruct (vget_in (slots g) j) as [o Ho]; [lia|].
      unfold slot in Hx. rewrite Ho in Hx. simpl in Hx. subst o.
      specialize (Ep None (vget_elem_of _ _ _ Ho)). done.
    + intros j. unfold slot. simpl. case_bool_decide as Ej; [subst; by rewrite vget_snoc|].
      destruct (decide (j < vlen (slots g))); [by rewrite vget_app_l|].
      rewrite !(proj2 (vget_None _ j)); [done|lia|rewrite vlen_app; unfold vlen at 2; simpl; lia].
    + unfold vlen at 2. simpl. lia.
Qed.

Lemma rr_dist_grow g g' j :
  0 ≤ cursor g ≤ vlen (slots g) → cursor g' = cursor g → 0 ≤ j < vlen (slots g) →
  vlen (slots g') = vlen (slots g) ∨ vlen (slots g') = vlen (slots g) + 1 →
  rr_dist g' j ≤ rr_dist g j + (vlen (slots g') - vlen (slots g)).
Proof.
  intros Hc Hcc Hj Hv. unfold rr_dist. rewrite Hcc. destruct Hv as [->| ->]; [lia|].
  set (n := vlen (slots g)) in *. destruct (decide (cursor g ≤ j)).
  - rewrite !Z.mod_small by lia. lia.
  - replace ((j - cursor g) `mod` (n + 1)) with (j - cursor g + n + 1).
    2:{ apply (Z.mod_unique _ _ (-1)); lia. }
    destruct (decide (cursor g = n)) as [E|].
    + replace ((j - cursor g) `mod` n) with j; [lia|]. apply (Z.mod_unique _ _ (-1)); lia.
    + replace ((j - cursor g) `mod` n) with (j - cursor g + n); [lia|].
      apply (Z.mod_unique _ _ (-1)); lia.
Qed.

Lemma add_wf g g' s t :
  sched_wf g → fits 32 (next_id g + 1) → slot g s = None → 0 ≤ s ≤ vlen (slots g) →
  id t = next_id g → task_ok t → state t = Ready →
  (∀ j, slot g' j = if bool_decide (j = s) then Some t else slot g j) →
  vlen (slots g') = Z.max (vlen (slots g)) (s + 1) →
  current g' = current g → cursor g' = cursor g → next_id g' = next_id g + 1 →
  sched_wf g'.
Proof.
  intros Hw Hf Hs Hr Hid Hok Hst Hsl Hv Hcur Hc Hn.
  destruct (sw_next g Hw) as [? [? ?]]. destruct (sw_cursor g Hw).
  assert (∀ j u, slot g' j = Some u → (j = s ∧ u = t) ∨ (j ≠ s ∧ slot g j = Some u)) as Hinv.
  { intros j u. rewrite Hsl. case_bool_decide; [intros [= <-]; by left|by right]. }
  constructor.
  - lia.
  - rewrite Hn. split; [lia|done].
  - rewrite Hn. intros j u [[-> ->]|[_ Hu]]%Hinv; [lia|]. pose proof (sw_ids g Hw _ _ Hu). lia.
  - intros i j u v [[-> ->]|[? Hu]]%Hinv [[-> ->]|[? Hu']]%Hinv E; [done| | |by eapply sw_uniq].
    + pose proof (sw_ids g Hw _ _ Hu'). lia.
    + pose proof (sw_ids g Hw _ _ Hu). lia.
  - rewrite Hcur. destruct (sw_current g Hw) as [|[u Hu]]; [by left|right].
    rewrite Hsl. case_bool_decide; eauto.
  - rewrite Hcur. intros j u [[-> ->]|[_ Hu]]%Hinv Hx; [congruence|by eapply sw_running].
  - intros j u [[-> ->]|[_ Hu]]%Hinv; [done|by eapply sw_task].
Qed.

Lemma good_spawn tr ptr f k : sched_wf (sched k) → legal (ESpawn tr ptr f) k → good_step (ESpawn tr ptr f) k.
Proof.
  intros Hw (Hf & Hp & Hl).
  destruct (add_spec tr ptr f (sched k) (kmem k) Hw Hf Hp Hl) as
    (s & t & m' & g' & E & Hs & _ & Hr & Hid & Hst & Hb & Hsl & _ & Hslot & Hv & Hcur & Hc & Hn).
  assert (task_ok t) as Hok.
  { unfold task_ok. rewrite Hst, Hb, Hsl. split_and!; done. }
  exists None. eexists. split; [simpl; unfold spawn; rewrite E; done|]. simpl.
  assert (∀ j, ready_at (sched k) j → ready_at g' j) as Hkeep.
  { intros j (u & Hu & Hru). exists u. rewrite Hslot. rewrite bool_decide_false; [done|].
    intros ->. congruence. }
  split_and!; [|done|].
  - constructor; [by eapply add_wf|done| |lia || (split; [lia|done])].
    intros j (Hj & Hjc & Hcn). split; [unfold waiting; rewrite Hcur; auto|].
    apply rr_dist_grow; [by apply Hw|done| |lia].
    destruct Hj as (u & Hu & _). by eapply slot_lt.
  - intros _ j (_ & _ & Hcn). split; [done|]. intros _. unfold cur_slice. rewrite Hcur, Hslot.
    destruct (current_Some _ Hw Hcn) as [u Hu].
    rewrite bool_decide_false; [done|]. intros Heq. congruence.
Qed.

(** Every operation, called as its callers call it. *)
Lemma step_good e k : sched_wf (sched k) → legal e k → good_step e k.
Proof.
  intros Hw Hl. destruct e;
    [by apply good_spawn|by apply good_start|by apply good_body|by apply good_yield
    |by apply good_sleep|by apply good_join|by apply good_exit|by apply good_timer].
Qed.
End ops.
