(* ===== verification/SchedulerProps.v ===== *)
(** * SchedulerProps: what the scheduler promises

    Safety over every legal sequence of operations, absence of starvation,
    the wake-up rules of the clock, of [exit_current] and of [join], and two
    situations the code does not handle: [sleep] with nobody else to run, and
    the idle loop of the last task. *)

From S2P Require Import Prelude Task Scheduler.
Import asm context task scheduler.

(** ** Runs *)

Inductive steps `{Profile} : Kern → list (event * option Switch) → Kern → Prop :=
  | steps_nil k : steps k [] k
  | steps_cons k e o k1 tr k2 :
      legal e k → step e k = Ret (o, k1) → steps k1 tr k2 → steps k ((e, o) :: tr) k2.

Definition boot (m : memory) : Kern := mkKern new false 0 true m.

Lemma new_wf : sched_wf new.
Proof.
  assert (∀ i, slot new i = None) as Hn.
  { intros i. unfold slot. by rewrite (proj2 (vget_None _ _)) by (unfold vlen; simpl; lia). }
  constructor; try (intros i; try intros j; rewrite Hn; done).
  - done.
  - done.
  - by left.
Qed.

Lemma steps_wf `{Profile} k tr k' : steps k tr k' → sched_wf (sched k) → sched_wf (sched k').
Proof.
  induction 1 as [|k e o k1 tr k2 Hl Hs _ IH]; [done|]. intros Hw. apply IH.
  destruct (step_good e k Hw Hl) as (o' & k1' & Hs' & Hm & _).
  rewrite Hs in Hs'. injection Hs' as <- <-. apply Hm.
Qed.

(** C1. The scheduler never panics and never loses track of the tasks. From boot, after
    any sequence of operations that callers may make (spawn, start, task entry,
    yield, sleep, join, exit, timer interrupt), the table is well formed (ids
    unique and below [next_id], every Blocked task has a reason and nobody else has,
    no zombie is left behind, at most the current slot is Running, the cursor is
    in range); any further legal operation returns; and if it switches, the
    context it resumes is that of the slot it made current, which is
    Running, and the context it saves is the one that was current (or the
    throw-away boot context). *)
Theorem scheduler_safe `{Profile} m tr k :
  steps (init (boot m)) tr k →
  sched_wf (sched k) ∧
  ∀ e, legal e k → ∃ o k', step e k = Ret (o, k') ∧ sched_wf (sched k') ∧
    ∀ sw, o = Some sw →
      (sw_old sw = ctx_ptr (current (sched k)) ∨ sw_old sw = BootCtx) ∧
      sw_new sw = SlotCtx (current (sched k')) ∧
      ∃ t, slot (sched k') (current (sched k')) = Some t ∧ state t = Running.
Proof.
  intros Hs. assert (sched_wf (sched k)) as Hw by (eapply steps_wf; [exact Hs|apply new_wf]).
  split; [done|]. intros e He. destruct (step_good e k Hw He) as (o & k' & E & Hm & _).
  exists o, k'. split_and!; [done|apply Hm|apply Hm].
Qed.

Lemma scheduler_safe_witness :
  ∃ k, @steps dev (init (boot (λ _, 0))) [(EYield, None); (ETimer, None)] k ∧
    sched_wf (sched k) ∧ ∃ o k', @step dev (ESpawn 0x8000 0x10001 "a") k = Ret (o, k').
Proof.
  set (k := timer.timer_tick (init (boot (λ _, 0)))).
  assert (@steps dev (init (boot (λ _, 0))) [(EYield, None); (ETimer, None)] k) as Hs.
  { eapply steps_cons; [done|reflexivity|]. eapply steps_cons; [done|reflexivity|]. apply steps_nil. }
  exists k.
  split; [exact Hs|]. destruct (@scheduler_safe dev _ _ _ Hs) as [Hw Hn]. split; [exact Hw|].
  destruct (Hn (ESpawn 0x8000 0x10001 "a")) as (o & k' & E & _); [|by exists o, k'].
  simpl. unfold fits, KERNEL_STACK_SIZE. simpl. lia.
Defined.

(** ** No starvation *)

Definition is_timer (e : event) : bool := match e with ETimer => true | _ => false end.

Definition timer_ticks (tr : list (event * option Switch)) : Z :=
  vlen (filter (λ x, is_timer (fst x) = true) tr).
Definition switches (tr : list (event * option Switch)) : Z :=
  vlen (filter (λ x, snd x ≠ None) tr).

Lemma vlen_filter_cons {A} (P : A → Prop) `{∀ x, Decision (P x)} x l :
  vlen (filter P (x :: l)) = (if decide (P x) then 1 else 0) + vlen (filter P l).
Proof. rewrite filter_cons. unfold vlen. destruct (decide (P x)); simpl; lia. Qed.

Lemma cur_slice_bound g : sched_wf g → 0 ≤ cur_slice g ≤ DEFAULT_SLICE.
Proof.
  intros Hw. unfold cur_slice. destruct (slot g (current g)) eqn:E; [|done].
  by eapply sw_task.
Qed.

(** One step of a task that waits: what it costs the others. *)
Lemma step_waiting `{Profile} e k o k' j :
  sched_wf (sched k) → active k = true → legal e k → step e k = Ret (o, k') →
  waiting (sched k) j → (∀ sw, o = Some sw → sw_new sw ≠ SlotCtx j) →
  waiting (sched k') j ∧ sched_wf (sched k') ∧ active k' = true ∧
  let grow := vlen (slots (sched k')) - vlen (slots (sched k)) in
  (if is_timer e then 1 else 0) + 3 * rr_dist (sched k') j + cur_slice (sched k')
    ≤ 3 * rr_dist (sched k) j + cur_slice (sched k) + 3 * grow ∧
  (if decide (o ≠ None) then 1 else 0) + rr_dist (sched k') j ≤ rr_dist (sched k) j + grow.
Proof.
  intros Hw Ha Hl E Hj Hnj. destruct (step_good e k Hw Hl) as (o' & k1 & E' & Hm & Ha' & Hsl).
  rewrite E in E'. injection E' as <- <-. rewrite Ha in *.
  pose proof (mv_wait _ _ _ Hm j Hj) as Hwt. pose proof (mv_wf _ _ _ Hm) as Hw'.
  pose proof (cur_slice_bound _ Hw). pose proof (cur_slice_bound _ Hw').
  unfold DEFAULT_SLICE in *. destruct o as [sw|].
  - destruct (mv_switch _ _ _ Hm sw eq_refl) as (_ & Hn & _).
    destruct Hwt as [<-|[Hj' Hd]]; [by destruct (Hnj sw eq_refl)|].
    rewrite (proj2 (mv_vlen _ _ _ Hm) ltac:(done)). split_and!; [done..| |];
      [destruct (is_timer e)|rewrite decide_True by done]; lia.
  - destruct Hwt as [Hj' Hd]. destruct (Hsl eq_refl j Hj) as [Ht Hnt].
    split_and!; [done..| |rewrite decide_False by auto; lia].
    destruct e; simpl; rewrite ?Hnt by done; try lia. rewrite Ht by done. lia.
Qed.

(** C4. No runnable task starves. Whatever the tasks do (spawn, yield, sleep, join,
    exit, take interrupts) while a runnable task [j] waits for another task's turn to
    end and is not switched to, fewer context switches happen than the table
    has slots, and fewer than three timer interrupts per slot; [j] stays
    runnable. So it is dispatched within that many interrupts. *)
Theorem no_starvation `{Profile} k tr k' j :
  sched_wf (sched k) → active k = true → steps k tr k' → waiting (sched k) j →
  (∀ e sw, (e, Some sw) ∈ tr → sw_new sw ≠ SlotCtx j) →
  waiting (sched k') j ∧
  switches tr < vlen (slots (sched k')) ∧
  timer_ticks tr < (DEFAULT_SLICE + 1) * vlen (slots (sched k')).
Proof.
  intros Hw Ha Hs Hj Hnj.
  assert (waiting (sched k') j ∧ sched_wf (sched k') ∧
    let grow := vlen (slots (sched k')) - vlen (slots (sched k)) in
    timer_ticks tr + 3 * rr_dist (sched k') j + cur_slice (sched k')
      ≤ 3 * rr_dist (sched k) j + cur_slice (sched k) + 3 * grow ∧
    switches tr + rr_dist (sched k') j ≤ rr_dist (sched k) j + grow) as (Hj' & Hw' & Ht & Hsw).
  { induction Hs as [k|k e o k1 tr k2 Hl E _ IH].
    - split; [done|]. split; [done|].
      change (timer_ticks []) with 0. change (switches []) with 0. lia.
    - destruct (step_waiting e k o k1 j) as (Hj1 & Hw1 & Ha1 & Ht1 & Hs1); try done.
      { intros sw ->. apply (Hnj e). apply list_elem_of_here. }
      destruct IH as (? & ? & Ht & Hsw); try done.
      { intros e' sw Hin. apply (Hnj e'). by right. }
      split; [done|]. split; [done|]. split.
      + unfold timer_ticks in *. rewrite vlen_filter_cons. simpl.
        destruct (is_timer e); [rewrite decide_True by done|rewrite decide_False by done]; lia.
      + unfold switches in *. rewrite vlen_filter_cons. simpl. lia. }
  split; [done|]. destruct Hj as ((t & Hslot & _) & _). destruct Hj' as ((t' & Hslot' & _) & _).
  apply slot_lt in Hslot, Hslot'. pose proof (cur_slice_bound _ Hw). pose proof (cur_slice_bound _ Hw').
  pose proof (rr_dist_bound (sched k) j ltac:(lia)). pose proof (rr_dist_bound (sched k') j ltac:(lia)).
  unfold DEFAULT_SLICE in *. lia.
Qed.

(** ** Small concrete tables *)

Definition demo_task (i : TaskId) (s : TaskState) (b : BlockReason) (n : Z) : Task :=
  mkTask i s b (mkCtx 0) n (mkStack 0 KERNEL_STACK_SIZE) None.

Definition demo (a b : Task) (c now : Z) : Kern :=
  mkKern (mkSched [Some a; Some b] 0 3 c) true now true (λ _, 0).

Lemma demo_slot a b c now i t :
  slot (sched (demo a b c now)) i = Some t → (i = 0 ∧ t = a) ∨ (i = 1 ∧ t = b).
Proof.
  intros [Hp Hl]%slot_Some%vget_Some. simpl in Hl.
  destruct (Z.to_nat i) as [|[|n]] eqn:E; simpl in Hl.
  - injection Hl as ->. left. split; [lia|done].
  - injection Hl as ->. right. split; [lia|done].
  - by rewrite lookup_nil in Hl.
Qed.

Lemma demo_wf a b c now :
  id a = 1 → id b = 2 → task_ok a → task_ok b → state b ≠ Running → 0 ≤ c ≤ 2 →
  sched_wf (sched (demo a b c now)).
Proof.
  intros Ha Hb Hoa Hob Hr Hc. constructor.
  - exact Hc.
  - by split.
  - intros i t Ht. change (next_id _) with 3. destruct (demo_slot _ _ _ _ _ _ Ht) as [[-> ->]|[-> ->]]; lia.
  - intros i j t u Ht Hu. destruct (demo_slot _ _ _ _ _ _ Ht) as [[-> ->]|[-> ->]];
      destruct (demo_slot _ _ _ _ _ _ Hu) as [[-> ->]|[-> ->]]; lia.
  - right. by exists a.
  - intros i t Ht Hx. change (current _) with 0. by destruct (demo_slot _ _ _ _ _ _ Ht) as [[-> ->]|[-> ->]].
  - intros i t Ht. by destruct (demo_slot _ _ _ _ _ _ Ht) as [[-> ->]|[-> ->]].
Qed.

(** Task 1 runs with one tick left, task 2 waits: after one more interrupt it
    still waits, and at most one switch and five interrupts are possible. *)
Lemma no_starvation_witness :
  let k := demo (demo_task 1 Running BNone 1) (demo_task 2 Ready BNone 2) 1 7 in
  ∃ k', @steps dev k [(ETimer, None)] k' ∧ waiting (sched k') 1 ∧
    timer_ticks [(ETimer, None)] < 3 * vlen (slots (sched k')).
Proof.
  intros k. set (k' := demo (demo_task 1 Running BNone 0) (demo_task 2 Ready BNone 2) 1 8).
  exists k'. assert (@steps dev k [(ETimer, None)] k') as Hs.
  { eapply steps_cons; [done|reflexivity|apply steps_nil]. }
  split; [exact Hs|].
  destruct (@no_starvation dev k [(ETimer, None)] k' 1) as (Hw & _ & Ht).
  - apply demo_wf; try done; split_and!; done.
  - done.
  - exact Hs.
  - split; [|done]. eexists. split; reflexivity.
  - intros e sw Hin. apply list_elem_of_singleton in Hin. done.
  - split; [exact Hw|exact Ht].
Defined.

(** ** Waking up *)

(** What a task that is not current may see of an operation. *)
Definition kept (g g' : Scheduler) (j : Z) : Prop :=
  slot g' j = slot g j ∨
  ∃ u, slot g j = Some u ∧ state u = Ready ∧ slot g' j = Some (set_state Running u).

Lemma kept_dispatch g idx u j : slot g idx = Some u → state u = Ready → kept g (dispatch idx u g) j.
Proof.
  intros Hu Hr. unfold kept.
  change (slot (dispatch idx u g) j) with (slot (put idx (set_state Running u) g) j).
  rewrite (slot_put _ _ _ _ _ Hu). case_bool_decide as Ej; [subst; right; by exists u|by left].
Qed.

Lemma schedule_kept `{Profile} k j :
  sched_wf (sched k) → j ≠ current (sched k) →
  ∃ o k', schedule k = Ret (o, k') ∧ ticks k' = ticks k ∧ kept (sched k) (sched k') j.
Proof.
  intros Hw Hj. assert (slot (demoted (sched k)) j = slot (sched k) j) as Hd.
  { rewrite demoted_slot by done. destruct (slot (sched k) j) as [v|] eqn:Hv; [|done].
    simpl. unfold demote. case_bool_decide as Hr; [|done]. by destruct Hj; eapply sw_running. }
  destruct (schedule_spec k Hw) as [[-> _]|(idx & u & -> & Hu & Hr & _)];
    (eexists _, _; split; [done|]; split; [done|]); cbn [sched set_sched].
  - by left.
  - unfold kept. rewrite <- Hd. by apply kept_dispatch.
Qed.

Lemma tick_kept `{Profile} k j :
  sched_wf (sched k) → active k = true → j ≠ current (sched k) →
  ∃ o k', tick k = Ret (o, k') ∧ ticks k' = ticks k ∧
    kept (woken (ticks k) (sched k)) (sched k') j.
Proof.
  intros Hw Ha Hj. rewrite (tick_eq k Hw Ha). set (g := woken _ _).
  assert (sched_wf g) as Hwg by (by apply woken_wf). change (current (sched k)) with (current g) in Hj.
  destruct (slot g (current g)) as [c|] eqn:Hc; [|eexists _, _; split; [done|]; split; [done|by left]].
  assert (∀ u, slot (put (current g) u g) j = slot g j) as Hput.
  { intros u. rewrite (slot_put _ _ _ _ _ Hc). by rewrite bool_decide_false. }
  destruct (task.slice c =? 0); [|eexists _, _; split; [done|]; split; [done|left; apply Hput]].
  destruct (schedule_kept (set_sched (put (current g) (set_slice DEFAULT_SLICE c) g) k) j)
    as (o & k' & E & Ht & Hk); [|done|].
  - eapply wf_put; [done|exact Hc|done| |by intros]. apply set_slice_ok; [done|]. by eapply (sw_task g).
  - exists o, k'. split; [done|]. split; [done|]. unfold kept in *. cbn [sched set_sched] in Hk.
    rewrite Hput in Hk. done.
Qed.

(** A timer interrupt wakes exactly the sleepers whose time has come. For every
    task other than the one the interrupt came in on: a task that was asleep is
    runnable (or already running) afterwards if and only if its [wake_at] is at
    most the new tick count; a task blocked in [join] stays blocked; no task is
    lost and none changes its id or its table slot. *)
Theorem tick_wakes_expired `{Profile} k j t :
  sched_wf (sched k) → active k = true →
  slot (sched k) j = Some t → j ≠ current (sched k) →
  ∃ o k' t', tick (timer.timer_tick k) = Ret (o, k') ∧ slot (sched k') j = Some t' ∧
    id t' = id t ∧
    (∀ w, state t = Blocked → block t = Sleep w →
       (state t' ≠ Blocked ↔ w ≤ ticks k')) ∧
    (∀ i, state t = Blocked → block t = Join i → t' = t) ∧
    ticks k' = wrap 64 (ticks k + 1).
Proof.
  intros Hw Ha Hs Hj. set (k1 := timer.timer_tick k).
  destruct (tick_kept k1 j Hw Ha Hj) as (o & k' & E & Htk & Hslot).
  unfold kept in Hslot. change (sched k1) with (sched k) in Hslot.
  rewrite woken_slot, Hs in Hslot. simpl in Hslot.
  exists o, k'. rewrite Htk. change (ticks k1) with (wrap 64 (ticks k + 1)).
  change (ticks k1) with (wrap 64 (ticks k + 1)) in Hslot. set (now := wrap 64 (ticks k + 1)) in *.
  destruct Hslot as [Hslot|(u & [= <-] & Hr & Hslot)]; eexists; (split; [exact E|]);
    (split; [exact Hslot|]); unfold expired.
  - split; [by destruct (_ && _)|]. split_and!; [| |done].
    + intros w Hb Hk. rewrite Hb, Hk. simpl. case (Z.leb_spec w now) as [Hle|Hlt]; simpl.
      * split; [done|by intros].
      * rewrite Hb. split; [done|lia].
    + intros i Hb Hk. by rewrite Hb, Hk.
  - split; [simpl; by destruct (_ && _)|]. split_and!; [| |done].
    + intros w Hb Hk. unfold expired in Hr. rewrite Hb, Hk in *. simpl in *.
      destruct (Z.leb_spec w now) as [Hle|Hlt]; [by split|]. rewrite Hb in Hr. done.
    + intros i Hb Hk. unfold expired in Hr. rewrite Hb, Hk in Hr. simpl in Hr. congruence.
Qed.

(** Task 2 sleeps until tick 8; the interrupt that makes it 8 wakes it. *)
Lemma tick_wakes_expired_witness :
  let k := demo (demo_task 1 Running BNone 1) (demo_task 2 Blocked (Sleep 8) 2) 1 7 in
  ∃ o k' t', @tick dev (timer.timer_tick k) = Ret (o, k') ∧ slot (sched k') 1 = Some t' ∧
    state t' ≠ Blocked.
Proof.
  intros k. destruct (@tick_wakes_expired dev k 1 (demo_task 2 Blocked (Sleep 8) 2))
    as (o & k' & t' & E & Hs & _ & Hw & _ & Ht).
  - apply demo_wf; try done; split_and!; done.
  - done.
  - reflexivity.
  - done.
  - exists o, k', t'. split; [exact E|]. split; [exact Hs|]. apply (Hw 8); [reflexivity..|].
    rewrite Ht. by vm_compute.
Defined.

Lemma find_slot_None i g :
  find_slot i g = None ↔ ∀ j t, slot g j = Some t → id t ≠ i.
Proof.
  unfold find_slot. rewrite position_None. split.
  - intros Hn j t Ht%slot_Some He. specialize (Hn (Some t) (vget_elem_of _ _ _ Ht)).
    simpl in Hn. apply Z.eqb_neq in Hn. done.
  - intros Hn [t|] Hin; [|done]. destruct (elem_of_vget _ _ Hin) as [j Hj].
    apply Z.eqb_neq. apply (Hn j t). by apply slot_Some.
Qed.

Lemma exit_kept `{Profile} k t j :
  sched_wf (sched k) → slot (sched k) (current (sched k)) = Some t → 
  ∃ o k', exit_current k = Ret (o, k') ∧ kept (reaped t (sched k)) (sched k') j ∧
    ∀ i, slot (sched k') i = None ↔ slot (reaped t (sched k)) i = None.
Proof.
  intros Hw Ht. destruct (exit_eq k t Hw Ht) as [[-> _]|(idx & u & -> & Hu & Hr & _)];
    eexists _, _; split; [done| |done|].
  - split; [by left|done].
  - split; [by apply kept_dispatch|]. intros i. cbn [sched set_sched].
    change (slot (dispatch idx u (reaped t (sched k))) i) with
      (slot (put idx (set_state Running u) (reaped t (sched k))) i).
    rewrite (slot_put _ _ _ _ _ Hu). case_bool_decide; [subst|done]. by rewrite Hu.
Qed.

(** A finished task wakes exactly its joiners and leaves no trace. [exit_current]
    empties the slot of the task that ends, so that its id is found no more (and a
    later [join] on it does not block); among the others, the blocked tasks
    that become runnable are precisely those blocked in [join] on the dead id. *)
Theorem exit_wakes_joiners `{Profile} k t j u :
  sched_wf (sched k) → slot (sched k) (current (sched k)) = Some t →
  slot (sched k) j = Some u → j ≠ current (sched k) → state u = Blocked →
  ∃ o k' u', exit_current k = Ret (o, k') ∧
    slot (sched k') (current (sched k)) = None ∧ find_slot (id t) (sched k') = None ∧
    slot (sched k') j = Some u' ∧ id u' = id u ∧
    (state u' ≠ Blocked ↔ block u = Join (id t)).
Proof.
  intros Hw Ht Hu Hj Hb. destruct (exit_kept k t j Hw Ht) as (o & k' & E & Hk & Hnone).
  assert (slot (reaped t (sched k)) j =
    Some (if bool_decide (block u = Join (id t)) then wake u else u)) as Hrj.
  { rewrite (reaped_slot _ _ _ Ht), bool_decide_false, Hu by done. cbn [mbind option_bind].
    rewrite wake_joiner_cases. f_equal. repeat case_bool_decide; tauto. }
  assert (∃ u', slot (sched k') j = Some u' ∧ id u' = id u ∧
    (state u' ≠ Blocked ↔ block u = Join (id t))) as (u' & ? & ? & ?).
  { unfold kept in Hk. rewrite Hrj in Hk. case_bool_decide.
    - destruct Hk as [->|(v & [= <-] & _ & ->)]; by eexists.
    - destruct Hk as [->|(v & [= <-] & Hr & _)]; [|congruence]. exists u. rewrite Hb. tauto. }
  exists o, k', u'. split; [done|]. split; [|split; [|done]].
  - apply Hnone. rewrite (reaped_slot _ _ _ Ht). by rewrite bool_decide_true.
  - apply find_slot_None. intros i v Hv Hid.
    destruct (exit_kept k t i Hw Ht) as (o2 & k2 & E2 & Hk2 & _).
    rewrite E in E2. injection E2 as <- <-.
    assert (∃ w, slot (reaped t (sched k)) i = Some w ∧ id w = id v) as (w & Hrw & Hw2).
    { destruct Hk2 as [Hk2|(w & Hw1 & _ & Hw2)]; [exists v; by rewrite <- Hk2|].
      exists w. split; [done|]. assert (v = set_state Running w) as -> by congruence. done. }
    rewrite (reaped_slot _ _ _ Ht) in Hrw. case_bool_decide as Hic; [done|].
    destruct (slot (sched k) i) as [x|] eqn:Hx; [|done]. cbn [mbind option_bind] in Hrw.
    rewrite wake_joiner_cases in Hrw. injection Hrw as <-. apply Hic.
    eapply (sw_uniq _ Hw); [exact Hx|exact Ht|]. rewrite <- Hid, <- Hw2. by case_bool_decide.
Qed.

Lemma exit_wakes_joiners_witness :
  let k := demo (demo_task 1 Running BNone 1) (demo_task 2 Blocked (Join 1) 2) 1 7 in
  ∃ o k' u', @exit_current dev k = Ret (o, k') ∧ slot (sched k') 1 = Some u' ∧
    state u' ≠ Blocked.
Proof.
  intros k. destruct (@exit_wakes_joiners dev k (demo_task 1 Running BNone 1) 1
    (demo_task 2 Blocked (Join 1) 2)) as (o & k' & u' & E & _ & _ & Hs & _ & Hst).
  - apply demo_wf; try done; split_and!; done.
  - reflexivity.
  - reflexivity.
  - done.
  - reflexivity.
  - exists o, k', u'. split; [exact E|]. split; [exact Hs|]. by apply Hst.
Defined.

(** ** Two situations the scheduler does not handle *)

(** A task that blocks when nobody else is Ready keeps the CPU. *)
Lemma block_alone `{Profile} k t b :
  sched_wf (sched k) → slot (sched k) (current (sched k)) = Some t → b ≠ BNone →
  (∀ j, j ≠ current (sched k) → ¬ ready_at (sched k) j) →
  ∃ k', schedule (set_sched (put (current (sched k)) (block_as b t) (sched k)) k) = Ret (None, k') ∧
    ticks k' = ticks k ∧ irq k' = irq k ∧ current (sched k') = current (sched k) ∧
    ∀ j, slot (sched k') j = if bool_decide (j = current (sched k)) then Some (block_as b t) else slot (sched k) j.
Proof.
  intros Hw Ht Hb Hno. set (u := block_as b t). set (g := put (current (sched k)) u (sched k)).
  assert (sched_wf g) as Hwg.
  { eapply wf_put; [done|exact Ht|done| |done]. apply block_as_ok; [done|by eapply sw_task]. }
  assert (slot g (current g) = Some u) as Hgu.
  { unfold g. rewrite (slot_put _ _ _ _ _ Ht). by rewrite bool_decide_true. }
  assert (demoted g = put (current g) u g) as Hd by (unfold demoted; by rewrite Hgu).
  assert (∀ j, slot (demoted g) j = if bool_decide (j = current (sched k)) then Some u else slot (sched k) j) as Hsl.
  { intros j. rewrite Hd, (slot_put _ _ _ _ _ Hgu). change (current g) with (current (sched k)).
    case_bool_decide; [done|]. unfold g. rewrite (slot_put _ _ _ _ _ Ht). by rewrite bool_decide_false. }
  destruct (schedule_spec (set_sched g k) Hwg) as [[-> _]|(idx & v & _ & Hv & Hr & _)].
  - eexists. split; [done|]. cbn [sched set_sched]. split_and!; try done. by rewrite Hd.
  - exfalso. cbn [sched set_sched] in Hv. rewrite Hsl in Hv.
    case_bool_decide as Ej; [injection Hv as <-; done|]. apply (Hno idx); [done|]. by exists v.
Qed.

(** [sleep] with nobody else to run does not sleep: when no other task is Ready,
    it returns to its caller at once, with no tick gone by, and its
    task goes on executing while the table calls it Blocked. *)
Theorem sleep_alone_returns `{Profile} n k :
  sched_wf (sched k) → active k = true → legal (ESleep n) k →
  (∀ j, j ≠ current (sched k) → ¬ ready_at (sched k) j) →
  ∃ k', sleep n k = Ret (None, k') ∧ ticks k' = ticks k ∧ irq k' = irq k ∧
    current (sched k') = current (sched k) ∧
    ∃ t, slot (sched k') (current (sched k)) = Some t ∧ state t = Blocked ∧
      block t = Sleep (ticks k + n).
Proof.
  intros Hw Ha [Hc Hf] Hno. destruct (current_Some _ Hw Hc) as [t Ht].
  destruct (block_alone k t (Sleep (ticks k + n))) as (k' & E & ? & ? & ? & Hs); [done..|].
  exists k'. unfold sleep. rewrite Ha. cbn [negb]. rewrite checked_fits by done. cbn [mbind outcome_bind].
  rewrite (update_slot_put _ _ _ _ Ht). split; [exact E|]. split_and!; try done.
  exists (block_as (Sleep (ticks k + n)) t). by rewrite Hs, bool_decide_true.
Qed.

(** Nor does [join] wait then: it returns although the task it was to wait for is still
    in the table. *)
Theorem join_alone_returns `{Profile} i k :
  sched_wf (sched k) → active k = true → current (sched k) ≠ NO_TASK → find_slot i (sched k) ≠ None →
  (∀ j, j ≠ current (sched k) → ¬ ready_at (sched k) j) →
  ∃ k', join i k = Ret (None, k') ∧ ticks k' = ticks k ∧ current (sched k') = current (sched k) ∧
    find_slot i (sched k') ≠ None.
Proof.
  intros Hw Ha Hc Hi Hno. destruct (current_Some _ Hw Hc) as [t Ht].
  destruct (block_alone k t (Join i)) as (k' & E & ? & ? & ? & Hs); [done..|].
  exists k'. rewrite (join_eq i k t Hw Ha Ht). destruct (find_slot i (sched k)) as [s|] eqn:Ef; [|done].
  split; [exact E|]. split_and!; try done. rewrite find_slot_None. intros Hn.
  destruct (find_slot_Some _ _ _ Ef) as (u & Hu & Hid).
  destruct (decide (s = current (sched k))) as [->|Hne].
  - apply (Hn (current (sched k)) (block_as (Join i) t)); [by rewrite Hs, bool_decide_true|].
    rewrite Ht in Hu. by injection Hu as ->.
  - apply (Hn s u); [by rewrite Hs, bool_decide_false|done].
Qed.

Lemma sleep_alone_returns_witness :
  let k := demo (demo_task 1 Running BNone 1) (demo_task 2 Blocked (Sleep 20) 2) 1 7 in
  ∃ k', @sleep dev 5 k = Ret (None, k') ∧ ticks k' = 7.
Proof.
  intros k. destruct (@sleep_alone_returns dev 5 k) as (k' & E & Ht & _).
  - apply demo_wf; try done; split_and!; done.
  - done.
  - split; [done|]. by split.
  - intros j Hj (t & Hs & Hr). destruct (demo_slot _ _ _ _ _ _ Hs) as [[-> ->]|[-> ->]]; done.
  - exists k'. split; [exact E|exact Ht].
Defined.

Lemma idle_stays `{Profile} k tr k' :
  sched_wf (sched k) → current (sched k) = NO_TASK →
  steps k tr k' → Forall (λ x, fst x = ETimer) tr →
  Forall (λ x, snd x = None) tr ∧ current (sched k') = NO_TASK.
Proof.
  intros Hw Hc Hs Ht. induction Hs as [k|k e o k1 tr k2 Hl E _ IH]; [done|].
  apply Forall_cons in Ht as [He Ht]. simpl in He. subst e.
  assert (o = None ∧ current (sched k1) = NO_TASK ∧ sched_wf (sched k1)) as (-> & Hc1 & Hw1).
  { simpl in E. set (kt := timer.timer_tick k) in E. destruct (active kt) eqn:Ha.
    - rewrite (tick_eq kt Hw Ha) in E. set (g := woken _ _) in E.
      assert (current g = NO_TASK) as Hg by exact Hc. assert (sched_wf g) as Hwg by (by apply woken_wf).
      rewrite Hg, no_slot_NO_TASK in E by done. injection E as <- <-. done.
    - unfold tick in E. rewrite Ha in E. injection E as <- <-. done. }
  destruct (IH Hw1 Hc1 Ht) as [? ?]. split; [by constructor|done].
Qed.

(** Who can run once [t], which runs, is gone: the others that are ready, and those that wait for it. *)
Definition left_runnable (t : Task) (g : Scheduler) (j : Z) : Prop :=
  j ≠ current g ∧ ∃ u, slot g j = Some u ∧ (state u = Ready ∨ state u = Blocked ∧ block u = Join (id t)).

(** C36. Once the last runnable task has exited, nothing ever runs again: if, when the running task [t]
    calls [exit_current], no other task is ready and none has joined [t], the call leaves the CPU in [idle],
    with interrupts on, no current task and the slot of [t] free; and from then on no number of timer
    interrupts switches to a task, not even to the sleepers they make runnable. *)
Theorem idle_never_wakes `{Profile} k t :
  sched_wf (sched k) → slot (sched k) (current (sched k)) = Some t → (∀ j, ¬ left_runnable t (sched k) j) →
  ∃ k0, exit_current k = Ret (None, k0) ∧ current (sched k0) = NO_TASK ∧ irq k0 = true ∧
    (∀ j, slot (sched k0) j = if bool_decide (j = current (sched k)) then None else slot (sched k) j) ∧
    ∀ tr k', steps k0 tr k' → Forall (λ x, fst x = ETimer) tr →
      Forall (λ x, snd x = None) tr ∧ current (sched k') = NO_TASK.
Proof.
  intros Hw Ht Hno. pose proof (wf_reaped _ _ Hw Ht) as Hwg.
  assert (∀ j u, j ≠ current (sched k) → slot (sched k) j = Some u → wake_joiner (id t) (Some u) = Some u ∧ state u ≠ Ready) as Hkeep.
  { intros j u Hj Hu. unfold wake_joiner. split; [|intros Hr; apply (Hno j); split; [done|exists u; auto]].
    rewrite bool_decide_false; [done|]. intros Hbj. apply (Hno j). split; [done|exists u; auto]. }
  assert (∀ j, slot (reaped t (sched k)) j = if bool_decide (j = current (sched k)) then None else slot (sched k) j) as Hslot.
  { intros j. rewrite (reaped_slot _ _ _ Ht). case_bool_decide as Hj; [done|]. destruct (slot (sched k) j) as [u|] eqn:Hu; [|done].
    exact (proj1 (Hkeep j u Hj Hu)). }
  destruct (exit_eq k t Hw Ht) as [[E _]|(idx & u & _ & Hu & Hr & _)].
  - eexists. split; [exact E|]. cbn [sched set_irq set_sched irq]. split_and!; [done|done|exact Hslot|].
    intros tr k' Hs Htm. by apply (idle_stays _ tr k' (Hwg : sched_wf (sched (set_irq true (set_sched (reaped t (sched k)) (set_irq false k))))) eq_refl Hs).
  - exfalso. rewrite Hslot in Hu. case_bool_decide as Hj; [done|]. by destruct (Hkeep idx u Hj Hu).
Qed.

(** The current task exits while the other one sleeps until tick 8; two
    interrupts later the sleeper is Ready and still nobody runs. *)
Lemma idle_never_wakes_witness :
  let k := demo (demo_task 1 Running BNone 1) (demo_task 2 Blocked (Sleep 8) 2) 1 7 in
  ∃ k0 k', @exit_current dev k = Ret (None, k0) ∧
    @steps dev k0 [(ETimer, None); (ETimer, None)] k' ∧
    ready_at (sched k') 1 ∧ current (sched k') = NO_TASK.
Proof.
  intros k. set (g s := mkSched [None; Some s] NO_TASK 3 1).
  set (k1 := mkKern (g (demo_task 2 Blocked (Sleep 8) 2)) true 7 true (λ _, 0)).
  set (k' := mkKern (g (demo_task 2 Ready BNone 2)) true 9 true (λ _, 0)).
  destruct (@idle_never_wakes dev k (demo_task 1 Running BNone 1)) as (k0 & E & _ & _ & _ & Hidle).
  - apply demo_wf; try done; split_and!; done.
  - reflexivity.
  - intros j (Hj & u & Hu & Hr). destruct (demo_slot _ _ _ _ _ _ Hu) as [[-> ->]|[-> ->]]; [done|].
    destruct Hr as [Hr|[_ Hr]]; discriminate Hr.
  - assert (k0 = k1) as -> by (change (@exit_current dev k) with (@Ret (option Switch * Kern) (None, k1)) in E; congruence).
    assert (@steps dev k1 [(ETimer, None); (ETimer, None)] k') as Hs.
    { eapply steps_cons; [done|reflexivity|]. eapply steps_cons; [done|reflexivity|]. apply steps_nil. }
    exists k1, k'. split; [exact E|]. split; [exact Hs|]. split; [eexists; split; reflexivity|].
    refine (proj2 (Hidle _ _ Hs _)). by repeat constructor.
Defined.
