(* ===== verification/Blocking.v ===== *)
(** * Blocking: a task that waits is not resumed before its time

    [sleep] and [join] over whole runs of the scheduler: once a task has been switched out
    in one of them, no interleaving of operations of other tasks and timer interrupts
    dispatches it before its tick count is reached, or before the task it joins is gone.

    Every operation first changes the table ([sleep] blocks the caller, a timer interrupt
    wakes sleepers, ...) and then at most demotes the current task and dispatches a ready one;
    [finishes] is what the second part leaves alone. *)

From S2P Require Import Prelude Task Scheduler SchedulerProps.
Import asm context task scheduler.

(** ** Demoting and dispatching *)

Record finishes (g g' : Scheduler) : Prop := {
  fn_ids j : id <$> slot g' j = id <$> slot g j;
  fn_next : next_id g' = next_id g;
  fn_blocked j t : slot g j = Some t → state t = Blocked → j ≠ current g → slot g' j = Some t ∧ j ≠ current g';
}.

#[global] Instance finishes_preorder : PreOrder finishes.
Proof.
  split.
  - intros g. by constructor.
  - intros g1 g2 g3 [I1 N1 B1] [I2 N2 B2]. constructor; [intros j; by rewrite I2|congruence|].
    intros j t Hs Hb Hc. destruct (B1 j t Hs Hb Hc) as [Hs1 Hc1]. by apply B2.
Qed.

Lemma finishes_put g t u : slot g (current g) = Some t → id u = id t → finishes g (put (current g) u g).
Proof.
  intros Hs Hid. constructor; [|done|].
  - intros j. rewrite (slot_put _ _ _ _ _ Hs). case_bool_decide; [subst; rewrite Hs; cbn; congruence|done].
  - intros j v Hv _ Hj. rewrite (slot_put _ _ _ _ _ Hs), bool_decide_false by done. done.
Qed.

Lemma finishes_demoted g : finishes g (demoted g).
Proof.
  unfold demoted. destruct (slot g (current g)) as [t|] eqn:Ht; [|done].
  eapply finishes_put; [done|apply demote_id].
Qed.

Lemma finishes_dispatch g idx u : slot g idx = Some u → state u = Ready → finishes g (dispatch idx u g).
Proof.
  intros Hu Hr. constructor; [|done|].
  - intros j. change (slot (dispatch idx u g) j) with (slot (put idx (set_state Running u) g) j).
    rewrite (slot_put _ _ _ _ _ Hu). case_bool_decide; [by subst; rewrite Hu|done].
  - intros j t Hs Hb _. assert (j ≠ idx) by congruence. split; [|done].
    change (slot (dispatch idx u g) j) with (slot (put idx (set_state Running u) g) j).
    by rewrite (slot_put _ _ _ _ _ Hu), bool_decide_false.
Qed.

Section runs.
Context `{Profile}.

(** [o] and [k'] are what a computation that demotes and dispatches from [g] gives. *)
Definition ends_from (g : Scheduler) (k : Kern) (r : outcome (option Switch * Kern)) : Prop :=
  ∃ o k', r = Ret (o, k') ∧ finishes g (sched k') ∧ ticks k' = ticks k ∧ active k' = active k.

Lemma schedule_ends k : sched_wf (sched k) → ends_from (sched k) k (schedule k).
Proof.
  intros Hw. destruct (schedule_spec k Hw) as [[-> _]|(idx & t & -> & Hs & Hr & _)];
    (eexists _, _; split; [done|]; split; [|done]); cbn [sched set_sched].
  - apply finishes_demoted.
  - etransitivity; [apply finishes_demoted|]. by apply finishes_dispatch.
Qed.

Lemma put_schedule_ends k t u : sched_wf (sched k) → slot (sched k) (current (sched k)) = Some t →
  id u = id t → task_ok u →
  ends_from (sched k) k (schedule (set_sched (put (current (sched k)) u (sched k)) k)).
Proof.
  intros Hw Hs Hid Hok. destruct (schedule_ends (set_sched (put (current (sched k)) u (sched k)) k))
    as (o & k' & E & Hf & Ht & Ha).
  - eapply wf_put; [done|exact Hs|done|done|done].
  - exists o, k'. split; [done|]. split; [|done]. etransitivity; [by eapply finishes_put|exact Hf].
Qed.
(** The operations a running task makes on itself. *)
Definition own (e : event) : bool :=
  match e with EStart | EBody | EYield | ESleep _ | EJoin _ => true | _ => false end.

Lemma own_ends e k : own e = true → sched_wf (sched k) → active k = true → legal e k →
  ends_from (sched k) k (step e k).
Proof.
  intros Ho Hw Ha Hl. destruct e as [| | | |n|i| |]; try done; cbn [step legal] in *.
  - unfold start. destruct (pick (sched k) Hw) as [[-> _]|(idx & u & -> & Hs & Hr & _ & Hp & _)];
      [by apply no_current_none_running|..]; cbn [mbind outcome_bind].
    + by exists None, (set_irq true k).
    + change (sched (set_irq false k)) with (sched k). rewrite Hp. cbn [mbind outcome_bind].
      eexists _, _. split; [done|]. split; [|done]. by apply finishes_dispatch.
  - destruct (current_Some _ Hw Hl) as [t Ht]. unfold current_task_body.
    rewrite (index_vget _ _ _ (proj1 (slot_Some _ _ _) Ht)). cbn [mbind outcome_bind expect].
    destruct (take_func t) as [f t'] eqn:Et. cbn [mbind outcome_bind snd].
    assert (id t' = id t) as Hid by (unfold take_func in Et; by injection Et as <- <-).
    pose proof (finishes_put _ _ _ Ht Hid) as Hf. destruct f; eexists _, _; (split; [done|]); by split.
  - unfold yield_now. rewrite Ha. by apply schedule_ends.
  - destruct Hl as [Hc Hf]. destruct (current_Some _ Hw Hc) as [t Ht]. unfold sleep. rewrite Ha. cbn [negb].
    rewrite checked_fits by done. cbn [mbind outcome_bind]. rewrite (update_slot_put _ _ _ _ Ht). cbn [mbind outcome_bind].
    apply (put_schedule_ends k t); [done|done|done|]. apply block_as_ok; [done|by eapply sw_task].
  - destruct (current_Some _ Hw Hl) as [t Ht]. rewrite (join_eq i k t Hw Ha Ht).
    destruct (find_slot i (sched k)); [|by exists None, k].
    apply (put_schedule_ends k t); [done|done|done|]. apply block_as_ok; [done|by eapply sw_task].
Qed.

Lemma timer_ends k : sched_wf (sched k) → active k = true →
  ends_from (woken (wrap 64 (ticks k + 1)) (sched k)) (timer.timer_tick k) (step ETimer k).
Proof.
  intros Hw Ha. cbn [step]. set (k1 := timer.timer_tick k). rewrite (tick_eq k1 Hw Ha).
  change (woken (ticks k1) (sched k1)) with (woken (wrap 64 (ticks k + 1)) (sched k)).
  set (g := woken _ _). assert (sched_wf g) as Hwg by (by apply woken_wf).
  destruct (slot g (current g)) as [t|] eqn:Ht; [|by exists None, (set_sched g k1)].
  destruct (task.slice t =? 0).
  - apply (put_schedule_ends (set_sched g k1) t); [done|done|done|]. apply set_slice_ok; [done|]. by eapply (sw_task g).
  - eexists _, _. split; [done|]. split; [|done]. by eapply finishes_put.
Qed.

Lemma exit_ends k t : sched_wf (sched k) → slot (sched k) (current (sched k)) = Some t →
  ends_from (reaped t (sched k)) k (step EExit k).
Proof.
  intros Hw Ht. cbn [step]. destruct (exit_eq k t Hw Ht) as [[-> _]|(idx & u & -> & Hu & Hr & _)];
    (eexists _, _; split; [done|]; split; [|done]); [done|by apply finishes_dispatch].
Qed.
(** ** What a blocked task waits for *)

Definition gone (i : TaskId) (g : Scheduler) : Prop := i < next_id g ∧ find_slot i g = None.

Definition due (t : Task) (k : Kern) : Prop :=
  match block t with
  | Sleep w => w ≤ ticks k
  | Join i => gone i (sched k)
  | BNone => False
  end.

(** Asleep in slot [j], the CPU elsewhere. *)
Definition parked (j : Z) (t : Task) (g : Scheduler) : Prop :=
  slot g j = Some t ∧ state t = Blocked ∧ j ≠ current g.

(** No task gets an old id back. *)
Definition ids_from (g g' : Scheduler) : Prop :=
  next_id g ≤ next_id g' ≤ next_id g + 1 ∧ ∀ j i, id <$> slot g' j = Some i → id <$> slot g j = Some i ∨ i = next_id g.

Lemma ids_from_refl g : ids_from g g.
Proof. split; [lia|]. by left. Qed.

Lemma ids_from_finishes g g1 g' : ids_from g g1 → finishes g1 g' → ids_from g g'.
Proof. intros [Hn Hi] [Hi' Hn' _]. split; [lia|]. intros j i. rewrite Hi'. apply Hi. Qed.

Lemma gone_from i g g' : ids_from g g' → gone i g → gone i g'.
Proof.
  intros [Hn Hi] [Hlt Hg]. split; [lia|]. rewrite find_slot_None in *. intros j t Ht E.
  destruct (Hi j i) as [Hj|]; [by rewrite Ht; cbn; rewrite E| |lia].
  destruct (slot g j) as [u|] eqn:Hu; [|done]. injection Hj as Hj. by apply (Hg j u).
Qed.

Lemma finishes_parked j t g g' : finishes g g' → parked j t g → parked j t g'.
Proof. intros Hf (Hs & Hb & Hc). destruct (fn_blocked _ _ Hf j t Hs Hb Hc). done. Qed.

Lemma woken_ids now g : ids_from g (woken now g).
Proof.
  split; [cbn; lia|]. intros j i. rewrite woken_slot. destruct (slot g j) as [t|]; [|done]. cbn.
  destruct (expired now t); by left.
Qed.

Lemma reaped_ids g t : slot g (current g) = Some t → ids_from g (reaped t g).
Proof.
  intros Ht. split; [destruct (reaped_frame g t) as (_ & -> & _); lia|]. intros j i. rewrite (reaped_slot _ _ _ Ht).
  case_bool_decide; [done|]. destruct (slot g j) as [u|]; [|done]. cbn [mbind option_bind].
  rewrite wake_joiner_cases. cbn. case_bool_decide; by left.
Qed.

Lemma reaped_gone g t : sched_wf g → slot g (current g) = Some t → gone (id t) (reaped t g).
Proof.
  intros Hw Ht. split.
  - destruct (reaped_frame g t) as (_ & -> & _). by destruct (sw_ids g Hw _ _ Ht).
  - apply find_slot_None. intros j u. rewrite (reaped_slot _ _ _ Ht). case_bool_decide as Ej; [done|].
    destruct (slot g j) as [v|] eqn:Hv; [|done]. cbn [mbind option_bind]. rewrite wake_joiner_cases.
    intros [= <-] E. apply Ej. apply (sw_uniq g Hw _ _ v t); [done|done|]. revert E. by case_bool_decide.
Qed.

Lemma spawn_step tr ptr f k : sched_wf (sched k) → legal (ESpawn tr ptr f) k →
  ∃ k', step (ESpawn tr ptr f) k = Ret (None, k') ∧ ids_from (sched k) (sched k') ∧ ticks k' = ticks k ∧
    active k' = active k ∧ ∀ j t, parked j t (sched k) → parked j t (sched k').
Proof.
  intros Hw (Hf & Hp & Hl). destruct (add_spec tr ptr f (sched k) (kmem k) Hw Hf Hp Hl) as
    (s & t & m' & g' & E & Hs & _ & _ & Hid & _ & _ & _ & _ & Hslot & _ & Hcur & _ & Hn).
  eexists. split; [cbn; unfold spawn; rewrite E; done|]. cbn [sched snd ticks active]. split_and!; [|done|done|].
  - split; [lia|]. intros j i. rewrite Hslot. case_bool_decide; [|by left]. cbn. intros [= <-]. by right.
  - intros j u (Hu & Hb & Hc). unfold parked. rewrite Hslot, Hcur, bool_decide_false by congruence. done.
Qed.

(** One step: a parked task stays parked, or what it waits for has come. *)
Lemma step_parked e k o k' : sched_wf (sched k) → active k = true → 0 ≤ ticks k →
  ticks k + (if is_timer e then 1 else 0) < 2 ^ 64 → legal e k → step e k = Ret (o, k') →
  active k' = true ∧ ids_from (sched k) (sched k') ∧ ticks k ≤ ticks k' ≤ ticks k + (if is_timer e then 1 else 0) ∧
  ∀ j t, parked j t (sched k) → parked j t (sched k') ∨ due t k'.
Proof.
  intros Hw Ha Ht0 Hfit Hl E. destruct (own e) eqn:Ho.
  { destruct (own_ends e k Ho Hw Ha Hl) as (o1 & k1 & E1 & Hf & Ht & Ha1). assert (k1 = k') as -> by congruence.
    split; [congruence|]. split; [by eapply ids_from_finishes; [apply ids_from_refl|]|]. split; [destruct e; cbn; lia|].
    intros j t Hp. left. by eapply finishes_parked. }
  destruct e as [tr ptr f| | | | | | |]; try done.
  - destruct (spawn_step tr ptr f k Hw Hl) as (k1 & E1 & Hi & Ht & Ha1 & Hp). assert (k1 = k') as -> by congruence.
    split_and!; [congruence|exact Hi|lia|cbn; lia|]. intros j t Hj. left. by apply Hp.
  - destruct (current_Some _ Hw Hl) as [c Hc].
    destruct (exit_ends k c Hw Hc) as (o1 & k1 & E1 & Hf & Ht & Ha1). assert (k1 = k') as -> by congruence.
    split; [congruence|]. split; [eapply ids_from_finishes; [by apply reaped_ids|done]|].
    split; [cbn; lia|]. intros j t (Hs & Hb & Hj). 
    pose proof (reaped_slot _ _ j Hc) as Es. rewrite bool_decide_false, Hs in Es by done. cbn [mbind option_bind] in Es.
    rewrite wake_joiner_cases in Es. case_bool_decide as Ej.
    + right. unfold due. destruct Ej as [_ ->]. eapply gone_from; [by eapply ids_from_finishes; [apply ids_from_refl|]|]. by apply reaped_gone.
    + left. eapply finishes_parked; [done|]. split; [done|]. split; [done|].
      destruct (reaped_frame (sched k) c) as (_ & _ & _ & ->). by eapply slot_not_NO_TASK.
  - destruct (timer_ends k Hw Ha) as (o1 & k1 & E1 & Hf & Ht & Ha1). assert (k1 = k') as -> by congruence.
    cbn in Hfit, Ht. rewrite wrap_small in Ht by (unfold fits; lia). rewrite wrap_small in Hf by (unfold fits; lia).
    split; [by rewrite Ha1|]. split; [eapply ids_from_finishes; [apply woken_ids|done]|].
    split; [cbn; lia|]. intros j t (Hs & Hb & Hj).
    pose proof (woken_slot (ticks k + 1) (sched k) j) as Es. rewrite Hs in Es. cbn in Es.
    destruct (expired (ticks k + 1) t) eqn:Ex.
    + right. unfold expired in Ex. unfold due. rewrite Hb in Ex. cbn in Ex. destruct (block t); [done| |done]. lia.
    + left. eapply finishes_parked; [done|]. by split.
Qed.
Lemma due_step t k k' : ids_from (sched k) (sched k') → ticks k ≤ ticks k' → due t k → due t k'.
Proof. intros Hi Ht. unfold due. destruct (block t); [done|lia|by apply gone_from]. Qed.

Lemma timer_ticks_cons e o tr : timer_ticks ((e, o) :: tr) = (if is_timer e then 1 else 0) + timer_ticks tr.
Proof. unfold timer_ticks. rewrite vlen_filter_cons. cbn [fst]. by destruct (is_timer e). Qed.

Lemma timer_ticks_nonneg tr : 0 ≤ timer_ticks tr.
Proof. apply vlen_nonneg. Qed.

(** What holds of every state of a run: the clock does not go back, ids do not come back. *)
Lemma run_due k tr k' t : steps k tr k' → sched_wf (sched k) → active k = true → 0 ≤ ticks k →
  ticks k + timer_ticks tr < 2 ^ 64 → due t k → due t k'.
Proof.
  induction 1 as [|k e o k1 tr k2 Hl E Hs IH]; intros Hw Ha H0 Hfit Hd; [done|].
  rewrite timer_ticks_cons in Hfit. pose proof (timer_ticks_nonneg tr).
  destruct (step_parked e k o k1) as (Ha1 & Hi & Htk & _); try done; [lia|].
  destruct (step_good e k Hw Hl) as (o' & k1' & E' & Hm & _). rewrite E in E'. injection E' as <- <-.
  apply IH; [apply Hm|done|lia|lia|]. apply (due_step t k); [done|lia|done].
Qed.

(** A parked task is not dispatched before it is due. *)
Lemma parked_waits k tr k' j t : steps k tr k' → sched_wf (sched k) → active k = true → 0 ≤ ticks k →
  ticks k + timer_ticks tr < 2 ^ 64 → parked j t (sched k) →
  due t k' ∨ (parked j t (sched k') ∧ ∀ e sw, (e, Some sw) ∈ tr → sw_new sw ≠ SlotCtx j).
Proof.
  induction 1 as [k|k e o k1 tr k2 Hl E Hs IH]; intros Hw Ha H0 Hfit Hp.
  { right. split; [done|]. intros e sw Hin. by apply not_elem_of_nil in Hin. }
  rewrite timer_ticks_cons in Hfit. pose proof (timer_ticks_nonneg tr).
  destruct (step_parked e k o k1) as (Ha1 & Hi & Htk & Hst); try done; [lia|].
  destruct (step_good e k Hw Hl) as (o' & k1' & E' & Hm & _). rewrite E in E'. injection E' as <- <-.
  destruct (Hst j t Hp) as [Hp1|Hd]; [|left; eapply run_due; [exact Hs|apply Hm|done|lia|lia|done]].
  destruct IH as [?|[Hp2 Hno]]; [apply Hm|done|lia|lia|done|by left|right]. split; [done|].
  intros e' sw [[= <- <-]|Hin]%elem_of_cons; [|by eapply Hno].
  destruct (mv_switch _ _ _ Hm sw eq_refl) as (_ & -> & _). destruct Hp1 as (_ & _ & Hj). congruence.
Qed.

(** Blocking and switching parks the caller. *)
Lemma block_parks k t b sw k1 : sched_wf (sched k) → slot (sched k) (current (sched k)) = Some t → b ≠ BNone →
  schedule (set_sched (put (current (sched k)) (block_as b t) (sched k)) k) = Ret (Some sw, k1) →
  parked (current (sched k)) (block_as b t) (sched k1) ∧ ticks k1 = ticks k ∧ active k1 = active k.
Proof.
  intros Hw Ht Hb E. set (g := put _ _ _) in E.
  assert (sched_wf g) as Hwg.
  { eapply wf_put; [done|exact Ht|done| |done]. apply block_as_ok; [done|by eapply sw_task]. }
  assert (slot g (current g) = Some (block_as b t)) as Hs.
  { unfold g at 1. rewrite (slot_put _ _ _ _ _ Ht). by rewrite bool_decide_true. }
  destruct (schedule_spec (set_sched g k) Hwg) as [[E' _]|(idx & u & E' & Hu & Hr & _)];
    rewrite E' in E; [done|]. injection E as <- <-. cbn [sched set_sched ticks active set_irq] in *.
  split; [|done]. assert (slot (demoted g) (current g) = Some (block_as b t)) as Hd by (by rewrite demoted_slot, Hs).
  assert (current g ≠ idx) by (intros <-; rewrite Hd in Hu; by injection Hu as <-).
  split; [|done]. change (slot (put idx (set_state Running u) (demoted g)) (current g) = Some (block_as b t)).
  by rewrite (slot_put _ _ _ _ _ Hu), bool_decide_false.
Qed.

(** C8. [sleep] and [join] keep their promise. When a task that calls [sleep] or [join]
    gives up the CPU, then in any run of the scheduler that follows (other tasks
    spawning, yielding, sleeping, joining, exiting, and timer interrupts in any order), it is
    dispatched again only after the clock has advanced by the ticks it asked for, or when
    the task it joined is gone from the table. *)
Theorem blocking_waits e k sw k1 tr k' :
  sched_wf (sched k) → active k = true → 0 ≤ ticks k → legal e k →
  step e k = Ret (Some sw, k1) → steps k1 tr k' → ticks k + timer_ticks tr < 2 ^ 64 →
  (∃ e' sw', (e', Some sw') ∈ tr ∧ sw_new sw' = SlotCtx (current (sched k))) →
  (∀ n, e = ESleep n → ticks k + n ≤ ticks k') ∧ (∀ i, e = EJoin i → find_slot i (sched k') = None).
Proof.
  intros Hw Ha H0 Hl E Hs Hfit (e' & sw' & Hin & Hsw).
  destruct (step_good e k Hw Hl) as (o' & k1' & E' & Hm & _). rewrite E in E'. injection E' as <- <-.
  assert (∀ t b, slot (sched k) (current (sched k)) = Some t → b ≠ BNone →
    step e k = schedule (set_sched (put (current (sched k)) (block_as b t) (sched k)) k) → due (block_as b t) k') as Hgo.
  { intros t b Ht Hb Eb. rewrite Eb in E. destruct (block_parks k t b sw k1) as (Hp & Etk & Eac); [done..|].
    destruct (parked_waits k1 tr k' (current (sched k)) (block_as b t) Hs (mv_wf _ _ _ Hm)) as [?|[_ Hno]];
      [congruence|lia|lia|exact Hp|done|].
    by destruct (Hno e' sw' Hin). }
  split; intros x ->; cbn [legal step] in *.
  - destruct Hl as [Hc Hf]. destruct (current_Some _ Hw Hc) as [t Ht]. apply (Hgo t (Sleep (ticks k + x)) Ht); [done|].
    unfold sleep. rewrite Ha. cbn [negb]. rewrite checked_fits by done. cbn [mbind outcome_bind].
    by rewrite (update_slot_put _ _ _ _ Ht).
  - destruct (current_Some _ Hw Hl) as [t Ht]. pose proof (join_eq x k t Hw Ha Ht) as Ej.
    destruct (find_slot x (sched k)); [|congruence]. by destruct (Hgo t (Join x) Ht) as [_ ?].
Qed.
End runs.

(** Task 1 joins task 2, which runs and exits: only then does task 1 run again. *)
Lemma blocking_waits_witness :
  let k := demo (demo_task 1 Running BNone 2) (demo_task 2 Ready BNone 2) 1 7 in
  ∃ sw k1 k', @step dev (EJoin 2) k = Ret (Some sw, k1) ∧
    @steps dev k1 [(EExit, Some (mkSwitch BootCtx (SlotCtx 0) false))] k' ∧ find_slot 2 (sched k') = None.
Proof.
  intros k. set (tr := [(EExit, Some (mkSwitch BootCtx (SlotCtx 0) false))]).
  assert (∃ k1 k', @step dev (EJoin 2) k = Ret (Some (mkSwitch (SlotCtx 0) (SlotCtx 1) true), k1) ∧ @steps dev k1 tr k')
    as (k1 & k' & E & Hs).
  { eexists _, _. split; [vm_compute; reflexivity|].
    eapply steps_cons; [vm_compute; discriminate|vm_compute; reflexivity|apply steps_nil]. }
  exists (mkSwitch (SlotCtx 0) (SlotCtx 1) true), k1, k'. split; [exact E|]. split; [exact Hs|].
  destruct (@blocking_waits dev (EJoin 2) k (mkSwitch (SlotCtx 0) (SlotCtx 1) true) k1 tr k') as [_ Hj].
  - apply demo_wf; try done; split_and!; done.
  - done.
  - done.
  - vm_compute. discriminate.
  - exact E.
  - exact Hs.
  - done.
  - exists EExit, (mkSwitch BootCtx (SlotCtx 0) false). split; [by left|done].
  - by apply Hj.
Defined.
