(* ===== verification/Preempt.v ===== *)
(** * Preempt: the scheduler at the grain of its critical sections
    (kernel/src/process/scheduler.rs, the timer handler of kernel/src/interrupts.rs)

    [Scheduler] takes each operation as one step. The code takes a spin lock around its
    critical sections only, and most operations run with interrupts enabled, so that a timer
    interrupt can come between two sections of an operation or in the middle of one. Here an
    operation is a list of instructions: a section is entered ([Lock]), executed and
    left ([Critical]), the interrupt flag is read and written, stacks are switched. A [Cpu] executes
    the instructions on top of the stack in use, and the timer can interrupt it
    before any of them. The operations are the same code as in [Scheduler]
    ([uninterrupted_atomic] says so); runs begin after [start], which is called once with
    interrupts off. *)

From S2P Require Import Prelude Task Scheduler SchedulerProps Blocking.
Import asm context task scheduler.

Module preempt.

(** What is done between [SCHEDULER.lock()] and the end of the guard's scope. *)
Inductive section :=
  | SAdd (trampoline ptr : Z) (f : string)    (* spawn *)
  | SSchedule (was_enabled : bool)            (* schedule *)
  | SBlock (b : BlockReason)                  (* sleep, join *)
  | SDone (i : TaskId)                        (* join: has the task finished? *)
  | SExit                                     (* exit_current *)
  | STakeBody                                 (* current_task_body *)
  | STick (now : Z)                           (* tick *)
  | SCount.                                   (* task_count, snapshot *)

Inductive instr :=
  | Disable
  | Enable
  | AreEnabled                                (* the first line of [schedule] *)
  | Deadline (n : Z)                          (* [timer::ticks() + n] of [sleep] *)
  | Lock (s : section)
  | Critical (s : section)                    (* the lock is taken *)
  | SwitchTo (old new : CtxPtr)
  | ClockTick                                 (* timer::tick *)
  | ReadClock                                 (* the first lines of process::tick *)
  | EndOfInterrupt
  | Iret
  | Body                                      (* the closure of the task *)
  | Idle.

#[global] Instance CtxPtr_eq_dec : EqDecision CtxPtr.
Proof. solve_decision. Defined.
#[global] Instance section_eq_dec : EqDecision section.
Proof. solve_decision. Defined.
#[global] Instance instr_eq_dec : EqDecision instr.
Proof. solve_decision. Defined.

Definition schedule_code : list instr := [AreEnabled].
Definition exit_code : list instr := [Disable; Lock SExit].
Definition timer_code : list instr := [ClockTick; ReadClock; EndOfInterrupt; Iret].
Definition enable_if (b : bool) : list instr := if b then [Enable] else [].

Section sections.
Context `{Profile}.

(** A section: the statics after it, and the instructions that follow it. *)
Definition crit (s : section) (k : Kern) : outcome (Kern * list instr) :=
  let g := sched k in
  match s with
  | SAdd tr ptr f => r ← spawn tr ptr f k; Ret (snd r, [])
  | SSchedule was =>
      g1 ← (if current g =? NO_TASK then Ret g else update_slot (current g) demote g);
      nxt ← next_ready g1;
      match nxt with
      | Some idx =>
          r ← prep_switch idx g1;
          let '(old, nw, g2) := r in
          Ret (set_sched g2 k, SwitchTo old nw :: enable_if was)
      | None => Ret (set_sched g1 k, enable_if was)
      end
  | SBlock b =>
      g1 ← update_slot (current g) (block_as b) g;
      Ret (set_sched g1 k, [])
  | SDone i =>
      done ← match find_slot i g with
             | None => Ret true
             | Some s => o ← index (slots g) s; t ← expect o; Ret (bool_decide (state t = Zombie))
             end;
      Ret (k, if (done : bool) then [] else Lock (SBlock (Join i)) :: schedule_code)
  | SExit =>
      o ← index (slots g) (current g);
      t ← expect o;
      let slots1 := vset (slots g) (current g) (Some (set_state Zombie t)) in
      let slots2 := wake_joiner (id t) <$> slots1 in
      nxt ← next_ready (set_slots slots2 g);
      let g2 := mkSched (vset slots2 (current g) None) NO_TASK (next_id g) (cursor g) in
      match nxt with
      | Some idx =>
          r ← prep_switch idx g2;
          let '(_, nw, g3) := r in
          Ret (set_sched g3 k, [SwitchTo BootCtx nw; Idle])
      | None => Ret (set_sched g2 k, [Enable; Idle])
      end
  | STakeBody =>
      o ← index (slots g) (current g);
      t ← expect o;
      let '(f, t') := take_func t in
      Ret (set_sched (set_slots (vset (slots g) (current g) (Some t')) g) k,
           match f with Some _ => [Enable; Body] | None => exit_code end)
  | STick now =>
      let g1 := set_slots (wake_sleeper now <$> slots g) g in
      if current g1 =? NO_TASK then Ret (set_sched g1 k, [])
      else
        o ← index (slots g1) (current g1);
        match o with
        | Some t =>
            if task.slice t =? 0
            then Ret (set_sched (set_slots (vset (slots g1) (current g1) (Some (set_slice DEFAULT_SLICE t))) g1) k,
                      schedule_code)
            else Ret (set_sched (set_slots (vset (slots g1) (current g1) (Some (set_slice (task.slice t - 1) t))) g1) k, [])
        | None => Ret (set_sched g1 k, [])
        end
  | SCount => Ret (k, [])
  end.

(** What a task can call. *)
Inductive op :=
  | OSpawn (trampoline ptr : Z) (f : string)
  | OYield
  | OSleep (n : Z)
  | OJoin (i : TaskId)
  | OCount
  | OReturn.                                  (* the closure returns *)

Definition op_code (o : op) (k : Kern) : list instr :=
  match o with
  | OSpawn tr ptr f => [Lock (SAdd tr ptr f)]
  | OYield => if active k then schedule_code else []
  | OSleep n => if active k then [Deadline n] else []
  | OJoin i => if active k then [Lock (SDone i)] else []
  | OCount => [Lock SCount]
  | OReturn => exit_code
  end.

(** The statics, the lock, the in-service bit of IRQ0, the slot whose stack is in use, what
    is left to execute on it, and on the stacks of the tasks that were switched out. *)
Record Cpu := mkCpu {
  kern : Kern;
  locked : bool;
  in_service : bool;
  stack : Z;
  code : list instr;
  saved : Z → list instr;
}.

Definition goes_on (k : Kern) (l : list instr) (c : Cpu) : Cpu :=
  mkCpu k (locked c) (in_service c) (stack c) l (saved c).

(** Where [__switch] lands in slot [j]: a task that has not run yet (its closure is
    still there) starts in [task_trampoline]. *)
Definition resumed (j : Z) (c : Cpu) : list instr :=
  match slot (sched (kern c)) j with
  | Some t => match func t with Some _ => [Lock STakeBody] | None => saved c j end
  | None => saved c j
  end.

Definition do_switch (old new : CtxPtr) (rest : list instr) (c : Cpu) : Cpu :=
  let c1 := match old with
            | SlotCtx i => mkCpu (kern c) (locked c) (in_service c) (stack c) rest (λ j, if j =? i then rest else saved c j)
            | BootCtx => c
            end in
  match new with
  | SlotCtx j => mkCpu (kern c1) (locked c1) (in_service c1) j (resumed j c1) (saved c1)
  | BootCtx => goes_on (kern c1) [] c1
  end.

Definition exec (i : instr) (rest : list instr) (c : Cpu) : outcome Cpu :=
  let k := kern c in
  match i with
  | Disable => Ret (goes_on (set_irq false k) rest c)
  | Enable => Ret (goes_on (set_irq true k) rest c)
  | AreEnabled => Ret (goes_on k (Disable :: Lock (SSchedule (irq k)) :: rest) c)
  | Deadline n =>
      wake ← checked 64 (ticks k + n);
      Ret (goes_on k (Lock (SBlock (Sleep wake)) :: schedule_code ++ rest) c)
  | Lock s => if locked c then Ret c                     (* spin *)
              else Ret (mkCpu k true (in_service c) (stack c) (Critical s :: rest) (saved c))
  | Critical s =>
      r ← crit s k;
      let '(k', l) := r in
      Ret (mkCpu k' false (in_service c) (stack c) (l ++ rest) (saved c))
  | SwitchTo old new => Ret (do_switch old new rest c)
  | ClockTick => Ret (goes_on (timer.timer_tick k) rest c)
  | ReadClock => Ret (goes_on k (if active k then Lock (STick (ticks k)) :: rest else rest) c)
  | EndOfInterrupt => Ret (mkCpu k (locked c) false (stack c) rest (saved c))
  | Iret => Ret (goes_on (set_irq true k) rest c)
  | Body => Ret c
  | Idle => Ret (goes_on (set_irq true k) (Idle :: rest) c)
  end.

(** The timer fires, the CPU executes an instruction, or the running closure makes a call. *)
Inductive choice := Irq0 | Go | Call (o : op).

Definition turn (ch : choice) (c : Cpu) : outcome Cpu :=
  match ch, code c with
  | Irq0, l => if irq (kern c) && negb (in_service c)
               then Ret (mkCpu (set_irq false (kern c)) (locked c) true (stack c) (timer_code ++ l) (saved c))
               else Ret c
  | Go, i :: rest => exec i rest c
  | Call OReturn, Body :: rest => Ret (goes_on (kern c) (exit_code ++ rest) c)
  | Call o, Body :: rest => Ret (goes_on (kern c) (op_code o (kern c) ++ Body :: rest) c)
  | _, _ => Ret c
  end.

Definition run (cs : list choice) (c : Cpu) : outcome Cpu := for_each cs turn c.

(** After [start] has switched to slot [j]. *)
Definition started (j : Z) (k : Kern) : Cpu := mkCpu k false false j [Lock STakeBody] (λ _, []).
End sections.
End preempt.
Import preempt.
