(* ===== verification/PreemptProps.v ===== *)
(** * PreemptProps: what holds under every preemption

    A timer interrupt may come before any instruction of any task. The table stays well
    formed, nothing panics, a section works on the slot of the stack it runs on, and stacks are
    switched with interrupts off ([flow] types the interrupt flag along the
    instructions). But a section entered with interrupts on can be interrupted by the handler that
    needs the same lock, and [join] can miss the end of the task it waits for. *)

From S2P Require Import Prelude Task Scheduler SchedulerProps Blocking Preempt.
Import asm context task scheduler preempt.

(** ** The interrupt flag along the instructions *)

Definition buffer_ok (ptr : Z) : Prop := 0 ≤ ptr ∧ ptr + KERNEL_STACK_SIZE + 15 < 2 ^ 64.

(** [flow b l]: [l] can be executed with the flag equal to [b]; no switch is pending. *)
Fixpoint flow (b : bool) (l : list instr) : Prop :=
  match l with
  | [] => True
  | i :: r =>
      match i with
      | Disable => flow false r
      | Enable => flow true r
      | AreEnabled => flow b r
      | Deadline n => 0 ≤ n < 2 ^ 62 ∧ flow b r
      | Lock s | Critical s =>
          match s with
          | SAdd _ ptr _ => buffer_ok ptr ∧ flow b r
          | SBlock x => x ≠ BNone ∧ flow b r
          | SDone _ | SCount => flow b r
          | SSchedule was => b = false ∧ flow was r
          | SExit | STakeBody => b = false ∧ r = []
          | STick _ => b = false ∧ flow false r
          end
      | ClockTick | ReadClock | EndOfInterrupt => b = false ∧ flow false r
      | SwitchTo _ _ => False
      | Iret => b = false ∧ flow true r
      | Body => b = true ∧ r = []
      | Idle => r = []
      end
  end.

(** The instructions of a task that is in the table. *)
Definition needs (i : instr) : bool :=
  match i with
  | Deadline _ | SwitchTo _ _ | Body => true
  | Lock s | Critical s => match s with SBlock _ | SDone _ | SExit | STakeBody => true | _ => false end
  | _ => false
  end.

Abbreviation no_needs := (Forall (λ i, needs i = false)).

Lemma flow_enable was l : flow was l → flow false (enable_if was ++ l).
Proof. by destruct was. Qed.

Lemma no_needs_enable was : no_needs (enable_if was).
Proof. destruct was; by repeat constructor. Qed.

Definition switching (l : list instr) : option (CtxPtr * CtxPtr) :=
  match l with SwitchTo old new :: _ => Some (old, new) | _ => None end.

Lemma flow_no_switch b l : flow b l → switching l = None.
Proof. destruct l as [|[] ?]; by try intros []. Qed.

(** As [flow], with a switch next. *)
Definition flow_top (b : bool) (l : list instr) : Prop :=
  match l with SwitchTo _ _ :: r => b = false ∧ flow false r | _ => flow b l end.

Lemma flow_flow_top b l : flow b l → flow_top b l.
Proof. by destruct l as [|[] ?]. Qed.

(** Where the CPU is: idle, or on the stack of the current task, or about to switch to it. *)
Definition on_stack (g : Scheduler) (st : Z) (l : list instr) : Prop :=
  current g = NO_TASK ∧ no_needs l ∨
  (∃ t, slot g (current g) = Some t) ∧
    match switching l with
    | Some (old, new) => new = SlotCtx (current g) ∧ (old = SlotCtx st ∨ old = BootCtx)
    | None => current g = st
    end.

(** [b] turns are left: the clock and the ids do not run out. *)
Record inv (b : Z) (c : Cpu) : Prop := {
  iv_wf : sched_wf (sched (kern c));
  iv_ticks : 0 ≤ ticks (kern c) ∧ ticks (kern c) + b < 2 ^ 62;
  iv_ids : next_id (sched (kern c)) + b < 2 ^ 32;
  iv_flow : flow_top (irq (kern c)) (code c);
  iv_saved j : flow false (saved c j);
  iv_stack : on_stack (sched (kern c)) (stack c) (code c);
}.

(** ** A joiner that came too late

    Blocked in slot [j] on a task that is no more. *)
Definition late (j : Z) (t : Task) (i : TaskId) (g : Scheduler) : Prop := parked j t g ∧ block t = Join i ∧ gone i g.

Definition keeps_late (g g' : Scheduler) : Prop := ∀ j t i, late j t i g → late j t i g'.

#[global] Instance keeps_late_preorder : PreOrder keeps_late.
Proof. split; [by intros g j t i|]. intros g1 g2 g3 H1 H2 j t i Hl. by apply H2, H1. Qed.

Lemma late_finishes g g' : finishes g g' → keeps_late g g'.
Proof.
  intros Hf j t i (Hp & Hb & Hg). split; [by eapply finishes_parked|]. split; [done|].
  eapply gone_from; [|done]. by eapply ids_from_finishes; [apply ids_from_refl|].
Qed.

Lemma late_woken now g : keeps_late g (woken now g).
Proof.
  intros j t i ((Hs & Hb & Hj) & Hbl & Hg). split; [|split; [done|by eapply gone_from; [apply woken_ids|]]].
  split; [|done]. rewrite woken_slot, Hs. cbn. unfold expired. by rewrite Hbl, andb_false_r.
Qed.

Lemma late_reaped g t : sched_wf g → slot g (current g) = Some t → keeps_late g (reaped t g).
Proof.
  intros Hw Ht j u i ((Hs & Hb & Hj) & Hbl & Hg). split; [|split; [done|by eapply gone_from; [apply reaped_ids|]]].
  split; [|split; [done|]]; [|destruct (reaped_frame g t) as (_ & _ & _ & ->); by eapply slot_not_NO_TASK].
  rewrite (reaped_slot _ _ _ Ht), bool_decide_false, Hs by done. cbn [mbind option_bind]. rewrite wake_joiner_cases.
  rewrite bool_decide_false; [done|]. intros [_ E]. rewrite Hbl in E. injection E as ->.
  destruct Hg as [_ Hg]. rewrite find_slot_None in Hg. by apply (Hg _ _ Ht).
Qed.

Section sections.
Context `{Profile}.

(** ** The sections *)

(** What a section guarantees. *)
Record crit_ok (s : section) (k k' : Kern) (l : list instr) : Prop := {
  co_wf : sched_wf (sched k');
  co_rest : ticks k' = ticks k ∧ irq k' = irq k ∧ active k' = active k;
  co_late : keeps_late (sched k) (sched k');
  co_ids : next_id (sched k) ≤ next_id (sched k') ≤ next_id (sched k) + 1;
  co_flow r : flow (irq k) (Critical s :: r) → flow_top (irq k) (l ++ r);
  co_stack st r : on_stack (sched k) st (Critical s :: r) → flow (irq k) (Critical s :: r) → on_stack (sched k') st (l ++ r);
}.

Lemma on_stack_keep g g' st i l b l' : current g' = current g → (∀ t, slot g (current g) = Some t → ∃ t', slot g' (current g) = Some t') →
  (no_needs (i :: l) → no_needs l') → switching (i :: l) = None → flow b l' → on_stack g st (i :: l) → on_stack g' st l'.
Proof.
  intros Hc Hs Hn Hi Hf [[E Hl]|[[t Ht] E]].
  - left. split; [congruence|auto].
  - right. rewrite Hc. split; [by eapply Hs|]. rewrite Hi in E. by rewrite (flow_no_switch _ _ Hf).
Qed.

Lemma no_needs_tail i l l' : no_needs l → no_needs (i :: l') → no_needs (l ++ l').
Proof. intros Hl Hr. apply Forall_cons in Hr as [_ Hr]. by apply Forall_app. Qed.

Lemma crit_keep s k g l : sched_wf g → keeps_late (sched k) g → current g = current (sched k) → next_id g = next_id (sched k) →
  (∀ t, slot (sched k) (current (sched k)) = Some t → ∃ t', slot g (current (sched k)) = Some t') →
  (∀ r, no_needs (Critical s :: r) → no_needs (l ++ r)) →
  (∀ r, flow (irq k) (Critical s :: r) → flow (irq k) (l ++ r)) → crit_ok s k (set_sched g k) l.
Proof.
  intros Hw Hla Hc Hn Hs Hl Hf. constructor; cbn [sched set_sched ticks irq active]; [done|done|done|lia|by intros r ?%Hf%flow_flow_top|].
  intros st r Hst Hr. by refine (on_stack_keep _ _ _ _ _ _ _ Hc Hs (Hl r) _ (Hf r Hr) Hst).
Qed.

Lemma crit_put s k t u l : sched_wf (sched k) → slot (sched k) (current (sched k)) = Some t →
  id u = id t → task_ok u → (∀ r, no_needs (Critical s :: r) → no_needs (l ++ r)) →
  (∀ r, flow (irq k) (Critical s :: r) → flow (irq k) (l ++ r)) →
  crit_ok s k (set_sched (put (current (sched k)) u (sched k)) k) l.
Proof.
  intros Hw Ht Hid Hok. apply crit_keep; [by eapply wf_put|by eapply late_finishes, finishes_put|done|done|].
  intros t' Ht'. rewrite (slot_put _ _ _ _ _ Ht), bool_decide_true by done. by eexists.
Qed.

Lemma crit_schedule_eq was k : sched_wf (sched k) →
  let g := demoted (sched k) in
  (crit (SSchedule was) k = Ret (set_sched g k, enable_if was) ∧ ∀ i, ¬ ready_at g i) ∨
  (∃ idx t, crit (SSchedule was) k =
      Ret (set_sched (dispatch idx t g) k, SwitchTo (ctx_ptr (current (sched k))) (SlotCtx idx) :: enable_if was) ∧
     slot g idx = Some t ∧ state t = Ready ∧ sched_wf (dispatch idx t g)).
Proof.
  intros Hw g. cbn [crit]. rewrite schedule_demotes by done. cbn [mbind outcome_bind]. fold g.
  destruct (demoted_wf _ Hw) as [Hw1 Hnr]. destruct (demoted_frame (sched k)) as (Hc & _). fold g in Hc.
  destruct (pick g Hw1 Hnr) as [[-> ?]|(idx & t & -> & Hs & Hr & _ & Hp & Hw2)]; cbn [mbind outcome_bind]; [by left|right].
  exists idx, t. rewrite Hp. cbn [mbind outcome_bind]. by rewrite Hc.
Qed.

Lemma crit_schedule was k : sched_wf (sched k) → ∃ k' l, crit (SSchedule was) k = Ret (k', l) ∧ crit_ok (SSchedule was) k k' l.
Proof.
  intros Hw. destruct (demoted_frame (sched k)) as (Hc & Hn & _).
  destruct (crit_schedule_eq was k Hw) as [[-> _]|(idx & t & -> & Hs & Hr & Hw2)]; (eexists _, _; split; [done|]).
  - apply crit_keep; try done.
    + by apply demoted_wf.
    + apply late_finishes, finishes_demoted.
    + intros t Ht. rewrite demoted_slot, Ht by done. by eexists.
    + intros r. apply no_needs_tail, no_needs_enable.
    + intros r [Hi Hr]. rewrite Hi. by apply flow_enable.
  - constructor; cbn [sched set_sched ticks irq active]; [done|done| |cbn; rewrite Hn; lia| |].
    + etransitivity; [apply late_finishes, finishes_demoted|by apply late_finishes, finishes_dispatch].
    + intros r [Hi Hf]. split; [done|]. by apply flow_enable.
    + intros st r Hst _. right. split.
      * exists (set_state Running t). change (slot (put idx (set_state Running t) (demoted (sched k))) idx = Some (set_state Running t)).
        by rewrite (slot_put _ _ _ _ _ Hs), bool_decide_true.
      * cbn [switching app]. split; [done|]. unfold ctx_ptr. destruct Hst as [[-> _]|[[u Hu] <-]]; [by right|].
        left. by rewrite (proj2 (Z.eqb_neq _ _) (slot_not_NO_TASK _ _ _ Hw Hu)).
Qed.

Lemma crit_exit k t : sched_wf (sched k) → slot (sched k) (current (sched k)) = Some t →
  let g := reaped t (sched k) in
  (crit SExit k = Ret (set_sched g k, [Enable; Idle]) ∧ ∀ i, ¬ ready_at g i) ∨
  (∃ idx u, crit SExit k = Ret (set_sched (dispatch idx u g) k, [SwitchTo BootCtx (SlotCtx idx); Idle]) ∧
     slot g idx = Some u ∧ state u = Ready ∧ sched_wf (dispatch idx u g)).
Proof.
  intros Hw Ht g. pose proof (exit_eq k t Hw Ht) as Hx. fold g in Hx. cbn [crit].
  revert Hx. unfold exit_current. change (sched (set_irq false k)) with (sched k).
  rewrite (index_vget _ _ _ (proj1 (slot_Some _ _ _) Ht)). cbn [mbind outcome_bind expect].
  destruct (next_ready _) as [[idx|]|]; cbn [mbind outcome_bind]; [| |by intros [[]|(? & ? & ? & _)]].
  - destruct (prep_switch _ _) as [[[old nw] g3]|]; cbn [mbind outcome_bind];
      intros [[Hx _]|(idx' & u & Hx & Hs & Hr & _ & Hw2)]; try done.
    injection Hx as -> ->. right. exists idx', u. done.
  - intros [[Hx Hno]|(? & ? & ? & _)]; [|done]. left. done.
Qed.
Lemma live_task g st i r : on_stack g st (i :: r) → needs i = true → ∃ t, slot g (current g) = Some t.
Proof. intros [[_ [Hi _]%Forall_cons]|[Ht _]] Hn; [congruence|done]. Qed.

Lemma crit_add tr ptr f k : sched_wf (sched k) → next_id (sched k) + 1 < 2 ^ 32 → buffer_ok ptr →
  ∃ k', crit (SAdd tr ptr f) k = Ret (k', []) ∧ crit_ok (SAdd tr ptr f) k k' [].
Proof.
  intros Hw Hn [Hp Hl]. assert (fits 32 (next_id (sched k) + 1)) as Hf by (destruct (sw_next _ Hw) as [_ [? _]]; unfold fits; lia).
  destruct (add_spec tr ptr f (sched k) (kmem k) Hw Hf Hp Hl) as
    (s & t & m' & g' & E & Hs & _ & Hr & Hid & Hst & Hb & Hsl & _ & Hslot & Hv & Hcur & Hc & Hn').
  cbn [crit]. unfold spawn. rewrite E. cbn [mbind outcome_bind snd]. eexists. split; [done|].
  constructor; cbn [sched ticks irq active]; [|done| |lia|by intros r [_ Hf'%flow_flow_top] |].
  - eapply (add_wf (sched k)); try done. unfold task_ok. rewrite Hst, Hb, Hsl. by split_and!.
  - intros j u i ((Hu & Hub & Hj) & Hbl & Hg). split; [|split; [done|]].
    + unfold parked. rewrite Hslot, Hcur, bool_decide_false by congruence. done.
    + eapply gone_from; [|done]. split; [lia|]. intros x y. rewrite Hslot. case_bool_decide; [|by left]. cbn. intros [= <-]. by right.
  - intros st r Hos [_ Hfl]. refine (on_stack_keep _ _ _ _ _ _ _ Hcur _ _ _ Hfl Hos); [|by intros [_ ?]%Forall_cons|done].
    intros u Hu. rewrite Hslot. case_bool_decide; eauto.
Qed.

Lemma crit_tick now k : sched_wf (sched k) → ∃ k' l, crit (STick now) k = Ret (k', l) ∧ crit_ok (STick now) k k' l.
Proof.
  intros Hw. cbn [crit]. fold (woken now (sched k)). set (g := woken now (sched k)). assert (sched_wf g) as Hwg by (by apply woken_wf).
  assert (∀ g' l, sched_wf g' → finishes g g' → current g' = current g → next_id g' = next_id g →
    (∀ t, slot g (current g) = Some t → ∃ t', slot g' (current g) = Some t') → l = schedule_code ∨ l = [] →
    crit_ok (STick now) k (set_sched g' k) l) as Hok.
  { intros g' l Hw' Hfi Hc Hn Hs Hl. apply crit_keep; try done.
    - etransitivity; [apply (late_woken now)|by apply late_finishes].
    - intros t Ht. apply (Hs (if expired now t then wake t else t)).
      change (current g) with (current (sched k)). unfold g. by rewrite woken_slot, Ht.
    - intros r. apply no_needs_tail. by destruct Hl as [-> | ->]; repeat constructor.
    - intros r [Hi Hf]. rewrite Hi. by destruct Hl as [-> | ->]. }
  case (Z.eqb_spec (current g) NO_TASK) as [Hc|Hc]; [eexists _, _; split; [done|]; apply Hok; by eauto|].
  destruct (current_Some _ Hwg Hc) as [t Ht]. rewrite (index_vget _ _ _ (proj1 (slot_Some _ _ _) Ht)). cbn [mbind outcome_bind].
  pose proof (sw_task g Hwg _ _ Ht) as Hto. pose proof Hto as (_ & _ & Hsl).
  assert (∀ u, ∃ t', slot (put (current g) u g) (current g) = Some t') as Hp.
  { intros u. rewrite (slot_put _ _ _ _ _ Ht), bool_decide_true by done. by eexists. }
  case (Z.eqb_spec (task.slice t) 0) as [Hz|Hz]; (eexists _, _; split; [done|]);
    (apply Hok; [|by eapply finishes_put|done|done|intros ? _; apply Hp|by auto]);
    (eapply wf_put; [done|exact Ht|done| |done]); (apply set_slice_ok; [unfold DEFAULT_SLICE in *; lia|exact Hto]).
Qed.

Lemma crit_total s k st r : sched_wf (sched k) → next_id (sched k) + 1 < 2 ^ 32 → flow (irq k) (Critical s :: r) →
  on_stack (sched k) st (Critical s :: r) → ∃ k' l, crit s k = Ret (k', l) ∧ crit_ok s k k' l.
Proof.
  intros Hw Hn Hf Hs. pose proof (live_task _ _ _ _ Hs) as Hl. destruct s as [tr ptr f|was|b|i| | |now|].
  - destruct (crit_add tr ptr f k Hw Hn (proj1 Hf)) as (k' & E & Hc). eauto.
  - by apply crit_schedule.
  - destruct (Hl eq_refl) as [t Ht]. cbn [crit]. rewrite (update_slot_put _ _ _ _ Ht). cbn [mbind outcome_bind].
    eexists _, _. split; [done|]. apply (crit_put _ _ t); try done.
    + apply block_as_ok; [apply Hf|by eapply sw_task].
    + by intros ? [_ ?]%Forall_cons.
    + by intros ? [_ ?].
  - assert (∃ b : bool, crit (SDone i) k = Ret (k, if b then [] else Lock (SBlock (Join i)) :: schedule_code)) as [b ->].
    { cbn [crit]. destruct (find_slot i (sched k)) as [x|] eqn:E; [|by exists true].
      destruct (find_slot_Some _ _ _ E) as (u & Hu & _). rewrite (index_vget _ _ _ (proj1 (slot_Some _ _ _) Hu)). by eexists. }
    eexists _, _. split; [done|]. replace k with (set_sched (sched k) k) at 2 by (by destruct k).
    apply crit_keep; [done|done|done|done|eauto|by intros ? [? _]%Forall_cons|]. intros r' Hr. by destruct b.
  - destruct (Hl eq_refl) as [t Ht]. pose proof (wf_reaped _ _ Hw Ht). destruct (reaped_frame (sched k) t) as (_ & Hn' & _ & Hc).
    destruct (crit_exit k t Hw Ht) as [[-> _]|(idx & u & -> & Hu & Hr & Hw2)]; (eexists _, _; split; [done|]).
    + constructor; cbn [sched set_sched ticks irq active]; [done|done|by apply late_reaped|lia|by intros ? [_ ->]|].
      intros st' r' _ [_ ->]. left. split; [done|]. by repeat constructor.
    + constructor; cbn [sched set_sched ticks irq active]; [done|done| |cbn; lia|by intros ? [? ->]|].
      { etransitivity; [by apply (late_reaped _ t)|by apply late_finishes, finishes_dispatch]. }
      intros st' r' _ _. right. split.
      * exists (set_state Running u). change (slot (put idx (set_state Running u) (reaped t (sched k))) idx = Some (set_state Running u)).
        by rewrite (slot_put _ _ _ _ _ Hu), bool_decide_true.
      * split; [done|by right].
  - destruct (Hl eq_refl) as [t Ht]. cbn [crit]. rewrite (index_vget _ _ _ (proj1 (slot_Some _ _ _) Ht)). cbn [mbind outcome_bind expect].
    eexists _, _. split; [done|]. apply (crit_put _ _ t); try done.
    + by eapply (sw_task _ Hw _ t).
    + by intros ? [? _]%Forall_cons.
    + intros r' [_ ->]. by destruct (func t).
  - by apply crit_tick.
  - eexists _, _. split; [done|]. replace k with (set_sched (sched k) k) at 2 by (by destruct k).
    apply crit_keep; [done|done|done|done|eauto|by intros ? [_ ?]%Forall_cons|done].
Qed.
(** ** Every turn *)

Definition ok_choice (ch : choice) : Prop :=
  match ch with
  | Call (OSpawn _ ptr _) => buffer_ok ptr
  | Call (OSleep n) => 0 ≤ n < 2 ^ 62
  | _ => True
  end.

Lemma inv_le b b' c : b' ≤ b → inv b c → inv b' c.
Proof. intros Hb [? [? ?] ? ? ? ?]. constructor; try done; lia. Qed.

(** An instruction that does not touch the table. *)
Lemma inv_next b c i rest k' lk sv l : inv (b + 1) c → code c = i :: rest → switching (i :: rest) = None →
  sched k' = sched (kern c) → ticks (kern c) ≤ ticks k' ≤ ticks (kern c) + 1 → flow (irq k') l →
  (no_needs (i :: rest) → no_needs l) → inv b (mkCpu k' lk sv (stack c) l (saved c)).
Proof.
  intros [Hw Ht Hn Hf Hs Ho] Ec Hi Es Et Hl Hnn. constructor; cbn [kern code saved stack]; rewrite ?Es; try done; try lia.
  - by apply flow_flow_top.
  - rewrite Ec in Ho. refine (on_stack_keep _ _ _ _ _ _ _ _ _ Hnn Hi Hl Ho); eauto.
Qed.

Lemma inv_interrupt b c : inv (b + 1) c → irq (kern c) = true →
  inv b (mkCpu (set_irq false (kern c)) (locked c) true (stack c) (timer_code ++ code c) (saved c)).
Proof.
  intros [Hw Ht Hn Hf Hs Ho] Hi. rewrite Hi in Hf.
  assert (flow true (code c)) as Hf' by (destruct (code c) as [|[] ?]; try done; by destruct Hf).
  constructor; cbn [kern code saved stack sched set_irq ticks irq]; try done; try lia.
  destruct Ho as [[E Hl]|[Hl E]].
  - left. split; [done|]. by repeat constructor.
  - right. split; [done|]. by rewrite (flow_no_switch _ _ Hf') in E.
Qed.

Lemma inv_critical b c s rest : 0 ≤ b → inv (b + 1) c → code c = Critical s :: rest → ∃ c', exec (Critical s) rest c = Ret c' ∧ inv b c'.
Proof.
  intros Hb [Hw Ht Hn Hf Hs Ho] Ec. rewrite Ec in Hf, Ho.
  destruct (crit_total s (kern c) (stack c) rest Hw) as (k' & l & E & [Hw' (Et & Ei & Ea) _ Hid Hfl Hst]); [lia|done|done|].
  cbn [exec]. rewrite E. cbn [mbind outcome_bind]. eexists. split; [done|].
  constructor; cbn [kern code saved stack]; [done|lia|lia|rewrite Ei; by apply Hfl|done|].
  by apply Hst.
Qed.

Lemma inv_switch b c old new rest : inv (b + 1) c → code c = SwitchTo old new :: rest → inv b (do_switch old new rest c).
Proof.
  intros [Hw Ht Hn Hf Hs Ho] Ec. rewrite Ec in Hf, Ho. destruct Hf as [Hi Hf].
  destruct Ho as [[_ [Hx _]%Forall_cons]|[[t Ht'] [-> Ho]]]; [done|].
  unfold do_switch. set (c1 := match old with BootCtx => _ | SlotCtx _ => _ end).
  assert (kern c1 = kern c ∧ ∀ j, flow false (saved c1 j)) as (E1 & Hs1).
  { unfold c1. destruct old as [|i]; [done|]. split; [done|]. intros j. cbn. by destruct (j =? i). }
  assert (flow false (resumed (current (sched (kern c))) c1)) as Hr.
  { unfold resumed. rewrite E1, Ht'. by destruct (func t). }
  constructor; cbn [kern code saved stack]; rewrite ?E1; [done|lia|lia|by rewrite Hi; apply flow_flow_top|done|].
  right. split; [by eexists|]. by rewrite (flow_no_switch _ _ Hr).
Qed.

Lemma inv_exec b c i rest : 0 ≤ b → inv (b + 1) c → code c = i :: rest → ∃ c', exec i rest c = Ret c' ∧ inv b c'.
Proof.
  intros Hb Hi Ec. pose proof (iv_flow _ _ Hi) as Hf. pose proof (iv_ticks _ _ Hi) as Htk. rewrite Ec in Hf.
  pose proof (λ k' lk sv l, inv_next b c i rest k' lk sv l Hi Ec) as Hn. pose proof (inv_le (b + 1) b c ltac:(lia) Hi) as Hsame.
  destruct i as [| | |n|s|s|old new| | | | | |]; cbn [exec]; cbn [flow_top flow] in Hf.
  - eexists. split; [done|]. apply Hn; [done|done|cbn; lia|done|by intros [_ ?]%Forall_cons].
  - eexists. split; [done|]. apply Hn; [done|done|cbn; lia|done|by intros [_ ?]%Forall_cons].
  - eexists. split; [done|]. apply Hn; [done|done|lia| |].
    + cbn [flow]. by destruct (irq (kern c)).
    + intros [_ ?]%Forall_cons. by repeat constructor.
  - rewrite checked_fits by (unfold fits; lia). cbn [mbind outcome_bind]. eexists. split; [done|].
    apply Hn; [done|done|lia|by destruct Hf|by intros [? _]%Forall_cons].
  - destruct (locked c) eqn:El; [by exists c|]. eexists. split; [done|]. apply Hn; [done|done|lia|done|].
    intros [? ?]%Forall_cons. by constructor.
  - by apply inv_critical.
  - eexists. split; [done|]. by apply inv_switch.
  - eexists. split; [done|]. apply Hn; [done|done| |by destruct Hf as [Hfi ?]; cbn; rewrite Hfi|by intros [_ ?]%Forall_cons].
    cbn. rewrite wrap_small by (unfold fits; lia). lia.
  - eexists. split; [done|]. apply Hn; [done|done|lia| |].
    + destruct Hf as [-> ?]. by destruct (active (kern c)).
    + intros [_ ?]%Forall_cons. destruct (active (kern c)); [by constructor|done].
  - eexists. split; [done|]. apply Hn; [done|done|lia|by destruct Hf as [-> ?]|by intros [_ ?]%Forall_cons].
  - eexists. split; [done|]. apply Hn; [done|done|cbn; lia|by destruct Hf as [_ ?]|by intros [_ ?]%Forall_cons].
  - by exists c.
  - eexists. split; [done|]. apply Hn; [done|done|cbn; lia|done|done].
Qed.

Lemma op_flow o k r : flow true (Body :: r) → ok_choice (Call o) → o ≠ OReturn → flow true (op_code o k ++ Body :: r).
Proof. intros Hf Ho. destruct o; cbn [op_code]; try (by destruct (active k)); done. Qed.

Lemma turn_inv b ch c : 0 ≤ b → inv (b + 1) c → ok_choice ch → ∃ c', turn ch c = Ret c' ∧ inv b c'.
Proof.
  intros Hb Hi Hch. pose proof (inv_le (b + 1) b c ltac:(lia) Hi) as Hsame. destruct ch as [| |o]; cbn [turn].
  - destruct (irq (kern c)) eqn:Ei; [|by exists c]. destruct (in_service c); [by exists c|].
    eexists. split; [done|]. by apply inv_interrupt.
  - destruct (code c) as [|i rest] eqn:Ec; [by exists c|]. by apply inv_exec.
  - assert (∀ l, (∃ rest, code c = Body :: rest ∧ (flow true (Body :: rest) → flow true l)) → inv b (goes_on (kern c) l c)) as Hgo.
    { intros l (rest & Ec & Hl). pose proof (iv_flow _ _ Hi) as Hf. rewrite Ec in Hf. destruct Hf as [Ei ->].
      apply (inv_next b c Body []); [done|done|done|done|lia|by rewrite Ei; apply Hl|by intros [? _]%Forall_cons]. }
    destruct (code c) as [|[] rest] eqn:Ec; destruct o; eexists; (split; [done|]); try done;
      apply Hgo; exists rest; (split; [done|]); intros Hf; try (by apply op_flow).
    by destruct Hf as [_ ->].
Qed.
(** Only a section changes the table. *)
Lemma turn_keeps b ch c c' : 0 ≤ b → inv (b + 1) c → turn ch c = Ret c' →
  keeps_late (sched (kern c)) (sched (kern c')) ∧ active (kern c') = active (kern c).
Proof.
  intros Hb [Hw Ht Hn Hf Hs Ho] E.
  assert (sched (kern c') = sched (kern c) → active (kern c') = active (kern c) →
    keeps_late (sched (kern c)) (sched (kern c')) ∧ active (kern c') = active (kern c)) as Hsame by (by intros -> ->).
  destruct ch as [| |o]; cbn [turn] in E.
  - destruct (irq (kern c) && negb (in_service c)); injection E as <-; by apply Hsame.
  - destruct (code c) as [|i rest]; [injection E as <-; by apply Hsame|].
    destruct i as [| | |n|s|s|old new| | | | | |]; cbn [exec] in E; try (injection E as <-; by apply Hsame).
    + apply bind_Ret in E as (w & _ & [= <-]). by apply Hsame.
    + destruct (locked c); injection E as <-; by apply Hsame.
    + destruct (crit_total s (kern c) (stack c) rest Hw) as (k' & l & E' & [_ (_ & _ & Ea) Hla _ _ _]); [lia|done|done|].
      rewrite E' in E. injection E as <-. by split.
    + injection E as <-. by destruct old, new; eapply Hsame.
  - destruct (code c) as [|[] rest], o; injection E as <-; by apply Hsame.
Qed.

Lemma run_app cs cs' c : run (cs ++ cs') c = run cs c ≫= run cs'.
Proof. apply for_each_app. Qed.

(** Any number of turns. *)
Lemma run_inv b cs : ∀ c, 0 ≤ b → inv (vlen cs + b) c → Forall ok_choice cs →
  ∃ c', run cs c = Ret c' ∧ inv b c' ∧ keeps_late (sched (kern c)) (sched (kern c')) ∧ active (kern c') = active (kern c).
Proof.
  induction cs as [|ch cs IH]; intros c Hb Hi Hcs; [by exists c|]. apply Forall_cons in Hcs as [Hch Hcs].
  replace (vlen (ch :: cs) + b) with (vlen cs + b + 1) in Hi by (rewrite vlen_cons; lia). pose proof (vlen_nonneg cs).
  destruct (turn_inv (vlen cs + b) ch c) as (c1 & E1 & Hi1); [lia|done..|].
  destruct (turn_keeps (vlen cs + b) ch c c1) as [Hl1 Ha1]; [lia|done..|].
  destruct (IH c1 Hb Hi1 Hcs) as (c2 & E2 & Hi2 & Hl2 & Ha2). exists c2. unfold run. cbn [for_each]. rewrite E1. cbn [mbind outcome_bind].
  split; [done|]. split; [done|]. split; [by etransitivity|congruence].
Qed.

(** The state [start] leaves. *)
Lemma started_inv b k0 sw k : sched_wf (sched k0) → current (sched k0) = NO_TASK → start k0 = Ret (Some sw, k) →
  0 ≤ ticks k0 → ticks k0 + b < 2 ^ 62 → next_id (sched k0) + b < 2 ^ 32 → inv b (started (current (sched k)) k).
Proof.
  intros Hw Hc E Ht Htb Hn. unfold start in E.
  destruct (pick (sched k0) Hw) as [[E' _]|(idx & t & E' & Hs & Hr & _ & Hp & Hw2)]; [by apply no_current_none_running|..];
    rewrite E' in E; cbn [mbind outcome_bind] in E; [done|]. change (sched (set_irq false k0)) with (sched k0) in E.
  rewrite Hp in E. cbn [mbind outcome_bind] in E. injection E as _ <-.
  constructor; cbn [kern started code saved stack sched set_sched ticks irq set_irq]; try done.
  right. split; [|done]. exists (set_state Running t). change (slot (put idx (set_state Running t) (sched k0)) idx = Some (set_state Running t)).
  by rewrite (slot_put _ _ _ _ _ Hs), bool_decide_true.
Qed.
End sections.

(** C2. Preemption never corrupts the scheduler. Let [start] switch to the first task, and then let the tasks
    call the scheduler as they like and the timer interrupt them before any instruction,
    in the middle of an operation or of a critical section. Nothing panics and the
    table stays well formed. A critical section of a task works on the slot of the stack it
    is executed on; a switch happens with interrupts off, saves the stack in use and goes to
    the one of the slot that has been made current; and a closure runs with interrupts on. *)
Theorem preemption_safe `{Profile} k0 sw k cs :
  sched_wf (sched k0) → current (sched k0) = NO_TASK → start k0 = Ret (Some sw, k) → 0 ≤ ticks k0 →
  ticks k0 + vlen cs < 2 ^ 62 → next_id (sched k0) + vlen cs < 2 ^ 32 → Forall ok_choice cs →
  ∃ c, run cs (started (current (sched k)) k) = Ret c ∧ sched_wf (sched (kern c)) ∧
    (∀ s r, code c = Critical s :: r → current (sched (kern c)) = stack c ∨
       current (sched (kern c)) = NO_TASK ∧ needs (Critical s) = false) ∧
    (∀ old new r, code c = SwitchTo old new :: r → irq (kern c) = false ∧ new = SlotCtx (current (sched (kern c))) ∧
       (old = SlotCtx (stack c) ∨ old = BootCtx)) ∧
    (∀ r, code c = Body :: r → irq (kern c) = true ∧ current (sched (kern c)) = stack c).
Proof.
  intros Hw Hc E Ht Htb Hn Hcs. destruct (run_inv 0 cs (started (current (sched k)) k)) as (c & Er & [Hwc _ _ Hf _ Ho] & _); [done| |done|].
  { eapply started_inv; [exact Hw|done|exact E|done|lia|lia]. }
  exists c. split; [exact Er|]. split; [exact Hwc|]. split; [|split].
  - intros s r Ec. rewrite Ec in Ho. destruct Ho as [[? [? _]%Forall_cons]|[_ Ho]]; [by right|by left].
  - intros old new r Ec. rewrite Ec in Ho, Hf. destruct Hf as [Hi _].
    destruct Ho as [[_ [Hx _]%Forall_cons]|[_ [-> Ho]]]; [done|]. by split_and!.
  - intros r Ec. rewrite Ec in Ho, Hf. destruct Hf as [Hi _].
    destruct Ho as [[_ [Hx _]%Forall_cons]|[_ Ho]]; [done|]. by split.
Qed.

(** ** Three tasks *)

Definition or_boot (o : outcome Kern) : Kern := match o with Ret k => k | Panic _ => boot (λ _, 0) end.

(** Tasks 1, 2 and 3, in slots 0, 1 and 2. *)
Definition three : Kern := or_boot (
  r ← @spawn dev 0x1000 0x10000 "a" (init (boot (λ _, 0)));
  r ← @spawn dev 0x1000 0x20000 "b" (snd r);
  r ← @spawn dev 0x1000 0x30000 "c" (snd r);
  Ret (snd r)).

Definition three_started : Kern := or_boot (r ← @start dev three; Ret (snd r)).

Lemma three_wf : sched_wf (sched three).
Proof.
  set (tr := [(ESpawn 0x1000 0x10000 "a", @None Switch); (ESpawn 0x1000 0x20000 "b", None); (ESpawn 0x1000 0x30000 "c", None)]).
  assert (@steps dev (init (boot (λ _, 0))) tr three) as Hs.
  { do 3 (eapply steps_cons; [split_and!; vm_compute; (discriminate || reflexivity || (split; (discriminate || reflexivity)))|reflexivity|]).
    apply steps_nil. }
  eapply steps_wf; [exact Hs|]. apply new_wf.
Qed.

Lemma three_start : ∃ sw, @start dev three = Ret (Some sw, three_started).
Proof. eexists. reflexivity. Qed.

(** A timer interrupt that does not preempt. *)
Definition tick_only : list choice := Irq0 :: replicate 6 Go.

(** Task 1 begins to join task 2, is preempted by the third tick; task 2 exits, task 3 yields, and
    task 1 comes back to the second half of [join]. *)
Definition race : list choice :=
  [Go; Go; Go; Call (OJoin 2); Go; Go] ++ tick_only ++ tick_only ++ Irq0 :: replicate 12 Go ++
  Call OReturn :: replicate 7 Go ++ Call OYield :: replicate 7 Go.

Lemma preemption_safe_witness :
  ∃ c, @run dev race (started 0 three_started) = Ret c ∧ sched_wf (sched (kern c)).
Proof.
  destruct three_start as [sw E].
  destruct (@preemption_safe dev three sw three_started race) as (c & Er & Hw & _).
  - exact three_wf.
  - reflexivity.
  - exact E.
  - vm_compute. discriminate.
  - vm_compute. reflexivity.
  - vm_compute. reflexivity.
  - by repeat constructor.
  - exists c. split; [exact Er|exact Hw].
Defined.
