(* ===== verification/Races.v ===== *)
(** * Races: two things preemption breaks

    The scheduler's lock is a spin lock, and the timer handler takes it too. The sections of
    [spawn], [sleep], [join], [task_count] and [snapshot] run with interrupts enabled: an
    interrupt in one of them waits for a lock that its own victim holds. And [join]
    looks for the task and blocks in two sections: when the task exits in between, nobody
    wakes the joiner. *)

From S2P Require Import Prelude Task Scheduler SchedulerProps Blocking Preempt PreemptProps.
Import asm context task scheduler preempt.

(** ** The lock *)

(** The sections that run with interrupts as the caller has them. *)
Definition open_section (s : section) : bool :=
  match s with SAdd _ _ _ | SBlock _ | SDone _ | SCount => true | _ => false end.

Definition no_critical : list instr → Prop := Forall (λ i, ∀ s, i ≠ Critical s).

(** How far a timer handler gets that has interrupted a section. *)
Inductive waiting_handler : list instr → Prop :=
  | wh_clock : waiting_handler timer_code
  | wh_read : waiting_handler [ReadClock; EndOfInterrupt; Iret]
  | wh_lock now : waiting_handler [Lock (STick now); EndOfInterrupt; Iret].

(** The lock is taken exactly while a section is being executed, or has been interrupted. *)
Definition lock_inv (c : Cpu) : Prop :=
  (∀ j, no_critical (saved c j)) ∧
  (locked c = false ∧ no_critical (code c) ∨
   locked c = true ∧ ∃ s r, no_critical r ∧
     (code c = Critical s :: r ∨
      open_section s = true ∧ in_service c = true ∧ ∃ h, waiting_handler h ∧ code c = h ++ Critical s :: r)).

Section locks.
Context `{Profile}.

Lemma crit_no_critical s k k' l : crit s k = Ret (k', l) → no_critical l.
Proof.
  destruct s; cbn [crit].
  - intros (? & _ & [= <- <-])%bind_Ret. constructor.
  - intros (g1 & _ & ([idx|] & _ & E)%bind_Ret)%bind_Ret.
    + apply bind_Ret in E as ([[old nw] g2] & _ & [= <- <-]). destruct was_enabled; by repeat constructor.
    + injection E as <- <-. destruct was_enabled; by repeat constructor.
  - intros (? & _ & [= <- <-])%bind_Ret. constructor.
  - intros ([] & _ & [= <- <-])%bind_Ret; by repeat constructor.
  - intros (o & _ & (t & _ & ([idx|] & _ & E)%bind_Ret)%bind_Ret)%bind_Ret.
    + apply bind_Ret in E as ([[old nw] g2] & _ & [= <- <-]). by repeat constructor.
    + injection E as <- <-. by repeat constructor.
  - intros (o & _ & (t & _ & [= <- <-])%bind_Ret)%bind_Ret. destruct (func t); by repeat constructor.
  - case (_ =? NO_TASK); [intros [= <- <-]; constructor|].
    intros ([t|] & _ & E)%bind_Ret; [|injection E as <- <-; constructor].
    destruct (task.slice t =? 0); injection E as <- <-; by repeat constructor.
  - intros [= <- <-]. constructor.
Qed.

(** An instruction executed with the lock free. *)
Lemma lock_exec i rest c c' : (∀ j, no_critical (saved c j)) → locked c = false → code c = i :: rest → no_critical (i :: rest) →
  exec i rest c = Ret c' → lock_inv c'.
Proof.
  intros Hs Hl Ec Hc E. pose proof Hc as [Hi Hr]%Forall_cons.
  assert (∀ k sv st l, no_critical l → lock_inv (mkCpu k (locked c) sv st l (saved c))) as Hfree by (intros; split; [done|by left]).
  destruct i as [| | |n|s|s|old new| | | | | |]; cbn [exec] in E; try (injection E as <-; refine (Hfree _ _ _ _ _); done).
  - injection E as <-. refine (Hfree _ _ _ _ _). by repeat constructor.
  - apply bind_Ret in E as (w & _ & [= <-]). refine (Hfree _ _ _ _ _). by repeat constructor.
  - rewrite Hl in E. injection E as <-. split; [done|]. right. split; [done|]. exists s, rest. split; [done|by left].
  - by destruct (Hi s).
  - injection E as <-. split.
    + destruct old as [|i], new; cbn; try done; intros j; by destruct (j =? i).
    + left. destruct old as [|i], new as [|j]; cbn; (split; [done|]); try constructor; unfold resumed; cbn;
        (destruct (slot _ j) as [t|]; [destruct (func t); [by repeat constructor|]|]); try done; by destruct (j =? i).
  - injection E as <-. refine (Hfree _ _ _ _ _). destruct (active (kern c)); [by repeat constructor|done].
  - injection E as <-. split; [done|]. left. by rewrite Ec.
Qed.
Lemma lock_turn b ch c c' : 0 ≤ b → inv (b + 1) c → active (kern c) = true → lock_inv c → turn ch c = Ret c' → lock_inv c'.
Proof.
  intros Hb Hi Ha Hl E. pose proof (iv_flow _ _ Hi) as Hf. destruct Hl as [Hs [[Hl Hc]|(Hl & s & r & Hr & [Ec|(Ho & Hsv & h & Hh & Ec)])]].
  - destruct ch as [| |o]; cbn [turn] in E.
    + destruct (irq (kern c) && negb (in_service c)); injection E as <-; (split; [done|]); left; [|done].
      split; [done|]. change (no_critical (timer_code ++ code c)). apply Forall_app. split; [by repeat constructor|done].
    + destruct (code c) as [|i rest] eqn:Ec; [injection E as <-; split; [done|]; left; by rewrite Ec|]. by eapply lock_exec.
    + assert (∀ l, no_critical l → lock_inv (goes_on (kern c) l c)) as Hgo by (intros; split; [done|by left]).
      destruct (code c) as [|[] rest] eqn:Ec; destruct o; injection E as <-;
        try (split; [done|]; left; rewrite Ec; split; [done|exact Hc]);
        (apply Forall_cons in Hc as [_ Hc]; apply Hgo; rewrite ?Ha; repeat (apply Forall_cons_2; [done|]); exact Hc).
  - destruct ch as [| |o]; cbn [turn] in E; rewrite Ec in E.
    + destruct (irq (kern c)) eqn:Ei; [|injection E as <-; split; [done|right; split; [done|]; exists s, r; split; [done|by left]]].
      assert (open_section s = true) as Ho by (rewrite Ec in Hf; destruct s; try done; by destruct Hf).
      destruct (in_service c); injection E as <-; (split; [done|]); right; (split; [done|]); exists s, r; (split; [done|]); [by left|].
      right. split; [done|]. split; [done|]. exists timer_code. split; [constructor|]. done.
    + cbn [exec] in E. apply bind_Ret in E as ([k' l] & E & [= <-]). split; [done|]. left. split; [done|].
      apply Forall_app. split; [by eapply crit_no_critical|done].
    + destruct o; injection E as <-; (split; [done|]); right; (split; [done|]); exists s, r; (split; [done|by left]).
  - assert (lock_inv c) as Hsame by (split; [done|right; split; [done|]; exists s, r; split; [done|]; right; eauto 10]).
    destruct ch as [| |o]; cbn [turn] in E.
    + rewrite Hsv, andb_false_r in E. by injection E as <-.
    + rewrite Ec in E. destruct Hh; cbn [app timer_code exec] in E.
      * injection E as <-. split; [done|]. right. split; [done|]. exists s, r. split; [done|]. right. split; [done|]. split; [done|].
        eexists. split; [apply wh_read|done].
      * rewrite Ha in E. injection E as <-. split; [done|]. right. split; [done|]. exists s, r. split; [done|]. right. split; [done|].
        split; [done|]. eexists. split; [apply wh_lock|done].
      * rewrite Hl in E. by injection E as <-.
    + rewrite Ec in E. destruct Hh, o; cbn [app timer_code] in E; by injection E as <-.
Qed.

Lemma run_lock b cs : ∀ c c', 0 ≤ b → inv (vlen cs + b) c → active (kern c) = true → lock_inv c → Forall ok_choice cs →
  run cs c = Ret c' → lock_inv c'.
Proof.
  induction cs as [|ch cs IH]; intros c c' Hb Hi Ha Hl Hcs E; [by injection E as <-|]. apply Forall_cons in Hcs as [Hch Hcs].
  replace (vlen (ch :: cs) + b) with (vlen cs + b + 1) in Hi by (rewrite vlen_cons; lia). pose proof (vlen_nonneg cs).
  destruct (turn_inv (vlen cs + b) ch c) as (c1 & E1 & Hi1); [lia|done..|].
  destruct (turn_keeps (vlen cs + b) ch c c1) as [_ Ha1]; [lia|done..|].
  unfold run in E. cbn [for_each] in E. rewrite E1 in E. cbn [mbind outcome_bind] in E.
  apply (IH c1); try done; [congruence|]. eapply (lock_turn (vlen cs + b)); [lia|done..].
Qed.

(** Waiting for a lock that is taken. *)
Definition spinning (c : Cpu) : Prop := ∃ s r, code c = Lock s :: r ∧ locked c = true.

Lemma spinning_handler c : lock_inv c → spinning c →
  in_service c = true ∧ ∃ now s r, code c = Lock (STick now) :: EndOfInterrupt :: Iret :: Critical s :: r ∧ open_section s = true.
Proof.
  intros [_ [[Hl _]|(_ & s & r & _ & [Ec|(Ho & Hsv & h & Hh & Ec)])]] (s0 & r0 & E0 & Hl0); [congruence|congruence|].
  split; [done|]. destruct Hh as [| |now]; rewrite Ec in E0; try done. by exists now, s, r.
Qed.

Lemma spinning_stays c : lock_inv c → spinning c → ∀ cs, run cs c = Ret c.
Proof.
  intros Hl Hs. destruct (spinning_handler c Hl Hs) as (Hsv & now & s & r & Ec & _). destruct Hs as (_ & _ & _ & Hlk).
  intros cs. induction cs as [|ch cs IH]; [done|]. unfold run. cbn [for_each].
  assert (turn ch c = Ret c) as ->; [|exact IH]. destruct ch as [| |o]; cbn [turn].
  - by rewrite Hsv, andb_false_r.
  - rewrite Ec. cbn [exec]. by rewrite Hlk.
  - rewrite Ec. by destruct o.
Qed.
End locks.

(** C13. The timer can deadlock the kernel. From [start] on, under any calls and interrupts: the
    only wait for the scheduler's lock that is not free is that of a timer handler
    that has interrupted one of the sections of [spawn], [sleep], [join],
    [task_count] or [snapshot]; such a wait never ends, whatever happens; and it comes about whenever the
    timer fires (its interrupt enabled and the previous one acknowledged) in such a section. The sections of
    [schedule], [exit_current], [current_task_body] and [tick] itself, which run
    with interrupts off, are not concerned. *)
Theorem timer_deadlocks `{Profile} k0 sw k cs c :
  sched_wf (sched k0) → current (sched k0) = NO_TASK → active k0 = true → start k0 = Ret (Some sw, k) → 0 ≤ ticks k0 →
  ticks k0 + vlen cs + 3 < 2 ^ 62 → next_id (sched k0) + vlen cs + 3 < 2 ^ 32 → Forall ok_choice cs →
  run cs (started (current (sched k)) k) = Ret c →
  (spinning c → (∃ now s r, code c = Lock (STick now) :: EndOfInterrupt :: Iret :: Critical s :: r ∧ open_section s = true) ∧
     ∀ cs', run cs' c = Ret c) ∧
  (∀ s r, code c = Critical s :: r → open_section s = true → irq (kern c) = true → in_service c = false →
     ∃ c', run [Irq0; Go; Go] c = Ret c' ∧ spinning c').
Proof.
  intros Hw Hc Ha E Ht Htb Hn Hcs Er.
  assert (inv (vlen cs + 3) (started (current (sched k)) k)) as Hi by (eapply started_inv; [exact Hw|done|exact E|done|lia|lia]).
  assert (active k = true) as Hak.
  { unfold start in E. apply bind_Ret in E as ([idx|] & _ & E); [|done]. apply bind_Ret in E as ([[old nw] g] & _ & [= <- <-]). done. }
  destruct (run_inv 3 cs _ ltac:(lia) Hi Hcs) as (c1 & Er1 & Hi1 & _ & Ha1). assert (c1 = c) as -> by congruence.
  assert (lock_inv c) as Hl.
  { eapply (run_lock 3 cs); [lia|exact Hi|done| |done|exact Er]. split; [constructor|]. left. split; [done|]. by repeat constructor. }
  split.
  - intros Hs. destruct (spinning_handler c Hl Hs) as [_ ?]. split; [done|]. by apply spinning_stays.
  - intros s r Ec Ho Hi0 Hsv. assert (locked c = true) as Hlk.
    { destruct Hl as [_ [[_ Hno]|[Hl _]]]; [|done]. rewrite Ec in Hno. apply Forall_cons in Hno as [Hno _]. by destruct (Hno s). }
    eexists. unfold run. cbn [for_each turn]. rewrite Hi0, Hsv. cbn [andb negb mbind outcome_bind code timer_code app exec goes_on kern].
    change (active (timer.timer_tick (set_irq false (kern c)))) with (active (kern c)). rewrite Ha1. cbn [kern started]. rewrite Hak.
    split; [done|]. eexists _, _. by split.
Qed.

(** ** The lost wake-up *)

(** The six instructions that are left of [join] up to the switch. *)
Lemma late_blocks `{Profile} c i r t x :
  sched_wf (sched (kern c)) → code c = Lock (SBlock (Join i)) :: schedule_code ++ r → locked c = false →
  gone i (sched (kern c)) → slot (sched (kern c)) (current (sched (kern c))) = Some t →
  ready_at (sched (kern c)) x → x ≠ current (sched (kern c)) →
  ∃ c', run (replicate 6 Go) c = Ret c' ∧ late (current (sched (kern c))) (block_as (Join i) t) i (sched (kern c')).
Proof.
  intros Hw Ec Hlk Hg Ht (u & Hu & Hr) Hx. set (cur := current (sched (kern c))) in *.
  set (g := put cur (block_as (Join i) t) (sched (kern c))).
  assert (sched_wf g) as Hwg. { eapply wf_put; [done|exact Ht|done|apply block_as_ok; [done|by eapply sw_task]|done]. }
  assert (slot g cur = Some (block_as (Join i) t)) as Hs by (unfold g; by rewrite (slot_put _ _ _ _ _ Ht), bool_decide_true).
  assert (finishes (sched (kern c)) g) as Hfi by (by apply (finishes_put _ t)).
  cbn [replicate]. unfold run. cbn [for_each turn]. rewrite Ec. cbn [exec schedule_code app]. rewrite Hlk. cbn [mbind outcome_bind code exec kern crit].
  change (current (sched (kern c))) with cur. rewrite (update_slot_put _ _ _ _ Ht). fold g.
  cbn [mbind outcome_bind code exec kern app goes_on locked irq set_sched saved stack in_service].
  pose proof (crit_schedule_eq (irq (kern c)) (set_irq false (set_sched g (kern c))) Hwg) as Hse.
  cbn [sched set_irq set_sched] in Hse.
  assert (slot (demoted g) cur = Some (block_as (Join i) t)) as Hd by (by rewrite demoted_slot, Hs).
  destruct Hse as [[_ Hno]|(idx & v & Ev & Hv & Hrv & Hw2)].
  { destruct (Hno x). exists u. split; [|done]. rewrite demoted_slot by done. unfold g. rewrite (slot_put _ _ _ _ _ Ht), bool_decide_false, Hu by done.
    cbn. unfold demote. by rewrite bool_decide_false by congruence. }
  change (set_irq false (mkKern g (active (kern c)) (ticks (kern c)) (irq (kern c)) (kmem (kern c))))
    with (set_irq false (set_sched g (kern c))). rewrite Ev. cbn [mbind outcome_bind]. eexists. split; [done|]. cbn [kern sched set_sched].
  assert (cur ≠ idx) by (intros <-; rewrite Hd in Hv; by injection Hv as <-).
  split; [|split; [done|]].
  - split; [|done]. change (slot (put idx (set_state Running v) (demoted g)) cur = Some (block_as (Join i) t)).
    by rewrite (slot_put _ _ _ _ _ Hv), bool_decide_false.
  - eapply gone_from; [|exact Hg]. eapply ids_from_finishes; [apply ids_from_refl|].
    etransitivity; [exact Hfi|]. etransitivity; [apply finishes_demoted|by apply finishes_dispatch].
Qed.

(** C12. [join] can wait for ever. [join] first looks whether the task still exists and then, in a
    second critical section, blocks. If the task exits between the two (a preemption is
    enough for that), the caller blocks on a task that is no more: once it has given the CPU to
    another task it stays blocked, and is not made current again, whatever the tasks
    do and whenever the timer fires. *)
Theorem late_join_blocks `{Profile} k0 sw k cs c i r t x cs' :
  sched_wf (sched k0) → current (sched k0) = NO_TASK → start k0 = Ret (Some sw, k) → 0 ≤ ticks k0 →
  ticks k0 + vlen (cs ++ cs') + 6 < 2 ^ 62 → next_id (sched k0) + vlen (cs ++ cs') + 6 < 2 ^ 32 →
  Forall ok_choice (cs ++ cs') → run cs (started (current (sched k)) k) = Ret c →
  code c = Lock (SBlock (Join i)) :: schedule_code ++ r → locked c = false →
  gone i (sched (kern c)) → slot (sched (kern c)) (stack c) = Some t →
  ready_at (sched (kern c)) x → x ≠ stack c →
  ∃ c', run (replicate 6 Go ++ cs') c = Ret c' ∧ parked (stack c) (block_as (Join i) t) (sched (kern c')).
Proof.
  intros Hw Hc E Ht Htb Hn [Hcs Hcs']%Forall_app Er Ec Hlk Hg Hs Hr Hx. rewrite vlen_app in Htb, Hn.
  pose proof (vlen_nonneg cs). pose proof (vlen_nonneg cs').
  assert (inv (vlen cs + (vlen cs' + 6)) (started (current (sched k)) k)) as Hi
    by (eapply started_inv; [exact Hw|done|exact E|done|lia|lia]).
  destruct (run_inv (vlen cs' + 6) cs _ ltac:(lia) Hi Hcs) as (c1 & Er1 & Hi1 & _ & _). assert (c1 = c) as -> by congruence.
  assert (current (sched (kern c)) = stack c) as Hst.
  { pose proof (iv_stack _ _ Hi1) as Ho. rewrite Ec in Ho. destruct Ho as [[_ [Hx' _]%Forall_cons]|[_ Ho]]; [done|exact Ho]. }
  rewrite <- Hst in Hs, Hx |- *.
  destruct (late_blocks c i r t x (iv_wf _ _ Hi1) Ec Hlk Hg Hs Hr Hx) as (c2 & E2 & Hl).
  destruct (run_inv (vlen cs') (replicate 6 Go) c) as (c3 & E3 & Hi3 & _ & _); [lia|by rewrite Z.add_comm|by apply Forall_replicate|].
  assert (c3 = c2) as -> by congruence.
  destruct (run_inv 0 cs' c2) as (c4 & E4 & _ & Hk & _); [done|by rewrite Z.add_0_r|done|].
  exists c4. rewrite run_app, E2. split; [exact E4|]. by apply Hk in Hl as [Hp _].
Qed.

(** Task 1 counts the tasks; the timer fires while it holds the lock. *)
Lemma timer_deadlocks_witness :
  ∃ c c', @run dev [Go; Go; Go; Call OCount; Go] (started 0 three_started) = Ret c ∧
    @run dev [Irq0; Go; Go] c = Ret c' ∧ spinning c'.
Proof.
  destruct three_start as [sw E].
  assert (∃ c, @run dev [Go; Go; Go; Call OCount; Go] (started 0 three_started) = Ret c ∧ code c = [Critical SCount; Body] ∧
    irq (kern c) = true ∧ in_service c = false) as (c & Er & Ec & Hi & Hs).
  { eexists. split; [vm_compute; reflexivity|]. split_and!; reflexivity. }
  destruct (@timer_deadlocks dev three sw three_started [Go; Go; Go; Call OCount; Go] c) as [_ Hd].
  - exact three_wf.
  - reflexivity.
  - reflexivity.
  - exact E.
  - vm_compute. discriminate.
  - vm_compute. reflexivity.
  - vm_compute. reflexivity.
  - by repeat constructor.
  - exact Er.
  - destruct (Hd SCount [Body] Ec eq_refl Hi Hs) as (c' & Er' & Hsp). exists c, c'. split_and!; [exact Er|exact Er'|exact Hsp].
Defined.

Lemma late_join_blocks_witness :
  ∃ c c', @run dev race (started 0 three_started) = Ret c ∧ find_slot 2 (sched (kern c)) = None ∧
    @run dev (replicate 6 Go ++ [Go; Irq0; Go; Go; Go; Go]) c = Ret c' ∧ is_Some (slot (sched (kern c')) 0) ∧
    0 ≠ current (sched (kern c')).
Proof.
  destruct three_start as [sw E].
  assert (∃ c t, @run dev race (started 0 three_started) = Ret c ∧ code c = Lock (SBlock (Join 2)) :: schedule_code ++ [Body] ∧
    locked c = false ∧ gone 2 (sched (kern c)) ∧ stack c = 0 ∧ slot (sched (kern c)) 0 = Some t ∧ ready_at (sched (kern c)) 2)
    as (c & t & Er & Ec & Hlk & Hg & Hst & Hs & Hr).
  { eexists _, _. split; [vm_compute; reflexivity|]. split; [reflexivity|]. split; [reflexivity|].
    split; [split; reflexivity|]. split; [reflexivity|]. split; [reflexivity|]. eexists. split; reflexivity. }
  destruct (@late_join_blocks dev three sw three_started race c 2 [Body] t 2 [Go; Irq0; Go; Go; Go; Go]) as (c' & E' & Hp1 & Hp2 & Hp3).
  - exact three_wf.
  - reflexivity.
  - exact E.
  - vm_compute. discriminate.
  - vm_compute. reflexivity.
  - vm_compute. reflexivity.
  - by repeat constructor.
  - exact Er.
  - exact Ec.
  - exact Hlk.
  - exact Hg.
  - rewrite Hst. exact Hs.
  - exact Hr.
  - rewrite Hst. discriminate.
  - exists c, c'. rewrite Hst in Hp1, Hp3. split_and!; [exact Er|apply Hg|exact E'|by eexists|exact Hp3].
Defined.
