(* ===== verification/Atomic.v ===== *)
(** * Atomic: the instructions of [Preempt] are the operations of [Scheduler]

    An operation that no interrupt hits, executed instruction by instruction, does what
    the function of [Scheduler] that stands for it says: the same table, the same flag, the
    same switch. *)

From S2P Require Import Prelude Task Scheduler SchedulerProps Blocking Preempt PreemptProps.
Import asm context task scheduler preempt.

(** The function of [Scheduler] for a call. *)
Definition atomic `{Profile} (o : op) (k : Kern) : outcome (option Switch * Kern) :=
  match o with
  | OSpawn tr ptr f => r ← spawn tr ptr f k; Ret (None, snd r)
  | OYield => yield_now k
  | OSleep n => sleep n k
  | OJoin i => join i k
  | OCount => Ret (None, k)
  | OReturn => exit_current k
  end.

(** [c'] is where [c] gets by an operation that gives [o] and [k']: [rest] is left to
    execute, now or when the stack is resumed. *)
Definition landed (c c' : Cpu) (o : option Switch) (k' : Kern) (rest : list instr) : Prop :=
  kern c' = k' ∧ locked c' = false ∧ in_service c' = in_service c ∧
  match o with
  | None => stack c' = stack c ∧ code c' = rest ∧ saved c' = saved c
  | Some sw => ∃ j, sw_new sw = SlotCtx j ∧ stack c' = j ∧ code c' = resumed j c' ∧
      ∀ i, saved c' i = if decide (sw_old sw = SlotCtx i) then enable_if (sw_resume sw) ++ rest else saved c i
  end.

Section atomic.
Context `{Profile}.

(** [r] is what a run of [c] gives. *)
Definition reaches (c : Cpu) (r : outcome (option Switch * Kern)) (rest : list instr) : Prop :=
  ∃ n o k' c', r = Ret (o, k') ∧ run (replicate n Go) c = Ret c' ∧ landed c c' o k' rest.

Lemma run_go n c i rest : code c = i :: rest → run (replicate (S n) Go) c = exec i rest c ≫= run (replicate n Go).
Proof. intros Ec. unfold run. cbn [replicate for_each turn]. by rewrite Ec. Qed.

(** One instruction, then the rest. *)
Lemma reaches_step c c1 i rest0 r rest : code c = i :: rest0 → exec i rest0 c = Ret c1 →
  in_service c1 = in_service c → stack c1 = stack c → saved c1 = saved c → reaches c1 r rest → reaches c r rest.
Proof.
  intros Ec E Hs Hst Hsv (n & o & k' & c' & Hr & En & Hk & Hl & Hs' & Hx). exists (S n), o, k', c'. split; [done|].
  rewrite (run_go _ _ _ _ Ec), E. split; [done|]. split; [done|]. split; [done|]. split; [congruence|].
  rewrite Hst, Hsv in Hx. done.
Qed.

Lemma reaches_done c k rest : kern c = k → locked c = false → code c = rest → reaches c (Ret (None, k)) rest.
Proof. intros. exists 0%nat, None, k, c. done. Qed.

(** A switch and the end of the run. *)
Lemma reaches_switch c old j was l rest : locked c = false →
  code c = SwitchTo old (SlotCtx j) :: l → (∀ i, old = SlotCtx i → l = enable_if was ++ rest) →
  reaches c (Ret (Some (mkSwitch old (SlotCtx j) was), kern c)) rest.
Proof.
  intros Hl Ec Hw. exists 1%nat. eexists _, _, _. split; [done|]. rewrite (run_go _ _ _ _ Ec). split; [reflexivity|].
  destruct old as [|i]; (split; [done|]); (split; [done|]); (split; [done|]); exists j; (split; [done|]); (split; [done|]); (split; [done|]).
  - intros i. by rewrite decide_False.
  - intros i'. cbn. rewrite (Hw i eq_refl). destruct (Z.eqb_spec i' i) as [->|Hn]; [by rewrite decide_True|].
    rewrite decide_False; [done|]. congruence.
Qed.

Lemma schedule_crit k : schedule k = (r ← crit (SSchedule (irq k)) (set_irq false k);
  Ret (match snd r with
       | SwitchTo old nw :: _ => (Some (mkSwitch old nw (irq k)), fst r)
       | _ => (None, if irq k then set_irq true (fst r) else fst r)
       end)).
Proof.
  unfold schedule. cbn [crit]. change (sched (set_irq false k)) with (sched k).
  destruct (if current (sched k) =? NO_TASK then _ else _) as [g1|]; [|done]. cbn [mbind outcome_bind].
  destruct (next_ready g1) as [[idx|]|]; [| |done]; cbn [mbind outcome_bind].
  - by destruct (prep_switch idx g1) as [[[old nw] g2]|].
  - by destruct (irq k).
Qed.

Lemma reaches_schedule c rest : sched_wf (sched (kern c)) → locked c = false → code c = schedule_code ++ rest →
  reaches c (schedule (kern c)) rest.
Proof.
  intros Hw Hl Ec. set (k := kern c) in *.
  eapply reaches_step; [exact Ec|reflexivity|done..|]. fold k. eapply reaches_step; [reflexivity|reflexivity|done..|].
  eapply reaches_step; [reflexivity|cbn [exec goes_on locked]; rewrite Hl; reflexivity|done..|].
  rewrite schedule_crit. cbn [kern goes_on code]. destruct (crit_schedule_eq (irq k) (set_irq false k) Hw) as [[E _]|(idx & t & E & _)];
    (eapply reaches_step; [reflexivity|cbn [exec kern]; rewrite E; reflexivity|done..|]); rewrite E; cbn [mbind outcome_bind snd fst].
  - destruct (irq k) eqn:Ei; cbn [enable_if app].
    + eapply reaches_step; [reflexivity|reflexivity|done..|]. by apply reaches_done.
    + by apply reaches_done.
  - by eapply (reaches_switch (mkCpu _ _ _ _ _ _)).
Qed.
(** A section entered with the lock free. *)
Lemma reaches_section c s l r rest k' l' : locked c = false → code c = Lock s :: l → crit s (kern c) = Ret (k', l') →
  reaches (mkCpu k' false (in_service c) (stack c) (l' ++ l) (saved c)) r rest → reaches c r rest.
Proof.
  intros Hl Ec E Hr. eapply reaches_step; [exact Ec|cbn [exec]; rewrite Hl; reflexivity|done..|].
  eapply reaches_step; [reflexivity|cbn [exec kern]; rewrite E; reflexivity|done..|]. exact Hr.
Qed.

Lemma exit_crit k : exit_current k = (r ← crit SExit (set_irq false k);
  Ret (match snd r with
       | SwitchTo old nw :: _ => (Some (mkSwitch old nw false), fst r)
       | _ => (None, set_irq true (fst r))
       end)).
Proof.
  unfold exit_current. cbn [crit]. change (sched (set_irq false k)) with (sched k).
  destruct (index _ _) as [o|]; [|done]. cbn [mbind outcome_bind]. destruct (expect o) as [t|]; [|done]. cbn [mbind outcome_bind].
  destruct (next_ready _) as [[idx|]|]; [| |done]; cbn [mbind outcome_bind]; [|done].
  by destruct (prep_switch _ _) as [[[old nw] g2]|].
Qed.

Lemma reaches_exit c t : sched_wf (sched (kern c)) → slot (sched (kern c)) (current (sched (kern c))) = Some t →
  locked c = false → code c = exit_code → reaches c (exit_current (kern c)) [Idle].
Proof.
  intros Hw Ht Hl Ec. eapply reaches_step; [exact Ec|reflexivity|done..|]. rewrite exit_crit.
  destruct (crit_exit (set_irq false (kern c)) t Hw Ht) as [[E _]|(idx & u & E & _)];
    (eapply reaches_section; [exact Hl|reflexivity|exact E|]); rewrite E; cbn [mbind outcome_bind snd fst].
  - eapply reaches_step; [reflexivity|reflexivity|done..|]. by apply reaches_done.
  - by eapply (reaches_switch (mkCpu _ _ _ _ _ _)).
Qed.

(** Blocking and then scheduling, as [sleep] and [join] do. *)
Lemma reaches_block c b t rest : sched_wf (sched (kern c)) → slot (sched (kern c)) (current (sched (kern c))) = Some t →
  b ≠ BNone → locked c = false → code c = Lock (SBlock b) :: schedule_code ++ rest →
  reaches c (schedule (set_sched (put (current (sched (kern c))) (block_as b t) (sched (kern c))) (kern c))) rest.
Proof.
  intros Hw Ht Hb Hl Ec. eapply reaches_section; [exact Hl|exact Ec|cbn [crit]; rewrite (update_slot_put _ _ _ _ Ht); reflexivity|].
  apply reaches_schedule; [|done|done]. eapply wf_put; [exact Hw|exact Ht|done| |done].
  apply block_as_ok; [done|by eapply sw_task].
Qed.

Lemma reaches_join c i t : sched_wf (sched (kern c)) → slot (sched (kern c)) (current (sched (kern c))) = Some t →
  locked c = false → code c = op_code (OJoin i) (kern c) ++ [Body] → reaches c (join i (kern c)) [Body].
Proof.
  intros Hw Ht Hl Ec. cbn [op_code] in Ec. destruct (active (kern c)) eqn:Ha.
  2:{ unfold join. rewrite Ha. by apply reaches_done. }
  rewrite (join_eq i _ t) by done. destruct (find_slot i (sched (kern c))) as [x|] eqn:Ef.
  - destruct (find_slot_Some _ _ _ Ef) as (u & Hu & _). eapply reaches_section; [done|exact Ec| |].
    { cbn [crit]. rewrite Ef, (index_vget _ _ _ (proj1 (slot_Some _ _ _) Hu)). cbn [mbind outcome_bind expect].
      rewrite bool_decide_false by (by eapply sw_task). reflexivity. }
    by apply (reaches_block (mkCpu _ _ _ _ _ _)).
  - eapply reaches_section; [done|exact Ec|cbn [crit]; rewrite Ef; reflexivity|]. by apply reaches_done.
Qed.

Lemma reaches_sleep c n t : sched_wf (sched (kern c)) → slot (sched (kern c)) (current (sched (kern c))) = Some t →
  fits 64 (ticks (kern c) + n) → locked c = false → code c = op_code (OSleep n) (kern c) ++ [Body] →
  reaches c (sleep n (kern c)) [Body].
Proof.
  intros Hw Ht Hf Hl Ec. cbn [op_code] in Ec. unfold sleep. destruct (active (kern c)) eqn:Ha; cbn [negb].
  2:{ by apply reaches_done. }
  rewrite checked_fits by done. cbn [mbind outcome_bind]. rewrite (update_slot_put _ _ _ _ Ht). cbn [mbind outcome_bind].
  eapply reaches_step; [exact Ec|cbn [exec]; rewrite checked_fits by done; reflexivity|done..|].
  by apply (reaches_block (goes_on _ _ _)).
Qed.

(** The handler, up to its end-of-interrupt command. *)
Lemma tick_crit k : active k = true → tick k = (r ← crit (STick (ticks k)) k;
  match snd r with [] => Ret (None, fst r) | _ => schedule (fst r) end).
Proof.
  intros Ha. unfold tick. rewrite Ha. cbn [negb crit].
  destruct (_ =? NO_TASK); [done|]. destruct (index _ _) as [[t|]|]; [|done|done]. cbn [mbind outcome_bind].
  by destruct (task.slice t =? 0).
Qed.

Lemma reaches_tick c rest : sched_wf (sched (kern c)) → locked c = false → code c = ClockTick :: ReadClock :: rest →
  reaches c (tick (timer.timer_tick (kern c))) rest.
Proof.
  intros Hw Hl Ec. set (k := timer.timer_tick (kern c)).
  eapply reaches_step; [exact Ec|reflexivity|done..|]. fold k. eapply reaches_step; [reflexivity|reflexivity|done..|].
  cbn [kern goes_on]. destruct (active k) eqn:Ha.
  2:{ unfold tick. rewrite Ha. by apply reaches_done. }
  rewrite tick_crit by done. destruct (crit_tick (ticks k) k Hw) as (k' & l & E & Hok).
  eapply reaches_section; [done|reflexivity|exact E|]. rewrite E. cbn [mbind outcome_bind snd fst].
  assert (l = [] ∨ l = schedule_code) as [-> | ->].
  { revert E. cbn [crit]. destruct (_ =? NO_TASK); [intros [= _ <-]; by left|].
    intros ([t|] & _ & E)%bind_Ret; [|injection E as _ <-; by left]. destruct (task.slice t =? 0); injection E as _ <-; auto. }
  - by apply reaches_done.
  - apply (reaches_schedule (mkCpu _ _ _ _ _ _)); [apply (co_wf _ _ _ _ Hok)|done|done].
Qed.
End atomic.

(** What is left after a call: the rest of the closure, or nothing. *)
Definition after (o : op) : list instr := match o with OReturn => [Idle] | _ => [Body] end.

(** The CPU when the timer's interrupt has been delivered. *)
Definition delivered (c : Cpu) : Cpu :=
  mkCpu (set_irq false (kern c)) (locked c) true (stack c) (timer_code ++ code c) (saved c).

(** An operation that is not interrupted is atomic. From a state in which a closure runs, a
    call executed instruction by instruction ends where the one-step function of [Scheduler] says: with its
    statics, on the caller's stack, or on that of the task it switches to, in which case the
    caller will go on as that function's [Switch] says. The same holds of the timer's handler up to its
    end-of-interrupt command. *)
Theorem uninterrupted_atomic `{Profile} c o :
  inv 1 c → code c = [Body] → locked c = false → ok_choice (Call o) →
  (∃ n o' k' c', atomic o (kern c) = Ret (o', k') ∧ run (Call o :: replicate n Go) c = Ret c' ∧
     landed c c' o' k' (after o)) ∧
  (in_service c = false → ∃ n o' k' c', tick (timer.timer_tick (set_irq false (kern c))) = Ret (o', k') ∧
     run (Irq0 :: replicate n Go) c = Ret c' ∧ landed (delivered c) c' o' k' [EndOfInterrupt; Iret; Body]).
Proof.
  intros Hi Ec Hl Ho. pose proof Hi as [Hw Ht Hn Hf _ Hs]. rewrite Ec in Hf, Hs. destruct Hf as [Hirq _].
  destruct (live_task _ _ _ _ Hs eq_refl) as [t Hcur]. split.
  - assert (∀ r, reaches (goes_on (kern c) (match o with OReturn => exit_code | _ => op_code o (kern c) ++ [Body] end) c) r
      (after o) → ∃ n o' k' c', r = Ret (o', k') ∧
        run (Call o :: replicate n Go) c = Ret c' ∧ landed c c' o' k' (after o)) as Hgo.
    { intros r (n & o' & k' & c' & Hr & Er & Hla). exists n, o', k', c'. split; [done|]. split; [|exact Hla].
      unfold run. cbn [for_each turn]. rewrite Ec. by destruct o. }
    apply Hgo. clear Hgo. destruct o as [tr ptr f| |n|i| |]; cbn [after atomic]; cbn [op_code].
    + destruct (crit_add tr ptr f (kern c) Hw) as (k' & E & _); [lia|exact Ho|]. eapply reaches_section; [done|reflexivity|exact E|].
      cbn [crit] in E. apply bind_Ret in E as (x & Ex & [= <-]). rewrite Ex. by apply reaches_done.
    + unfold yield_now. destruct (active (kern c)); [by apply (reaches_schedule (goes_on _ _ _))|by apply reaches_done].
    + apply (reaches_sleep (goes_on _ _ _) n t); [done|done| |done|done]. cbn in Ho. cbn. unfold fits. lia.
    + by apply (reaches_join (goes_on _ _ _) i t).
    + eapply reaches_section; [done|reflexivity|reflexivity|]. by apply reaches_done.
    + by apply (reaches_exit (goes_on _ _ _) t).
  - intros Hsv. destruct (reaches_tick (delivered c) [EndOfInterrupt; Iret; Body]) as (n & o' & k' & c' & E & Er & Hla);
      [done|done|cbn; by rewrite Ec|]. exists n, o', k', c'. split; [done|]. split; [|done].
    unfold run. cbn [for_each turn]. rewrite Hirq, Hsv. exact Er.
Qed.

(** Task 1, in its closure, joins task 2. *)
Lemma uninterrupted_atomic_witness :
  ∃ c n o' k' c', @run dev [Go; Go; Go] (started 0 three_started) = Ret c ∧ @join dev 2 (kern c) = Ret (o', k') ∧
    @run dev (Call (OJoin 2) :: replicate n Go) c = Ret c' ∧ landed c c' o' k' [Body].
Proof.
  destruct three_start as [sw E].
  assert (∃ c, @run dev [Go; Go; Go] (started 0 three_started) = Ret c ∧ code c = [Body] ∧ locked c = false) as (c & Er & Ec & Hl).
  { eexists. split; [vm_compute; reflexivity|]. split; reflexivity. }
  assert (current (sched three_started) = 0) as E0 by (vm_compute; reflexivity).
  assert (inv 4 (started (current (sched three_started)) three_started)) as H4.
  { eapply (@started_inv dev 4 three sw three_started three_wf);
      [vm_compute; reflexivity|exact E|vm_compute; discriminate|vm_compute; reflexivity|vm_compute; reflexivity]. }
  rewrite E0 in H4. destruct (@run_inv dev 1 [Go; Go; Go] (started 0 three_started)) as (c1 & Er1 & Hi & _);
    [lia|exact H4|by repeat constructor|].
  rewrite Er in Er1. injection Er1 as <-.
  destruct (@uninterrupted_atomic dev c (OJoin 2) Hi Ec Hl I) as [(n & o' & k' & c' & Ea & Ea' & Hla) _].
  exists c, n, o', k', c'. split_and!; [exact Er|exact Ea|exact Ea'|exact Hla..].
Defined.
