(* ===== verification/Tasks.v ===== *)
(** * Tasks: the kernel tasks and the machine that interleaves them (kernel/src/main.rs)

    A task body is an interaction tree: it computes, and calls the kernel ([sysE]) to spawn,
    yield, sleep, join, read the counters and print. [Module tasks] holds the
    bodies [phase4_demo] starts (the clock, the manager and its workers, the stress test) and
    [System], the scheduler with the rest of every task that has begun. A [turn] is one call of the
    running task, or a timer interrupt before it, so that every interleaving of the
    tasks is a list of turns. The bodies modelled elsewhere (the ARP demo, the shell)
    are a parameter here, any trees whatsoever.

    The proofs speak of a tree through what it can do: [obeys] is a coinductive predicate,
    with one rule per construct of the bodies. *)

From ITree Require Import Core.ITreeDefinition Eq.Shallow.
From Paco Require Import paco.
From S2P Require Import Prelude Task Scheduler SchedulerProps Blocking.
Import context task scheduler.

Module tasks.

(** What the bodies print. *)
Inductive line :=
  | WorkerIter (name : string) (i tick : Z)
  | WorkerFinished (name : string)
  | Joined (alive : Z)
  | Stress (heap1 frames1 heap2 frames2 : Z) (ok : bool)
  | DemoComplete
  | TickIs (t : Z)
  | ClockDone.

#[global] Instance line_eq_dec : EqDecision line.
Proof. solve_decision. Defined.

(** What a task can ask of the kernel. A body to spawn is named, as in [Task]. *)
Variant sysE : Type → Type :=
  | Spawn (body : string) : sysE TaskId
  | YieldNow : sysE unit
  | SleepFor (n : Z) : sysE unit
  | JoinTask (i : TaskId) : sysE unit
  | TaskCount : sysE Z
  | Ticks : sysE Z
  | UsedBytes : sysE Z            (* heap::used_bytes *)
  | FreeCount : sysE Z            (* the free frames *)
  | Println (l : line) : sysE unit
  | Panicked : sysE Empty_set.

Abbreviation prog := (itree sysE unit).

#[global] Instance prog_ret : MRet (itree sysE) := λ A a, ITreeDefinition.Ret a.
#[global] Instance prog_bind : MBind (itree sysE) := λ A B f m, ITree.bind m f.

Definition call {X} (e : sysE X) : itree sysE X := ITree.trigger e.
Definition println (l : line) : prog := call (Println l).

(** An arithmetic operation of the language. *)
Definition attempt {A} (o : outcome A) : itree sysE A :=
  match o with
  | Ret a => mret a
  | Panic _ => x ← call Panicked; match x : Empty_set with end
  end.

(** [for x in l { f(x) }] *)
Fixpoint for_in {X} (l : list X) (f : X → prog) : prog :=
  match l with
  | [] => mret tt
  | x :: l => _ ← f x; for_in l f
  end.

(** [(0..n).map(|_| m).collect()] *)
Fixpoint collect {X} (n : nat) (m : itree sysE X) : itree sysE (list X) :=
  match n with
  | O => mret []
  | S n => x ← m; l ← collect n m; mret (x :: l)
  end.

Section bodies.
Context `{Profile}.

Definition worker (name : string) : prog :=
  _ ← for_in (seqZ 1 5) (λ i,
        t ← call Ticks;
        _ ← println (WorkerIter name i t);
        call (SleepFor 3));
  println (WorkerFinished name).

(** The closure [stress_test] spawns; its vector is its own. *)
Definition stress_task : prog := call YieldNow.

Definition one_round : itree sysE (Z * Z) :=
  ids ← collect 32 (call (Spawn "stress_task"));
  _ ← for_in ids (λ id, call (JoinTask id));
  _ ← call (SleepFor 2);
  frames ← call FreeCount;
  used ← call UsedBytes;
  mret (used, frames).

Definition stress_test : prog :=
  r1 ← one_round;
  let '(heap1, frames1) := (r1 : Z * Z) in
  r2 ← one_round;
  let '(heap2, frames2) := (r2 : Z * Z) in
  limit ← attempt (checked 64 (heap1 + 1024));
  println (Stress heap1 frames1 heap2 frames2 ((heap2 <=? limit) && (frames2 =? frames1))).

Definition manager_task : prog :=
  a ← call (Spawn "worker(t1)");
  b ← call (Spawn "worker(t2)");
  c ← call (Spawn "worker(t3)");
  _ ← call (JoinTask a);
  _ ← call (JoinTask b);
  _ ← call (JoinTask c);
  n ← call TaskCount;
  _ ← println (Joined n);
  _ ← stress_test;
  println DemoComplete.

(** One round of the clock's loop. *)
Definition clock_round (s : Z * Z) : itree sysE (Z * Z + unit) :=
  let '(last, reported) := s in
  if reported <? 3 then
    t ← call Ticks;
    d ← attempt (checked 64 (t - last));
    s' ← (if timer.HZ <=? d then _ ← println (TickIs t); mret (t, reported + 1) else mret (last, reported));
    _ ← call YieldNow;
    mret (inl s')
  else mret (inr tt).

Definition clock : prog :=
  _ ← ITree.iter clock_round (0, 0);
  println ClockDone.

(** The closures by name; [external] is the ARP demo and the shell. *)
Definition body (external : string → prog) (f : string) : prog :=
  if String.eqb f "clock" then clock
  else if String.eqb f "manager_task" then manager_task
  else if String.eqb f "worker(t1)" then worker "t1"
  else if String.eqb f "worker(t2)" then worker "t2"
  else if String.eqb f "worker(t3)" then worker "t3"
  else if String.eqb f "stress_task" then stress_task
  else external f.

(** [phase4_demo], up to the first switch. *)
Definition phase4_demo (trampoline : Z) (stacks : Z * Z * Z * Z) (k : Kern) : outcome (option Switch * Kern) :=
  let '(s1, s2, s3, s4) := stacks in
  r ← spawn trampoline s1 "clock" k;
  r ← spawn trampoline s2 "manager_task" (snd r);
  r ← spawn trampoline s3 "demo_arp" (snd r);
  r ← spawn trampoline s4 "shell::run" (snd r);
  start (snd r).
End bodies.

(** ** The machine *)

(** The scheduler, what is left of each task that has begun, and what has been printed, by
    whom. *)
Record System := mkSystem {
  kern : Kern;
  progs : TaskId → option prog;
  output : list (TaskId * line);
}.

(** What the rest of the machine supplies: a stack for a new task, the counters. *)
Record supply := mkSupply { stack_at : Z; used_now : Z; frames_now : Z }.

Inductive choice := Interrupt | Go (a : supply).

Definition set_kern (k : Kern) (s : System) : System := mkSystem k (progs s) (output s).
Definition set_prog (i : TaskId) (t : prog) (s : System) : System :=
  mkSystem (kern s) (λ j, if j =? i then Some t else progs s j) (output s).

Definition current_id (k : Kern) : option TaskId := id <$> slot (sched k) (current (sched k)).

Section machine.
Context `{Profile} (external : string → prog) (trampoline : Z).

(** A call of the running task: the answer, the kernel after it, what it prints. *)
Definition answer {X} (a : supply) (e : sysE X) (k : Kern) : outcome (X * Kern * list line) :=
  match e in sysE X return outcome (X * Kern * list line) with
  | Spawn f => r ← spawn trampoline (stack_at a) f k; Ret (fst r, snd r, [])
  | YieldNow => r ← yield_now k; Ret (tt, snd r, [])
  | SleepFor n => r ← sleep n k; Ret (tt, snd r, [])
  | JoinTask i => r ← join i k; Ret (tt, snd r, [])
  | TaskCount => Ret (task_count k, k, [])
  | Ticks => Ret (ticks k, k, [])
  | UsedBytes => Ret (used_now a, k, [])
  | FreeCount => Ret (frames_now a, k, [])
  | Println l => Ret (tt, k, [l])
  | Panicked => Panic POverflow
  end.

(** The running task [i], with [t] left to do. *)
Definition advance (a : supply) (i : TaskId) (t : prog) (s : System) : outcome System :=
  match observe t with
  | RetF _ => r ← exit_current (kern s); Ret (set_kern (snd r) s)
  | TauF t' => Ret (set_prog i t' s)
  | VisF e k =>
      r ← answer a e (kern s);
      let '(x, kn, ls) := r in
      Ret (mkSystem kn (progs (set_prog i (k x) s)) (output s ++ ((i,.) <$> ls)))
  end.

(** A task dispatched for the first time takes its body. *)
Definition enter (i : TaskId) (s : System) : outcome System :=
  r ← current_task_body (kern s);
  let '(f, k) := (r : option string * Kern) in
  Ret (set_prog i (default (mret tt) (body external <$> f)) (set_kern k s)).

Definition turn (c : choice) (s : System) : outcome System :=
  match c with
  | Interrupt => r ← tick (timer.timer_tick (kern s)); Ret (set_kern (snd r) s)
  | Go a =>
      match current_id (kern s) with
      | None => Ret s                    (* [idle] *)
      | Some i => match progs s i with
                  | None => enter i s
                  | Some t => advance a i t s
                  end
      end
  end.

Definition run (cs : list choice) (s : System) : outcome System := for_each cs turn s.
End machine.
End tasks.
Import tasks.

(** ** What a tree can do

    [obeys stop nb Q now t]: every call [t] makes is allowed (and does not block, if [nb]),
    up to [stop], a line it prints or its own panic; if it returns, [Q] holds of the result. [now] is the last value
    of the clock the task has seen. *)

Definition blocking {X} (e : sysE X) : bool :=
  match e with SleepFor _ | JoinTask _ => true | _ => false end.

Definition allowed {X} (nb : bool) (e : sysE X) : Prop :=
  match e with
  | SleepFor n => nb = false ∧ 0 ≤ n < 2 ^ 62
  | JoinTask _ => nb = false
  | Panicked => False
  | _ => True
  end.

Inductive until := Ever | Line (l : line) | Panics.

Definition prints {X} (stop : until) (e : sysE X) : Prop :=
  match e with Println l => stop = Line l | Panicked => stop = Panics | _ => False end.

(** What the machine can answer, and what the task then knows of the clock. *)
Definition expected {X} (now : Z) (e : sysE X) : X → Prop :=
  match e in sysE X return X → Prop with
  | Ticks => λ x, now ≤ x < 2 ^ 62
  | UsedBytes => λ x, 0 ≤ x < 2 ^ 62
  | _ => λ _, True
  end.
Definition noted {X} (now : Z) (e : sysE X) : X → Z :=
  match e in sysE X return X → Z with Ticks => λ x, x | _ => λ _, now end.

Section obeys.
Context (stop : until) (nb : bool).

Definition obeys_gen {X} (Q : Z → X → Prop) (r : Z → itree sysE X → Prop) (now : Z) (t : itree sysE X) : Prop :=
  match observe t with
  | RetF x => Q now x
  | TauF t' => r now t'
  | VisF e k => prints stop e ∨ (allowed nb e ∧ ∀ x, expected now e x → r (noted now e x) (k x))
  end.

Lemma obeys_gen_mon {X} (Q : Z → X → Prop) : monotone2 (obeys_gen Q).
Proof.
  intros now t r r' Hr Hle. unfold obeys_gen in *. destruct (observe t) as [x|t'|Y e k]; [done|by apply Hle|].
  destruct Hr as [?|[Ha Hk]]; [by left|right]. split; [done|]. intros x Hx. by apply Hle, Hk.
Qed.

Definition obeys {X} (Q : Z → X → Prop) : Z → itree sysE X → Prop := paco2 (obeys_gen Q) bot2.

Lemma obeys_unfold {X} (Q : Z → X → Prop) now t : obeys Q now t → obeys_gen Q (obeys Q) now t.
Proof.
  intros Ht. unfold obeys in Ht. punfold Ht; [|apply obeys_gen_mon].
  eapply obeys_gen_mon; [exact Ht|]. intros ? ? [?|[]]. done.
Qed.

Lemma obeys_fold {X} (Q : Z → X → Prop) now t : obeys_gen Q (obeys Q) now t → obeys Q now t.
Proof. intros Ht. pfold. eapply obeys_gen_mon; [exact Ht|]. intros ? ? ?. by left. Qed.

Lemma obeys_ret {X} (Q : Z → X → Prop) now x : Q now x → obeys Q now (mret x).
Proof. intros Hq. by apply obeys_fold. Qed.

Lemma obeys_call {X} (Q : Z → X → Prop) now (e : sysE X) :
  prints stop e ∨ (allowed nb e ∧ ∀ x, expected now e x → Q (noted now e x) x) → obeys Q now (call e).
Proof.
  intros [?|[Ha Hx]]; apply obeys_fold; unfold obeys_gen; cbn; [by left|right]. split; [done|].
  intros x Hex. by apply obeys_ret, Hx.
Qed.

Lemma obeys_bind {X Y} (Q : Z → X → Prop) (R : Z → Y → Prop) now (t : itree sysE X) (f : X → itree sysE Y) :
  obeys Q now t → (∀ now x, Q now x → obeys R now (f x)) → obeys R now (t ≫= f).
Proof.
  intros Ht Hf. revert now t Ht. pcofix CIH. intros now t Ht%obeys_unfold. pfold.
  unfold obeys_gen at 1. unfold obeys_gen in Ht at 1. unfold mbind, prog_bind.
  rewrite observe_bind. destruct (observe t) as [x|t'|Z e k]; cbn.
  - apply (obeys_gen_mon R now (f x) _ _ (obeys_unfold _ _ _ (Hf _ _ Ht))).
    intros ? ? ?. left. eapply paco2_mon; [done|]. done.
  - right. by apply CIH.
  - destruct Ht as [?|[Ha Hk]]; [by left|right]. split; [done|]. intros x Hx. right. by apply CIH, Hk.
Qed.

(** Loops keep an invariant on their state. *)
Lemma obeys_iter {S X} (I : Z → S → Prop) (Q : Z → X → Prop) (f : S → itree sysE (S + X)) now s :
  (∀ now s, I now s → obeys (λ now' r, match r with inl s' => I now' s' | inr x => Q now' x end) now (f s)) →
  I now s → obeys Q now (ITree.iter f s).
Proof.
  intros Hf Hi. set (P := λ now' r, match r with inl s' => I now' s' | inr x => Q now' x end) in Hf.
  set (loop := λ r, match r with inl s' => Tau (ITree.iter f s') | inr x => ITreeDefinition.Ret x end).
  assert (∀ now t u, obeys P now t → observe u = observe (ITree.bind t loop) → obeys Q now u) as Hg.
  { clear now s Hi. pcofix CIH. intros now t u Ht%obeys_unfold Eu. pfold. unfold obeys_gen at 1. unfold obeys_gen in Ht at 1.
    rewrite Eu, observe_bind. destruct (observe t) as [[s'|x]|t'|Z e k]; cbn; [|done|..].
    - right. by apply (CIH now (f s')); [apply Hf|].
    - right. by eapply CIH.
    - destruct Ht as [?|[Ha Hk]]; [by left|right]. split; [done|]. intros x Hx. right. by eapply CIH; [apply Hk|]. }
  by apply (Hg now (f s)); [apply Hf|].
Qed.

Lemma obeys_for_in {X} (l : list X) (f : X → prog) (I : Z → unit → Prop) now :
  (∀ now x, I now tt → obeys I now (f x)) → I now tt → obeys I now (for_in l f).
Proof.
  intros Hf. revert now. induction l as [|x l IH]; intros now Hi; [by apply obeys_ret|].
  apply (obeys_bind I); [by apply Hf|]. intros now' [] Hi'. by apply IH.
Qed.

Lemma obeys_collect {X} n (m : itree sysE X) (Q : Z → Prop) now :
  (∀ now, Q now → obeys (λ now _, Q now) now m) → Q now → obeys (λ now _, Q now) now (collect n m).
Proof.
  intros Hm. revert now. induction n as [|n IH]; intros now Hq; [by apply obeys_ret|].
  apply (obeys_bind (λ now _, Q now)); [by apply Hm|]. intros now' x Hq'.
  apply (obeys_bind (λ now _, Q now)); [by apply IH|]. intros now'' l Hq''. by apply obeys_ret.
Qed.
End obeys.

(** ** The bodies obey *)

Section bodies.
Context `{Profile} (stop : until).

(** A call, then the rest. *)
Lemma obeys_then {X Y} nb (e : sysE X) (R : Z → Y → Prop) now (f : X → itree sysE Y) :
  prints stop e ∨ (allowed nb e ∧ ∀ x, expected now e x → obeys stop nb R (noted now e x) (f x)) →
  obeys stop nb R now (call e ≫= f).
Proof.
  intros He. apply obeys_fold. unfold obeys_gen. cbn. destruct He as [?|[Ha Hx]]; [by left|right]. split; [done|].
  intros x Hex. apply (obeys_bind stop nb (λ now' y, now' = noted now e x ∧ y = x)); [by apply obeys_ret|].
  intros now' y [-> ->]. by apply Hx.
Qed.

Lemma worker_obeys name (Q : Z → unit → Prop) now :
  prints stop (Println (WorkerFinished name)) ∨ (∀ now, Q now tt) → obeys stop false Q now (worker name).
Proof.
  intros Hq. apply (obeys_bind _ _ (λ _ _, True)).
  - apply obeys_for_in; [|done]. intros now' i _. apply obeys_then. right. split; [done|]. intros t _.
    apply obeys_then. right. split; [done|]. intros [] _. apply obeys_call. right. done.
  - intros now' [] _. apply obeys_call. destruct Hq; [by left|right; split; [done|by intros []]].
Qed.

Lemma one_round_obeys now : 0 ≤ now → obeys stop false (λ now r, 0 ≤ now ∧ 0 ≤ fst r < 2 ^ 62) now one_round.
Proof.
  intros Hn. apply (obeys_bind _ _ (λ now _, 0 ≤ now)).
  { apply obeys_collect; [|done]. intros now' Hn'. apply obeys_call. right. done. }
  intros now1 ids H1. apply (obeys_bind _ _ (λ now _, 0 ≤ now)).
  { apply obeys_for_in; [|done]. intros now' i Hn'. apply obeys_call. right. done. }
  intros now2 [] H2. apply obeys_then. right. split; [done|]. intros [] _.
  apply obeys_then. right. split; [done|]. intros fr _. apply obeys_then. right. split; [done|]. intros us Hus.
  by apply obeys_ret.
Qed.

Lemma stress_test_obeys now : 0 ≤ now → obeys stop false (λ _ _, True) now stress_test.
Proof.
  intros Hn. apply (obeys_bind _ _ _ _ _ _ _ (one_round_obeys now Hn)). intros now1 [h1 f1] [H1 Hh1].
  apply (obeys_bind _ _ _ _ _ _ _ (one_round_obeys now1 H1)). intros now2 [h2 f2] _. cbn [fst] in Hh1.
  rewrite checked_fits by (unfold fits; lia). apply (obeys_bind _ _ (λ _ _, True)); [by apply obeys_ret|].
  intros now3 lim _. apply obeys_call. right. done.
Qed.

Lemma manager_obeys now : 0 ≤ now → obeys stop false (λ _ _, True) now manager_task.
Proof.
  intros Hn. unfold manager_task. do 8 (apply obeys_then; right; split; [done|]; intros ? _).
  apply (obeys_bind _ _ _ _ _ _ _ (stress_test_obeys now Hn)). intros now' [] _. apply obeys_call. right. done.
Qed.

(** The clock never blocks; its difference of ticks does not underflow. *)
Lemma clock_obeys (Q : Z → unit → Prop) now :
  0 ≤ now → prints stop (Println ClockDone) ∨ (∀ now, Q now tt) → obeys stop true Q now clock.
Proof.
  intros Hn Hq. apply (obeys_bind _ _ (λ _ _, True)).
  - apply (obeys_iter _ _ (λ now s, 0 ≤ fst s ≤ now)); [|done]. clear now Hn. intros now [last rep] Hl. cbn in Hl.
    cbn [clock_round]. destruct (rep <? 3); [|by apply obeys_ret]. apply obeys_then. right. split; [done|].
    intros t Ht. cbn in Ht. rewrite checked_fits by (unfold fits; lia).
    apply (obeys_bind _ _ (λ now' _, now' = t)); [by apply obeys_ret|]. intros _ d ->.
    apply (obeys_bind _ _ (λ now' s, now' = t ∧ 0 ≤ fst s ≤ t)).
    + destruct (_ <=? d); [|apply obeys_ret; cbn; lia].
      apply obeys_then. right. split; [done|]. intros [] _. apply obeys_ret. cbn. lia.
    + intros now' s' [-> Hs']. apply obeys_then. right. split; [done|]. intros [] _. by apply obeys_ret.
  - intros now' [] _. apply obeys_call. destruct Hq; [by left|right; split; [done|by intros []]].
Qed.

Lemma obeys_weaken nb {X} (Q : Z → X → Prop) now t : obeys stop nb Q now t → obeys stop false Q now t.
Proof.
  revert now t. pcofix CIH. intros now t Ht%obeys_unfold. pfold. unfold obeys_gen at 1. unfold obeys_gen in Ht at 1.
  destruct (observe t) as [x|t'|Y e k]; [done|right; by apply CIH|].
  destruct Ht as [?|[Ha Hk]]; [by left|right]. split; [by destruct e; cbn in *; intuition|].
  intros x Hx. right. by apply CIH, Hk.
Qed.
End bodies.

(** Never an overflow, never too long a sleep. *)
Definition safe : Z → prog → Prop := obeys Ever false (λ _ _, True).

(** Never too long a sleep, but it may panic. *)
Definition tame : Z → prog → Prop := obeys Panics false (λ _ _, True).

(** The bodies of this file. *)
Definition own_bodies : list string :=
  ["clock"; "manager_task"; "worker(t1)"; "worker(t2)"; "worker(t3)"; "stress_task"]%string.

Lemma body_safe `{Profile} external f : safe 0 (body external f) ∨ (f ∉ own_bodies) ∧ body external f = external f.
Proof.
  unfold body, own_bodies.
  case (String.eqb_spec f "clock"); [intros _; left; eapply obeys_weaken, clock_obeys; by auto|intros N1].
  case (String.eqb_spec f "manager_task"); [intros _; left; by apply manager_obeys|intros N2].
  repeat (match goal with |- context [if String.eqb f ?w then _ else _] => case (String.eqb_spec f w) end;
    [intros _; left; first [apply worker_obeys; by right|apply obeys_call; by right]|intros ?]).
  right. split; [|done]. rewrite !elem_of_cons, elem_of_nil. by intuition.
Qed.

(** What can be left of a tree after some of its calls were answered. *)
Inductive follows : prog → prog → Prop :=
  | follows_here t : follows t t
  | follows_tau t u u' : follows t u → observe u = TauF u' → follows t u'
  | follows_call t u X (e : sysE X) c x : follows t u → observe u = VisF e c → follows t (c x).

Section next.
Context {Q : Z → unit → Prop} (stop : until) (nb : bool).

Lemma obeys_tau now p p' : obeys stop nb Q now p → observe p = TauF p' → obeys stop nb Q now p'.
Proof. intros Ho%obeys_unfold Eo. unfold obeys_gen in Ho. by rewrite Eo in Ho. Qed.

Lemma obeys_vis now p {X} (e : sysE X) c : obeys stop nb Q now p → observe p = VisF e c →
  prints stop e ∨ (allowed nb e ∧ ∀ x, expected now e x → obeys stop nb Q (noted now e x) (c x)).
Proof. intros Ho%obeys_unfold Eo. unfold obeys_gen in Ho. by rewrite Eo in Ho. Qed.
End next.
