(* ===== verification/TasksProps.v ===== *)
(** * TasksProps: the boot tasks run, and report in order

    What an operation of the scheduler leaves of every task; then invariants of
    [System] under any sequence of turns: no panic, a task does what its tree says, and the manager
    reports its workers joined after they have finished, as long as the clock task is
    there to keep [join] from returning early. *)

From ITree Require Import Core.ITreeDefinition.
From S2P Require Import Prelude Task Scheduler SchedulerProps Blocking Tasks.
Import context task scheduler tasks.

(** ** What becomes of a task *)

(** The same task, not blocked if it was not. *)
Definition same (t t' : Task) : Prop :=
  id t' = id t ∧ func t' = func t ∧ (state t ≠ Blocked → state t' ≠ Blocked).

#[global] Instance same_preorder : PreOrder same.
Proof. split; [done|]. intros t1 t2 t3 (? & ? & ?) (? & ? & ?). repeat split; [congruence..|auto]. Qed.

Definition carries (j : Z) (g g' : Scheduler) : Prop :=
  ∀ t, slot g j = Some t → ∃ t', slot g' j = Some t' ∧ same t t'.

#[global] Instance carries_preorder j : PreOrder (carries j).
Proof.
  split; [intros g t Ht; by exists t|]. intros g1 g2 g3 C1 C2 t Ht.
  destruct (C1 t Ht) as (t1 & Ht1 & S1). destruct (C2 t1 Ht1) as (t2 & Ht2 & S2). exists t2. split; [done|].
  by transitivity t1.
Qed.

Lemma carries_put g i t u j : slot g i = Some t → same t u → carries j g (put i u g).
Proof.
  intros Hi Hs v Hv. rewrite (slot_put _ _ _ _ _ Hi). case_bool_decide; [subst|by exists v].
  exists u. split; [done|]. by assert (v = t) as -> by congruence.
Qed.

Lemma carries_put_ne g i t u j : slot g i = Some t → j ≠ i → carries j g (put i u g).
Proof. intros Hi Hj v Hv. rewrite (slot_put _ _ _ _ _ Hi), bool_decide_false by done. by exists v. Qed.

Lemma demote_same t : same t (demote t).
Proof. unfold demote. case_bool_decide; repeat split; done. Qed.

Lemma carries_demoted g j : carries j g (demoted g).
Proof.
  unfold demoted. destruct (slot g (current g)) as [t|] eqn:Ht; [|done].
  eapply carries_put; [done|apply demote_same].
Qed.

Lemma carries_dispatch g idx u j : slot g idx = Some u → carries j g (dispatch idx u g).
Proof.
  intros Hu v Hv. change (slot (dispatch idx u g) j) with (slot (put idx (set_state Running u) g) j).
  by apply (carries_put g idx u _ j).
Qed.

Section ops.
Context `{Profile}.

Lemma schedule_carries k o k' j : sched_wf (sched k) → schedule k = Ret (o, k') → carries j (sched k) (sched k').
Proof.
  intros Hw E. destruct (schedule_spec k Hw) as [[E' _]|(idx & t & E' & Hs & Hr & _)]; rewrite E' in E;
    injection E as <- <-; cbn [sched set_sched].
  - apply carries_demoted.
  - etransitivity; [apply carries_demoted|]. by apply carries_dispatch.
Qed.

(** Rewriting the current task, then [schedule]. *)
Lemma put_schedule_carries k t u o k' j :
  sched_wf (sched k) → slot (sched k) (current (sched k)) = Some t → id u = id t → task_ok u →
  schedule (set_sched (put (current (sched k)) u (sched k)) k) = Ret (o, k') →
  (j ≠ current (sched k) ∨ same t u) → carries j (sched k) (sched k').
Proof.
  intros Hw Ht Hid Hok E Hj. etransitivity; [|eapply schedule_carries; [|exact E]].
  - destruct Hj; [by eapply carries_put_ne|by eapply carries_put].
  - eapply wf_put; [done|exact Ht|done|done|done].
Qed.

Lemma woken_carries now g j : carries j g (woken now g).
Proof.
  intros t Ht. rewrite woken_slot, Ht. cbn. destruct (expired now t); eexists; repeat split; done.
Qed.

Lemma reaped_carries g t j : slot g (current g) = Some t → j ≠ current g → carries j g (reaped t g).
Proof.
  intros Hc Hj v Hv. rewrite (reaped_slot _ _ _ Hc), bool_decide_false, Hv by done. cbn [mbind option_bind].
  rewrite wake_joiner_cases. eexists. split; [done|]. case_bool_decide; repeat split; done.
Qed.

(** What the operation does to its caller: nothing, or it takes the body, blocks or removes it. *)
Definition harmless (e : event) : bool :=
  match e with ESpawn _ _ _ | EStart | EYield | ETimer => true | _ => false end.

Lemma step_carries e k o k' j :
  sched_wf (sched k) → active k = true → legal e k → step e k = Ret (o, k') →
  harmless e = true ∨ j ≠ current (sched k) → carries j (sched k) (sched k').
Proof.
  intros Hw Ha Hl E Hj. destruct e as [tr ptr f| | | |n|i| |]; cbn [step legal] in *.
  - destruct Hl as (Hf & Hp & Hs). destruct (add_spec tr ptr f (sched k) (kmem k) Hw Hf Hp Hs) as
      (s & t & m' & g' & E' & Hn & _ & _ & _ & _ & _ & _ & _ & Hslot & _).
    unfold spawn in E. rewrite E' in E. cbn in E. injection E as <- <-. intros v Hv. cbn [sched]. rewrite Hslot.
    case_bool_decide; [congruence|by exists v].
  - unfold start in E. destruct (pick (sched k) Hw) as [[E' _]|(idx & u & E' & Hs & _ & _ & Hp & _)];
      [by apply no_current_none_running|..]; rewrite E' in E; cbn [mbind outcome_bind] in E.
    + by injection E as <- <-.
    + change (sched (set_irq false k)) with (sched k) in E. rewrite Hp in E. injection E as <- <-.
      by apply carries_dispatch.
  - destruct (current_Some _ Hw Hl) as [t Ht]. destruct Hj as [|Hj]; [done|]. unfold current_task_body in E.
    rewrite (index_vget _ _ _ (proj1 (slot_Some _ _ _) Ht)) in E. cbn in E. injection E as <- <-.
    assert (carries j (sched k) (put (current (sched k)) (snd (take_func t)) (sched k))) as Hc by (by eapply carries_put_ne).
    by destruct (func t).
  - unfold yield_now in E. rewrite Ha in E. by eapply schedule_carries.
  - destruct Hj as [|Hj]; [done|]. destruct Hl as [Hc Hf]. destruct (current_Some _ Hw Hc) as [t Ht]. unfold sleep in E.
    rewrite Ha in E. cbn [negb] in E. rewrite checked_fits in E by done. cbn [mbind outcome_bind] in E.
    rewrite (update_slot_put _ _ _ _ Ht) in E. cbn [mbind outcome_bind] in E.
    eapply put_schedule_carries; [done|exact Ht| | |exact E|by left]; [done|]. apply block_as_ok; [done|by eapply sw_task].
  - destruct Hj as [|Hj]; [done|]. destruct (current_Some _ Hw Hl) as [t Ht]. rewrite (join_eq i k t Hw Ha Ht) in E.
    destruct (find_slot i (sched k)); [|by injection E as <- <-].
    eapply put_schedule_carries; [done|exact Ht| | |exact E|by left]; [done|]. apply block_as_ok; [done|by eapply sw_task].
  - destruct Hj as [|Hj]; [done|]. destruct (current_Some _ Hw Hl) as [t Ht].
    destruct (exit_eq k t Hw Ht) as [[E' _]|(idx & u & E' & Hu & _)]; rewrite E' in E; injection E as <- <-; cbn [sched set_sched].
    + by apply reaped_carries.
    + etransitivity; [by apply reaped_carries|by apply carries_dispatch].
  - set (k1 := timer.timer_tick k) in E. rewrite (tick_eq k1 Hw Ha) in E. set (g := woken _ _) in E.
    assert (carries j (sched k) g) as Hg by apply woken_carries. assert (sched_wf g) as Hwg by (by apply woken_wf).
    destruct (slot g (current g)) as [t|] eqn:Ht; [|injection E as <- <-; done].
    destruct (task.slice t =? 0).
    + etransitivity; [exact Hg|]. eapply (put_schedule_carries (set_sched g k1) t); [done|done| | |exact E|right]; [done| |].
      * apply set_slice_ok; [done|]. by eapply (sw_task g).
      * done.
    + injection E as <- <-. etransitivity; [exact Hg|]. by eapply carries_put.
Qed.
End ops.

(** ** The first tasks *)

Definition stack_ok (ptr : Z) : Prop := 0 ≤ ptr ∧ ptr + KERNEL_STACK_SIZE + 15 < 2 ^ 64.

Section first.
Context `{Profile}.

(** Only tasks that were just spawned, with [fs] to run. *)
Record spawned (fs : list string) (ts : list Task) (k : Kern) : Prop := {
  sp_sched : sched k = mkSched (Some <$> ts) NO_TASK (Z.of_nat (length ts) + 1) 0;
  sp_wf : sched_wf (sched k);
  sp_ids : (λ t, (id t, state t, func t)) <$> ts = imap (λ i f, (Z.of_nat i + 1, Ready, Some f)) fs;
}.

Lemma no_hole (ts : list Task) : position is_none (Some <$> ts) = None.
Proof. unfold position. generalize 0. induction ts as [|t ts IH]; intros i; [done|]. apply IH. Qed.

Lemma spawn_next fs ts k tr ptr f : spawned fs ts k → (length ts < 100)%nat → stack_ok ptr →
  ∃ i t k', spawn tr ptr f k = Ret (i, k') ∧ spawned (fs ++ [f]) (ts ++ [t]) k' ∧ active k' = active k ∧ ticks k' = ticks k.
Proof.
  intros [Es Hw Hi] Hlen [Hp Hl].
  assert (length ts = length fs) as Hlf by (apply (f_equal length) in Hi; by rewrite length_fmap, length_imap in Hi).
  assert (legal (ESpawn tr ptr f) k) as Hleg by (cbn; rewrite Es; cbn; unfold fits; lia).
  destruct (good_spawn tr ptr f k Hw Hleg) as (o & k1 & Est & Hm & _). cbn in Est.
  destruct (Task_new_fields tr ptr (Z.of_nat (length ts) + 1) f DEFAULT_SLICE (kmem k) Hp Hl)
    as (t & m' & Et & Hid & Hst & _ & _ & Hfn).
  assert (spawn tr ptr f k = Ret (Z.of_nat (length ts) + 1,
    mkKern (mkSched (Some <$> (ts ++ [t])) NO_TASK (Z.of_nat (length (ts ++ [t])) + 1) 0) (active k) (ticks k) (irq k) m')) as E.
  { unfold spawn, add. rewrite Es. cbn [next_id slots current cursor]. rewrite checked_fits by (unfold fits; lia).
    cbn [mbind outcome_bind]. rewrite Et. cbn [mbind outcome_bind]. rewrite no_hole, fmap_app, length_app.
    cbn [fmap list_fmap length]. do 4 f_equal. lia. }
  rewrite E in Est. cbn in Est. injection Est as <- <-. eexists _, t, _. split; [exact E|].
  split; [|done]. constructor; [done|apply Hm|]. rewrite fmap_app, imap_app, Hi. cbn. rewrite Hid, Hst, Hfn, <- Hlf. do 4 f_equal. lia.
Qed.

Lemma start_first fs ts t k : spawned fs (t :: ts) k →
  ∃ k', start k = Ret (Some (mkSwitch BootCtx (SlotCtx 0) true), k') ∧ sched_wf (sched k') ∧
    active k' = active k ∧ ticks k' = ticks k ∧
    sched k' = mkSched (Some (set_state Running t) :: (Some <$> ts)) 0 (Z.of_nat (length (t :: ts)) + 1) 1.
Proof.
  intros [Es Hw Hi]. assert (Forall (λ u, state u = Ready) (t :: ts)) as Hr.
  { apply Forall_forall. intros u Hu. apply (list_elem_of_fmap_2 (λ t, (id t, state t, func t))) in Hu.
    rewrite Hi in Hu. apply elem_of_lookup_imap in Hu as (i & f & [= _ ? _] & _). done. }
  assert (slot (sched k) 0 = Some t) as Hs0 by by rewrite Es.
  apply Forall_cons in Hr as [Hrt Hrs].
  destruct (pick (sched k) Hw) as [[_ Hno]|(idx & u & En & Hs & Hru & Hmin & Hp & Hw2)].
  - apply no_current_none_running; [done|by rewrite Es].
  - exfalso. apply (Hno 0). by exists t.
  - assert (idx = 0) as ->.
    { assert (rr_dist (sched k) idx ≤ rr_dist (sched k) 0) as Hd by (apply Hmin; by exists t).
      pose proof (slot_lt _ _ _ Hs) as Hlt. unfold rr_dist in Hd. rewrite Es in Hd, Hlt. cbn [slots cursor] in Hd, Hlt.
      rewrite Z.sub_0_r, (Z.mod_small idx), Z.mod_0_l in Hd; lia. }
    rewrite Hs0 in Hs. injection Hs as <-. unfold start. rewrite En. cbn [mbind outcome_bind].
    change (sched (set_irq false k)) with (sched k). rewrite Hp. cbn [mbind outcome_bind].
    exists (set_sched (dispatch 0 t (sched k)) (set_irq false k)). split; [|split_and!; [done..|]].
    + assert (current (sched k) = NO_TASK) as -> by by rewrite Es. reflexivity.
    + cbn [sched set_sched]. unfold dispatch, put. rewrite Es. reflexivity.
Qed.

Definition task_names : list string := ["clock"; "manager_task"; "demo_arp"; "shell::run"].

(** [phase4_demo] leaves the clock running and the others ready. *)
Lemma phase4_spec tr s1 s2 s3 s4 k : sched k = new → Forall stack_ok [s1; s2; s3; s4] →
  ∃ k' ts, phase4_demo tr (s1, s2, s3, s4) k = Ret (Some (mkSwitch BootCtx (SlotCtx 0) true), k') ∧
    sched_wf (sched k') ∧ sched k' = mkSched (Some <$> ts) 0 5 1 ∧ active k' = active k ∧ ticks k' = ticks k ∧
    (λ t, (id t, state t, func t)) <$> ts =
      imap (λ i f, (Z.of_nat i + 1, if bool_decide (i = 0%nat) then Running else Ready, Some f)) task_names.
Proof.
  intros Hs Hst. rewrite !Forall_cons in Hst. destruct Hst as (Hs1 & Hs2 & Hs3 & Hs4 & _).
  assert (spawned [] [] k) as H0'.
  { constructor; [by rewrite Hs|rewrite Hs; apply SchedulerProps.new_wf|done]. }
  unfold phase4_demo.
  destruct (spawn_next _ _ _ tr s1 "clock" H0') as (i1 & t1 & k1 & -> & Hp1 & A1 & T1); [cbn; lia|done|].
  cbn [mbind outcome_bind snd].
  destruct (spawn_next _ _ _ tr s2 "manager_task" Hp1) as (i2 & t2 & k2 & -> & Hp2 & A2 & T2); [cbn; lia|done|].
  cbn [mbind outcome_bind snd].
  destruct (spawn_next _ _ _ tr s3 "demo_arp" Hp2) as (i3 & t3 & k3 & -> & Hp3 & A3 & T3); [cbn; lia|done|].
  cbn [mbind outcome_bind snd].
  destruct (spawn_next _ _ _ tr s4 "shell::run" Hp3) as (i4 & t4 & k4 & -> & Hp4 & A4 & T4); [cbn; lia|done|].
  cbn [mbind outcome_bind snd app] in *. destruct (start_first _ _ _ _ Hp4) as (k' & -> & Hw & A5 & T5 & Ek).
  exists k', [set_state Running t1; t2; t3; t4]. split_and!; [done|done|done|congruence|congruence|].
  pose proof (sp_ids _ _ _ Hp4) as Hi. cbn in Hi |- *. injection Hi as B1 B2 B3 C1 C2 C3 D1 D2 D3 F1 F2 F3.
  by rewrite B1, B3, C1, C2, C3, D1, D2, D3, F1, F2, F3.
Qed.
End first.

(** ** A turn *)

Definition ok_choice (c : choice) : Prop :=
  match c with Interrupt => True | Go a => stack_ok (stack_at a) ∧ 0 ≤ used_now a < 2 ^ 62 end.

Section system.
Context `{Profile} (external : string → prog) (trampoline : Z).
Context (external_tame : ∀ f, tame 0 (external f)).
Implicit Types (s : System) (k : Kern).

Abbreviation answer := (answer trampoline).
Abbreviation turn := (turn external trampoline).

(** A legal operation of the scheduler. *)
Definition kmove (ev : event) k k' : Prop := legal ev k ∧ ∃ o, step ev k = Ret (o, k').

(** The operation behind a call, and what the call prints. *)
Definition event_of {X} (a : supply) (e : sysE X) : option event :=
  match e with
  | Spawn f => Some (ESpawn trampoline (stack_at a) f)
  | YieldNow => Some EYield
  | SleepFor n => Some (ESleep n)
  | JoinTask i => Some (EJoin i)
  | _ => None
  end.
Definition lines {X} (e : sysE X) : list line := match e with Println l => [l] | _ => [] end.

Definition effect {X} (a : supply) (e : sysE X) k k' : Prop :=
  match event_of a e with Some ev => kmove ev k k' | None => k' = k end.

(** The kernel is well formed, with room for [b] more turns. *)
Record room (b : Z) k : Prop := {
  rm_wf : sched_wf (sched k);
  rm_active : active k = true;
  rm_ticks : 0 ≤ ticks k ∧ ticks k + b < 2 ^ 62;
  rm_ids : next_id (sched k) + b < 2 ^ 32;
}.

Lemma kmove_room b ev k k' : 0 ≤ b → room (b + 1) k → kmove ev k k' →
  room b k' ∧ ids_from (sched k) (sched k') ∧ ticks k ≤ ticks k'.
Proof.
  intros Hb [Hw Ha [Ht0 Ht] Hn] (Hl & o & E).
  assert (0 ≤ (if is_timer ev then 1 else 0) ≤ 1) as Hti by (by destruct ev).
  destruct (step_parked ev k o k' Hw Ha Ht0) as (Ha' & Hi & Htk & _); [lia|done|done|].
  destruct (step_good ev k Hw Hl) as (o1 & k1 & E1 & Hm & _). rewrite E in E1. injection E1 as <- <-.
  split_and!; [|done|lia]. destruct Hi as [Hi _]. constructor; [apply Hm|done|lia|lia].
Qed.

Lemma kmove_ok ev k : sched_wf (sched k) → legal ev k → ∃ o k', step ev k = Ret (o, k') ∧ kmove ev k k'.
Proof.
  intros Hw Hl. destruct (step_good ev k Hw Hl) as (o & k' & E & _). exists o, k'. split; [done|]. split; [done|by exists o].
Qed.

(** An allowed call is answered, as every task expects. *)
Definition fair_answer {X} (e : sysE X) (x : X) k : Prop :=
  ∀ now, 0 ≤ now ≤ ticks k → expected now e x ∧ 0 ≤ noted now e x ≤ ticks k.

Lemma answer_ok {X} nb (e : sysE X) a k b :
  0 ≤ b → room (b + 1) k → ok_choice (Go a) → current (sched k) ≠ NO_TASK → allowed nb e →
  ∃ x k', answer a e k = Ret (x, k', lines e) ∧ effect a e k k' ∧ fair_answer e x k.
Proof.
  intros Hb [Hw Ha [Ht0 Ht] Hn] [Hst Hu] Hc Hal. destruct e as [f| |n|i| | | | |l|]; cbn [allowed] in Hal; [..|done].
  - destruct (kmove_ok (ESpawn trampoline (stack_at a) f) k Hw) as (o & k' & E & Hm).
    { destruct Hst. destruct (sw_next _ Hw) as [_ Hf]. cbn. unfold fits in *. lia. }
    cbn [step] in E. destruct (spawn trampoline (stack_at a) f k) as [[i k1]|] eqn:Es; [|done]. cbn in E.
    injection E as <- <-. exists i, k1. cbn. rewrite Es. done.
  - destruct (kmove_ok EYield k Hw I) as (o & k' & E & Hm). exists tt, k'. cbn in *. by rewrite E.
  - destruct (kmove_ok (ESleep n) k Hw) as (o & k' & E & Hm); [split; [done|unfold fits; lia]|].
    exists tt, k'. cbn in *. by rewrite E.
  - destruct (kmove_ok (EJoin i) k Hw) as (o & k' & E & Hm); [done|]. exists tt, k'. cbn in *. by rewrite E.
  - eexists _, k. done.
  - exists (ticks k), k. split_and!; [done..|]. intros now Hnow. cbn. lia.
  - eexists _, k. done.
  - eexists _, k. done.
  - eexists _, k. done.
Qed.

Definition prog_of (f : option string) : prog := default (mret tt) (body external <$> f).

(** What a turn does. *)
Inductive moved s s' : Prop :=
  | mv_idle : s' = s → moved s s'
  | mv_timer : kmove ETimer (kern s) (kern s') → progs s' = progs s → output s' = output s → moved s s'
  | mv_enter i t :
      slot (sched (kern s)) (current (sched (kern s))) = Some t → id t = i → progs s i = None →
      kmove EBody (kern s) (kern s') → s' = set_prog i (prog_of (func t)) (set_kern (kern s') s) → moved s s'
  | mv_exit i t p x :
      slot (sched (kern s)) (current (sched (kern s))) = Some t → id t = i → progs s i = Some p → observe p = RetF x →
      kmove EExit (kern s) (kern s') → s' = set_kern (kern s') s → moved s s'
  | mv_tau i t p p' :
      slot (sched (kern s)) (current (sched (kern s))) = Some t → id t = i → progs s i = Some p → observe p = TauF p' →
      s' = set_prog i p' s → moved s s'
  | mv_call i t p X (e : sysE X) c a x :
      slot (sched (kern s)) (current (sched (kern s))) = Some t → id t = i → progs s i = Some p → observe p = VisF e c →
      answer a e (kern s) = Ret (x, kern s', lines e) → effect a e (kern s) (kern s') → fair_answer e x (kern s) →
      s' = mkSystem (kern s') (progs (set_prog i (c x) s)) (output s ++ ((i,.) <$> lines e)) → moved s s'.

(** What a task has left to do: nothing that panics, or the rest of a body from elsewhere. *)
Definition sound (now : Z) (p : prog) : Prop :=
  safe now p ∨ tame now p ∧ ∃ f, (f ∉ own_bodies) ∧ follows (external f) p.

(** The running task is at a panic of such a body. *)
Definition external_panic s : Prop :=
  ∃ i p f c, current_id (kern s) = Some i ∧ progs s i = Some p ∧ (f ∉ own_bodies) ∧ follows (external f) p ∧
    observe p = VisF Panicked c.

Lemma body_sound f : sound 0 (body external f).
Proof.
  destruct (body_safe external f) as [?|[Hf ->]]; [by left|right]. split; [by apply external_tame|].
  exists f. split; [done|apply follows_here].
Qed.

Lemma sound_tau now p p' : sound now p → observe p = TauF p' → sound now p'.
Proof.
  intros [Hs|(Ht & f & Hf & Hfo)] Eo; [left|right]; [by eapply obeys_tau|]. split; [by eapply obeys_tau|].
  exists f. split; [done|by eapply follows_tau].
Qed.

Lemma sound_call now p {X} (e : sysE X) c x : sound now p → observe p = VisF e c → expected now e x → sound (noted now e x) (c x).
Proof.
  intros [Hs|(Ht & f & Hf & Hfo)] Eo Hx; [left|right].
  - destruct (obeys_vis _ _ _ _ e c Hs Eo) as [?|[_ Hk]]; [by destruct e|by apply Hk].
  - split; [|exists f; split; [done|by eapply follows_call]].
    destruct (obeys_vis _ _ _ _ e c Ht Eo) as [?|[_ Hk]]; [by destruct e|by apply Hk].
Qed.

(** It asks for what is allowed, or panics. *)
Lemma sound_allowed s i now p {X} (e : sysE X) c : current_id (kern s) = Some i → progs s i = Some p → sound now p →
  observe p = VisF e c → allowed false e ∨ external_panic s ∧ ∀ a, answer a e (kern s) = Panic POverflow.
Proof.
  intros Hi Hp [Hs|(Ht & f & Hf & Hfo)] Eo.
  - left. destruct (obeys_vis _ _ _ _ e c Hs Eo) as [?|[? _]]; [by destruct e|done].
  - destruct (obeys_vis _ _ _ _ e c Ht Eo) as [Hpr|[? _]]; [|by left]. destruct e; try done. right.
    split; [|done]. by exists i, p, f, c.
Qed.

(** The invariant of every run. *)
Record base (b : Z) s : Prop := {
  bs_room : room b (kern s);
  bs_safe i p : progs s i = Some p → ∃ now, 0 ≤ now ≤ ticks (kern s) ∧ sound now p;
  bs_fresh i : next_id (sched (kern s)) ≤ i → progs s i = None;
}.

Lemma turn_moved b c s : 0 ≤ b → base (b + 1) s → ok_choice c →
  (∃ s', turn c s = Ret s' ∧ moved s s') ∨ external_panic s ∧ turn c s = Panic POverflow.
Proof.
  intros Hb [Hr Hs Hf] Hc. pose proof Hr as [Hw Ha [Ht0 Ht] Hn]. destruct c as [|a]; cbn [tasks.turn].
  - left. destruct (kmove_ok ETimer (kern s) Hw I) as (o & k' & E & Hm). cbn [step] in E. rewrite E. cbn [mbind outcome_bind snd].
    eexists. split; [done|]. by apply mv_timer.
  - destruct (current_id (kern s)) as [i|] eqn:Ei; [|left; exists s; split; [done|by apply mv_idle]].
    pose proof Ei as Ei'. unfold current_id in Ei'. destruct (slot (sched (kern s)) _) as [t|] eqn:Hs0; [|done]. injection Ei' as <-.
    assert (current (sched (kern s)) ≠ NO_TASK) as Hcur by (by eapply slot_not_NO_TASK).
    destruct (progs s (id t)) as [p|] eqn:Hp.
    + unfold advance. destruct (Hs _ _ Hp) as (now & Hnow & Hsound).
      destruct (observe p) as [x|p'|X e cont] eqn:Eo.
      * left. destruct (kmove_ok EExit (kern s) Hw Hcur) as (o & k' & E & Hm). cbn [step] in E. rewrite E. cbn [mbind outcome_bind snd].
        eexists. split; [done|]. by eapply mv_exit.
      * left. eexists. split; [done|]. by eapply mv_tau.
      * destruct (sound_allowed s _ now p e cont Ei Hp Hsound Eo) as [Hal|[Hx Ha']]; [left|right; by rewrite Ha'].
        destruct (answer_ok false e a (kern s) b) as (x & k' & E & Hef & Hfa); [done..|]. rewrite E. cbn [mbind outcome_bind].
        eexists. split; [done|]. by eapply mv_call.
    + left. destruct (kmove_ok EBody (kern s) Hw Hcur) as (o & k' & E & Hm). cbn [step] in E. unfold enter.
      destruct (current_task_body (kern s)) as [[f k1]|] eqn:Eb; [|done]. cbn in E. injection E as <- <-.
      cbn [mbind outcome_bind]. eexists. split; [done|]. eapply mv_enter; [done|done|done|done|].
      assert (f = func t) as ->; [|done]. unfold current_task_body in Eb.
      rewrite (index_vget _ _ _ (proj1 (slot_Some _ _ _) Hs0)) in Eb. cbn in Eb. by injection Eb as <- <-.
Qed.

Lemma moved_kern s s' : moved s s' → kern s' = kern s ∨ ∃ ev, kmove ev (kern s) (kern s').
Proof.
  destruct 1 as [->|Hm _ _|? ? _ _ _ Hm _|? ? ? ? _ _ _ _ Hm _|? ? ? ? _ _ _ _ ->|? ? ? ? e ? a ? _ _ _ _ _ Hef _ _];
    [by left|by right; eexists..|by left|].
  unfold effect in Hef. destruct (event_of a e); [by right; eexists|by left].
Qed.

(** The parts of the state that only grow. *)
Lemma moved_grows b s s' : 0 ≤ b → base (b + 1) s → moved s s' →
  room b (kern s') ∧ ids_from (sched (kern s)) (sched (kern s')) ∧ ticks (kern s) ≤ ticks (kern s') ∧
  ∃ ls, output s' = output s ++ ls.
Proof.
  intros Hb [Hr _ _] Hm. assert (∃ ls, output s' = output s ++ ls) as Ho.
  { destruct Hm as [->|_ _ ->|? ? _ _ _ _ ->|? ? ? ? _ _ _ _ _ ->|? ? ? ? _ _ _ _ ->|? ? ? ? ? ? ? ? _ _ _ _ _ _ _ ->];
      cbn [output set_prog set_kern]; try (exists []; by rewrite app_nil_r). eexists. done. }
  destruct (moved_kern s s' Hm) as [-> |[ev Hk]].
  - split_and!; [|apply ids_from_refl|lia|done]. destruct Hr. constructor; [done|done|lia|lia].
  - destruct (kmove_room b ev _ _ Hb Hr Hk) as (? & ? & ?). done.
Qed.

Lemma sound_later b s s' i p : 0 ≤ b → base (b + 1) s → moved s s' → progs s' i = Some p →
  (progs s i = Some p ∨ ∃ now, 0 ≤ now ≤ ticks (kern s) ∧ sound now p).
Proof.
  intros Hb [Hr Hs _] Hm. assert (0 ≤ 0 ≤ ticks (kern s)) as H0 by (destruct (rm_ticks _ _ Hr); lia).
  destruct Hm as [->|_ -> _|i0 t _ _ _ _ ->|i0 t p0 x _ _ _ _ _ ->|i0 t p0 p' _ _ Hp Eo ->|i0 t p0 X e c a x _ _ Hp Eo _ _ Hfa ->];
    cbn [progs set_prog set_kern]; try (intros; by left).
  - case (Z.eqb_spec i i0) as [->|Hi]; [|by left]. intros [= <-]. right. exists 0. split; [done|].
    unfold prog_of. destruct (func t) as [f|]; [apply body_sound|left; by apply obeys_ret].
  - case (Z.eqb_spec i i0) as [->|Hi]; [|by left]. intros [= <-]. right. destruct (Hs _ _ Hp) as (now & Hnow & Ho).
    exists now. split; [done|by eapply sound_tau].
  - case (Z.eqb_spec i i0) as [->|Hi]; [|by left]. intros [= <-]. right. destruct (Hs _ _ Hp) as (now & Hnow & Ho).
    destruct (Hfa now Hnow) as [Hex Hno]. exists (noted now e x). split; [done|by eapply sound_call].
Qed.

Lemma base_moved b s s' : 0 ≤ b → base (b + 1) s → moved s s' → base b s'.
Proof.
  intros Hb Hbs Hm. destruct (moved_grows b s s' Hb Hbs Hm) as (Hr & [Hn _] & Ht & _). constructor; [done|..].
  - intros i p Hp. destruct (sound_later b s s' i p Hb Hbs Hm Hp) as [Hp0|(now & Hnow & Hs)].
    + destruct (bs_safe _ _ Hbs _ _ Hp0) as (now & Hnow & Hs). exists now. split; [lia|done].
    + exists now. split; [lia|done].
  - pose proof Hbs as [Hr0 _ Hf]. intros i Hi. assert (next_id (sched (kern s)) ≤ i) as Hi0 by lia. specialize (Hf i Hi0).
    assert (∀ j t, slot (sched (kern s)) j = Some t → i ≠ id t) as Hne.
    { intros j t Hj ->. destruct (sw_ids _ (rm_wf _ _ Hr0) _ _ Hj). lia. }
    destruct Hm as [->|_ -> _|i0 t Hs Hid _ _ ->|i0 t p0 x _ _ _ _ _ ->|i0 t p0 p' Hs Hid _ _ ->|i0 t p0 X e c a x Hs Hid _ _ _ _ _ ->];
      cbn [progs set_prog set_kern]; try done; rewrite (proj2 (Z.eqb_neq i i0)); [done|subst i0; by eapply Hne|done|subst i0; by eapply Hne|done|subst i0; by eapply Hne].
Qed.

(** A task that does not run keeps its place, and what it has left to do. *)
Lemma moved_bystander b s s' j t : base (b + 1) s → moved s s' →
  slot (sched (kern s)) j = Some t → j ≠ current (sched (kern s)) →
  (∃ t', slot (sched (kern s')) j = Some t' ∧ same t t') ∧ progs s' (id t) = progs s (id t).
Proof.
  intros Hbs Hm Hj Hne. pose proof (bs_room _ _ Hbs) as [Hw Ha _ _]. split.
  - destruct (moved_kern s s' Hm) as [-> |(ev & Hl & o & E)]; [by exists t|].
    by apply (step_carries ev _ o _ j Hw Ha Hl E); [by right|].
  - assert (∀ u, slot (sched (kern s)) (current (sched (kern s))) = Some u → id t ≠ id u) as Hu.
    { intros u Hu E. by destruct Hne; eapply (sw_uniq _ Hw). }
    destruct Hm as [->|_ -> _|i0 u Hs Hid _ _ ->|i0 u p0 x _ _ _ _ _ ->|i0 u p0 p' Hs Hid _ _ ->|i0 u p0 X e c a x Hs Hid _ _ _ _ _ ->];
      cbn [progs set_prog set_kern]; try done; subst i0; by rewrite (proj2 (Z.eqb_neq _ _)) by (by apply Hu).
Qed.

(** ** A task does what its tree says *)

(** Task [i], started as [f], has printed [l], or is alive, will print [l] before it ends,
    and does not block, if [nb]. *)
Definition alive_until (l : line) (nb : bool) (f : string) (i : TaskId) s : Prop :=
  ∃ j t, slot (sched (kern s)) j = Some t ∧ id t = i ∧ (nb = true → state t ≠ Blocked) ∧
    match progs s i with
    | None => func t = Some f
    | Some p => ∃ now, 0 ≤ now ≤ ticks (kern s) ∧ obeys (Line l) nb (λ _ _, False) now p
    end.
Definition tracked (l : line) (nb : bool) (f : string) (i : TaskId) s : Prop :=
  (i, l) ∈ output s ∨ alive_until l nb f i s.

(** An operation of the running task keeps it in its slot. *)
Lemma kmove_own b ev k k' t : room b k → kmove ev k k' → own ev = true → slot (sched k) (current (sched k)) = Some t →
  ∃ t', slot (sched k') (current (sched k)) = Some t' ∧ id t' = id t.
Proof.
  intros [Hw Ha _ _] (Hl & o & E) Ho Ht. destruct (own_ends ev k Ho Hw Ha Hl) as (o1 & k1 & E1 & Hf & _).
  assert (k1 = k') as -> by congruence. pose proof (fn_ids _ _ Hf (current (sched k))) as Hi. rewrite Ht in Hi.
  destruct (slot (sched k') _) as [t'|]; [|done]. exists t'. split; [done|]. cbn in Hi. congruence.
Qed.

Lemma kmove_harmless b ev k k' j t : room b k → kmove ev k k' → harmless ev = true → slot (sched k) j = Some t →
  ∃ t', slot (sched k') j = Some t' ∧ same t t'.
Proof. intros [Hw Ha _ _] (Hl & o & E) Hh Ht. eapply step_carries; eauto. Qed.

Lemma kmove_body b k k' t : room b k → kmove EBody k k' → slot (sched k) (current (sched k)) = Some t →
  ∃ t', slot (sched k') (current (sched k)) = Some t' ∧ id t' = id t ∧ state t' = state t.
Proof.
  intros [Hw Ha _ _] (Hl & o & E) Ht. cbn [step] in E. unfold current_task_body in E.
  rewrite (index_vget _ _ _ (proj1 (slot_Some _ _ _) Ht)) in E. cbn in E. injection E as <- <-.
  exists (snd (take_func t)). split; [|done].
  assert (slot (put (current (sched k)) (snd (take_func t)) (sched k)) (current (sched k)) = Some (snd (take_func t))) as Hp.
  { rewrite (slot_put _ _ _ _ _ Ht). by rewrite bool_decide_true. }
  by destruct (func t).
Qed.

Lemma call_own b {X} nb a (e : sysE X) k k' t : room b k → effect a e k k' → allowed nb e →
  slot (sched k) (current (sched k)) = Some t →
  ∃ t', slot (sched k') (current (sched k)) = Some t' ∧ id t' = id t ∧ (nb = true → state t ≠ Blocked → state t' ≠ Blocked).
Proof.
  intros Hr Hef Hal Ht. unfold effect in Hef.
  destruct (event_of a e) as [ev|] eqn:Eev; [|subst k'; by exists t].
  destruct (harmless ev) eqn:Hh.
  - destruct (kmove_harmless b ev k k' _ t Hr Hef Hh Ht) as (t' & ? & ? & ? & ?). exists t'. auto.
  - assert (own ev = true ∧ nb = false) as [Ho ->] by (destruct e; simplify_eq/=; intuition).
    destruct (kmove_own b ev k k' t Hr Hef Ho Ht) as (t' & ? & ?). by exists t'.
Qed.

Lemma tracked_moved b l nb f i s s' :
  obeys (Line l) nb (λ _ _, False) 0 (body external f) → 0 ≤ b → base (b + 1) s → moved s s' →
  tracked l nb f i s → tracked l nb f i s'.
Proof.
  intros Hbody Hb Hbs Hm Htr. destruct (moved_grows b s s' Hb Hbs Hm) as (_ & _ & Hti & ls & Hls).
  destruct Htr as [Hin|(j & t & Hj & Hid & Hnb & Hp)].
  { left. rewrite Hls. apply elem_of_app. by left. }
  pose proof (bs_room _ _ Hbs) as Hr. destruct (decide (j = current (sched (kern s)))) as [->|Hne].
  2:{ right. destruct (moved_bystander b s s' j t Hbs Hm Hj Hne) as [(t' & Hj' & Hi' & Hf' & Hs') Ep].
      exists j, t'. rewrite Hid in Ep. rewrite Ep. split_and!; [done|congruence|auto|].
      destruct (progs s i) as [p|]; [|congruence]. destruct Hp as (now & ? & ?). exists now. split; [lia|done]. }
  destruct Hm as [->|Hk Ep _|i0 u Hs Hi0 Hp0 Hk ->|i0 u p x Hs Hi0 Hp0 Eo Hk ->|i0 u p p' Hs Hi0 Hp0 Eo ->|i0 u p X e c a x Hs Hi0 Hp0 Eo _ Hef Hfa ->].
  - right. by exists (current (sched (kern s))), t.
  - right. destruct (kmove_harmless _ ETimer _ _ _ t Hr Hk eq_refl Hj) as (t' & Hj' & Hi' & Hf' & Hs').
    exists (current (sched (kern s))), t'. rewrite Ep. split_and!; [done|congruence|auto|].
    destruct (progs s i) as [p|]; [|congruence]. destruct Hp as (now & ? & ?). exists now. split; [lia|done].
  - assert (u = t) as -> by congruence. subst i i0. rewrite Hp0 in Hp. right.
    destruct (kmove_body _ _ _ t Hr Hk Hj) as (t' & Hj' & Hi' & Hs'). exists (current (sched (kern s))), t'.
    cbn [kern progs set_prog set_kern]. rewrite Z.eqb_refl, Hp. split_and!; [done|done|by rewrite Hs'|].
    exists 0. split; [|done]. destruct (rm_ticks _ _ Hr). cbn in Hti. lia.
  - assert (u = t) as -> by congruence. subst i i0. rewrite Hp0 in Hp. destruct Hp as (now & _ & Ho%obeys_unfold).
    unfold obeys_gen in Ho. by rewrite Eo in Ho.
  - assert (u = t) as -> by congruence. subst i i0. rewrite Hp0 in Hp. destruct Hp as (now & Hnow & Ho%obeys_unfold).
    unfold obeys_gen in Ho. rewrite Eo in Ho. right. exists (current (sched (kern s))), t.
    cbn [kern progs set_prog set_kern]. rewrite Z.eqb_refl. split_and!; [done|done|done|]. by exists now.
  - assert (u = t) as -> by congruence. subst i i0. rewrite Hp0 in Hp. destruct Hp as (now & Hnow & Ho%obeys_unfold).
    unfold obeys_gen in Ho. rewrite Eo in Ho. destruct Ho as [Hst|[Hal Hk]].
    + left. cbn [output]. apply elem_of_app. right. destruct e; try done. cbn in Hst. injection Hst as ->. by left.
    + right. destruct (call_own _ nb a e _ _ t Hr Hef Hal Hj) as (t' & Hj' & Hi' & Hs'). exists (current (sched (kern s))), t'.
      cbn [kern progs set_prog set_kern]. rewrite Z.eqb_refl. split_and!; [done|done|auto|].
      destruct (Hfa now Hnow) as [Hex Hno]. exists (noted now e x). cbn in Hti. split; [lia|by apply Hk].
Qed.

(** ** The running task makes its next call *)

Lemma moved_progs s s' i : moved s s' →
  progs s' i = progs s i ∨ ∃ t, slot (sched (kern s)) (current (sched (kern s))) = Some t ∧ id t = i.
Proof.
  destruct 1 as [->|_ -> _|i0 u Hs Hi0 _ _ ->|i0 u p0 x _ _ _ _ _ ->|i0 u p0 p' Hs Hi0 _ _ ->|i0 u p0 X e c a x Hs Hi0 _ _ _ _ _ ->];
    cbn [progs set_prog set_kern]; try (by left); case (Z.eqb_spec i i0) as [->|]; (by left) || (right; by exists u).
Qed.

(** The machine was idle or took an interrupt, or the running task made its call. *)
Definition no_call s s' : Prop :=
  progs s' = progs s ∧ output s' = output s ∧ (kern s' = kern s ∨ kmove ETimer (kern s) (kern s')).

Lemma moved_caller s s' t p X (e : sysE X) c :
  moved s s' → slot (sched (kern s)) (current (sched (kern s))) = Some t → progs s (id t) = Some p → observe p = VisF e c →
  no_call s s' ∨
  ∃ a x, answer a e (kern s) = Ret (x, kern s', lines e) ∧ effect a e (kern s) (kern s') ∧
    progs s' (id t) = Some (c x) ∧ output s' = output s ++ ((id t,.) <$> lines e).
Proof.
  intros Hm Ht Hp Eo.
  destruct Hm as [->|Hk Ep Eout|i0 u Hs Hi0 Hp0 _ _|i0 u p0 x Hs Hi0 Hp0 Eo0 _ _|i0 u p0 p' Hs Hi0 Hp0 Eo0 _|i0 u p0 Y e0 c0 a x Hs Hi0 Hp0 Eo0 E Hef _ ->].
  - left. split_and!; [done..|by left].
  - left. split_and!; [done..|by right].
  - assert (u = t) as -> by congruence. congruence.
  - assert (u = t) as -> by congruence. assert (p0 = p) as -> by congruence. congruence.
  - assert (u = t) as -> by congruence. assert (p0 = p) as -> by congruence. congruence.
  - right. assert (u = t) as -> by congruence. subst i0. assert (p0 = p) as -> by congruence.
    cbn [kern progs set_prog output] in *. rewrite Z.eqb_refl. revert E Hef. generalize (kern s'). intros k' E Hef.
    set (G := λ o : itree' sysE unit, match o with
      | VisF e1 c1 => ∃ a1 x1, answer a1 e1 (kern s) = Ret (x1, k', lines e1) ∧ effect a1 e1 (kern s) k' ∧
          Some (c0 x) = Some (c1 x1) ∧ output s ++ ((id t,.) <$> lines e0) = output s ++ ((id t,.) <$> lines e1)
      | _ => True
      end).
    assert (G (VisF e0 c0)) as Hg by (by exists a, x). rewrite <- Eo0, Eo in Hg. exact Hg.
Qed.

(** [spawn] answers with the next id, which is now in the table. *)
Lemma spawn_answer b a f k x k' ls : room b k → effect a (Spawn f) k k' → answer a (Spawn f) k = Ret (x, k', ls) →
  x = next_id (sched k) ∧ x < next_id (sched k') ∧
  ∃ j t, slot (sched k') j = Some t ∧ id t = x ∧ func t = Some f ∧ state t ≠ Blocked.
Proof.
  intros [Hw _ _ _] [(Hf & Hp & Hl) _] E. destruct (add_spec trampoline (stack_at a) f (sched k) (kmem k) Hw Hf Hp Hl) as
    (j & t & m' & g' & E' & _ & _ & _ & Hid & Hst & _ & _ & Hfn & Hslot & _ & _ & _ & Hn).
  cbn in E. unfold spawn in E. rewrite E' in E. cbn in E. injection E as <- <- <-. cbn [sched].
  split; [done|]. split; [lia|]. exists j, t. rewrite Hslot, bool_decide_true, Hst by done. done.
Qed.

(** [join] with somebody else to run: the task is gone, or the caller is parked. *)
Lemma join_parks b i k k' t : room b k → kmove (EJoin i) k k' → slot (sched k) (current (sched k)) = Some t →
  i < next_id (sched k) →
  (∃ j u, slot (sched k) j = Some u ∧ j ≠ current (sched k) ∧ state u ≠ Blocked) →
  gone i (sched k') ∨ parked (current (sched k)) (block_as (Join i) t) (sched k').
Proof.
  intros [Hw Ha _ _] (_ & o & E) Ht Hi (j & u & Hu & Hj & Hst). cbn [step] in E. rewrite (join_eq i k t Hw Ha Ht) in E.
  destruct (find_slot i (sched k)) eqn:Ef; [right|left; injection E as <- <-; by split].
  destruct o as [sw|]; [eapply block_parks; [done|done| |exact E]; done|exfalso].
  set (g := put _ _ _) in E. assert (sched_wf g) as Hwg.
  { eapply wf_put; [done|exact Ht|done| |done]. apply block_as_ok; [done|by eapply sw_task]. }
  destruct (schedule_spec (set_sched g k) Hwg) as [[_ Hno]|(idx & v & E' & _)]; [|congruence].
  apply (Hno j). exists (demote u). assert (slot g j = Some u) as Hgj.
  { unfold g. rewrite (slot_put _ _ _ _ _ Ht). by rewrite bool_decide_false. }
  assert (state u = Ready) as Hr.
  { pose proof (sw_task _ Hw _ _ Hu) as (Hz & _). destruct (state u) eqn:Es; try done.
    destruct Hj. by eapply sw_running. }
  cbn [sched set_sched]. rewrite demoted_slot, Hgj by done. split; [done|]. unfold demote. by rewrite bool_decide_false by congruence.
Qed.

(** ** The manager *)

(** What it has left to do after each call. *)
Definition mg7 (n : Z) : prog := _ ← println (Joined n); _ ← stress_test; println DemoComplete.
Definition mg6 : prog := n ← call TaskCount; mg7 n.
Definition mg5 (c : TaskId) : prog := _ ← call (JoinTask c); mg6.
Definition mg4 (b c : TaskId) : prog := _ ← call (JoinTask b); mg5 c.
Definition mg3 (a b c : TaskId) : prog := _ ← call (JoinTask a); mg4 b c.
Definition mg2 (a b : TaskId) : prog := c ← call (Spawn "worker(t3)"); mg3 a b c.
Definition mg1 (a : TaskId) : prog := b ← call (Spawn "worker(t2)"); mg2 a b.

Definition CLOCK : TaskId := 1.
Definition MANAGER : TaskId := 2.

Definition left_to_do (t0 : prog) s : Prop := ∃ p, progs s MANAGER = Some p ∧ observe p = observe t0.

Definition works (n f : string) (a : TaskId) s : Prop :=
  tracked (WorkerFinished n) false f a s ∧ a < next_id (sched (kern s)).

(** The manager waits for [i], or [i] is gone. *)
Definition waits (i : TaskId) s : Prop :=
  gone i (sched (kern s)) ∨
  ∃ j t, parked j t (sched (kern s)) ∧ id t = MANAGER ∧ block t = Join i.

Record workers (a b c : TaskId) s : Prop := {
  wk_a : works "t1" "worker(t1)" a s;
  wk_b : works "t2" "worker(t2)" b s;
  wk_c : works "t3" "worker(t3)" c s;
}.

Definition all_finished (out : list (TaskId * line)) : Prop :=
  ∃ a b c, (a, WorkerFinished "t1") ∈ out ∧ (b, WorkerFinished "t2") ∈ out ∧ (c, WorkerFinished "t3") ∈ out.

Inductive manager s : Prop :=
  | mg_new j t : progs s MANAGER = None → slot (sched (kern s)) j = Some t → id t = MANAGER →
      func t = Some "manager_task" → manager s
  | mg_start : left_to_do manager_task s → manager s
  | mg_one a : left_to_do (mg1 a) s → works "t1" "worker(t1)" a s → manager s
  | mg_two a b : left_to_do (mg2 a b) s → works "t1" "worker(t1)" a s → works "t2" "worker(t2)" b s → manager s
  | mg_join_a a b c : left_to_do (mg3 a b c) s → workers a b c s → manager s
  | mg_join_b a b c : left_to_do (mg4 b c) s → workers a b c s → waits a s → manager s
  | mg_join_c a b c : left_to_do (mg5 c) s → workers a b c s → gone a (sched (kern s)) → waits b s → manager s
  | mg_count a b c : left_to_do mg6 s → workers a b c s → gone a (sched (kern s)) → gone b (sched (kern s)) → waits c s → manager s
  | mg_report n : left_to_do (mg7 n) s → all_finished (output s) → manager s
  | mg_reported : all_finished (output s) → manager s.

Section stages.
Context (b : Z) (s s' : System) (Hb : 0 ≤ b) (Hbs : base (b + 1) s) (Hm : moved s s').

Lemma gone_moved i : gone i (sched (kern s)) → gone i (sched (kern s')).
Proof. destruct (moved_grows b s s' Hb Hbs Hm) as (_ & Hi & _). by apply gone_from. Qed.

Lemma waits_moved i : waits i s → waits i s'.
Proof.
  intros [Hg|(j & t & Hp & Hid & Hbl)]; [left; by apply gone_moved|].
  destruct (moved_kern s s' Hm) as [E|(ev & Hl & o & E)]; [right; exists j, t; by rewrite E|].
  pose proof (bs_room _ _ Hbs) as [Hw Ha [Ht0 Ht] _].
  destruct (step_parked ev (kern s) o (kern s') Hw Ha Ht0) as (_ & _ & _ & Hst); [destruct (is_timer ev); lia|done|done|].
  destruct (Hst j t Hp) as [Hp'|Hd]; [right; by exists j, t|left]. unfold due in Hd. by rewrite Hbl in Hd.
Qed.

Lemma works_moved n f i : body external f = worker n → works n f i s → works n f i s'.
Proof.
  intros Ef [Ht Hi]. destruct (moved_grows b s s' Hb Hbs Hm) as (_ & [Hn _] & _). split; [|lia].
  apply (tracked_moved b _ _ _ _ s s'); [|done..]. rewrite Ef. apply worker_obeys. by left.
Qed.

Lemma workers_moved a1 b1 c1 : workers a1 b1 c1 s → workers a1 b1 c1 s'.
Proof. intros [Ha Hb1 Hc]. constructor; eapply works_moved; (done || reflexivity). Qed.

Lemma all_finished_moved : all_finished (output s) → all_finished (output s').
Proof.
  destruct (moved_grows b s s' Hb Hbs Hm) as (_ & _ & _ & ls & ->). intros (x & y & z & ? & ? & ?). exists x, y, z.
  rewrite !elem_of_app. auto.
Qed.

(** Nothing happens to the manager while it makes no call. *)
Lemma manager_stable : progs s' MANAGER = progs s MANAGER → manager s → manager s'.
Proof.
  intros Ep Hmg. assert (∀ t0, left_to_do t0 s → left_to_do t0 s') as Hl by (intros t0 (p & ? & ?); exists p; by rewrite Ep).
  destruct Hmg as [j t Hp Hj Hid Hf|?|x ? ?|x y ? ? ?|x y z ? ?|x y z ? ? ?|x y z ? ? ? ?|x y z ? ? ? ? ?|n ? ?|?].
  - assert (∃ t', slot (sched (kern s')) j = Some t' ∧ same t t') as (t' & Hj' & Hi' & Hf' & _).
    { destruct (decide (j = current (sched (kern s)))) as [->|Hne]; [|by destruct (moved_bystander b s s' j t Hbs Hm Hj Hne)].
      destruct Hm as [->|Hk _ _|i0 u Hs Hi0 _ Hk E|i0 u p x Hs Hi0 Hp0 _ _ _|i0 u p p' Hs Hi0 Hp0 _ _|i0 u p X e c a x Hs Hi0 Hp0 _ _ _ _ _];
        try (assert (u = t) as -> by congruence; congruence); [by exists t|by eapply kmove_harmless; [apply Hbs|..]|].
      assert (u = t) as -> by congruence. rewrite E in Ep. cbn in Ep. rewrite <- Hi0, Hid, Hp in Ep. done. }
    eapply mg_new; [congruence|done|congruence|congruence].
  - apply mg_start. by apply Hl.
  - apply (mg_one _ x); [by apply Hl|by eapply works_moved].
  - apply (mg_two _ x y); [by apply Hl|by eapply works_moved..].
  - apply (mg_join_a _ x y z); [by apply Hl|by apply workers_moved].
  - apply (mg_join_b _ x y z); [by apply Hl|by apply workers_moved|by apply waits_moved].
  - apply (mg_join_c _ x y z); [by apply Hl|by apply workers_moved|by apply gone_moved|by apply waits_moved].
  - apply (mg_count _ x y z); [by apply Hl|by apply workers_moved|by apply gone_moved..|by apply waits_moved].
  - apply (mg_report _ n); [by apply Hl|by apply all_finished_moved].
  - apply mg_reported. by apply all_finished_moved.
Qed.

Lemma moved_output : output s' = output s ∨
  ∃ t l, slot (sched (kern s)) (current (sched (kern s))) = Some t ∧ output s' = output s ++ [(id t, l)].
Proof.
  destruct Hm as [->|_ _ ?|? ? _ _ _ _ ->|? ? ? ? _ _ _ _ _ ->|? ? ? ? _ _ _ _ ->|i t ? ? e ? ? ? Hs Hi _ _ _ _ _ ->];
    cbn [output set_prog set_kern]; try (by left). subst i.
  destruct e as [| | | | | | | |l|]; cbn [lines fmap list_fmap]; try (left; by rewrite app_nil_r). right. by exists t, l.
Qed.

(** The manager's turn to call. *)
Lemma manager_calls t {X} (e : sysE X) (f : X → prog) :
  slot (sched (kern s)) (current (sched (kern s))) = Some t → id t = MANAGER → left_to_do (call e ≫= f) s →
  (progs s' = progs s ∧ output s' = output s) ∨
  ∃ a x, answer a e (kern s) = Ret (x, kern s', lines e) ∧ effect a e (kern s) (kern s') ∧ left_to_do (f x) s' ∧
    output s' = output s ++ ((MANAGER,.) <$> lines e).
Proof.
  intros Ht Hid (p & Hp & Eo). rewrite <- Hid in Hp.
  destruct (moved_caller s s' t p X e (λ x, ITree.bind (ITreeDefinition.Ret x) f) Hm Ht Hp Eo) as [(? & ? & _)|(a & x & E & Hef & Ep & Eout)];
    [by left|right]. rewrite Hid in Ep, Eout. exists a, x. split_and!; [done..| |done]. eexists. split; [done|]. reflexivity.
Qed.

(** A task that runs waits for nobody. *)
Lemma waits_over t i : slot (sched (kern s)) (current (sched (kern s))) = Some t → id t = MANAGER → waits i s →
  gone i (sched (kern s)).
Proof.
  intros Ht Hid [?|(j & u & (Hu & _ & Hj) & Hi & _)]; [done|]. destruct Hj.
  eapply (sw_uniq _ (rm_wf _ _ (bs_room _ _ Hbs))); [done|done|congruence].
Qed.

Lemma gone_finished n f i : works n f i s → gone i (sched (kern s)) → (i, WorkerFinished n) ∈ output s.
Proof.
  intros [[?|(j & t & Hj & Hid & _)] _] [_ Hg]; [done|]. rewrite find_slot_None in Hg. by destruct (Hg j t Hj).
Qed.

(** A new worker. *)
Lemma works_new a n f x k ls : kern s' = k → effect a (Spawn f) (kern s) k → answer a (Spawn f) (kern s) = Ret (x, k, ls) →
  (∃ t, slot (sched (kern s)) (current (sched (kern s))) = Some t) → works n f x s'.
Proof.
  intros <- Hef E (t & Ht). destruct (spawn_answer _ a f (kern s) x (kern s') ls (bs_room _ _ Hbs) Hef E) as
    (Hx & Hlt & j & u & Hj & Hid & Hfn & _). split; [|done]. right. exists j, u. split_and!; [done..|].
  assert (progs s' x = None) as ->; [|done]. destruct (moved_progs s s' x Hm) as [-> |(v & Hv & Hvi)].
  - apply (bs_fresh _ _ Hbs). lia.
  - destruct (sw_ids _ (rm_wf _ _ (bs_room _ _ Hbs)) _ _ Hv). lia.
Qed.

(** The clock keeps [join] waiting. *)
Lemma joins t i a x : slot (sched (kern s)) (current (sched (kern s))) = Some t → id t = MANAGER →
  alive_until ClockDone true "clock" CLOCK s → i < next_id (sched (kern s)) →
  answer a (JoinTask i) (kern s) = Ret (x, kern s', []) → effect a (JoinTask i) (kern s) (kern s') → waits i s'.
Proof.
  intros Ht Hid (j & u & Hu & Hui & Hst & _) Hi _ Hef.
  destruct (join_parks _ i (kern s) (kern s') t (bs_room _ _ Hbs) Hef Ht Hi) as [Hg|Hp].
  - exists j, u. split_and!; [done| |by apply Hst]. intros ->. assert (u = t) as -> by congruence. unfold CLOCK, MANAGER in *. lia.
  - by left.
  - right. eexists _, _. split; [exact Hp|]. done.
Qed.

(** What a call of the manager that prints nothing but [Joined] must show. *)
Definition progress : Prop :=
  manager s' ∧ ∀ n, output s' = output s ++ [(MANAGER, Joined n)] → all_finished (output s).

Lemma silent_progress : output s' = output s ++ [] → manager s' → progress.
Proof.
  intros Eo Hg. split; [done|]. intros n E. rewrite Eo in E. apply app_inv_head in E. done.
Qed.

Lemma stable_progress : progs s' MANAGER = progs s MANAGER → output s' = output s → manager s → progress.
Proof. intros Ep Eo Hg. apply silent_progress; [by rewrite app_nil_r|by apply manager_stable]. Qed.

Ltac next_call Ht Hid Hl Hmg a x E Hef Hl' Eo :=
  destruct (manager_calls _ _ _ Ht Hid Hl) as [[Ep Eo]|(a & x & E & Hef & Hl' & Eo)];
  [apply stable_progress; [by rewrite Ep|done|exact Hmg]|].

Lemma manager_turn t : slot (sched (kern s)) (current (sched (kern s))) = Some t → id t = MANAGER →
  alive_until ClockDone true "clock" CLOCK s → manager s → progress.
Proof.
  intros Ht Hid Hck Hmg. assert (∃ t, slot (sched (kern s)) (current (sched (kern s))) = Some t) as Hex by (by exists t).
  destruct Hmg as [j u Hp Hj Hu Hf|Hl|a Hl Ha|a b' Hl Ha Hb'|a b' c Hl Hw|a b' c Hl Hw H1|a b' c Hl Hw G1 H2|a b' c Hl Hw G1 G2 H3|n Hl Hal|Hal].
  - assert (manager s) as Hs by (by eapply mg_new). assert (j = current (sched (kern s))) as ->.
    { eapply (sw_uniq _ (rm_wf _ _ (bs_room _ _ Hbs))); [done|done|congruence]. }
    destruct Hm as [E|_ Ep Eo|i0 v Hs0 Hi0 _ _ E|i0 v p x Hs0 Hi0 Hp0 _ _ _|i0 v p p' Hs0 Hi0 Hp0 _ _|i0 v p X e c a x Hs0 Hi0 Hp0 _ _ _ _ _];
      try (assert (v = t) as -> by congruence; congruence).
    + apply stable_progress; [by rewrite E|by rewrite E|done].
    + apply stable_progress; [by rewrite Ep|done|done].
    + assert (v = u) as -> by congruence. apply silent_progress; [rewrite E; cbn; by rewrite app_nil_r|]. apply mg_start.
      exists (prog_of (func u)). rewrite E. cbn. rewrite <- Hi0, Hu, Hf. done.
  - next_call Ht Hid Hl (mg_start s Hl) w x E Hef Hl' Eo. apply silent_progress; [done|].
    apply (mg_one _ x); [done|by eapply works_new].
  - next_call Ht Hid Hl (mg_one s a Hl Ha) w x E Hef Hl' Eo. apply silent_progress; [done|].
    apply (mg_two _ a x); [done|by eapply works_moved|by eapply works_new].
  - next_call Ht Hid Hl (mg_two s a b' Hl Ha Hb') w x E Hef Hl' Eo. apply silent_progress; [done|].
    apply (mg_join_a _ a b' x); [done|]. constructor; [by eapply works_moved..|by eapply works_new].
  - next_call Ht Hid Hl (mg_join_a s a b' c Hl Hw) w x E Hef Hl' Eo. apply silent_progress; [done|].
    apply (mg_join_b _ a b' c); [done|by apply workers_moved|]. eapply joins; [exact Ht|done|done|apply Hw|done|done].
  - next_call Ht Hid Hl (mg_join_b s a b' c Hl Hw H1) w x E Hef Hl' Eo. apply silent_progress; [done|].
    apply (mg_join_c _ a b' c); [done|by apply workers_moved|apply gone_moved; by eapply waits_over|].
    eapply joins; [exact Ht|done|done|apply Hw|done|done].
  - next_call Ht Hid Hl (mg_join_c s a b' c Hl Hw G1 H2) w x E Hef Hl' Eo. apply silent_progress; [done|].
    apply (mg_count _ a b' c); [done|by apply workers_moved|by apply gone_moved|apply gone_moved; by eapply waits_over|].
    eapply joins; [exact Ht|done|done|apply Hw|done|done].
  - next_call Ht Hid Hl (mg_count s a b' c Hl Hw G1 G2 H3) w x E Hef Hl' Eo. apply silent_progress; [done|].
    apply (mg_report _ x); [done|]. apply all_finished_moved. pose proof (waits_over _ _ Ht Hid H3) as G3.
    destruct Hw as [Wa Wb Wc]. exists a, b', c. split_and!; by eapply gone_finished.
  - split; [|done]. apply mg_reported. by apply all_finished_moved.
  - split; [|done]. apply mg_reported. by apply all_finished_moved.
Qed.

Lemma manager_moved : alive_until ClockDone true "clock" CLOCK s → manager s → progress.
Proof.
  intros Hck Hmg. destruct (moved_progs s s' MANAGER Hm) as [Ep|(t & Ht & Hid)]; [|by eapply manager_turn].
  split; [by apply manager_stable|]. intros n E. destruct moved_output as [Eo|(t & l & Ht & Eo)].
  - rewrite Eo in E. apply (f_equal length) in E. rewrite length_app in E. cbn in E. lia.
  - rewrite Eo in E. apply app_inv_head in E. injection E as Hid ->.
    destruct (manager_turn t Ht Hid Hck Hmg) as [_ Hp]. apply (Hp n). by rewrite Eo, Hid.
Qed.
End stages.

(** ** Whole runs *)

(** In a list of lines: the manager reports while the clock runs only after its workers. *)
Definition ordered (out : list (TaskId * line)) : Prop :=
  ∀ pre n post, out = pre ++ (MANAGER, Joined n) :: post → (CLOCK, ClockDone) ∉ pre → all_finished pre.

Record inv (b : Z) s : Prop := {
  in_base : base b s;
  in_clock : tracked ClockDone true "clock" CLOCK s;
  in_manager : (CLOCK, ClockDone) ∈ output s ∨ manager s;
  in_order : ordered (output s);
}.

Lemma ordered_snoc out x : ordered out →
  (∀ n, x = (MANAGER, Joined n) → (CLOCK, ClockDone) ∈ out ∨ all_finished out) → ordered (out ++ [x]).
Proof.
  intros Ho Hx pre n post E Hn. destruct post as [|y post' _] using rev_ind.
  - apply app_inj_tail in E as [-> ->]. by destruct (Hx n eq_refl).
  - rewrite app_comm_cons, app_assoc in E. apply app_inj_tail in E as [-> _]. by eapply Ho.
Qed.

Lemma clock_tree stop : prints stop (Println ClockDone) → obeys stop true (λ _ _, False) 0 (body external "clock").
Proof. intros Hs. apply clock_obeys; [done|by left]. Qed.

Lemma inv_turn b c s : 0 ≤ b → inv (b + 1) s → ok_choice c →
  (∃ s', turn c s = Ret s' ∧ inv b s') ∨ external_panic s ∧ turn c s = Panic POverflow.
Proof.
  intros Hb [Hbs Hck Hmg Hor] Hc. destruct (turn_moved b c s Hb Hbs Hc) as [(s' & E & Hm)|?]; [left|by right].
  exists s'. split; [done|].
  destruct (moved_grows b s s' Hb Hbs Hm) as (_ & _ & _ & ls & Hls).
  assert ((CLOCK, ClockDone) ∈ output s ∨ progress s s') as Hpr.
  { destruct Hmg as [?|Hmg]; [by left|]. destruct Hck as [?|Hck]; [by left|]. right. by eapply manager_moved. }
  constructor; [by eapply base_moved| | |].
  - eapply tracked_moved; [by apply clock_tree|done..].
  - destruct Hpr as [Hin|[Hg _]]; [left; rewrite Hls; apply elem_of_app; by left|by right].
  - destruct (moved_output s s' Hm) as [-> |(t & l & _ & Eo)]; [done|]. rewrite Eo. apply ordered_snoc; [done|].
    intros n Ex. destruct Hpr as [?|[_ Hp]]; [by left|right]. apply (Hp n). by rewrite Eo, Ex.
Qed.

(** A run gets to its end, or to a panic of a body from elsewhere. *)
Definition arrives (cs : list choice) s s' : Prop :=
  run external trampoline cs s = Ret s' ∨
  ∃ pre post, cs = pre ++ post ∧ run external trampoline pre s = Ret s' ∧ external_panic s' ∧
    run external trampoline cs s = Panic POverflow.

Lemma inv_run cs s : inv (vlen cs) s → Forall ok_choice cs → ∃ s', arrives cs s s' ∧ ordered (output s').
Proof.
  revert s. induction cs as [|c cs IH]; intros s Hi Hcs; [exists s; split; [by left|apply Hi]|].
  apply Forall_cons in Hcs as [Hc Hcs].
  assert (vlen (c :: cs) = vlen cs + 1) as Ev by (rewrite vlen_cons; lia). rewrite Ev in Hi.
  destruct (inv_turn (vlen cs) c s) as [(s1 & E & Hi1)|[Hx E]]; [apply vlen_nonneg|done|done| |].
  - destruct (IH s1 Hi1 Hcs) as (s2 & Har & Ho). exists s2. split; [|done]. unfold arrives, run in *. cbn [for_each]. rewrite E.
    destruct Har as [E2|(pre & post & -> & E2 & Hx & E3)]; [by left|right].
    exists (c :: pre), post. cbn [for_each app]. by rewrite E.
  - exists s. split; [right|apply Hi]. exists [], (c :: cs). unfold run. cbn [for_each app]. by rewrite E.
Qed.

Lemma inv_start b k ts : sched_wf (sched k) → active k = true → 0 ≤ ticks k → ticks k + b < 2 ^ 62 → b + 5 < 2 ^ 32 →
  sched k = mkSched (Some <$> ts) 0 5 1 →
  (λ t, (id t, state t, func t)) <$> ts =
    imap (λ i f, (Z.of_nat i + 1, if bool_decide (i = 0%nat) then Running else Ready, Some f)) task_names →
  inv b (mkSystem k (λ _, None) []).
Proof.
  intros Hw Ha Ht0 Ht Hb Hk Hts. destruct ts as [|t1 [|t2 [|t3 [|t4 [|]]]]]; try done. cbn in Hts.
  injection Hts as B1 B2 B3 C1 C2 C3 D1 D2 D3 F1 F2 F3. constructor.
  - constructor; [|done|done]. constructor; cbn [kern]; [done|done|lia|]. rewrite Hk. cbn. lia.
  - right. exists 0, t1. cbn [kern progs]. rewrite Hk, B2. done.
  - right. apply (mg_new _ 1 t2); cbn [kern progs]; [done|by rewrite Hk|done|done].
  - intros pre n post E. by destruct pre.
Qed.
End system.

(** C9. The boot tasks report in order and none of those modelled here panics. Started by [phase4_demo],
    the clock, the manager, its workers and the stress test, beside the two other tasks of the boot (the ARP
    demo and the shell: any bodies, except that they do not sleep for 2^62 ticks), run under every
    interleaving with timer interrupts (between their calls). The run gets to its end, unless one
    of the bodies that are not modelled here panics on its own: the machine stops in no other way. Up to there the manager
    says that it has joined its workers only after each of the three has said that it is
    finished, unless the clock task ended before: it never blocks, so that [join] always
    finds somebody else to run. *)
Theorem boot_tasks_in_order `{Profile} external tr s1 s2 s3 s4 k cs :
  (∀ f, tame 0 (external f)) → sched k = new → active k = true → 0 ≤ ticks k →
  Forall stack_ok [s1; s2; s3; s4] → Forall ok_choice cs →
  ticks k + vlen cs < 2 ^ 62 → vlen cs + 5 < 2 ^ 32 →
  ∃ sw k1 s, phase4_demo tr (s1, s2, s3, s4) k = Ret (sw, k1) ∧
    arrives external tr cs (mkSystem k1 (λ _, None) []) s ∧
    ∀ pre n post, output s = pre ++ (MANAGER, Joined n) :: post → (CLOCK, ClockDone) ∉ pre →
      ∃ a b c, (a, WorkerFinished "t1") ∈ pre ∧ (b, WorkerFinished "t2") ∈ pre ∧ (c, WorkerFinished "t3") ∈ pre.
Proof.
  intros Hex Hk Ha Ht0 Hst Hcs Ht Hn. destruct (phase4_spec tr s1 s2 s3 s4 k Hk Hst) as (k1 & ts & E & Hw & Ek & Ea & Et & Hts).
  destruct (inv_run external tr Hex cs (mkSystem k1 (λ _, None) [])) as (s & Er & Hi); [|done|].
  - eapply inv_start; [done|congruence|lia|lia|lia|done|done].
  - exists (Some (mkSwitch BootCtx (SlotCtx 0) true)), k1, s. split_and!; [done|done|exact Hi].
Qed.

(** Twenty timer interrupts with up to twenty calls between two of them: the workers finish
    and the manager reports. *)
Definition idle_bodies (f : string) : prog := mret tt.

Lemma idle_bodies_tame f : tame 0 (idle_bodies f).
Proof. by apply obeys_ret. Qed.

Definition toy_turns : list choice := mjoin (replicate 20 (Interrupt :: replicate 20 (Go (mkSupply 0x50000 1000 2000)))).

Lemma toy_turns_ok : Forall ok_choice toy_turns.
Proof.
  apply Forall_forall. intros c Hc. unfold toy_turns in Hc. rewrite list_elem_of_join in Hc.
  destruct Hc as (l & Hc & Hl). apply elem_of_replicate in Hl as [-> _].
  apply elem_of_cons in Hc as [-> |Hc]; [exact I|]. apply elem_of_replicate in Hc as [-> _].
  repeat split; vm_compute; (discriminate || reflexivity).
Qed.

Definition toy_kern : Kern := mkKern new true 0 true (λ _, 0).

(** What a run prints, from [phase4_demo] on. *)
Definition printed `{Profile} (external : string → prog) (tr : Z) (stacks : Z * Z * Z * Z) (k : Kern) (cs : list choice)
    : option (list (TaskId * line)) :=
  match phase4_demo tr stacks k with
  | Ret (_, k1) =>
      match run external tr cs (mkSystem k1 (λ _, None) []) with
      | Ret s => Some (output s)
      | Panic _ => None
      end
  | Panic _ => None
  end.

Lemma printed_eq `{Profile} external tr stacks k cs sw k1 s :
  phase4_demo tr stacks k = Ret (sw, k1) → run external tr cs (mkSystem k1 (λ _, None) []) = Ret s →
  printed external tr stacks k cs = Some (output s).
Proof. intros E1 E2. unfold printed. by rewrite E1, E2. Qed.

Abbreviation toy_output := (@printed dev idle_bodies 0x8000 (0x10000, 0x20000, 0x30000, 0x40000) toy_kern toy_turns).

(** The lines before the manager's. *)
Definition toy_before : list (TaskId * line) := take 18 (default [] toy_output).

Lemma boot_tasks_in_order_witness :
  toy_output = Some (toy_before ++ [(MANAGER, Joined 2)]) ∧
  ∃ a b c, (a, WorkerFinished "t1") ∈ toy_before ∧ (b, WorkerFinished "t2") ∈ toy_before ∧
    (c, WorkerFinished "t3") ∈ toy_before.
Proof.
  assert (toy_output = Some (toy_before ++ [(MANAGER, Joined 2)])) as Eo by (vm_compute; reflexivity).
  split; [exact Eo|].
  destruct (@boot_tasks_in_order dev idle_bodies 0x8000 0x10000 0x20000 0x30000 0x40000 toy_kern toy_turns)
    as (sw & k1 & s & E1 & E2 & Ho).
  - exact idle_bodies_tame.
  - reflexivity.
  - reflexivity.
  - vm_compute. discriminate.
  - repeat constructor; vm_compute; (discriminate || reflexivity).
  - exact toy_turns_ok.
  - vm_compute. reflexivity.
  - vm_compute. reflexivity.
  - destruct E2 as [E2|(pre & post & _ & _ & _ & E2)].
    2:{ exfalso. assert (toy_output = None) as Hno; [|rewrite Eo in Hno; discriminate Hno]. unfold printed. by rewrite E1, E2. }
    apply (Ho toy_before 2 []).
    + pose proof (@printed_eq dev idle_bodies _ _ _ _ _ _ _ E1 E2) as Ep.
      rewrite Eo in Ep. apply Some_inj in Ep. symmetry. exact Ep.
    + apply (bool_decide_unpack (¬ @elem_of (Z * line) _ _ (CLOCK, ClockDone) toy_before)). vm_compute. exact I.
Defined.
