(* ===== verification/Vga.v ===== *)
(** * Vga: the text-mode screen (kernel/src/vga.rs)

    The screen is a [Writer] (the cursor column and the current attribute) and the
    memory at 0xb8000, two bytes per cell. Text goes to the last row; a line feed, or a
    byte that finds the row full, scrolls the screen up by one row.

    The reference is a layout of the text that knows nothing of scrolling or of
    memory: the text cut at line feeds, its lines cut every 80 cells, the last 25
    rows shown from the bottom. The theorem says that the screen shows the layout. *)

From S2P Require Import Prelude.

Module vga.

Definition BUFFER_HEIGHT : Z := 25.
Definition BUFFER_WIDTH : Z := 80.
Definition VGA_BUFFER : Z := 0xb8000.

Inductive Color :=
  | Black | Blue | Green | Cyan | Red | Magenta | Brown | LightGray
  | DarkGray | LightBlue | LightGreen | LightCyan | LightRed | Pink | Yellow | White.

(** [c as u8] *)
Definition color_u8 (c : Color) : Z :=
  match c with
  | Black => 0 | Blue => 1 | Green => 2 | Cyan => 3 | Red => 4 | Magenta => 5 | Brown => 6
  | LightGray => 7 | DarkGray => 8 | LightBlue => 9 | LightGreen => 10 | LightCyan => 11
  | LightRed => 12 | Pink => 13 | Yellow => 14 | White => 15
  end.

Record ScreenChar := mkChar { ascii_character : Z; color_code : Z }.

Record Writer := mkWriter { column_position : Z; color : Z }.

(** [WRITER] and the memory. *)
Record Screen := mkScreen { writer : Writer; vmem : Z → Z }.

Definition write_volatile (a v : Z) (m : Z → Z) : Z → Z :=
  λ x, if bool_decide (x = a) then v else m x.

Definition char_offset (row col : Z) : Z := (row * BUFFER_WIDTH + col) * 2.

Definition write_char (row col : Z) (ch : ScreenChar) (m : Z → Z) : Z → Z :=
  let offset := char_offset row col in
  write_volatile (VGA_BUFFER + (offset + 1)) (color_code ch)
    (write_volatile (VGA_BUFFER + offset) (ascii_character ch) m).

Definition read_char (row col : Z) (m : Z → Z) : ScreenChar :=
  let offset := char_offset row col in
  mkChar (m (VGA_BUFFER + offset)) (m (VGA_BUFFER + (offset + 1))).

Definition clear_row (row : Z) (s : Screen) : Screen :=
  let blank := mkChar 0x20 (color (writer s)) in
  mkScreen (writer s) (foldl (λ m col, write_char row col blank m) (vmem s) (seqZ 0 BUFFER_WIDTH)).

Definition scroll_row (m : Z → Z) (row : Z) : Z → Z :=
  foldl (λ m col, write_char (row - 1) col (read_char row col m) m) m (seqZ 0 BUFFER_WIDTH).

Definition set_column (c : Z) (s : Screen) : Screen := mkScreen (mkWriter c (color (writer s))) (vmem s).

Definition new_line (s : Screen) : Screen :=
  let s1 := mkScreen (writer s) (foldl scroll_row (vmem s) (seqZ 1 (BUFFER_HEIGHT - 1))) in
  set_column 0 (clear_row (BUFFER_HEIGHT - 1) s1).

Definition write_byte `{Profile} (byte : Z) (s : Screen) : outcome Screen :=
  if byte =? 0x0a then Ret (new_line s)
  else
    let s1 := if BUFFER_WIDTH <=? column_position (writer s) then new_line s else s in
    let row := BUFFER_HEIGHT - 1 in
    let col := column_position (writer s1) in
    let s2 := mkScreen (writer s1) (write_char row col (mkChar byte (color (writer s1))) (vmem s1)) in
    c ← checked 64 (column_position (writer s2) + 1);
    Ret (set_column c s2).

Definition set_color (foreground background : Color) (s : Screen) : Screen :=
  mkScreen (mkWriter (column_position (writer s))
              (Z.lor (wrap 8 (Z.shiftl (color_u8 background) 4)) (color_u8 foreground))) (vmem s).

Definition write_str `{Profile} (s : list Z) (scr : Screen) : outcome Screen :=
  for_each s write_byte scr.

(** [WRITER], on a memory with any contents. *)
Definition WRITER (m : Z → Z) : Screen := set_color LightGreen Black (mkScreen (mkWriter 0 0) m).

Definition init (s : Screen) : Screen :=
  set_column 0 (foldl (λ s row, clear_row row s) s (seqZ 0 BUFFER_HEIGHT)).
End vga.
Import vga.

(** ** The reference layout

    A text is a list of bytes, each with the attribute it is written with; a row of the
    layout is the attribute of its blank cells and the cells written in it. *)

Definition row : Type := Z * list ScreenChar.

(** The text cut at line feeds; the blanks of a line have the attribute of the line feed
    that opened it. *)
Fixpoint text_lines (fill : Z) (t : list ScreenChar) : list row :=
  match t with
  | [] => [(fill, [])]
  | ch :: t' =>
      if ascii_character ch =? 0x0a then (fill, []) :: text_lines (color_code ch) t'
      else match text_lines fill t' with
           | (f, l) :: ls => (f, ch :: l) :: ls
           | [] => []
           end
  end.

(** A line cut every 80 cells; the blanks of a continuation row have the attribute of
    its first character. *)
Fixpoint wrap_rows (fuel : nat) (fill : Z) (l : list ScreenChar) : list row :=
  match fuel with
  | O => []
  | S k =>
      match drop 80 l with
      | [] => [(fill, l)]
      | ch :: _ => (fill, take 80 l) :: wrap_rows k (color_code ch) (drop 80 l)
      end
  end.

Definition line_rows (r : row) : list row := wrap_rows (S (length r.2)) r.1 r.2.

Definition layout (fill : Z) (t : list ScreenChar) : list row := text_lines fill t ≫= line_rows.

(** The cell a layout puts at a place of the screen: its last row is the screen's. *)
Definition shown (bg : Z) (R : list row) (r c : Z) : ScreenChar :=
  match vget (reverse R) (BUFFER_HEIGHT - 1 - r) with
  | Some (f, l) => default (mkChar 0x20 f) (vget l c)
  | None => mkChar 0x20 bg
  end.

(** Operations of a client, and the text with attributes they write. *)
Inductive vga_op := SetColor (fg bg : Color) | Print (s : list Z).

Definition attribute (fg bg : Color) : Z := color_u8 bg * 16 + color_u8 fg.

Fixpoint printed (attr : Z) (ops : list vga_op) : list ScreenChar :=
  match ops with
  | [] => []
  | SetColor fg bg :: ops' => printed (attribute fg bg) ops'
  | Print s :: ops' => ((λ b, mkChar b attr) <$> s) ++ printed attr ops'
  end.

Definition vga_step `{Profile} (op : vga_op) (s : Screen) : outcome Screen :=
  match op with
  | SetColor fg bg => Ret (set_color fg bg s)
  | Print str => write_str str s
  end.

(** ** The cells *)

Definition on_screen (r c : Z) : Prop := 0 ≤ r < BUFFER_HEIGHT ∧ 0 ≤ c < BUFFER_WIDTH.

(** Only the 4000 bytes of the screen differ. *)
Definition same_outside (m m' : Z → Z) : Prop :=
  ∀ a, ¬ (VGA_BUFFER ≤ a < VGA_BUFFER + BUFFER_HEIGHT * BUFFER_WIDTH * 2) → m' a = m a.

#[global] Instance same_outside_preorder : PreOrder same_outside.
Proof. split; [by intros ? ? ?|]. intros m1 m2 m3 H12 H23 a Ha. by rewrite H23, H12. Qed.

Ltac vga_unfold := unfold on_screen, VGA_BUFFER, char_offset, BUFFER_HEIGHT, BUFFER_WIDTH in *.

Lemma read_write_char r c r' c' ch m : 0 ≤ c < BUFFER_WIDTH → 0 ≤ c' < BUFFER_WIDTH →
  read_char r' c' (write_char r c ch m) =
    if bool_decide (r = r' ∧ c = c') then ch else read_char r' c' m.
Proof.
  intros Hc Hc'. unfold read_char, write_char, write_volatile. vga_unfold.
  destruct ch. repeat case_bool_decide; done || (exfalso; lia).
Qed.

Lemma write_char_outside r c ch m : on_screen r c → same_outside m (write_char r c ch m).
Proof.
  intros H a Ha. unfold write_char, write_volatile. vga_unfold.
  by rewrite !bool_decide_false by lia.
Qed.

(** What a loop over the columns of one row does, [src] giving the cell it writes. *)
Lemma row_loop r (src : Z → ScreenChar) (f : (Z → Z) → Z → Z → Z) m :
  0 ≤ r < BUFFER_HEIGHT →
  (∀ m' c, 0 ≤ c < BUFFER_WIDTH →
     (∀ r' c', r' ≠ r → 0 ≤ c' < BUFFER_WIDTH → read_char r' c' m' = read_char r' c' m) →
     f m' c = write_char r c (src c) m') →
  let m' := foldl f m (seqZ 0 BUFFER_WIDTH) in
  same_outside m m' ∧
  ∀ r' c', 0 ≤ c' < BUFFER_WIDTH →
    read_char r' c' m' = if bool_decide (r' = r) then src c' else read_char r' c' m.
Proof.
  intros Hr Hf. pose (I := λ (i : Z) m', same_outside m m' ∧ ∀ r' c', 0 ≤ c' < BUFFER_WIDTH →
    read_char r' c' m' = if bool_decide (r' = r ∧ c' < i) then src c' else read_char r' c' m).
  destruct (foldl_seqZ_inv I f 0 BUFFER_WIDTH m) as [Ho Hc]; [done|split; [done|]|..].
  - intros r' c' Hc. by rewrite bool_decide_false by lia.
  - intros i m' Hi [Ho Hc]. rewrite Hf by
      (done || intros r' c' ? ?; rewrite Hc by done; by rewrite bool_decide_false by naive_solver).
    split; [etrans; [done|]; by apply write_char_outside|].
    intros r' c' Hc'. rewrite read_write_char, Hc by lia.
    repeat case_bool_decide; naive_solver (try lia; try done).
  - split; [done|]. intros r' c' Hc'. rewrite Hc by done.
    repeat case_bool_decide; naive_solver lia.
Qed.

(** ** The operations on the cells *)

Lemma clear_row_cells r s : 0 ≤ r < BUFFER_HEIGHT →
  let s' := clear_row r s in
  writer s' = writer s ∧ same_outside (vmem s) (vmem s') ∧
  ∀ r' c', 0 ≤ c' < BUFFER_WIDTH → read_char r' c' (vmem s') =
    if bool_decide (r' = r) then mkChar 0x20 (color (writer s)) else read_char r' c' (vmem s).
Proof.
  intros Hr. split; [done|].
  by apply (row_loop r (λ _, mkChar 0x20 (color (writer s)))).
Qed.

Lemma scroll_row_cells r m : 0 < r < BUFFER_HEIGHT →
  same_outside m (scroll_row m r) ∧
  ∀ r' c', 0 ≤ c' < BUFFER_WIDTH → read_char r' c' (scroll_row m r) =
    if bool_decide (r' = r - 1) then read_char r c' m else read_char r' c' m.
Proof.
  intros Hr. apply (row_loop (r - 1) (λ c, read_char r c m)); [vga_unfold; lia|].
  intros m' c Hc Hm. by rewrite Hm by lia.
Qed.

Lemma scroll_cells m :
  let m' := foldl scroll_row m (seqZ 1 (BUFFER_HEIGHT - 1)) in
  same_outside m m' ∧
  ∀ r c, 0 ≤ r < BUFFER_HEIGHT - 1 → 0 ≤ c < BUFFER_WIDTH → read_char r c m' = read_char (r + 1) c m.
Proof.
  pose (I := λ (i : Z) m', same_outside m m' ∧ ∀ r c, 0 ≤ r → 0 ≤ c < BUFFER_WIDTH →
    read_char r c m' = read_char (if bool_decide (r < i - 1) then r + 1 else r) c m).
  destruct (foldl_seqZ_inv I scroll_row 1 (BUFFER_HEIGHT - 1) m) as [Ho Hc]; [done|split; [done|]|..].
  - intros r c Hr Hc. by rewrite bool_decide_false by lia.
  - intros i m' Hi [Ho Hc]. destruct (scroll_row_cells i m') as [Ho' Hc']; [vga_unfold; lia|].
    split; [by etrans|]. intros r c Hr Hcc. rewrite Hc', !Hc by lia.
    repeat case_bool_decide; subst; try lia; do 2 f_equal; lia.
  - split; [done|]. intros r c Hr Hcc. rewrite Hc by lia.
    by rewrite bool_decide_true by (vga_unfold; lia).
Qed.

Lemma new_line_cells s :
  let s' := new_line s in
  writer s' = mkWriter 0 (color (writer s)) ∧ same_outside (vmem s) (vmem s') ∧
  ∀ r c, on_screen r c → read_char r c (vmem s') =
    if bool_decide (r = BUFFER_HEIGHT - 1) then mkChar 0x20 (color (writer s))
    else read_char (r + 1) c (vmem s).
Proof.
  unfold new_line. destruct (scroll_cells (vmem s)) as [Ho Hc].
  revert Ho Hc. generalize (foldl scroll_row (vmem s) (seqZ 1 (BUFFER_HEIGHT - 1))) as m1. intros m1 Ho Hc.
  destruct (clear_row_cells (BUFFER_HEIGHT - 1) (mkScreen (writer s) m1)) as (Hw & Ho' & Hc'); [done|].
  revert Hw Ho' Hc'. generalize (clear_row (BUFFER_HEIGHT - 1) (mkScreen (writer s) m1)) as s2.
  intros s2 Hw Ho' Hc'. cbn [set_column writer vmem color] in *. rewrite Hw.
  split; [done|]. split; [by etrans|].
  intros r c [Hr Hcc]. rewrite Hc' by done. case_bool_decide; [done|]. apply Hc; [lia|done].
Qed.

Lemma init_cells s :
  let s' := init s in
  writer s' = mkWriter 0 (color (writer s)) ∧ same_outside (vmem s) (vmem s') ∧
  ∀ r c, on_screen r c → read_char r c (vmem s') = mkChar 0x20 (color (writer s)).
Proof.
  pose (I := λ (i : Z) s', writer s' = writer s ∧ same_outside (vmem s) (vmem s') ∧
    ∀ r c, 0 ≤ r < i → 0 ≤ c < BUFFER_WIDTH → read_char r c (vmem s') = mkChar 0x20 (color (writer s))).
  destruct (foldl_seqZ_inv I (λ s row, clear_row row s) 0 BUFFER_HEIGHT s) as (Hw & Ho & Hc).
  - done.
  - split; [done|split; [done|lia]].
  - intros i s' Hi (Hw & Ho & Hc). destruct (clear_row_cells i s') as (Hw' & Ho' & Hc'); [lia|].
    split; [congruence|]. split; [by etrans|]. intros r c Hr Hcc. rewrite Hc', Hw by done.
    case_bool_decide; [done|]. apply Hc; lia.
  - unfold init. revert Hw Ho Hc. generalize (foldl (λ s row, clear_row row s) s (seqZ 0 BUFFER_HEIGHT)) as s1.
    intros s1 Hw Ho Hc. cbn [set_column writer vmem]. rewrite Hw. split; [done|split; [done|]].
    intros r c [Hr Hcc]. apply Hc; lia.
Qed.

(** ** The layout, one character at a time *)

Lemma text_lines_snoc fill t : ∃ L f l,
  text_lines fill t = L ++ [(f, l)] ∧
  ∀ ch, text_lines fill (t ++ [ch]) =
    if ascii_character ch =? 0x0a then L ++ [(f, l); (color_code ch, [])] else L ++ [(f, l ++ [ch])].
Proof.
  revert fill. induction t as [|x t IH]; intros fill.
  - exists [], fill, []. split; [done|]. intros ch. cbn. by destruct (_ =? _).
  - cbn [app text_lines]. destruct (ascii_character x =? 0x0a).
    + destruct (IH (color_code x)) as (L & f & l & E & Hs).
      exists ((fill, []) :: L), f, l. rewrite E. split; [done|].
      intros ch. rewrite Hs. by destruct (_ =? _).
    + destruct (IH fill) as (L & f & l & E & Hs). rewrite E.
      destruct L as [|[f0 l0] L]; cbn [app].
      * exists [], f, (x :: l). split; [done|]. intros ch. rewrite Hs. by destruct (_ =? _).
      * exists ((f0, x :: l0) :: L), f, l. split; [done|]. intros ch. rewrite Hs. by destruct (_ =? _).
Qed.

Lemma wrap_rows_snoc n fill l : (length l < n)%nat → ∃ R f l',
  wrap_rows n fill l = R ++ [(f, l')] ∧ (length l' ≤ 80)%nat ∧
  ∀ n' ch, (length l + 1 < n')%nat → wrap_rows n' fill (l ++ [ch]) =
    if (length l' =? 80)%nat then R ++ [(f, l'); (color_code ch, [ch])] else R ++ [(f, l' ++ [ch])].
Proof.
  revert fill l. induction n as [|n IH]; intros fill l Hn; [lia|]. cbn [wrap_rows].
  destruct (drop 80 l) as [|x d] eqn:Ed.
  - assert (length l ≤ 80)%nat as Hl by (apply (f_equal length) in Ed; rewrite length_drop in Ed; cbn in Ed; lia).
    exists [], fill, l. split; [done|split; [done|]]. intros [|[|n']] ch Hn'; [lia..|]. cbn [wrap_rows app].
    rewrite drop_app, Ed. cbn [app]. destruct (Nat.eqb_spec (length l) 80) as [E|E].
    + rewrite E. cbn [drop Nat.sub]. rewrite take_app_length' by done. done.
    + by rewrite drop_ge by (cbn; lia).
  - rewrite <- Ed. assert (80 < length l)%nat as Hl.
    { apply (f_equal length) in Ed. rewrite length_drop in Ed. cbn in Ed. lia. }
    destruct (IH (color_code x) (drop 80 l)) as (R & f & l' & E & Hl' & Hs); [rewrite length_drop; lia|].
    exists ((fill, take 80 l) :: R), f, l'. rewrite E. split; [done|split; [done|]].
    intros [|n'] ch Hn'; [lia|]. cbn [wrap_rows]. rewrite drop_app_le, take_app_le by lia.
    rewrite Ed at 1. cbn [app]. rewrite Hs by (rewrite length_drop; lia). by destruct (_ =? _)%nat.
Qed.

Lemma bind_rows L r : (L ++ [r]) ≫= line_rows = (L ≫= line_rows) ++ line_rows r.
Proof. rewrite bind_app. f_equal. apply app_nil_r. Qed.

(** The layout changes at its last row only. *)
Lemma layout_snoc fill t : ∃ R f l,
  layout fill t = R ++ [(f, l)] ∧ (length l ≤ 80)%nat ∧
  ∀ ch, layout fill (t ++ [ch]) =
    if ascii_character ch =? 0x0a then R ++ [(f, l); (color_code ch, [])]
    else if (length l =? 80)%nat then R ++ [(f, l); (color_code ch, [ch])]
    else R ++ [(f, l ++ [ch])].
Proof.
  destruct (text_lines_snoc fill t) as (L & f & l & E & Hs).
  destruct (wrap_rows_snoc (S (length l)) f l) as (R & f' & l' & E' & Hl & Hs'); [lia|].
  change (wrap_rows (S (length l)) f l) with (line_rows (f, l)) in E'.
  exists ((L ≫= line_rows) ++ R), f', l'. unfold layout. rewrite E, bind_rows, E', app_assoc.
  split; [done|split; [done|]]. intros ch. rewrite Hs. destruct (_ =? 10).
  - change ([(f, l); (color_code ch, [])]) with ([(f, l)] ++ [(color_code ch, [])]).
    rewrite app_assoc, !bind_rows, E'. by rewrite <- !app_assoc.
  - rewrite bind_rows. unfold line_rows at 2. cbn [fst snd].
    rewrite Hs' by (rewrite length_app; cbn; lia). destruct (_ =? _)%nat; by rewrite <- app_assoc.
Qed.

(** ** The screen shows the layout *)

(** [d] is the attribute the screen was cleared with, [t] the text written since. *)
Record shows (d : Z) (t : list ScreenChar) (s : Screen) : Prop := {
  sh_column : ∀ R f l, layout d t = R ++ [(f, l)] → column_position (writer s) = vlen l;
  sh_cells : ∀ r c, on_screen r c → read_char r c (vmem s) = shown d (layout d t) r c;
}.

Lemma shown_last d R f l r c : r = BUFFER_HEIGHT - 1 →
  shown d (R ++ [(f, l)]) r c = default (mkChar 0x20 f) (vget l c).
Proof. intros ->. unfold shown. rewrite reverse_snoc, Z.sub_diag. done. Qed.

Lemma shown_up d R x r c : r < BUFFER_HEIGHT - 1 → shown d (R ++ [x]) r c = shown d R (r + 1) c.
Proof.
  intros Hr. unfold shown. rewrite reverse_snoc.
  replace (BUFFER_HEIGHT - 1 - r) with (BUFFER_HEIGHT - 1 - (r + 1) + 1) by lia.
  by rewrite vget_cons_succ by lia.
Qed.

Lemma new_line_shows d t s R c1 : shows d t s →
  R = layout d t ++ [(c1, [])] → c1 = color (writer s) →
  let s' := new_line s in
  writer s' = mkWriter 0 (color (writer s)) ∧ same_outside (vmem s) (vmem s') ∧
  ∀ r c, on_screen r c → read_char r c (vmem s') = shown d R r c.
Proof.
  intros [_ Hc] -> ->. destruct (new_line_cells s) as (Hw & Ho & Hc').
  split; [done|split; [done|]]. intros r c Hrc. rewrite Hc' by done. case_bool_decide as E.
  - rewrite shown_last by done. unfold vget. by case_bool_decide.
  - destruct Hrc as [Hr Hcc]. rewrite shown_up by lia. apply Hc. split; lia.
Qed.

(** Writing one more character on the last row. *)
Lemma put_cell_shows d R f l s ch : (length l < 80)%nat → column_position (writer s) = vlen l →
  (∀ r c, on_screen r c → read_char r c (vmem s) = shown d (R ++ [(f, l)]) r c) →
  ∀ r c, on_screen r c →
    read_char r c (write_char (BUFFER_HEIGHT - 1) (column_position (writer s)) ch (vmem s)) =
      shown d (R ++ [(f, l ++ [ch])]) r c.
Proof.
  intros Hl Hcol Hc r c Hrc. pose proof Hrc as [Hr Hcc]. rewrite Hcol, read_write_char, Hc by
    (done || unfold vlen; vga_unfold; lia).
  destruct (decide (r = BUFFER_HEIGHT - 1)) as [->|Hne].
  - rewrite !shown_last by done. case_bool_decide as E.
    + destruct E as [_ <-]. by rewrite vget_snoc.
    + destruct (decide (c < vlen l)); [by rewrite vget_app_l|].
      rewrite !(proj2 (vget_None _ c)); [done|vlia..].
  - rewrite bool_decide_false by lia. by rewrite !shown_up by lia.
Qed.

Lemma write_byte_shows `{Profile} d t s b : shows d t s → ∃ s',
  write_byte b s = Ret s' ∧ shows d (t ++ [mkChar b (color (writer s))]) s' ∧
  color (writer s') = color (writer s) ∧ same_outside (vmem s) (vmem s').
Proof.
  intros Hs. destruct (layout_snoc d t) as (R & f & l & E & Hl & Hsn).
  specialize (Hsn (mkChar b (color (writer s)))). cbn [ascii_character color_code] in Hsn.
  pose proof (sh_column _ _ _ Hs _ _ _ E) as Hcol.
  unfold write_byte. destruct (b =? 10).
  { destruct (new_line_shows d t s _ _ Hs eq_refl eq_refl) as (Hw & Ho & Hc). rewrite E, <- app_assoc in Hc.
    eexists. split; [done|]. rewrite Hw. split; [|done]. split; rewrite Hsn; [|done].
    intros R' f' l' E'. change ([(f, l); (color (writer s), [])]) with ([(f, l)] ++ [(color (writer s), [])]) in E'.
    rewrite app_assoc in E'. apply app_inj_tail in E' as [_ [= <- <-]]. by rewrite Hw. }
  (* the last row before the character is put, the one it goes to *)
  assert (∃ R1 f1 l1 s1, (if BUFFER_WIDTH <=? column_position (writer s) then new_line s else s) = s1 ∧
    layout d (t ++ [mkChar b (color (writer s))]) = R1 ++ [(f1, l1 ++ [mkChar b (color (writer s))])] ∧
    (length l1 < 80)%nat ∧ column_position (writer s1) = vlen l1 ∧ color (writer s1) = color (writer s) ∧
    same_outside (vmem s) (vmem s1) ∧
    ∀ r c, on_screen r c → read_char r c (vmem s1) = shown d (R1 ++ [(f1, l1)]) r c)
    as (R1 & f1 & l1 & s1 & -> & HR & Hl1 & Hc1 & Hcol1 & Ho1 & Hcell).
  { rewrite Hcol, Hsn. unfold vlen, BUFFER_WIDTH. destruct (Nat.eqb_spec (length l) 80) as [E80|E80].
    - destruct (new_line_shows d t s _ _ Hs eq_refl eq_refl) as (Hw & Ho & Hc). rewrite E in Hc.
      exists (R ++ [(f, l)]), (color (writer s)), [], (new_line s).
      rewrite E80, Hw, <- app_assoc. repeat (split; [done || (cbn; lia)|]). done.
    - exists R, f, l, s. rewrite (proj2 (Z.leb_gt _ _)) by lia. repeat (split; [done || lia|]).
      intros r c Hrc. rewrite <- E. by apply (sh_cells _ _ _ Hs). }
  rewrite checked_fits by (cbn [writer]; rewrite Hc1; unfold fits, vlen; lia). cbn [mbind outcome_bind writer].
  eexists. split; [done|]. split; [|split; [done|]].
  - split; rewrite HR.
    + intros R' f' l' E'. apply app_inj_tail in E' as [_ [= <- <-]]. cbn [set_column writer column_position].
      rewrite Hc1. vlia.
    + intros r c Hrc. cbn [set_column vmem]. rewrite Hcol1. by apply (put_cell_shows d R1 f1 l1 s1).
  - etrans; [exact Ho1|]. cbn [set_column vmem]. apply write_char_outside.
    rewrite Hc1. unfold vlen. vga_unfold. lia.
Qed.

Lemma write_str_shows `{Profile} d t s str : shows d t s → ∃ s',
  write_str str s = Ret s' ∧ shows d (t ++ ((λ b, mkChar b (color (writer s))) <$> str)) s' ∧
  color (writer s') = color (writer s) ∧ same_outside (vmem s) (vmem s').
Proof.
  revert t s. induction str as [|b str IH]; intros t s Hs.
  - exists s. by rewrite app_nil_r.
  - destruct (write_byte_shows d t s b Hs) as (s1 & E1 & Hs1 & Hc1 & Ho1).
    destruct (IH _ s1 Hs1) as (s2 & E2 & Hs2 & Hc2 & Ho2).
    exists s2. unfold write_str in *. cbn [for_each]. rewrite E1. cbn [mbind outcome_bind].
    rewrite E2, fmap_cons. rewrite <- app_assoc, Hc1 in Hs2. split; [done|].
    split; [done|]. split; [congruence|by etrans].
Qed.

Lemma set_color_attribute fg bg s :
  color (writer (set_color fg bg s)) = attribute fg bg ∧
  Z.land (attribute fg bg) 15 = color_u8 fg ∧ Z.shiftr (attribute fg bg) 4 = color_u8 bg.
Proof. by destruct fg, bg. Qed.

Lemma vga_step_shows `{Profile} d t s op ops : shows d t s → ∃ s',
  vga_step op s = Ret s' ∧ same_outside (vmem s) (vmem s') ∧ ∃ t',
  shows d (t ++ t') s' ∧ printed (color (writer s)) (op :: ops) = t' ++ printed (color (writer s')) ops.
Proof.
  intros Hs. destruct op as [fg bg|str].
  - eexists. split; [done|]. split; [done|]. exists []. rewrite app_nil_r. split; [by destruct Hs; split|].
    by rewrite (proj1 (set_color_attribute fg bg s)).
  - destruct (write_str_shows d t s str Hs) as (s' & E & Hs' & Hc & Ho).
    exists s'. rewrite Hc. by eauto 10.
Qed.

Lemma vga_run_shows `{Profile} d ops t s : shows d t s → ∃ s',
  for_each ops vga_step s = Ret s' ∧ shows d (t ++ printed (color (writer s)) ops) s' ∧
  same_outside (vmem s) (vmem s').
Proof.
  revert t s. induction ops as [|op ops IH]; intros t s Hs; [exists s; by rewrite app_nil_r|].
  destruct (vga_step_shows d t s op ops Hs) as (s2 & E2 & Ho2 & t' & Hs2 & Ep).
  destruct (IH _ _ Hs2) as (s' & E' & Hs' & Ho').
  exists s'. cbn [for_each]. rewrite E2. cbn [mbind outcome_bind]. rewrite Ep, app_assoc.
  split; [done|split; [done|by etrans]].
Qed.

Lemma init_shows s : shows (color (writer s)) [] (init s).
Proof.
  destruct (init_cells s) as (Hw & _ & Hc). set (d := color (writer s)) in *.
  change (layout d []) with ([] ++ [(d, [] : list ScreenChar)]). split.
  - intros R f l E. apply (app_inj_tail [] R) in E as [_ [= <- <-]]. by rewrite Hw.
  - intros r c Hrc. rewrite Hc by done. change (layout d []) with ([] ++ [(d, [] : list ScreenChar)]).
    destruct (decide (r = BUFFER_HEIGHT - 1)).
    + rewrite shown_last by done. unfold vget. by case_bool_decide.
    + rewrite shown_up by (destruct Hrc; lia). unfold shown, vget. by case_bool_decide.
Qed.

(** C26. The screen shows the text. After [init] on a screen in any state, and any sequence
    of colour changes and strings written, no matter how long, nothing panics, and every
    cell of the screen holds what the layout of the text puts there: the text cut at line
    feeds, long lines cut every 80 characters, the last 25 rows shown bottom-aligned,
    every character with the attribute chosen when it was written (foreground in the low
    four bits, background in the high four), all else blank. The cursor is
    after the last character, and no byte outside the screen's 4000 is changed. *)
Theorem screen_shows_text `{Profile} s ops :
  let d := color (writer s) in let R := layout d (printed d ops) in
  (∃ s', for_each ops vga_step (init s) = Ret s' ∧
    (∀ r c, on_screen r c → read_char r c (vmem s') = shown d R r c) ∧
    (∃ row, last R = Some row ∧ column_position (writer s') = vlen row.2 ∧ vlen row.2 ≤ BUFFER_WIDTH) ∧
    same_outside (vmem s) (vmem s')) ∧
  ∀ fg bg, Z.land (attribute fg bg) 15 = color_u8 fg ∧ Z.shiftr (attribute fg bg) 4 = color_u8 bg.
Proof.
  intros d R. split; [|intros fg bg; apply (set_color_attribute fg bg s)].
  destruct (init_cells s) as (Hw & Ho & _).
  destruct (vga_run_shows d ops [] _ (init_shows s)) as (s' & E & Hs & Ho').
  rewrite Hw in Hs. cbn [app color] in Hs.
  exists s'. split; [done|]. split; [apply Hs|]. split; [|by etrans].
  destruct (layout_snoc d (printed d ops)) as (R' & f & l & E' & Hl & _).
  exists (f, l). unfold R. rewrite E', last_snoc, (sh_column _ _ _ Hs _ _ _ E'). cbn [snd].
  unfold vlen, BUFFER_WIDTH. split_and!; [done..|lia].
Qed.
