(* ===== verification/Bytes.v ===== *)
(** * Bytes: byte slices, big-endian fields and the internet checksum
    ([checksum] of kernel/src/net/mod.rs; the byte-level idioms of net/*.rs)

    A byte is a [Z] below 256. The second half proves that the checksum is the
    one of RFC 1071 and that a message carrying its own checksum sums to zero. *)

From S2P Require Import Prelude.

(** ** Fields *)

(** [uN::to_be_bytes] *)
Definition be16_bytes (z : Z) : list Z := [wrap 8 (Z.shiftr z 8); wrap 8 z].
Definition be32_bytes (z : Z) : list Z := be16_bytes (Z.shiftr z 16) ++ be16_bytes (wrap 16 z).

(** [u16::from_be_bytes([a, b])] and [u32::from_be_bytes] *)
Definition from_be16 (a b : Z) : Z := Z.lor (Z.shiftl a 8) b.
Definition from_be32 (a b c d : Z) : Z := Z.lor (Z.shiftl (from_be16 a b) 16) (from_be16 c d).

(** [be16(&b[..])]: the private helper of ethernet.rs, arp.rs and ip.rs. *)
Definition be16 (b : list Z) : outcome Z :=
  x ← index b 0; y ← index b 1; Ret (from_be16 x y).

(** [l[i] = x] *)
Definition store {A} (l : list A) (i : Z) (x : A) : outcome (list A) :=
  if bool_decide (0 ≤ i < vlen l) then Ret (vset l i x) else Panic PIndex.

(** [l[off..off + n].copy_from_slice(bs)] with [n = bs.len()]. *)
Definition blit {A} (l : list A) (off : Z) (bs : list A) : list A :=
  take (Z.to_nat off) l ++ bs ++ drop (Z.to_nat off + length bs) l.
Definition copy_into {A} (l : list A) (off : Z) (bs : list A) : outcome (list A) :=
  if bool_decide (0 ≤ off ∧ off + vlen bs ≤ vlen l) then Ret (blit l off bs) else Panic PSlice.

Definition is_byte (b : Z) : Prop := fits 8 b.
Definition bytes (l : list Z) : Prop := Forall is_byte l.

#[global] Instance is_byte_dec b : Decision (is_byte b).
Proof. unfold is_byte; apply _. Defined.
#[global] Instance bytes_dec l : Decision (bytes l).
Proof. unfold bytes; apply _. Defined.

(** ** The checksum (net::checksum) *)

(** The first loop, and the trailing odd byte; [i] is implicit in the tail. *)
Fixpoint sum_words `{Profile} (data : list Z) (sum : Z) : outcome Z :=
  match data with
  | a :: b :: data' => s ← checked 32 (sum + from_be16 a b); sum_words data' s
  | [a] => checked 32 (sum + Z.shiftl a 8)
  | [] => Ret sum
  end.

(** [while sum >> 16 != 0]. A u32 is folded at most twice. *)
Fixpoint fold_carry (fuel : nat) (sum : Z) : Z :=
  match fuel with
  | O => sum
  | S n => if Z.shiftr sum 16 =? 0 then sum
           else fold_carry n (Z.land sum 0xffff + Z.shiftr sum 16)
  end.

Definition checksum `{Profile} (data : list Z) : outcome Z :=
  sum ← sum_words data 0;
  let sum := fold_carry 2 sum in
  Ret (Z.lxor (wrap 16 sum) 0xffff).

(** ** Field lemmas *)

Lemma is_byte_wrap z : is_byte (wrap 8 z).
Proof. apply wrap_fits. lia. Qed.

Lemma be16_bytes_ok z : bytes (be16_bytes z).
Proof. repeat constructor; apply is_byte_wrap. Qed.

Lemma be32_bytes_ok z : bytes (be32_bytes z).
Proof. apply Forall_app; split; apply be16_bytes_ok. Qed.

Lemma testbit_above b n i : 0 ≤ b < 2 ^ n → 0 ≤ n ≤ i → Z.testbit b i = false.
Proof. intros Hb Hi. rewrite <- (Z.mod_small b (2 ^ n)) by done. by apply Z.mod_pow2_bits_high. Qed.

Lemma lor_shiftl_add a b n : 0 ≤ n → 0 ≤ b < 2 ^ n → Z.lor (Z.shiftl a n) b = a * 2 ^ n + b.
Proof.
  intros Hn Hb. rewrite Z.shiftl_mul_pow2 by done. symmetry.
  rewrite <- Z.lxor_lor, Z.add_nocarry_lxor; try done.
  all: apply Z.bits_inj'; intros i Hi; rewrite Z.bits_0, Z.land_spec.
  all: rewrite <- Z.shiftl_mul_pow2, Z.shiftl_spec by done.
  all: destruct (decide (i < n)); [by rewrite (Z.testbit_neg_r a) by lia|].
  all: rewrite (testbit_above b n i Hb) by lia; apply andb_false_r.
Qed.

Lemma from_be16_val a b : is_byte b → from_be16 a b = a * 256 + b.
Proof. intros Hb. unfold from_be16. by rewrite lor_shiftl_add. Qed.

Lemma from_be16_fits a b : is_byte a → is_byte b → fits 16 (from_be16 a b).
Proof. intros Ha Hb. rewrite from_be16_val by done. unfold is_byte, fits in *. lia. Qed.

Lemma be16_bytes_val z : fits 16 z → be16_bytes z = [z `div` 256; z `mod` 256].
Proof.
  intros Hz. unfold be16_bytes. rewrite Z.shiftr_div_pow2 by lia. change (2 ^ 8) with 256.
  rewrite wrap_small; [done|]. unfold fits in *. change (2 ^ 8) with 256. 
  split; [apply Z.div_pos; lia|apply Z.div_lt_upper_bound; lia].
Qed.

(** [from_be_bytes] undoes [to_be_bytes]. *)
Lemma from_be16_bytes z : fits 16 z →
  from_be16 (wrap 8 (Z.shiftr z 8)) (wrap 8 z) = z.
Proof.
  intros Hz. pose proof (be16_bytes_val z Hz) as E. unfold be16_bytes in E.
  rewrite from_be16_val by apply is_byte_wrap. injection E as ->.
  change (wrap 8 z) with (z `mod` 256). pose proof (Z.div_mod z 256). lia.
Qed.

Lemma from_be32_bytes z : fits 32 z →
  from_be32 (wrap 8 (Z.shiftr (Z.shiftr z 16) 8)) (wrap 8 (Z.shiftr z 16))
    (wrap 8 (Z.shiftr (wrap 16 z) 8)) (wrap 8 (wrap 16 z)) = z.
Proof.
  intros Hz. unfold from_be32. rewrite !from_be16_bytes.
  - rewrite lor_shiftl_add by (lia || (apply wrap_fits; lia)).
    rewrite Z.shiftr_div_pow2 by lia. unfold wrap. pose proof (Z.div_mod z (2 ^ 16)). lia.
  - apply wrap_fits. lia.
  - rewrite Z.shiftr_div_pow2 by lia. unfold fits in *.
    split; [apply Z.div_pos; lia|apply Z.div_lt_upper_bound; lia].
Qed.

Lemma vlen_blit {A} (l : list A) off bs :
  0 ≤ off → off + vlen bs ≤ vlen l → vlen (blit l off bs) = vlen l.
Proof. unfold blit, vlen. intros. rewrite !length_app, length_take, length_drop. lia. Qed.

Lemma copy_into_blit {A} (l : list A) off bs :
  0 ≤ off → off + vlen bs ≤ vlen l → copy_into l off bs = Ret (blit l off bs).
Proof. intros. unfold copy_into. by rewrite bool_decide_true. Qed.

Lemma index_lookup {A} (l : list A) i : 0 ≤ i →
  index l i = match l !! Z.to_nat i with Some x => Ret x | None => Panic PIndex end.
Proof.
  intros Hi. unfold index. rewrite <- (Z2Nat.id i) at 1 by done. by rewrite vget_nat.
Qed.

Lemma slice_mid {A} (pre mid suf : list A) a b :
  a = vlen pre → b = vlen pre + vlen mid → slice (pre ++ mid ++ suf) a b = Ret mid.
Proof.
  intros -> ->. pose proof (vlen_nonneg pre). pose proof (vlen_nonneg mid). pose proof (vlen_nonneg suf).
  unfold slice. rewrite bool_decide_true by (rewrite !vlen_app; lia). f_equal.
  rewrite Z.add_simpl_l. unfold vlen. rewrite !Nat2Z.id, drop_app_length. by rewrite take_app_length.
Qed.

Lemma slice_tail {A} (pre mid : list A) a b :
  a = vlen pre → b = vlen (pre ++ mid) → slice (pre ++ mid) a b = Ret mid.
Proof. intros -> ->. rewrite <- (app_nil_r mid) at 1. apply slice_mid; [done|]. by rewrite vlen_app. Qed.

Lemma slice_ok {A} (l : list A) a b : 0 ≤ a ≤ b → b ≤ vlen l →
  slice l a b = Ret (take (Z.to_nat (b - a)) (drop (Z.to_nat a) l)).
Proof. intros. unfold slice. by rewrite bool_decide_true. Qed.

Lemma blit_mid {A} (pre old suf new : list A) off :
  off = vlen pre → length old = length new → blit (pre ++ old ++ suf) off new = pre ++ new ++ suf.
Proof.
  intros -> Hl. unfold blit, vlen. rewrite Nat2Z.id, take_app_length. do 2 f_equal.
  rewrite <- Hl. by rewrite app_assoc, drop_app_length' by (by rewrite length_app).
Qed.

Lemma bytes_nil : bytes [].
Proof. constructor. Qed.

Lemma bytes_cons b l : is_byte b → bytes l → bytes (b :: l).
Proof. by constructor. Qed.

Lemma bytes_app l1 l2 : bytes l1 → bytes l2 → bytes (l1 ++ l2).
Proof. apply Forall_app_2. Qed.

(** That a packet consists of bytes follows its construction. *)
Create HintDb bytes.
#[export] Hint Resolve is_byte_wrap be16_bytes_ok be32_bytes_ok bytes_nil bytes_cons bytes_app : bytes.
#[export] Hint Extern 1 (is_byte _) => (by unfold is_byte, fits) : bytes.

Lemma bytes_blit l off bs : bytes l → bytes bs → bytes (blit l off bs).
Proof. intros Hl Hb. repeat apply Forall_app_2; auto using Forall_take, Forall_drop. Qed.

(** ** RFC 1071 *)

(** The sum of the big-endian 16-bit words, an odd byte padded on the right. *)
Fixpoint word_sum (l : list Z) : Z :=
  match l with
  | a :: b :: l' => a * 256 + b + word_sum l'
  | [a] => a * 256
  | [] => 0
  end.

(** Induction two bytes at a time. *)
Lemma pairs_ind {A} (P : list A → Prop) :
  P [] → (∀ a, P [a]) → (∀ a b l, P l → P (a :: b :: l)) → ∀ l, P l.
Proof.
  intros H0 H1 H2 l. assert (P l ∧ ∀ a, P (a :: l)) as [? _]; [|done].
  induction l as [|x l [IH1 IH2]]; split; auto.
Qed.

Lemma word_sum_bound l : bytes l → 0 ≤ word_sum l ≤ 65535 * ((vlen l + 1) `div` 2).
Proof.
  induction l as [|a|a b l IH] using pairs_ind; intros Hl.
  - done.
  - inversion_clear Hl as [|? ? Ha]. unfold is_byte, fits in Ha. cbn [word_sum].
    change ((vlen [a] + 1) `div` 2) with 1. lia.
  - inversion_clear Hl as [|? ? Ha Hl']. inversion_clear Hl' as [|? ? Hb Hl]. specialize (IH Hl).
    unfold is_byte, fits in Ha, Hb. simpl word_sum.
    replace (vlen (a :: b :: l) + 1) with ((vlen l + 1) + 1 * 2) by (unfold vlen; simpl; lia).
    rewrite Z.div_add by lia. lia.
Qed.

Lemma word_sum_app l1 l2 : vlen l1 `mod` 2 = 0 → word_sum (l1 ++ l2) = word_sum l1 + word_sum l2.
Proof.
  induction l1 as [|a|a b l1 IH] using pairs_ind; intros Hm.
  - done.
  - unfold vlen in Hm. simpl in Hm. done.
  - simpl. rewrite IH; [lia|].
    replace (vlen (a :: b :: l1)) with (vlen l1 + 1 * 2) in Hm by (unfold vlen; simpl; lia).
    by rewrite Z.mod_add in Hm.
Qed.

Lemma sum_words_val `{Profile} l : ∀ s, bytes l → 0 ≤ s → fits 32 (s + word_sum l) →
  sum_words l s = Ret (s + word_sum l).
Proof.
  induction l as [|a|a b l IH] using pairs_ind; intros s Hl Hs Hf.
  - simpl. f_equal. lia.
  - simpl in *. rewrite Z.shiftl_mul_pow2 by lia. by rewrite checked_fits.
  - inversion_clear Hl as [|? ? Ha Hl']. inversion_clear Hl' as [|? ? Hb Hl].
    pose proof (proj1 (word_sum_bound l Hl)). pose proof (from_be16_fits a b Ha Hb).
    simpl in *. rewrite from_be16_val in * by done. unfold fits in *.
    rewrite checked_fits by (unfold fits; lia). simpl. rewrite IH; try done; unfold fits; try lia.
    f_equal. lia.
Qed.

(** One folding step keeps the residue modulo 65535, and zero stays apart. *)
Lemma carry_step s : 0 ≤ s →
  let s' := Z.land s 0xffff + Z.shiftr s 16 in
  s' = s `mod` 65536 + s `div` 65536 ∧ s' `mod` 65535 = s `mod` 65535 ∧ 0 ≤ s' ∧ (s' = 0 ↔ s = 0).
Proof.
  intros Hs s'. assert (s' = s `mod` 65536 + s `div` 65536) as E.
  { unfold s'. change 0xffff with (Z.ones 16). rewrite Z.land_ones, Z.shiftr_div_pow2 by lia. done. }
  clearbody s'. pose proof (Z.div_mod s 65536 ltac:(lia)). pose proof (Z.mod_pos_bound s 65536 ltac:(lia)).
  assert (0 ≤ s `div` 65536) by (apply Z.div_pos; lia).
  split; [done|]. split; [|split; [lia|]].
  - rewrite <- (Z.mod_add s' (s `div` 65536) 65535) by lia. f_equal. lia.
  - split; [|intros ->; by subst]. lia.
Qed.

(** Two rounds bring a u32 below 2^16, so the loop is over. *)
Lemma fold_carry_done s : fits 32 s →
  let r := fold_carry 2 s in
  fits 16 r ∧ r `mod` 65535 = s `mod` 65535 ∧ (r = 0 ↔ s = 0).
Proof.
  unfold fits. intros Hs. cbn [fold_carry]. rewrite !Z.shiftr_div_pow2 by lia.
  destruct (carry_step s (proj1 Hs)) as (E1 & M1 & P1 & Z1). rewrite Z.shiftr_div_pow2 in * by lia.
  set (s1 := Z.land s 65535 + s `div` 2 ^ 16) in *.
  destruct (carry_step s1 P1) as (E2 & M2 & P2 & Z2). rewrite Z.shiftr_div_pow2 in * by lia.
  change (2 ^ 16) with 65536 in *.
  pose proof (Z.mod_pos_bound s 65536 ltac:(lia)). pose proof (Z.mod_pos_bound s1 65536 ltac:(lia)).
  assert (s `div` 65536 ≤ 65535) by (apply Z.lt_succ_r; apply Z.div_lt_upper_bound; lia).
  assert (0 ≤ s `div` 65536) by (apply Z.div_pos; lia).
  pose proof (Z.div_mod s1 65536 ltac:(lia)).
  case (Z.eqb_spec (s `div` 65536) 0) as [Hd|Hd].
  { pose proof (Z.div_mod s 65536 ltac:(lia)). lia. }
  case (Z.eqb_spec (s1 `div` 65536) 0) as [Hd1|Hd1]; [split; [lia|]; split; [congruence|tauto]|].
  split; [|split; [congruence|tauto]].
  assert (s1 `div` 65536 ≤ 1) by (apply Z.lt_succ_r; apply Z.div_lt_upper_bound; lia). lia.
Qed.

Lemma complement16 r : fits 16 r → Z.lxor r 0xffff = 65535 - r.
Proof.
  intros Hr. change 0xffff with (Z.ones 16). change 65535 with (Z.ones 16).
  assert (∀ i, 0 ≤ i → Z.testbit r i && negb (Z.testbit (Z.ones 16) i) = false) as Hb.
  { intros i Hi. rewrite Z.testbit_ones_nonneg by lia. destruct (Z.ltb_spec i 16); [apply andb_false_r|].
    by rewrite (testbit_above r 16 i) by (done || lia). }
  rewrite Z.sub_nocarry_ldiff.
  - apply Z.bits_inj'. intros i Hi. rewrite Z.lxor_spec, Z.ldiff_spec. specialize (Hb i Hi).
    by destruct (Z.testbit r i), (Z.testbit (Z.ones 16) i).
  - apply Z.bits_inj'. intros i Hi. by rewrite Z.ldiff_spec, Z.bits_0, Hb.
Qed.

(** What [checksum] computes: the complement of the ones'-complement sum. *)
Lemma checksum_val `{Profile} l : bytes l → vlen l ≤ 131072 →
  ∃ r, checksum l = Ret (65535 - r) ∧ fits 16 r ∧
    r `mod` 65535 = word_sum l `mod` 65535 ∧ (r = 0 ↔ word_sum l = 0).
Proof.
  intros Hl Hn. pose proof (word_sum_bound l Hl) as Hb.
  assert ((vlen l + 1) `div` 2 ≤ 65536).
  { apply Z.lt_succ_r. apply Z.div_lt_upper_bound; lia. }
  assert (fits 32 (word_sum l)) as Hf by (unfold fits; lia).
  unfold checksum. rewrite sum_words_val by (done || lia). rewrite Z.add_0_l. cbn [mbind outcome_bind].
  destruct (fold_carry_done _ Hf) as (F & Hm & Hz). set (r := fold_carry 2 (word_sum l)) in *.
  exists r. split; [|done]. rewrite (wrap_small 16 r) by done. f_equal. by apply complement16.
Qed.

Lemma checksum_zero `{Profile} l : bytes l → vlen l ≤ 131072 →
  checksum l = Ret 0 ↔ word_sum l `mod` 65535 = 0 ∧ word_sum l ≠ 0.
Proof.
  intros Hl Hn. destruct (checksum_val l Hl Hn) as (r & -> & Hf & Hm & Hz). unfold fits in Hf.
  rewrite <- Hz, <- Hm. split.
  - intros [= Hr]. assert (r = 65535) as -> by lia. done.
  - intros [Hr Hr0]. f_equal. destruct (decide (r = 65535)) as [->|]; [done|].
    rewrite Z.mod_small in Hr by lia. done.
Qed.

(** Replacing a zeroed, aligned 16-bit field by a word [c]. *)
Lemma word_sum_field pre suf c : vlen pre `mod` 2 = 0 → fits 16 c →
  word_sum (pre ++ be16_bytes c ++ suf) = word_sum (pre ++ [0; 0] ++ suf) + c.
Proof.
  intros He Hc. rewrite !word_sum_app by done. rewrite be16_bytes_val by done. simpl.
  pose proof (Z.div_mod c 256). lia.
Qed.

(** A message with its checksum in an aligned field sums to zero. *)
Lemma checksum_verifies `{Profile} pre suf :
  bytes pre → bytes suf → vlen pre `mod` 2 = 0 → vlen pre + vlen suf + 2 ≤ 131072 →
  ∃ c, checksum (pre ++ [0; 0] ++ suf) = Ret c ∧ fits 16 c ∧
    checksum (pre ++ be16_bytes c ++ suf) = Ret 0.
Proof.
  intros Hp Hs He Hn.
  assert (bytes (pre ++ [0; 0] ++ suf)) as Hb by (repeat apply Forall_app_2; try done; by repeat constructor).
  assert (∀ x y, vlen (pre ++ [x; y] ++ suf) = vlen pre + vlen suf + 2) as Hl
    by (intros; rewrite !vlen_app; unfold vlen; simpl; lia).
  destruct (checksum_val _ Hb) as (r & E & Hr & Hm & Hz); [rewrite Hl; lia|].
  exists (65535 - r). assert (fits 16 (65535 - r)) as Hc by (unfold fits in *; lia).
  split; [done|]. split; [done|]. apply checksum_zero.
  - repeat apply Forall_app_2; try done. apply be16_bytes_ok.
  - unfold be16_bytes. rewrite Hl. lia.
  - rewrite word_sum_field by done. pose proof (proj1 (word_sum_bound _ Hb)).
    unfold fits in Hr. split; [|lia].
    rewrite <- Z.add_mod_idemp_l, <- Hm, Z.add_mod_idemp_l by lia.
    by replace (r + (65535 - r)) with 65535 by lia.
Qed.

(** ** Equivalence with the definition of RFC 1071 *)

(** Ones'-complement addition of 16-bit words: the carry goes round at once. *)
Definition ones_add (a b : Z) : Z :=
  let s := a + b in if 65536 <=? s then s - 65535 else s.

Fixpoint ones_sum (l : list Z) (acc : Z) : Z :=
  match l with
  | a :: b :: l' => ones_sum l' (ones_add acc (a * 256 + b))
  | [a] => ones_add acc (a * 256)
  | [] => acc
  end.

Lemma ones_add_spec a b : fits 16 a → fits 16 b →
  fits 16 (ones_add a b) ∧ ones_add a b `mod` 65535 = (a + b) `mod` 65535 ∧
  (ones_add a b = 0 ↔ a + b = 0).
Proof.
  unfold fits. intros Ha Hb. unfold ones_add. case (Z.leb_spec 65536 (a + b)) as [Hc|Hc].
  - split; [lia|]. split; [|lia]. rewrite <- (Z.mod_add (a + b - 65535) 1) by lia. f_equal. lia.
  - split; [lia|]. split; [done|lia].
Qed.

Lemma ones_sum_spec l : ∀ acc, bytes l → fits 16 acc →
  fits 16 (ones_sum l acc) ∧ ones_sum l acc `mod` 65535 = (acc + word_sum l) `mod` 65535 ∧
  (ones_sum l acc = 0 ↔ acc + word_sum l = 0).
Proof.
  induction l as [|a|a b l IH] using pairs_ind; intros acc Hl Hacc.
  - simpl. rewrite Z.add_0_r. done.
  - simpl. apply ones_add_spec; [done|]. inversion_clear Hl as [|? ? Ha]. unfold is_byte, fits in *. lia.
  - inversion_clear Hl as [|? ? Ha Hl']. inversion_clear Hl' as [|? ? Hb Hl].
    assert (fits 16 (a * 256 + b)) as Hw by (unfold is_byte, fits in *; lia).
    destruct (ones_add_spec acc _ Hacc Hw) as (F & M & Z0). simpl ones_sum. simpl word_sum.
    destruct (IH _ Hl F) as (F2 & M2 & Z2). pose proof (proj1 (word_sum_bound l Hl)).
    unfold fits in Hacc, Hw, F. split; [done|]. split.
    + rewrite M2, <- Z.add_mod_idemp_l, M, Z.add_mod_idemp_l by lia. f_equal. lia.
    + rewrite Z2. lia.
Qed.

Lemma residue_unique r r' :
  fits 16 r → fits 16 r' → r `mod` 65535 = r' `mod` 65535 → (r = 0 ↔ r' = 0) → r = r'.
Proof.
  unfold fits. intros Hr Hr' Hm Hz.
  destruct (decide (r = 65535)) as [->|]; destruct (decide (r' = 65535)) as [->|];
    rewrite ?Z.mod_same, ?(Z.mod_small r), ?(Z.mod_small r') in Hm by lia; lia.
Qed.

(** C32. The deferred-carry checksum is the internet checksum. On any byte string
    of at most 128 KiB, [net::checksum] does not overflow and returns the
    complement of the ones'-complement sum of RFC 1071, in which every
    addition takes its carry round at once. *)
Theorem checksum_rfc1071 `{Profile} l : bytes l → vlen l ≤ 131072 →
  checksum l = Ret (65535 - ones_sum l 0).
Proof.
  intros Hl Hn. destruct (checksum_val l Hl Hn) as (r & -> & Hf & Hm & Hz).
  destruct (ones_sum_spec l 0 Hl) as (F & M & Z0); [by unfold fits|]. rewrite Z.add_0_l in *.
  do 2 f_equal. apply residue_unique; [done..|congruence|tauto].
Qed.

(** The example of RFC 1071: the words 0001 f203 f4f5 f6f7. *)
Lemma checksum_rfc1071_witness :
  @checksum dev [0x00; 0x01; 0xf2; 0x03; 0xf4; 0xf5; 0xf6; 0xf7] = Ret (65535 - 0xddf2).
Proof. apply (@checksum_rfc1071 dev); [by repeat constructor|by vm_compute]. Defined.
