(* ===== verification/Elf.v ===== *)
(** * Elf: the program loader (kernel/src/process/elf.rs)

    The loader maps pages and writes through them, so its state is the memory
    subsystem, the bytes of physical memory and, per virtual page, whether the
    mapping is writable. A store goes through the translation of its address,
    byte by byte, and faults where there is none, or where the page is
    read-only and CR0.WP ([wp]) is set. *)

From S2P Require Import Prelude Pmm Memory Bytes.

Module elf.

Definition ELF_MAGIC : list Z := [0x7f; 0x45; 0x4c; 0x46].
Definition PT_LOAD : Z := 1.
Definition PF_W : Z := 2.
Definition PF_X : Z := 1.
Definition USER_STACK_TOP : Z := 0x00500000.
Definition USER_STACK_PAGES : Z := 4.

Record LoadedImage := mkImage { entry : Z; stack_top : Z }.

Inductive LoadError := NotElf | NotClass64.

(** [from_le_bytes] *)
Fixpoint from_le (l : list Z) : Z :=
  match l with [] => 0 | b :: l' => b + 256 * from_le l' end.

Section fields.
Context `{Profile}.

Definition u16_at (b : list Z) (off : Z) : outcome Z :=
  x ← index b off;
  i ← checked 64 (off + 1); y ← index b i;
  Ret (from_le [x; y]).

Definition u32_at (b : list Z) (off : Z) : outcome Z :=
  x ← index b off;
  i ← checked 64 (off + 1); y ← index b i;
  i ← checked 64 (off + 2); z ← index b i;
  i ← checked 64 (off + 3); t ← index b i;
  Ret (from_le [x; y; z; t]).

Definition u64_at (b : list Z) (off : Z) : outcome Z :=
  e ← checked 64 (off + 8);
  a ← slice b off e;
  Ret (from_le a).

(** The fields of the program header at [p] that [load] reads. *)
Record Phdr := mkPhdr { p_type : Z; p_flags : Z; p_offset : Z; p_vaddr : Z; p_filesz : Z; p_memsz : Z }.

Definition at_off {R} (f : list Z → Z → outcome R) (b : list Z) (p k : Z) : outcome R :=
  a ← checked 64 (p + k); f b a.
End fields.

Section loader.
Context `{Profile} {St PT : Type} `{FrameAlloc St} `{Mapper St PT} `{VirtAddrNew} (wp : bool).

Record Space := mkSpace {
  vm : Mem St PT;
  phys : Z → Z;         (* physical memory, by byte *)
  wr : Z → bool;        (* is the page at this address mapped writable *)
}.

Definition page_of (v : Z) : Z := v - v `mod` 4096.

(** A one-byte store at virtual address [v]. *)
Definition store_byte (v b : Z) (s : Space) : outcome Space :=
  t ← translate v (vm s);
  match t with
  | None => Panic PFault
  | Some p =>
      if wp && negb (wr s (page_of v)) then Panic PFault
      else Ret (mkSpace (vm s) (λ x, if x =? p then b else phys s x) (wr s))
  end.

(** [ptr::write_bytes] and [copy_from_slice]: the bytes of [bs] from [v] on. *)
Fixpoint store_bytes (v : Z) (bs : list Z) (s : Space) : outcome Space :=
  match bs with
  | [] => Ret s
  | b :: bs' => s' ← store_byte v b s; store_bytes (v + 1) bs' s'
  end.

Definition zeros (n : Z) : list Z := replicate (Z.to_nat n) 0.

Definition ensure_mapped (page : Z) (fl : PageTableFlags) (s : Space) : outcome Space :=
  t ← translate page (vm s);
  match t with
  | Some _ => Ret s
  | None =>
      r ← vmm_alloc_frame (vm s);
      let '(o, m) := r in
      frame ← expect o;
      r ← map_page page frame fl m;
      match r with
      | (inr _, _) => Panic PUnwrap
      | (inl _, m') =>
          store_bytes page (zeros 4096)
            (mkSpace m' (phys s) (λ q, if q =? page then WRITABLE fl else wr s q))
      end
  end.

Definition seg_flags (flags_dw : Z) : PageTableFlags :=
  mkFlags true (negb (Z.land flags_dw PF_W =? 0)) true false (Z.land flags_dw PF_X =? 0).

Definition stack_flags : PageTableFlags := mkFlags true true true false true.

Definition map_range (start_page end_page : Z) (fl : PageTableFlags) (s : Space) : outcome Space :=
  for_each (seqZ start_page (end_page - start_page)) (λ pg s,
    v ← vaddr_new (pg * 4096); ensure_mapped (page_of v) fl s) s.

(** One round of the loop over the program headers. *)
Definition load_segment (elf : list Z) (phoff phentsize : Z) (i : Z) (s : Space) : outcome Space :=
  k ← checked 64 (i * phentsize);
  p ← checked 64 (phoff + k);
  ty ← u32_at elf p;
  if negb (ty =? PT_LOAD) then Ret s
  else
    flags_dw ← at_off u32_at elf p 4;
    off ← at_off u64_at elf p 8;
    vaddr ← at_off u64_at elf p 16;
    filesz ← at_off u64_at elf p 32;
    memsz ← at_off u64_at elf p 40;
    e ← checked 64 (vaddr + memsz);
    e ← checked 64 (e + 4095);
    s ← map_range (vaddr `div` 4096) (e `div` 4096) (seg_flags flags_dw) s;
    foff ← checked 64 (off + filesz);
    src ← slice elf off foff;
    s ← store_bytes vaddr src s;
    if filesz <? memsz then
      a ← checked 64 (vaddr + filesz);
      store_bytes a (zeros (memsz - filesz)) s
    else Ret s.

Definition map_stack (s : Space) : outcome Space :=
  for_each (seqZ 0 USER_STACK_PAGES) (λ i s,
    v ← vaddr_new (USER_STACK_TOP - (i + 1) * 4096); ensure_mapped (page_of v) stack_flags s) s.

Definition load (elf : list Z) (s : Space) : outcome ((LoadedImage + LoadError) * Space) :=
  if vlen elf <? 64 then Ret (inr NotElf, s)
  else
    magic ← slice elf 0 4;
    if negb (bool_decide (magic = ELF_MAGIC)) then Ret (inr NotElf, s)
    else
      class ← index elf 4;
      if negb (class =? 2) then Ret (inr NotClass64, s)
      else
        ent ← u64_at elf 0x18;
        phoff ← u64_at elf 0x20;
        phentsize ← u16_at elf 0x36;
        phnum ← u16_at elf 0x38;
        s ← for_each (seqZ 0 phnum) (load_segment elf phoff phentsize) s;
        s ← map_stack s;
        Ret (inl (mkImage ent USER_STACK_TOP), s).
End loader.
End elf.
Import elf.

(** ** Fields *)

Definition sub (l : list Z) (a n : Z) : list Z := take (Z.to_nat n) (drop (Z.to_nat a) l).

Section fields.
Context `{Profile}.

Lemma sub_index l a n i : 0 ≤ a → 0 ≤ i < n → a + n ≤ vlen l → index l (a + i) = index (sub l a n) i.
Proof.
  intros Ha Hi Hl. unfold index, sub. destruct (vget_in l (a + i)) as [x Hx]; [lia|]. rewrite Hx.
  apply vget_Some in Hx as [_ Hx].
  assert (vget (take (Z.to_nat n) (drop (Z.to_nat a) l)) i = Some x) as ->; [|done].
  apply vget_Some. split; [lia|]. rewrite lookup_take_lt, lookup_drop by lia. rewrite <- Hx. f_equal. lia.
Qed.

Lemma length_sub l a n : 0 ≤ a → 0 ≤ n → a + n ≤ vlen l → length (sub l a n) = Z.to_nat n.
Proof. intros. unfold sub. rewrite length_take, length_drop. unfold vlen in *. lia. Qed.

Lemma slice_sub l a n : 0 ≤ a → 0 ≤ n → a + n ≤ vlen l → slice l a (a + n) = Ret (sub l a n).
Proof. intros. unfold slice. rewrite bool_decide_true by lia. unfold sub. do 3 f_equal. lia. Qed.

Lemma u16_at_eq l a : 0 ≤ a → a + 2 ≤ vlen l → vlen l < 2 ^ 63 → u16_at l a = Ret (from_le (sub l a 2)).
Proof.
  intros Ha Hl Hm. unfold u16_at. rewrite checked_fits by (unfold fits; lia). cbn [mbind outcome_bind].
  pose proof (length_sub l a 2 Ha ltac:(lia) Hl) as Hs.
  assert (index l a = index (sub l a 2) 0) as -> by (rewrite <- (sub_index l a 2) by lia; f_equal; lia).
  rewrite (sub_index l a 2) by lia. destruct (sub l a 2) as [|x [|y [|]]]; done.
Qed.

Lemma u32_at_eq l a : 0 ≤ a → a + 4 ≤ vlen l → vlen l < 2 ^ 63 → u32_at l a = Ret (from_le (sub l a 4)).
Proof.
  intros Ha Hl Hm. unfold u32_at. rewrite !checked_fits by (unfold fits; lia). cbn [mbind outcome_bind].
  pose proof (length_sub l a 4 Ha ltac:(lia) Hl) as Hs.
  assert (index l a = index (sub l a 4) 0) as -> by (rewrite <- (sub_index l a 4) by lia; f_equal; lia).
  rewrite !(sub_index l a 4) by lia. destruct (sub l a 4) as [|x [|y [|z [|t [|]]]]]; done.
Qed.

Lemma u64_at_eq l a : 0 ≤ a → a + 8 ≤ vlen l → vlen l < 2 ^ 63 → u64_at l a = Ret (from_le (sub l a 8)).
Proof.
  intros Ha Hl Hm. unfold u64_at. rewrite checked_fits by (unfold fits; lia). cbn [mbind outcome_bind].
  by rewrite slice_sub by lia.
Qed.

(** The program header at [p]. *)
Definition phdr (l : list Z) (p : Z) : Phdr :=
  mkPhdr (from_le (sub l p 4)) (from_le (sub l (p + 4) 4)) (from_le (sub l (p + 8) 8))
    (from_le (sub l (p + 16) 8)) (from_le (sub l (p + 32) 8)) (from_le (sub l (p + 40) 8)).

Lemma at_off_eq {R} (f : list Z → Z → outcome R) l p k : 0 ≤ p → 0 ≤ k → p + k < 2 ^ 64 →
  at_off f l p k = f l (p + k).
Proof. intros. unfold at_off. by rewrite checked_fits by (unfold fits; lia). Qed.
End fields.

#[global] Instance Phdr_eq_dec : EqDecision Phdr.
Proof. solve_decision. Defined.

(** ** The user's view of memory *)

Section view.
Context `{Profile} {St PT : Type} `{MapperOk St PT} `{VirtAddrNew} (wp : bool).
Abbreviation SP := (@Space St PT).
Implicit Types (s : SP).

Definition low (v : Z) : Prop := 0 ≤ v < 2 ^ 47.

Definition tr s (v : Z) : option Z := translate_addr (tables (vm s)) v.

(** What a load from a user address gives. *)
Definition view s (v : Z) : option Z := phys s <$> tr s v.

(** The lower half: its pages are mapped whole, to frames of their own that the
    allocator does not have, and the kernel can write to them. *)
Record space_ok s : Prop := {
  so_wf : fa_wf (falloc (vm s));
  so_off : is_Some (phys_off (vm s));
  so_inj v1 v2 p : low v1 → low v2 → tr s v1 = Some p → tr s v2 = Some p → v1 = v2;
  so_used v p : low v → tr s v = Some p → page_of p ∉ fa_free (falloc (vm s));
  so_whole v : low v → is_Some (tr s v) ↔ is_Some (tr s (page_of v));
  so_wr v p : low v → tr s v = Some p → wp = false ∨ wr s (page_of v) = true;
}.

Lemma translate_tr s v : is_Some (phys_off (vm s)) → translate v (vm s) = Ret (tr s v).
Proof. intros [off Ho]. unfold translate, active_mapper, phys_offset. by rewrite Ho. Qed.

Lemma view_None s v : view s v = None ↔ tr s v = None.
Proof. unfold view. destruct (tr s v); simpl; by split. Qed.

Lemma store_byte_ok s v b : space_ok s → low v → is_Some (tr s v) →
  ∃ s', store_byte wp v b s = Ret s' ∧ vm s' = vm s ∧ wr s' = wr s ∧
    ∀ x, low x → view s' x = if bool_decide (x = v) then Some b else view s x.
Proof.
  intros Hs Hv [p Hp]. unfold store_byte. rewrite translate_tr by apply Hs. cbn [mbind outcome_bind]. rewrite Hp.
  assert (wp && negb (wr s (page_of v)) = false) as ->.
  { destruct (so_wr s Hs v p Hv Hp) as [-> | ->]; [done|by destruct wp]. }
  eexists. split; [done|]. split; [done|]. split; [done|]. intros x Hx. unfold view, tr. cbn [vm phys].
  fold (tr s x). case_bool_decide as E; [subst; rewrite Hp; simpl; by rewrite Z.eqb_refl|].
  destruct (tr s x) as [q|] eqn:Eq; [|done]. simpl. destruct (Z.eqb_spec q p) as [->|]; [|done].
  destruct E. by eapply (so_inj s Hs).
Qed.

Lemma space_ok_mem s s' : vm s' = vm s → wr s' = wr s → space_ok s → space_ok s'.
Proof.
  intros Hv Hw [? ? Hi Hu Hwh Hr]. split; unfold tr in *; rewrite ?Hv, ?Hw; done.
Qed.

Lemma store_bytes_ok bs : ∀ s v, space_ok s →
  (∀ i, 0 ≤ i < vlen bs → low (v + i) ∧ is_Some (tr s (v + i))) →
  ∃ s', store_bytes wp v bs s = Ret s' ∧ vm s' = vm s ∧ wr s' = wr s ∧
    ∀ x, low x → view s' x = match vget bs (x - v) with Some b => Some b | None => view s x end.
Proof.
  induction bs as [|b bs IH]; intros s v Hs Hm; cbn [store_bytes].
  { exists s. do 3 (split; [done|]). intros x _.
    rewrite (proj2 (vget_None [] _)); [done|change (vlen []) with 0; lia]. }
  rewrite vlen_cons in Hm. pose proof (vlen_nonneg bs).
  destruct (Hm 0) as [Hl Ht]; [lia|]. rewrite Z.add_0_r in Hl, Ht.
  destruct (store_byte_ok s v b Hs Hl Ht) as (s1 & -> & Hv1 & Hw1 & Hx1). cbn [mbind outcome_bind].
  destruct (IH s1 (v + 1)) as (s2 & -> & Hv2 & Hw2 & Hx2).
  - by eapply space_ok_mem.
  - intros i Hi. replace (v + 1 + i) with (v + (i + 1)) by lia. unfold tr. rewrite Hv1. apply Hm. lia.
  - exists s2. split; [done|]. split; [congruence|]. split; [congruence|].
    intros x Hx. rewrite Hx2, Hx1 by done. case_bool_decide as E.
    + subst. rewrite (proj2 (vget_None bs _)) by lia. replace (v - v) with (Z.of_nat 0) by lia. by rewrite vget_nat.
    + destruct (decide (0 ≤ x - v)).
      * replace (x - v) with (x - (v + 1) + 1) by lia. by rewrite vget_cons_succ by lia.
      * rewrite !(proj2 (vget_None _ _)) by lia. done.
Qed.

(** What [ensure_mapped] does to the view: an unmapped page becomes zeros. *)
Definition with_pages (P : Z → Prop) `{∀ v, Decision (P v)} (f : Z → option Z) (v : Z) : option Z :=
  match f v with Some b => Some b | None => if decide (P v) then Some 0 else None end.

Lemma page_of_aligned v : page_of v `mod` 4096 = 0.
Proof. unfold page_of. Z.div_mod_to_equations. lia. Qed.

Lemma in_page_of page v : page `mod` 4096 = 0 → in_page page v ↔ page_of v = page.
Proof. intros Hp. unfold page_of. rewrite in_page_base by done. done. Qed.

Lemma low_page_of v : low v → low (page_of v).
Proof. unfold low, page_of. intros Hv. Z.div_mod_to_equations. lia. Qed.

Lemma in_page_low page v : low page → page `mod` 4096 = 0 → in_page page v → low v.
Proof. unfold low, in_page. intros Hl Hp Hv. Z.div_mod_to_equations. lia. Qed.

(** The space once a page was mapped to a frame that was free. *)
Lemma space_ok_mapped s page frame fl m' :
  space_ok s → low page → page `mod` 4096 = 0 → tr s page = None →
  (wp = false ∨ WRITABLE fl = true) → mapped_fresh page frame (vm s) m' →
  space_ok (mkSpace m' (phys s) (λ q, if q =? page then WRITABLE fl else wr s q)).
Proof.
  intros Hs Hl Hp Hn Hwr [Hw Ho Hin Hgone Hsub _ Hti Hto]. destruct Hs as [? Hoff Hi Hu Hwh Hr].
  destruct (fa_range _ _ Hin) as (fr & Hfr & ->).
  assert (∀ v, in_page page v → page_of (fr * 4096 + (v - page)) = fr * 4096) as Hpo.
  { intros v Hv. unfold page_of, in_page in *. Z.div_mod_to_equations. lia. }
  assert (∀ v p, low v → ¬ in_page page v → tr s v = Some p → page_of p ≠ fr * 4096) as Hold.
  { intros v p Hv _ Ht E. apply (Hu v p Hv Ht). by rewrite E. }
  split; unfold tr in *; cbn [vm wr]; [done|by rewrite Ho| | | |].
  - intros v1 v2 p L1 L2. destruct (decide (in_page page v1)) as [I1|I1], (decide (in_page page v2)) as [I2|I2];
      rewrite ?(Hti _ I1), ?(Hti _ I2), ?(Hto _ I1), ?(Hto _ I2).
    + intros [= <-] [= E]. lia.
    + intros [= <-] E. destruct (Hold v2 _ L2 I2 E). by apply Hpo.
    + intros E [= <-]. destruct (Hold v1 _ L1 I1 E). by apply Hpo.
    + by apply Hi.
  - intros v p L. destruct (decide (in_page page v)) as [I|I]; rewrite ?(Hti _ I), ?(Hto _ I).
    + intros [= <-]. by rewrite Hpo.
    + intros E Hf. apply (Hu v p L E). by apply Hsub.
  - intros v L. destruct (decide (in_page page v)) as [I|I].
    + pose proof I as E%in_page_of; [|done]. rewrite E, (Hti _ I), (Hti page) by (unfold in_page; lia). by split; eexists.
    + rewrite (Hto _ I), Hto; [by apply Hwh|]. intros I2. apply I.
      apply in_page_of; [done|]. apply in_page_of in I2; [|done].
      rewrite <- I2. unfold page_of. Z.div_mod_to_equations. lia.
  - intros v p L. destruct (decide (in_page page v)) as [I|I]; rewrite ?(Hti _ I), ?(Hto _ I).
    + intros _. apply in_page_of in I; [|done]. by rewrite I, Z.eqb_refl.
    + intros E. destruct (Z.eqb_spec (page_of v) page) as [E2|]; [|by eapply Hr].
      destruct I. by apply in_page_of.
Qed.

Lemma allocate_and_map_split page fl (m : Mem St PT) frame m' :
  allocate_and_map page fl m = Ret (inl frame, m') →
  ∃ m1, vmm_alloc_frame m = Ret (Some frame, m1) ∧ map_page page frame fl m1 = Ret (inl tt, m').
Proof.
  unfold allocate_and_map. destruct (vmm_alloc_frame m) as [[[f|] m1]|]; cbn [mbind outcome_bind]; [|done|done].
  destruct (map_page page f fl m1) as [[[[]|e] m2]|] eqn:E; cbn [mbind outcome_bind]; [|done|done].
  intros [= -> ->]. by exists m1.
Qed.

Lemma ensure_mapped_ok s page fl :
  space_ok s → low page → page `mod` 4096 = 0 → (wp = false ∨ WRITABLE fl = true) →
  (4 ≤ size (fa_free (falloc (vm s))))%nat →
  ∃ s', ensure_mapped wp page fl s = Ret s' ∧ space_ok s' ∧
    (size (fa_free (falloc (vm s))) ≤ size (fa_free (falloc (vm s'))) + 4)%nat ∧
    ∀ v, low v → view s' v = with_pages (in_page page) (view s) v.
Proof.
  intros Hs Hl Hp Hwr Hsz. unfold ensure_mapped. rewrite translate_tr by apply Hs. cbn [mbind outcome_bind].
  destruct (tr s page) as [q|] eqn:Et.
  { exists s. split; [done|]. split; [done|]. split; [lia|]. intros v Hv. unfold with_pages.
    destruct (view s v) eqn:Ev; [done|]. rewrite decide_False; [done|]. intros Hi%in_page_of; [|done].
    apply view_None in Ev. destruct (so_whole s Hs v Hv) as [_ Hw]. rewrite Hi, Et, Ev in Hw. by destruct Hw. }
  destruct (so_off s Hs) as [off Ho].
  destruct (allocate_and_map_fresh page fl (vm s) off) as (frame & m' & E & Hf); [apply Hs|done|done|done|done|].
  apply allocate_and_map_split in E as (m1 & -> & E). cbn [mbind outcome_bind expect]. rewrite E.
  cbn [mbind outcome_bind]. pose proof (space_ok_mapped s page frame fl m' Hs Hl Hp Et Hwr Hf) as Hs1.
  set (s1 := mkSpace m' _ _) in *. destruct Hf as [? ? ? ? ? Hcost Hti Hto].
  destruct (store_bytes_ok (zeros 4096) s1 page Hs1) as (s2 & -> & Hv2 & Hw2 & Hx2).
  { unfold zeros. rewrite vlen_replicate. intros i Hi. assert (in_page page (page + i)) as I by (unfold in_page; lia).
    split; [by eapply in_page_low|]. unfold tr. cbn [s1 vm]. rewrite (Hti _ I). by eexists. }
  exists s2. split; [done|]. split; [by eapply space_ok_mem|]. split; [rewrite Hv2; exact Hcost|].
  intros v Hv. rewrite Hx2 by done. unfold with_pages. destruct (decide (in_page page v)) as [I|I].
  - assert (vget (zeros 4096) (v - page) = Some 0) as ->.
    { apply vget_Some. unfold in_page in I. split; [lia|]. apply lookup_replicate_2. lia. }
    assert (view s v = None) as ->; [|done]. apply view_None. apply in_page_of in I; [|done].
    destruct (tr s v) eqn:Ev; [|done]. destruct (so_whole s Hs v Hv) as [Hw _].
    rewrite I, Et, Ev in Hw. by destruct Hw.
  - rewrite (proj2 (vget_None _ _)) by (unfold zeros; rewrite vlen_replicate; unfold in_page in I; lia).
    unfold view at 1, tr. cbn [s1 vm phys]. rewrite (Hto _ I). fold (tr s v). fold (view s v).
    by destruct (view s v).
Qed.

(** ** Mapping a range of pages *)

Definition in_pages (a b v : Z) : Prop := a ≤ v `div` 4096 < b.

#[global] Instance in_pages_dec a b v : Decision (in_pages a b v).
Proof. unfold in_pages. apply _. Defined.

Lemma with_pages_ext P Q `{∀ v, Decision (P v)} `{∀ v, Decision (Q v)} f g v :
  (P v ↔ Q v) → f v = g v → with_pages P f v = with_pages Q g v.
Proof. intros E Hf. unfold with_pages. rewrite Hf. destruct (g v); [done|]. by repeat case_decide; tauto || done. Qed.

Lemma with_pages_union P Q R `{∀ v, Decision (P v)} `{∀ v, Decision (Q v)} `{∀ v, Decision (R v)} f v :
  (R v ↔ P v ∨ Q v) → with_pages Q (with_pages P f) v = with_pages R f v.
Proof. intros E. unfold with_pages. destruct (f v); [done|]. repeat case_decide; tauto || done. Qed.

(** A loop that maps the pages [f x]. *)
Lemma map_each_ok (l : list Z) (body : Z → SP → outcome SP) fl (P : list Z → Z → Prop)
    `{∀ xs v, Decision (P xs v)} s0 :
  space_ok s0 → (wp = false ∨ WRITABLE fl = true) → (4 * length l ≤ size (fa_free (falloc (vm s0))))%nat →
  (∀ v, ¬ P [] v) →
  (∀ pre x s, x ∈ l → ∃ page, low page ∧ page `mod` 4096 = 0 ∧ body x s = ensure_mapped wp page fl s ∧
     ∀ v, low v → P (pre ++ [x]) v ↔ P pre v ∨ in_page page v) →
  ∃ s', for_each l body s0 = Ret s' ∧ space_ok s' ∧
    (size (fa_free (falloc (vm s0))) ≤ size (fa_free (falloc (vm s'))) + 4 * length l)%nat ∧
    ∀ v, low v → view s' v = with_pages (P l) (view s0) v.
Proof.
  intros Hs Hwr Hsz HP0 Hbody.
  destruct (for_each_split (λ pre s, space_ok s ∧
    (size (fa_free (falloc (vm s0))) ≤ size (fa_free (falloc (vm s))) + 4 * length pre)%nat ∧
    ∀ v, low v → view s v = with_pages (P pre) (view s0) v) body l [] s0) as (s' & E & Hs' & Hc & Hv).
  - split; [done|]. split; [lia|]. intros v Hv. unfold with_pages. destruct (view s0 v); [done|].
    by rewrite decide_False by apply HP0.
  - intros pre x s suf El (Hs1 & Hc1 & Hv1). simpl in El.
    destruct (Hbody pre x s) as (page & Hl & Hp & -> & HP).
    { rewrite El. apply elem_of_app. right. by left. }
    assert (length pre < length l)%nat by (rewrite El, length_app; simpl; lia).
    destruct (ensure_mapped_ok s page fl Hs1 Hl Hp Hwr ltac:(lia)) as (s2 & E2 & Hs2 & Hc2 & Hv2).
    exists s2. split; [done|]. split; [done|]. split; [rewrite length_app; simpl; lia|].
    intros v Hv. rewrite Hv2 by done.
    rewrite (with_pages_ext (in_page page) (in_page page) _ (with_pages (P pre) (view s0))) by (done || by apply Hv1).
    apply with_pages_union. by apply HP.
  - by exists s'.
Qed.

Lemma in_page_div pg v : in_page (pg * 4096) v ↔ v `div` 4096 = pg.
Proof. unfold in_page. split; intros; Z.div_mod_to_equations; lia. Qed.

(** The page of [v] is one of those numbered [xs]. *)
Definition page_in (xs : list Z) (v : Z) : Prop := v `div` 4096 ∈ xs.

#[global] Instance page_in_dec xs v : Decision (page_in xs v).
Proof. unfold page_in. apply _. Defined.

Lemma map_range_ok a b fl s :
  space_ok s → 0 ≤ a → b * 4096 ≤ 2 ^ 47 → (wp = false ∨ WRITABLE fl = true) →
  (4 * Z.to_nat (b - a) ≤ size (fa_free (falloc (vm s))))%nat →
  ∃ s', map_range wp a b fl s = Ret s' ∧ space_ok s' ∧
    (size (fa_free (falloc (vm s))) ≤ size (fa_free (falloc (vm s'))) + 4 * Z.to_nat (b - a))%nat ∧
    ∀ v, low v → view s' v = with_pages (in_pages a b) (view s) v.
Proof.
  intros Hs Ha Hb Hwr Hsz. unfold map_range.
  destruct (map_each_ok (seqZ a (b - a)) (λ pg s, v ← vaddr_new (pg * 4096); ensure_mapped wp (page_of v) fl s)
    fl page_in s) as (s' & E & Hs' & Hc & Hv).
  - done.
  - done.
  - by rewrite length_seqZ.
  - intros v. apply not_elem_of_nil.
  - intros pre x s1 Hx%elem_of_seqZ. exists (x * 4096).
    assert (low (x * 4096)) as Hlx by (unfold low; lia).
    assert ((x * 4096) `mod` 4096 = 0) as Hm by (apply Z.mod_mul; lia). split; [done|]. split; [done|]. split.
    + rewrite vaddr_new_ok by by left. cbn [mbind outcome_bind]. unfold page_of. by rewrite Hm, Z.sub_0_r.
    + intros v _. unfold page_in. rewrite elem_of_app, list_elem_of_singleton, in_page_div. done.
  - exists s'. rewrite length_seqZ in Hc. split; [done|]. split; [done|]. split; [done|].
    intros v Hlv. rewrite Hv by done. apply with_pages_ext; [|done].
    unfold page_in, in_pages. rewrite elem_of_seqZ. lia.
Qed.

(** ** One segment *)

Definition seg_start (h : Phdr) : Z := p_vaddr h `div` 4096.
Definition seg_end (h : Phdr) : Z := (p_vaddr h + p_memsz h + 4095) `div` 4096.
Definition seg_pages (h : Phdr) : nat := Z.to_nat (seg_end h - seg_start h).

(** A segment the loader can place: the file has its bytes, which fit its memory
    size, in the lower half; it is writable, or CR0.WP is off. *)
Record seg_ok (elf : list Z) (h : Phdr) : Prop := {
  sg_off : 0 ≤ p_offset h;
  sg_vaddr : 0 ≤ p_vaddr h;
  sg_size : 0 ≤ p_filesz h ≤ p_memsz h;
  sg_file : p_offset h + p_filesz h ≤ vlen elf;
  sg_low : p_vaddr h + p_memsz h + 4095 < 2 ^ 47;
  sg_write : wp = false ∨ Z.land (p_flags h) PF_W ≠ 0;
}.

(** The view once the segment is loaded: its bytes, then zeros up to its memory
    size; the rest of its pages as it was, or zeros. *)
Definition seg_view (elf : list Z) (h : Phdr) (f : Z → option Z) (v : Z) : option Z :=
  if decide (p_vaddr h ≤ v < p_vaddr h + p_filesz h) then vget elf (p_offset h + (v - p_vaddr h))
  else if decide (p_vaddr h + p_filesz h ≤ v < p_vaddr h + p_memsz h) then Some 0
  else with_pages (in_pages (seg_start h) (seg_end h)) f v.

Lemma seg_view_ext elf h f g v : f v = g v → seg_view elf h f v = seg_view elf h g v.
Proof. intros E. unfold seg_view. repeat case_decide; [done..|]. by apply with_pages_ext. Qed.

Lemma seg_pages_cover h v : p_vaddr h ≤ v < p_vaddr h + p_memsz h → in_pages (seg_start h) (seg_end h) v.
Proof. unfold in_pages, seg_start, seg_end. intros Hv. Z.div_mod_to_equations. lia. Qed.

Lemma sub_vget l a n i : 0 ≤ a → 0 ≤ n → a + n ≤ vlen l →
  vget (sub l a n) i = if decide (0 ≤ i < n) then vget l (a + i) else None.
Proof.
  intros Ha Hn Hl. pose proof (length_sub l a n Ha Hn Hl) as Hs. case_decide as Hi.
  - destruct (vget_in l (a + i)) as [x Hx]; [lia|]. rewrite Hx. apply vget_Some in Hx as [_ Hx].
    apply vget_Some. split; [lia|]. unfold sub. rewrite lookup_take_lt, lookup_drop by lia.
    rewrite <- Hx. f_equal. lia.
  - apply vget_None. unfold vlen. lia.
Qed.

(** The tail of a round: copy the file bytes, then clear up to the memory size. *)
Definition fill_segment (elf : list Z) (h : Phdr) (s : SP) : outcome SP :=
  foff ← checked 64 (p_offset h + p_filesz h);
  src ← slice elf (p_offset h) foff;
  s ← store_bytes wp (p_vaddr h) src s;
  if p_filesz h <? p_memsz h then
    a ← checked 64 (p_vaddr h + p_filesz h);
    store_bytes wp a (zeros (p_memsz h - p_filesz h)) s
  else Ret s.

Lemma fill_segment_ok elf h s : seg_ok elf h → vlen elf < 2 ^ 63 → space_ok s →
  (∀ v, p_vaddr h ≤ v < p_vaddr h + p_memsz h → is_Some (tr s v)) →
  ∃ s', fill_segment elf h s = Ret s' ∧ space_ok s' ∧ vm s' = vm s ∧
    ∀ v, low v → view s' v =
      if decide (p_vaddr h ≤ v < p_vaddr h + p_filesz h) then vget elf (p_offset h + (v - p_vaddr h))
      else if decide (p_vaddr h + p_filesz h ≤ v < p_vaddr h + p_memsz h) then Some 0 else view s v.
Proof.
  intros [? ? ? ? ? _] Hlen Hs Hm. unfold fill_segment.
  rewrite (checked_fits 64 (p_offset h + p_filesz h)) by (unfold fits; lia). cbn [mbind outcome_bind].
  rewrite slice_sub by lia. cbn [mbind outcome_bind].
  assert (vlen (sub elf (p_offset h) (p_filesz h)) = p_filesz h) as Hvs
    by (unfold vlen; rewrite length_sub by lia; lia).
  destruct (store_bytes_ok (sub elf (p_offset h) (p_filesz h)) s (p_vaddr h) Hs) as (s1 & -> & Hv1 & Hw1 & Hx1).
  { intros i Hi. split; [unfold low; lia|]. apply Hm. lia. }
  cbn [mbind outcome_bind].
  assert (∀ v, low v → view s1 v = if decide (p_vaddr h ≤ v < p_vaddr h + p_filesz h)
    then vget elf (p_offset h + (v - p_vaddr h)) else view s v) as Hx1'.
  { intros v Hv. rewrite Hx1, sub_vget by (done || lia). repeat case_decide; try lia; [|done].
    destruct (vget_in elf (p_offset h + (v - p_vaddr h))) as [b Hb]; [lia|]. by rewrite Hb. }
  case (Z.ltb_spec (p_filesz h) (p_memsz h)) as [Hlt|Hge].
  - rewrite checked_fits by (unfold fits; lia). cbn [mbind outcome_bind].
    destruct (store_bytes_ok (zeros (p_memsz h - p_filesz h)) s1 (p_vaddr h + p_filesz h))
      as (s2 & -> & Hv2 & Hw2 & Hx2).
    { by eapply space_ok_mem. }
    { unfold zeros. rewrite vlen_replicate. intros i Hi. split; [unfold low; lia|].
      unfold tr. rewrite Hv1. apply Hm. lia. }
    exists s2. split; [done|]. split; [eapply space_ok_mem; [..|done]; congruence|].
    split; [congruence|]. intros v Hv. rewrite Hx2, Hx1' by done.
    destruct (decide (p_vaddr h + p_filesz h ≤ v < p_vaddr h + p_memsz h)) as [Hi|Hi].
    + assert (vget (zeros (p_memsz h - p_filesz h)) (v - (p_vaddr h + p_filesz h)) = Some 0)
        as ->; [|repeat case_decide; done || lia]. apply vget_Some. split; [lia|]. apply lookup_replicate_2. lia.
    + rewrite (proj2 (vget_None _ _)); [done|]. unfold zeros. rewrite vlen_replicate. lia.
  - exists s1. split; [done|]. split; [by eapply space_ok_mem|]. split; [done|].
    intros v Hv. rewrite Hx1' by done. repeat case_decide; done || lia.
Qed.

(** Where the header of index [i] is, and that the file holds it. *)
Definition hdr_pos (phoff phentsize i : Z) : Z := phoff + i * phentsize.

Definition hdr_in (elf : list Z) (p : Z) : Prop := 0 ≤ p ∧ p + 48 ≤ vlen elf ∧ vlen elf < 2 ^ 63.

Lemma load_segment_eq elf phoff phentsize i s :
  0 ≤ phoff → 0 ≤ phentsize → 0 ≤ i → hdr_in elf (hdr_pos phoff phentsize i) →
  let h := phdr elf (hdr_pos phoff phentsize i) in
  load_segment wp elf phoff phentsize i s =
    if negb (p_type h =? PT_LOAD) then Ret s
    else
      e ← checked 64 (p_vaddr h + p_memsz h);
      e ← checked 64 (e + 4095);
      s ← map_range wp (p_vaddr h `div` 4096) (e `div` 4096) (seg_flags (p_flags h)) s;
      fill_segment elf h s.
Proof.
  intros Ho He Hi (Hp & Hl & Hm) h. unfold load_segment.
  assert (0 ≤ i * phentsize) by nia. unfold hdr_pos in *. set (p := phoff + i * phentsize) in *.
  rewrite (checked_fits 64 (i * phentsize)) by (unfold fits; lia). cbn [mbind outcome_bind]. fold p.
  rewrite (checked_fits 64 p) by (unfold fits; lia). cbn [mbind outcome_bind].
  rewrite u32_at_eq by lia. cbn [mbind outcome_bind]. change (from_le (sub elf p 4)) with (p_type h).
  destruct (negb (p_type h =? PT_LOAD)); [done|].
  rewrite !at_off_eq by lia. rewrite u32_at_eq by lia. cbn [mbind outcome_bind].
  rewrite !u64_at_eq by lia. cbn [mbind outcome_bind]. done.
Qed.

Lemma load_segment_ok elf phoff phentsize i s :
  0 ≤ phoff → 0 ≤ phentsize → 0 ≤ i → hdr_in elf (hdr_pos phoff phentsize i) →
  let h := phdr elf (hdr_pos phoff phentsize i) in
  p_type h = PT_LOAD → seg_ok elf h → space_ok s →
  (4 * seg_pages h ≤ size (fa_free (falloc (vm s))))%nat →
  ∃ s', load_segment wp elf phoff phentsize i s = Ret s' ∧ space_ok s' ∧
    (size (fa_free (falloc (vm s))) ≤ size (fa_free (falloc (vm s'))) + 4 * seg_pages h)%nat ∧
    ∀ v, low v → view s' v = seg_view elf h (view s) v.
Proof.
  intros Ho He Hi Hin h Ht Hok Hs Hsz. pose proof Hok as [? ? ? ? ? Hw].
  rewrite load_segment_eq by done. fold h. rewrite Ht. cbn [negb Z.eqb Pos.eqb PT_LOAD].
  rewrite (checked_fits 64 (p_vaddr h + p_memsz h)) by (unfold fits; lia). cbn [mbind outcome_bind].
  rewrite checked_fits by (unfold fits; lia). cbn [mbind outcome_bind]. fold (seg_start h) (seg_end h).
  destruct (map_range_ok (seg_start h) (seg_end h) (seg_flags (p_flags h)) s) as (s1 & -> & Hs1 & Hc1 & Hv1).
  - done.
  - unfold seg_start. apply Z.div_pos; lia.
  - unfold seg_end. Z.div_mod_to_equations. lia.
  - destruct Hw as [Hw|Hw]; [by left|right]. cbn [seg_flags WRITABLE]. by rewrite (proj2 (Z.eqb_neq _ _)).
  - done.
  - cbn [mbind outcome_bind].
    destruct (fill_segment_ok elf h s1 Hok) as (s2 & E2 & Hs2 & Hm2 & Hv2); [apply Hin|done| |].
    + intros v Hv. destruct (tr s1 v) eqn:Etr; [by eexists|]. apply view_None in Etr.
      rewrite Hv1 in Etr by (unfold low; lia). unfold with_pages in Etr. destruct (view s v); [done|].
      rewrite decide_True in Etr by (by apply seg_pages_cover). done.
    + exists s2. split; [done|]. split; [done|]. rewrite Hm2. split; [done|].
      intros v Hv. rewrite Hv2 by done. unfold seg_view. repeat case_decide; [done..|]. by apply Hv1.
Qed.

(** ** All the segments *)

Definition is_load (h : Phdr) : Prop := p_type h = PT_LOAD.
#[global] Instance is_load_dec h : Decision (is_load h).
Proof. unfold is_load. apply _. Defined.

Definition loads (elf : list Z) (phoff phentsize : Z) (ns : list Z) : list Phdr :=
  filter is_load ((λ i, phdr elf (hdr_pos phoff phentsize i)) <$> ns).

Definition all_pages (hs : list Phdr) : nat := sum_list (seg_pages <$> hs).

Definition image_view (elf : list Z) (hs : list Phdr) (f : Z → option Z) : Z → option Z :=
  foldl (λ f h, seg_view elf h f) f hs.

Lemma image_view_ext elf hs : ∀ f g v, f v = g v → image_view elf hs f v = image_view elf hs g v.
Proof.
  unfold image_view. induction hs as [|h hs IH]; intros f g v E; cbn [foldl]; [done|].
  apply IH. by apply seg_view_ext.
Qed.

Lemma load_loop_ok elf phoff phentsize ns : ∀ s,
  0 ≤ phoff → 0 ≤ phentsize →
  (∀ i, i ∈ ns → 0 ≤ i ∧ hdr_in elf (hdr_pos phoff phentsize i)) →
  (∀ h, h ∈ loads elf phoff phentsize ns → seg_ok elf h) → space_ok s →
  (4 * all_pages (loads elf phoff phentsize ns) ≤ size (fa_free (falloc (vm s))))%nat →
  ∃ s', for_each ns (load_segment wp elf phoff phentsize) s = Ret s' ∧ space_ok s' ∧
    (size (fa_free (falloc (vm s))) ≤ size (fa_free (falloc (vm s'))) + 4 * all_pages (loads elf phoff phentsize ns))%nat ∧
    ∀ v, low v → view s' v = image_view elf (loads elf phoff phentsize ns) (view s) v.
Proof.
  induction ns as [|i ns IH]; intros s Ho He Hin Hok Hs Hsz; cbn [for_each].
  - exists s. split_and!; [done|done|lia|done].
  - destruct (Hin i) as [Hi0 Hih]; [by left|].
    assert (∀ j, j ∈ ns → 0 ≤ j ∧ hdr_in elf (hdr_pos phoff phentsize j)) as Hin' by (intros j Hj; apply Hin; by right).
    unfold loads in *. cbn [fmap list_fmap] in *.
    set (h := phdr elf (hdr_pos phoff phentsize i)) in *.
    destruct (decide (is_load h)) as [Hl|Hl].
    + rewrite filter_cons_True in * by done. unfold all_pages in *. cbn [fmap list_fmap sum_list sum_list_with id] in *.
      destruct (load_segment_ok elf phoff phentsize i s) as (s1 & -> & Hs1 & Hc1 & Hv1);
        [done|done|done|done|done|apply Hok; by left|done|fold h; lia|]. fold h in Hc1, Hv1.
      cbn [mbind outcome_bind]. destruct (IH s1) as (s2 & -> & Hs2 & Hc2 & Hv2);
        [done|done|done|intros h' Hh'; apply Hok; by right|done|lia|].
      exists s2. split; [done|]. split; [done|]. split; [lia|].
      intros v Hv. rewrite Hv2 by done. unfold image_view at 2. cbn [foldl].
      apply image_view_ext. by apply Hv1.
    + rewrite filter_cons_False in * by done.
      assert (load_segment wp elf phoff phentsize i s = Ret s) as ->.
      { rewrite load_segment_eq by done. fold h. by rewrite (proj2 (Z.eqb_neq _ _)). }
      cbn [mbind outcome_bind]. by apply IH.
Qed.

Lemma image_view_snoc elf hs h f : image_view elf (hs ++ [h]) f = seg_view elf h (image_view elf hs f).
Proof. unfold image_view. by rewrite foldl_app. Qed.

Definition covers_byte (h : Phdr) (v : Z) : Prop := p_vaddr h ≤ v < p_vaddr h + p_memsz h.

Lemma image_view_seg elf hs f h i : (∀ x, x ∈ hs → seg_ok elf x) → h ∈ hs → 0 ≤ i < p_memsz h →
  (∀ h', h' ∈ hs → h' ≠ h → ¬ covers_byte h' (p_vaddr h + i)) →
  image_view elf hs f (p_vaddr h + i) = if decide (i < p_filesz h) then vget elf (p_offset h + i) else Some 0.
Proof.
  induction hs as [|h' hs IH] using rev_ind; intros Hok Hin Hi Hother; [by apply not_elem_of_nil in Hin|].
  rewrite image_view_snoc. unfold seg_view. destruct (decide (h' = h)) as [->|Hne].
  - destruct (decide (i < p_filesz h)).
    + rewrite decide_True by lia. f_equal. lia.
    + by rewrite decide_False, decide_True by lia.
  - assert (¬ covers_byte h' (p_vaddr h + i)) as Hno.
    { apply Hother; [|done]. apply elem_of_app. right. by left. }
    destruct (Hok h') as [_ _ ? _ _ _]; [apply elem_of_app; right; by left|]. unfold covers_byte in Hno.
    rewrite !decide_False by lia. apply elem_of_app in Hin as [Hin|Hin%list_elem_of_singleton]; [|by subst].
    unfold with_pages. rewrite IH; [|intros x Hx; apply Hok; apply elem_of_app; by left|done|done|
      intros x Hx; apply Hother; apply elem_of_app; by left].
    case_decide; [|done]. destruct (Hok h) as [? ? ? ? _ _]; [apply elem_of_app; by left|].
    destruct (vget_in elf (p_offset h + i)) as [b Hb]; [lia|]. by rewrite Hb.
Qed.

(** Every byte of a segment is mapped, whichever segment wrote it last. *)
Lemma image_view_covered elf hs f v : (∀ x, x ∈ hs → seg_ok elf x) → (∃ h, h ∈ hs ∧ covers_byte h v) →
  is_Some (image_view elf hs f v).
Proof.
  induction hs as [|h' hs IH] using rev_ind; intros Hok (h & Hin & Hc); [by apply not_elem_of_nil in Hin|].
  rewrite image_view_snoc. unfold seg_view.
  destruct (Hok h') as [? ? ? ? _ _]; [apply elem_of_app; right; by left|].
  case_decide; [apply vget_in; lia|]. case_decide; [by eexists|].
  apply elem_of_app in Hin as [Hin|Hin%list_elem_of_singleton]; [|subst; unfold covers_byte in Hc; lia].
  destruct IH as [b Hb]; [intros x Hx; apply Hok; apply elem_of_app; by left|by exists h|].
  unfold with_pages. rewrite Hb. by eexists.
Qed.

(** Bytes that no segment covers keep their value, if they had one, or
    if their page is not touched. *)
Lemma image_view_other elf hs f v : (∀ x, x ∈ hs → seg_ok elf x) → (∀ h, h ∈ hs → ¬ covers_byte h v) →
  is_Some (f v) ∨ (∀ h, h ∈ hs → ¬ in_pages (seg_start h) (seg_end h) v) →
  image_view elf hs f v = f v.
Proof.
  induction hs as [|h hs IH] using rev_ind; intros Hok Hno Hor; [done|].
  rewrite image_view_snoc. unfold seg_view.
  assert (h ∈ hs ++ [h]) as Hh by (apply elem_of_app; right; by left).
  pose proof (Hno h Hh) as Hn. destruct (Hok h Hh) as [_ _ ? _ _ _]. unfold covers_byte in Hn.
  rewrite !decide_False by lia. unfold with_pages. rewrite IH.
  - destruct Hor as [[b ->]|Hp]; [done|]. destruct (f v); [done|]. by rewrite decide_False by (by apply Hp).
  - intros x Hx. apply Hok. apply elem_of_app. by left.
  - intros x Hx. apply Hno. apply elem_of_app. by left.
  - destruct Hor as [?|Hp]; [by left|right]. intros x Hx. apply Hp. apply elem_of_app. by left.
Qed.

Definition stack_start : Z := USER_STACK_TOP `div` 4096 - USER_STACK_PAGES.

Lemma map_stack_ok s : space_ok s → (16 ≤ size (fa_free (falloc (vm s))))%nat →
  ∃ s', map_stack wp s = Ret s' ∧ space_ok s' ∧
    (size (fa_free (falloc (vm s))) ≤ size (fa_free (falloc (vm s'))) + 16)%nat ∧
    ∀ v, low v → view s' v = with_pages (in_pages stack_start (USER_STACK_TOP `div` 4096)) (view s) v.
Proof.
  intros Hs Hsz. unfold map_stack.
  destruct (map_each_ok (seqZ 0 USER_STACK_PAGES)
    (λ i s, v ← vaddr_new (USER_STACK_TOP - (i + 1) * 4096); ensure_mapped wp (page_of v) stack_flags s)
    stack_flags (λ xs v, page_in ((λ i, 1279 - i) <$> xs) v) s) as (s' & E & Hs' & Hc & Hv).
  - done.
  - by right.
  - done.
  - intros v. apply not_elem_of_nil.
  - intros pre x s1 Hx%elem_of_seqZ. unfold USER_STACK_PAGES in Hx.
    exists ((1279 - x) * 4096). unfold USER_STACK_TOP.
    replace (5242880 - (x + 1) * 4096) with ((1279 - x) * 4096) by lia.
    assert (((1279 - x) * 4096) `mod` 4096 = 0) as Hm by (apply Z.mod_mul; lia).
    assert (low ((1279 - x) * 4096)) as Hl by (unfold low; lia). split; [done|]. split; [done|]. split.
    + rewrite vaddr_new_ok by by left. cbn [mbind outcome_bind]. unfold page_of. by rewrite Hm, Z.sub_0_r.
    + intros v _. unfold page_in. rewrite fmap_app, elem_of_app, in_page_div. cbn [fmap list_fmap].
      by rewrite list_elem_of_singleton.
  - exists s'. split; [exact E|]. split; [done|]. split; [exact Hc|]. intros v Hlv. rewrite Hv by done. apply with_pages_ext; [|done].
    unfold page_in, in_pages. rewrite list_elem_of_fmap. change (USER_STACK_TOP `div` 4096) with 1280.
    change stack_start with 1276. change USER_STACK_PAGES with 4. split.
    + intros (y & -> & Hy%elem_of_seqZ). lia.
    + intros Hi. exists (1279 - v `div` 4096). rewrite elem_of_seqZ. lia.
Qed.

Lemma from_le_nonneg l : bytes l → 0 ≤ from_le l.
Proof. induction 1 as [|b l Hb _ IH]; cbn [from_le]; [lia|]. unfold is_byte, fits in Hb. lia. Qed.

Lemma sub_nonneg l a n : bytes l → 0 ≤ from_le (sub l a n).
Proof. intros Hl. apply from_le_nonneg. unfold sub. by apply Forall_take, Forall_drop. Qed.
End view.

(** The physical offset is set once, before any program is loaded. *)
Section offset.
Context `{Profile} {St PT : Type} `{FrameAlloc St} `{Mapper St PT} `{VirtAddrNew} (wp : bool).
Abbreviation SP := (@Space St PT).
Implicit Types (s : SP).
(** The physical map and the heap. *)
Abbreviation off s := (phys_off (vm s), heap_region (vm s)).

Lemma store_bytes_off bs : ∀ v s s', store_bytes wp v bs s = Ret s' → off s' = off s.
Proof.
  induction bs as [|b bs IH]; intros v s s'; cbn [store_bytes]; [congruence|].
  destruct (store_byte wp v b s) as [s1|] eqn:E; cbn; [|done]. intros ->%IH. revert E. unfold store_byte.
  destruct (translate v (vm s)) as [[p|]|]; cbn; [|done|done]. case_match; [done|]. by intros [= <-].
Qed.

Lemma map_page_off page frame fl (m m' : Mem St PT) r : map_page page frame fl m = Ret (r, m') → (phys_off m', heap_region m') = (phys_off m, heap_region m).
Proof.
  unfold map_page. destruct (active_mapper m) as [t|]; cbn; [|done].
  destruct (map_to page frame fl t (falloc m)) as [[ok t'] s']. by intros [= <- <-].
Qed.

Lemma ensure_mapped_off page fl s s' : ensure_mapped wp page fl s = Ret s' → off s' = off s.
Proof.
  unfold ensure_mapped. destruct (translate page (vm s)) as [[p|]|]; cbn; [congruence| |done].
  unfold vmm_alloc_frame. destruct (fa_alloc (falloc (vm s))) as [[[frame|] st]|]; cbn; [|done|done].
  destruct (map_page page frame fl _) as [[[u|e] m']|] eqn:E; cbn; [|done|done].
  apply map_page_off in E. intros ->%store_bytes_off. exact E.
Qed.

Lemma map_range_off a b fl s s' : map_range wp a b fl s = Ret s' → off s' = off s.
Proof.
  apply (for_each_same (λ s, off s)). intros pg s1 s2. destruct (vaddr_new _); cbn; [|done]. apply ensure_mapped_off.
Qed.

Lemma map_stack_off s s' : map_stack wp s = Ret s' → off s' = off s.
Proof.
  apply (for_each_same (λ s, off s)). intros pg s1 s2. destruct (vaddr_new _); cbn; [|done]. apply ensure_mapped_off.
Qed.

Lemma load_segment_off elf phoff phentsize i s s' :
  load_segment wp elf phoff phentsize i s = Ret s' → off s' = off s.
Proof.
  unfold load_segment. intros (k & _ & (p & _ & (ty & _ & E)%bind_Ret)%bind_Ret)%bind_Ret.
  destruct (negb _); [by simplify_eq|].
  do 7 (apply bind_Ret in E as (? & _ & E)). apply bind_Ret in E as (s1 & ?%map_range_off & E).
  do 2 (apply bind_Ret in E as (? & _ & E)). apply bind_Ret in E as (s2 & ?%store_bytes_off & E).
  destruct (_ <? _); [|simplify_eq; congruence].
  apply bind_Ret in E as (? & _ & ?%store_bytes_off). congruence.
Qed.

Lemma load_off elf s r s' : load wp elf s = Ret (r, s') → off s' = off s.
Proof.
  unfold load. destruct (_ <? _); [by intros [= <- <-]|]. intros (mg & _ & E)%bind_Ret.
  destruct (negb _); [by simplify_eq|]. apply bind_Ret in E as (c & _ & E). destruct (negb _); [by simplify_eq|].
  do 4 (apply bind_Ret in E as (? & _ & E)). apply bind_Ret in E as (s1 & E1 & E).
  apply bind_Ret in E as (s2 & ?%map_stack_off & [= <- <-]).
  apply (for_each_same (λ s, off s)) in E1; [congruence|]. intros ? ? ? ?%load_segment_off. done.
Qed.
End offset.

Section claims.
Context `{Profile} {St PT : Type} `{MapperOk St PT} `{VirtAddrNew} (wp : bool).
Abbreviation SP := (@Space St PT).
Implicit Types (s : SP).

(** The fields of the ELF header that [load] uses. *)
Definition e_entry (elf : list Z) : Z := from_le (sub elf 0x18 8).
Definition e_phoff (elf : list Z) : Z := from_le (sub elf 0x20 8).
Definition e_phentsize (elf : list Z) : Z := from_le (sub elf 0x36 2).
Definition e_phnum (elf : list Z) : Z := from_le (sub elf 0x38 2).

Definition load_headers (elf : list Z) : list Phdr :=
  loads elf (e_phoff elf) (e_phentsize elf) (seqZ 0 (e_phnum elf)).

(** What the user sees after [load]: the segments over the old memory, and the stack. *)
Definition loaded_view (elf : list Z) (f : Z → option Z) : Z → option Z :=
  with_pages (in_pages stack_start (USER_STACK_TOP `div` 4096)) (image_view elf (load_headers elf) f).

Lemma load_bad_magic bad s : vlen bad < 64 ∨ sub bad 0 4 ≠ ELF_MAGIC → load wp bad s = Ret (inr NotElf, s).
Proof.
  intros Hbad. unfold load. case (Z.ltb_spec (vlen bad) 64) as [|Hge]; [done|].
  change (slice bad 0 4) with (slice bad 0 (0 + 4)). rewrite slice_sub by lia. cbn [mbind outcome_bind].
  rewrite bool_decide_false; [done|]. destruct Hbad; [lia|done].
Qed.

(** Past the magic number, [load] goes by the class byte. *)
Lemma load_class elf c s : 64 ≤ vlen elf → (c = 2 → vlen elf < 2 ^ 63) → sub elf 0 4 = ELF_MAGIC → vget elf 4 = Some c →
  load wp elf s = if c =? 2 then
      s1 ← for_each (seqZ 0 (e_phnum elf)) (load_segment wp elf (e_phoff elf) (e_phentsize elf)) s;
      s2 ← map_stack wp s1; Ret (inl (mkImage (e_entry elf) USER_STACK_TOP), s2)
    else Ret (inr NotClass64, s).
Proof.
  intros Hl Hup Hm Hc. unfold load. rewrite (proj2 (Z.ltb_ge _ _)) by lia. change (slice elf 0 4) with (slice elf 0 (0 + 4)).
  rewrite slice_sub by lia. cbn [mbind outcome_bind]. rewrite Hm, bool_decide_true by done.
  rewrite (index_vget _ _ _ Hc). cbn [mbind outcome_bind negb]. case (Z.eqb_spec c 2) as [->|]; cbn [negb]; [|done].
  specialize (Hup eq_refl). rewrite !u64_at_eq, !u16_at_eq by lia. done.
Qed.

Lemma load_view elf s :
  bytes elf → 64 ≤ vlen elf < 2 ^ 63 → sub elf 0 4 = ELF_MAGIC → vget elf 4 = Some 2 →
  (∀ i, 0 ≤ i < e_phnum elf → hdr_pos (e_phoff elf) (e_phentsize elf) i + 48 ≤ vlen elf) →
  (∀ h, h ∈ load_headers elf → seg_ok wp elf h) → space_ok wp s →
  (4 * (all_pages (load_headers elf) + 4) ≤ size (fa_free (falloc (vm s))))%nat →
  ∃ s', load wp elf s = Ret (inl (mkImage (e_entry elf) USER_STACK_TOP), s') ∧ space_ok wp s' ∧
    (size (fa_free (falloc (vm s))) ≤ size (fa_free (falloc (vm s'))) + 4 * (all_pages (load_headers elf) + 4))%nat ∧
    ∀ v, low v → view s' v = loaded_view elf (view s) v.
Proof.
  intros Hb Hl Hmagic Hcl Hhdr Hsegs Hs Hsz. set (hs := load_headers elf) in *.
  destruct (load_loop_ok wp elf (e_phoff elf) (e_phentsize elf) (seqZ 0 (e_phnum elf)) s)
    as (s1 & E1 & Hs1 & Hc1 & Hv1); [by apply sub_nonneg|by apply sub_nonneg| |done|done|
      unfold hs, load_headers in Hsz; lia|].
  { intros i Hi%elem_of_seqZ. split; [lia|]. split; [|split; [apply Hhdr; lia|lia]].
    unfold hdr_pos. pose proof (sub_nonneg elf 0x20 8 Hb). pose proof (sub_nonneg elf 0x36 2 Hb).
    fold (e_phoff elf) in *. fold (e_phentsize elf) in *. nia. }
  fold (load_headers elf) in Hc1, Hv1. fold hs in Hc1.
  destruct (map_stack_ok wp s1 Hs1) as (s2 & E2 & Hs2 & Hc2 & Hv2); [lia|].
  exists s2. rewrite (load_class _ 2), E1 by (done || lia). cbn [mbind outcome_bind Z.eqb Pos.eqb]. rewrite E2.
  split; [done|]. split; [done|]. split; [fold hs; lia|]. intros v Hv. rewrite Hv2 by done. by apply with_pages_ext, Hv1.
Qed.

(** A byte the segments give, or one the memory had under no segment, keeps its value. *)
Lemma loaded_view_some elf f v : is_Some (image_view elf (load_headers elf) f v) →
  loaded_view elf f v = image_view elf (load_headers elf) f v.
Proof. intros [b Eb]. unfold loaded_view, with_pages. by rewrite Eb. Qed.

Lemma loaded_view_stack elf f v : USER_STACK_TOP - 4 * 4096 ≤ v < USER_STACK_TOP → is_Some (loaded_view elf f v).
Proof.
  unfold loaded_view, with_pages, USER_STACK_TOP. intros Hv.
  destruct (image_view _ _ _ v); [by eexists|]. rewrite decide_True; [by eexists|].
  unfold in_pages. change stack_start with 1276. change (5242880 `div` 4096) with 1280. Z.div_mod_to_equations. lia.
Qed.

Lemma loaded_view_other elf f v : ¬ (USER_STACK_TOP - 4 * 4096 ≤ v < USER_STACK_TOP) →
  loaded_view elf f v = image_view elf (load_headers elf) f v.
Proof.
  intros Hst. unfold loaded_view, with_pages. destruct (image_view _ _ _ v); [done|].
  rewrite decide_False; [done|]. unfold in_pages, USER_STACK_TOP in *. change stack_start with 1276.
  Z.div_mod_to_equations. lia.
Qed.

(** C19. A loaded program is in memory as its file says. For an ELF64 file whose program
    headers lie in the file and whose loadable segments can be placed (in the lower half,
    file size at most memory size, contents in the file, writable or with CR0.WP off), with
    four free frames for each page it touches, [load] does not fault or panic and returns
    the entry point and the stack top; in the user's view of memory every byte of a segment
    that no other segment covers is the file's byte, or zero past the file size; the
    four stack pages are mapped; every byte that was mapped and lies in no segment, and
    every page outside the segments' pages and the stack, is as before. A file that is too
    short or has another magic number or class is refused, and nothing changes. *)
Theorem load_places_image elf s :
  bytes elf → 64 ≤ vlen elf < 2 ^ 63 → sub elf 0 4 = ELF_MAGIC → vget elf 4 = Some 2 →
  (∀ i, 0 ≤ i < e_phnum elf → hdr_pos (e_phoff elf) (e_phentsize elf) i + 48 ≤ vlen elf) →
  (∀ h, h ∈ load_headers elf → seg_ok wp elf h) → space_ok wp s →
  (4 * (all_pages (load_headers elf) + 4) ≤ size (fa_free (falloc (vm s))))%nat →
  (∃ s', load wp elf s = Ret (inl (mkImage (e_entry elf) USER_STACK_TOP), s') ∧ space_ok wp s' ∧
    (∀ h i, h ∈ load_headers elf → 0 ≤ i < p_memsz h →
       (∀ h', h' ∈ load_headers elf → h' ≠ h → ¬ covers_byte h' (p_vaddr h + i)) →
       view s' (p_vaddr h + i) = if decide (i < p_filesz h) then vget elf (p_offset h + i) else Some 0) ∧
    (∀ v, USER_STACK_TOP - 4 * 4096 ≤ v < USER_STACK_TOP → is_Some (view s' v)) ∧
    (∀ v, low v → is_Some (view s v) → (∀ h, h ∈ load_headers elf → ¬ covers_byte h v) → view s' v = view s v) ∧
    (∀ v, low v → (∀ h, h ∈ load_headers elf → ¬ in_pages (seg_start h) (seg_end h) v) →
       ¬ (USER_STACK_TOP - 4 * 4096 ≤ v < USER_STACK_TOP) → view s' v = view s v)) ∧
  (∀ bad, vlen bad < 64 ∨ sub bad 0 4 ≠ ELF_MAGIC → load wp bad s = Ret (inr NotElf, s)) ∧
  (∀ bad c, 64 ≤ vlen bad → sub bad 0 4 = ELF_MAGIC → vget bad 4 = Some c → c ≠ 2 →
     load wp bad s = Ret (inr NotClass64, s)).
Proof.
  intros Hb Hl Hmagic Hcl Hhdr Hsegs Hs Hsz. split; [|split].
  - destruct (load_view elf s) as (s2 & E & Hs2 & _ & Hv2); [done..|].
    exists s2. split; [done|]. split; [done|]. split_and!.
    + intros h i Hh Hi Hother. destruct (Hsegs h Hh) as [? ? ? ? ? _].
      pose proof (image_view_seg wp elf _ (view s) h i Hsegs Hh Hi Hother) as E'.
      rewrite Hv2, loaded_view_some, E'; [done| |unfold low; lia].
      rewrite E'. case_decide; [apply vget_in; lia|by eexists].
    + intros v Hv. rewrite Hv2 by (unfold low, USER_STACK_TOP in *; lia). by apply loaded_view_stack.
    + intros v Hv Hsome Hno.
      pose proof (image_view_other wp elf _ (view s) v Hsegs Hno (or_introl Hsome)) as E'.
      by rewrite Hv2, loaded_view_some, E' by (done || by rewrite E').
    + intros v Hv Hno Hst. rewrite Hv2, loaded_view_other by done.
      apply (image_view_other wp); [done| |by right]. intros h Hh Hc. apply (Hno h Hh). by apply seg_pages_cover.
  - intros bad. apply load_bad_magic.
  - intros bad c Hlen Hm Hc Hne. rewrite (load_class bad c) by done. by rewrite (proj2 (Z.eqb_neq c 2)).
Qed.
End claims.

Section readonly.
Context `{Profile} {St PT : Type} `{MapperOk St PT} `{VirtAddrNew}.
Implicit Types (s : @Space St PT).

Lemma ensure_mapped_readonly s page fl :
  space_ok true s → page `mod` 4096 = 0 → tr s page = None → WRITABLE fl = false →
  (4 ≤ size (fa_free (falloc (vm s))))%nat → ensure_mapped true page fl s = Panic PFault.
Proof.
  intros Hs Hp Et Hw Hsz. unfold ensure_mapped. rewrite translate_tr by apply Hs. cbn [mbind outcome_bind].
  rewrite Et. destruct (so_off true s Hs) as [off Ho].
  destruct (allocate_and_map_fresh page fl (vm s) off) as (frame & m' & E & Hf); [apply Hs|done|done|done|done|].
  apply allocate_and_map_split in E as (m1 & -> & E). cbn [mbind outcome_bind expect]. rewrite E.
  cbn [mbind outcome_bind]. change (zeros 4096) with (0 :: zeros 4095). cbn [store_bytes].
  unfold store_byte. rewrite translate_tr by (cbn [vm]; rewrite (mf_off _ _ _ _ Hf); apply Hs).
  cbn [mbind outcome_bind]. unfold tr. cbn [vm wr].
  rewrite (mf_in _ _ _ _ Hf) by (unfold in_page; lia). unfold page_of. rewrite Hp, Z.sub_0_r, Z.eqb_refl, Hw.
  done.
Qed.

(** With write protection on, a segment that is not writable cannot be loaded: its
    first page is mapped read-only and then cleared through that very mapping, which
    faults. *)
Theorem readonly_segment_faults elf phoff phentsize i s :
  0 ≤ phoff → 0 ≤ phentsize → 0 ≤ i → hdr_in elf (hdr_pos phoff phentsize i) →
  let h := phdr elf (hdr_pos phoff phentsize i) in
  p_type h = PT_LOAD → Z.land (p_flags h) PF_W = 0 → 0 ≤ p_vaddr h → 0 < p_memsz h →
  p_vaddr h + p_memsz h + 4095 < 2 ^ 47 → space_ok true s → tr s (seg_start h * 4096) = None →
  (4 ≤ size (fa_free (falloc (vm s))))%nat →
  load_segment true elf phoff phentsize i s = Panic PFault.
Proof.
  intros Ho He Hi Hin h Ht Hw Hv Hm Hl Hs Et Hsz. rewrite load_segment_eq by done. fold h. rewrite Ht.
  cbn [negb Z.eqb Pos.eqb PT_LOAD].
  rewrite (checked_fits 64 (p_vaddr h + p_memsz h)) by (unfold fits; lia). cbn [mbind outcome_bind].
  rewrite checked_fits by (unfold fits; lia). cbn [mbind outcome_bind]. fold (seg_start h) (seg_end h).
  assert (0 ≤ seg_start h ∧ seg_start h < seg_end h ∧ seg_start h * 4096 < 2 ^ 47) as (? & ? & ?).
  { unfold seg_start, seg_end. Z.div_mod_to_equations. lia. }
  unfold map_range. rewrite seqZ_cons by lia. cbn [for_each].
  rewrite vaddr_new_ok by (left; lia). cbn [mbind outcome_bind].
  assert (page_of (seg_start h * 4096) = seg_start h * 4096) as ->.
  { unfold page_of. rewrite Z.mod_mul by lia. lia. }
  rewrite ensure_mapped_readonly; [done|done|apply Z.mod_mul; lia|done| |done].
  cbn [seg_flags WRITABLE]. by rewrite Hw.
Qed.
End readonly.

(** ** A small program for the witness: eight bytes at 0x400000, sixteen in memory *)

Fixpoint to_le (n : nat) (z : Z) : list Z :=
  match n with O => [] | S k => z `mod` 256 :: to_le k (z `div` 256) end.

Definition toy_elf : list Z :=
  ELF_MAGIC ++ [2; 1; 1; 0] ++ replicate 8 0 ++ to_le 2 2 ++ to_le 2 62 ++ to_le 4 1 ++
  to_le 8 0x400000 ++ to_le 8 64 ++ to_le 8 0 ++ to_le 4 0 ++ to_le 2 64 ++ to_le 2 56 ++ to_le 2 1 ++
  replicate 6 0 ++
  to_le 4 1 ++ to_le 4 7 ++ to_le 8 120 ++ to_le 8 0x400000 ++ to_le 8 0x400000 ++ to_le 8 8 ++ to_le 8 16 ++
  to_le 8 4096 ++ [0x90; 0x91; 0x92; 0x93; 0x94; 0x95; 0x96; 0x97].

Definition plain_VirtAddrNew : VirtAddrNew.
Proof. refine {| vaddr_new a := Ret a |}; done. Defined.

Definition toy_space : @Space pmm.BitmapFrameAllocator (gmap Z Z) :=
  mkSpace (mkMem sample_big (∅ : gmap Z Z) (Some 0x100000000) None) (λ _, 0xaa) (λ _, false).

Definition toy_phdr : Phdr := mkPhdr 1 7 120 0x400000 8 16.

Lemma empty_space_ok wp a off hr ph w : wf a →
  @space_ok pmm.BitmapFrameAllocator (gmap Z Z) pmm_FrameAlloc toy_Mapper wp (mkSpace (mkMem a ∅ (Some off) hr) ph w).
Proof.
  intros Ha. set (s := mkSpace _ ph w). assert (∀ v, @tr _ _ toy_Mapper s v = None) as Hn.
  { intros v. unfold tr. cbn [vm s tables translate_addr toy_Mapper]. unfold toy_translate. by rewrite lookup_empty. }
  split; [exact Ha|by eexists|..].
  - intros v1 v2 p _ _ E. rewrite Hn in E. discriminate E.
  - intros v p _ E. rewrite Hn in E. discriminate E.
  - intros v _. by rewrite !Hn.
  - intros v p _ E. rewrite Hn in E. discriminate E.
Qed.

Lemma toy_space_ok : @space_ok pmm.BitmapFrameAllocator (gmap Z Z) pmm_FrameAlloc toy_Mapper true toy_space.
Proof. apply empty_space_ok. exact wf_sample_big. Qed.

Lemma toy_headers : load_headers toy_elf = [toy_phdr].
Proof. vm_compute. reflexivity. Qed.

Lemma toy_bytes : bytes toy_elf.
Proof. apply (bool_decide_unpack _). vm_compute. exact I. Qed.

Lemma toy_headers_in i : 0 ≤ i < e_phnum toy_elf → hdr_pos (e_phoff toy_elf) (e_phentsize toy_elf) i + 48 ≤ vlen toy_elf.
Proof.
  change (e_phnum toy_elf) with 1. change (vlen toy_elf) with 128. intros Hi.
  assert (i = 0) as -> by lia. change (hdr_pos (e_phoff toy_elf) (e_phentsize toy_elf) 0) with 64. lia.
Qed.

Lemma toy_seg_ok h : h ∈ load_headers toy_elf → seg_ok true toy_elf h.
Proof.
  rewrite toy_headers. intros ->%list_elem_of_singleton. split;
    cbn [toy_phdr p_offset p_vaddr p_filesz p_memsz p_flags]; [lia|lia|lia| |lia|by right].
  change (vlen toy_elf) with 128. lia.
Qed.

Lemma load_places_image_witness :
  ∃ s', @load dev pmm.BitmapFrameAllocator (gmap Z Z) pmm_FrameAlloc toy_Mapper plain_VirtAddrNew true toy_elf toy_space =
      Ret (inl (mkImage 0x400000 0x500000), s') ∧
    @view _ _ toy_Mapper s' 0x400007 = Some 0x97 ∧ @view _ _ toy_Mapper s' 0x400008 = Some 0.
Proof.
  pose proof toy_headers as Hh.
  destruct (@load_places_image dev pmm.BitmapFrameAllocator (gmap Z Z) pmm_FrameAlloc toy_Mapper toy_MapperOk
    plain_VirtAddrNew true toy_elf toy_space) as ((s' & E & _ & Hv & _) & _).
  - exact toy_bytes.
  - change (vlen toy_elf) with 128. lia.
  - vm_compute. reflexivity.
  - vm_compute. reflexivity.
  - exact toy_headers_in.
  - exact toy_seg_ok.
  - exact toy_space_ok.
  - rewrite Hh. change (all_pages [toy_phdr]) with 1%nat.
    pose proof (size_free_addrs sample_big wf_sample_big) as Hs. rewrite sample_big_count in Hs.
    change (fa_free (falloc (vm toy_space))) with (free_addrs sample_big). lia.
  - assert (∀ h', h' ∈ load_headers toy_elf → h' ≠ toy_phdr → False) as Hone.
    { intros h'. rewrite Hh. intros Eh%list_elem_of_singleton Hne. exact (Hne Eh). }
    assert (toy_phdr ∈ load_headers toy_elf) as Hin by (rewrite Hh; left).
    exists s'. split; [exact E|]. split.
    + refine (eq_trans (Hv toy_phdr 7 Hin _ _) _); [cbn; lia| |vm_compute; reflexivity]. intros h' Hh' Hne. exact (False_ind _ (Hone h' Hh' Hne)).
    + refine (eq_trans (Hv toy_phdr 8 Hin _ _) _); [cbn; lia| |vm_compute; reflexivity]. intros h' Hh' Hne. exact (False_ind _ (Hone h' Hh' Hne)).
Defined.
