(* ===== verification/E1000.v ===== *)
(** * E1000: the network card driver (kernel/src/drivers/e1000.rs,
    kernel/src/drivers/e1000/arp.rs)

    The card is not code of the repository: its registers and its PCI
    configuration space are the class [Hw] over an abstract device state. The
    pages it shares with the driver by DMA are in [bus], byte by byte. *)

From S2P Require Import Prelude Pmm Memory Bytes.

(** Address arithmetic of the [x86_64] crate: [VirtAddr + u64] and
    [PhysAddr::new] reject what is not an address. *)
Class X86Addr := {
  vadd : Z → Z → outcome Z;
  paddr_new : Z → outcome Z;
  vadd_ok a b : 0 ≤ a → 0 ≤ b → a + b < 2 ^ 47 ∨ (2 ^ 64 - 2 ^ 47 ≤ a ∧ a + b < 2 ^ 64) →
    vadd a b = Ret (a + b);
  paddr_new_ok a : 0 ≤ a < 2 ^ 52 → paddr_new a = Ret a;
}.

Module e1000.

Definition VENDOR_INTEL : Z := 0x8086.
Definition DEVICE_E1000 : Z := 0x100e.
Definition REG_CTRL : Z := 0x0000.
Definition REG_STATUS : Z := 0x0008.
Definition REG_IMC : Z := 0x0068.
Definition REG_ICR : Z := 0x00c0.
Definition REG_RCTL : Z := 0x0100.
Definition REG_TCTL : Z := 0x0400.
Definition REG_MTA : Z := 0x2c00.
Definition REG_RAL0 : Z := 0x5400.
Definition REG_RAH0 : Z := 0x5404.
Definition REG_RDBAL : Z := 0x2800.
Definition REG_RDBAH : Z := 0x2804.
Definition REG_RDLEN : Z := 0x2808.
Definition REG_RDH : Z := 0x2810.
Definition REG_RDT : Z := 0x2818.
Definition REG_TDBAL : Z := 0x3800.
Definition REG_TDBAH : Z := 0x3804.
Definition REG_TDLEN : Z := 0x3808.
Definition REG_TDH : Z := 0x3810.
Definition REG_TDT : Z := 0x3818.

Definition CTRL_SLU : Z := Z.shiftl 1 6.
Definition CTRL_RST : Z := Z.shiftl 1 26.
Definition RCTL_EN : Z := Z.shiftl 1 1.
Definition RCTL_UPE : Z := Z.shiftl 1 2.
Definition TCTL_EN : Z := Z.shiftl 1 0.

Definition NUM_RX : Z := 8.
Definition NUM_TX : Z := 8.
Definition DESC_DD : Z := 0x01.
Definition TX_CMD : Z := 0x19.

Definition IP : list Z := [10; 0; 2; 15].
Definition GATEWAY : list Z := [10; 0; 2; 2].

Record Desc := mkDesc {
  addr : Z;
  length : Z;
  tos : Z;
  cmd : Z;
  status : Z;
  css : Z;
  offset : Z;
}.

Record Nic := mkNic {
  base : Z;
  mac : list Z;
  rx_ring : list Desc;
  rx_bufs : list (Z * Z);     (* (kernel virtual, physical) *)
  rx_cursor : Z;
  tx_ring : list Desc;
  tx_buf : Z;
  tx_buf_phys : Z;
  tx_cursor : Z;
  rx_ring_phys : Z;
  tx_ring_phys : Z;
}.

(** The card: 32-bit registers by address, configuration space by its 0xCF8
    address. Reading a register may change the card (ICR clears itself). *)
Class Hw (D : Type) := {
  reg_get : Z → D → Z * D;
  reg_set : Z → Z → D → D;
  pci_get : Z → D → Z * D;
  pci_set : Z → Z → D → D;
}.

Record World (D : Type) := mkWorld {
  nic : option Nic;
  bus : Z → Z;
  card : D;
}.
Arguments mkWorld {D} _ _ _.
Arguments nic {D} _.
Arguments bus {D} _ _.
Arguments card {D} _.

(** The bytes [l] at address [a]; reading [n] of them back. *)
Definition write_bytes (a : Z) (l : list Z) (m : Z → Z) : Z → Z :=
  λ x, match vget l (x - a) with Some b => b | None => m x end.
Definition read_bytes (a n : Z) (m : Z → Z) : list Z := m <$> seqZ a n.

Section driver.
Context {D : Type} `{Hw D} `{Profile}.

Definition write_reg (n : Nic) (off v : Z) (d : D) : D := reg_set (base n + off) v d.
Definition read_reg (n : Nic) (off : Z) (d : D) : Z * D := reg_get (base n + off) d.

Definition pci_address (b dev func off : Z) : Z :=
  Z.lor (Z.lor (Z.lor (Z.lor 0x80000000 (Z.shiftl b 16)) (Z.shiftl dev 11)) (Z.shiftl func 8))
    (Z.land off 0xfc).
Definition pci_read (b dev func off : Z) (d : D) : Z * D := pci_get (pci_address b dev func off) d.
Definition pci_write (b dev func off v : Z) (d : D) : D := pci_set (pci_address b dev func off) v d.

(** (dev, func, BAR0 base) *)
Definition find_device (d : D) : outcome (flow (Z * Z * Z * D) D) :=
  for_until (seqZ 0 32) (λ dev d,
    let '(v, d) := pci_read 0 dev 0 0x00 d in
    let vid := wrap 16 (Z.land v 0xffff) in
    if vid =? 0xffff then Ret (Next d)
    else
      let '(v, d) := pci_read 0 dev 0 0x00 d in
      let did := wrap 16 (Z.shiftr v 16) in
      if (vid =? VENDOR_INTEL) && (did =? DEVICE_E1000) then
        let '(bar, d) := pci_read 0 dev 0 0x10 d in
        let '(cmd, d) := pci_read 0 dev 0 0x04 d in
        Ret (Return (dev, 0, Z.land bar 0xfffffff0, pci_write 0 dev 0 0x04 (Z.lor cmd 0x06) d))
      else Ret (Next d)) d.

(** [send]: one frame through the transmit ring. *)
Definition send (frame : list Z) (w : World D) : outcome (bool * World D) :=
  match nic w with
  | None => Ret (false, w)
  | Some n =>
      let bus' := write_bytes (tx_buf n) frame (bus w) in
      let idx := tx_cursor n `mod` NUM_TX in
      ring ← store (tx_ring n) idx (mkDesc (tx_buf_phys n) (wrap 16 (vlen frame)) 0 TX_CMD 0 0 0);
      c ← checked 64 (tx_cursor n + 1);
      let n' := mkNic (base n) (mac n) (rx_ring n) (rx_bufs n) (rx_cursor n) ring (tx_buf n)
                  (tx_buf_phys n) c (rx_ring_phys n) (tx_ring_phys n) in
      let tail := wrap 32 (c `mod` NUM_TX) in
      Ret (true, mkWorld (Some n') bus' (write_reg n' REG_TDT tail (card w)))
  end.

Definition poll_receive (w : World D) : outcome (option (list Z) * World D) :=
  match nic w with
  | None => Ret (None, w)
  | Some n =>
      let idx := rx_cursor n `mod` NUM_RX in
      d ← index (rx_ring n) idx;
      if (Z.land (status d) DESC_DD =? 0) || (length d =? 0) then Ret (None, w)
      else
        b ← index (rx_bufs n) idx;
        let out := read_bytes (fst b) (length d) (bus w) in
        ring ← store (rx_ring n) idx (mkDesc (snd b) 0 0 0 0 0 0);
        c ← checked 64 (rx_cursor n + 1);
        let n' := mkNic (base n) (mac n) ring (rx_bufs n) c (tx_ring n) (tx_buf n)
                    (tx_buf_phys n) (tx_cursor n) (rx_ring_phys n) (tx_ring_phys n) in
        Ret (Some out, mkWorld (Some n') (bus w) (write_reg n REG_RDT (wrap 32 idx) (card w)))
  end.

Definition mac_address (w : World D) : option (list Z) := mac <$> nic w.
End driver.

(** *** Bring-up, over the memory subsystem *)
Section bringup.
Context {D : Type} `{Hw D} `{Profile}.
Context {St PT : Type} `{FrameAlloc St} `{Mapper St PT} `{X86Addr}.

Definition mmio_flags : PageTableFlags := mkFlags true true false true true.

Definition map_mmio (phys pages : Z) (m : Mem St PT) : outcome (Z * Mem St PT) :=
  off ← expect (phys_offset m);
  virt ← vadd off phys;
  m' ← for_each (seqZ 0 pages) (λ i m,
         v ← vadd virt (i * 4096);
         let page := v - v `mod` 4096 in
         t ← translate page m;
         match t with
         | Some _ => Ret m
         | None =>
             q ← checked 64 (phys + i * 4096);
             p ← paddr_new q;
             r ← map_page page (p - p `mod` 4096) mmio_flags m;
             match r with
             | (inl _, m') => Ret m'
             | (inr _, _) => Panic PUnwrap
             end
         end) m;
  Ret (virt, m').

Definition alloc_page (zero : bool) (s : (Z → Z) * Mem St PT) : outcome (Z * Z * ((Z → Z) * Mem St PT)) :=
  let '(b, m) := s in
  r ← vmm_alloc_frame m;
  let '(o, m') := r in
  phys ← expect o;
  off ← expect (phys_offset m');
  virt ← vadd off phys;
  Ret (virt, phys, (if zero then write_bytes virt (replicate 4096 0) b else b, m')).

Definition build_nic (bar : Z) (b : Z → Z) (m : Mem St PT) : outcome (Nic * (Z → Z) * Mem St PT) :=
  r ← map_mmio bar 16 m;
  let '(mmio, m) := r in
  r ← alloc_page true (b, m);
  let '(_, rx_ring_p, s) := r in
  r ← alloc_page true s;
  let '(_, tx_ring_p, s) := r in
  r ← for_each (seqZ 0 NUM_RX) (λ _ x,
        let '(bufs, s) := x in
        r ← alloc_page false s;
        let '(v, p, s') := r in
        Ret (bufs ++ [(v, p)], s')) ([], s);
  let '(bufs, s) := r in
  r ← alloc_page true s;
  let '(txb, txb_phys, (b, m)) := r in
  let ring := (λ q, mkDesc (snd q) 0 0 0 0 0 0) <$> bufs in
  Ret (mkNic mmio (replicate 6 0) ring bufs 0 (replicate 8 (mkDesc 0 0 0 0 0 0 0)) txb txb_phys 0
         rx_ring_p tx_ring_p, b, m).

Definition set_mac (l : list Z) (n : Nic) : Nic :=
  mkNic (base n) l (rx_ring n) (rx_bufs n) (rx_cursor n) (tx_ring n) (tx_buf n)
    (tx_buf_phys n) (tx_cursor n) (rx_ring_phys n) (tx_ring_phys n).

(** [for _ in 0..100_000 { if CTRL & RST == 0 { break } }] *)
Fixpoint wait_reset (fuel : nat) (n : Nic) (d : D) : D :=
  match fuel with
  | O => d
  | S k => let '(v, d') := read_reg n REG_CTRL d in
           if Z.land v CTRL_RST =? 0 then d' else wait_reset k n d'
  end.

Definition mac_of (ral rah : Z) : list Z :=
  [wrap 8 ral; wrap 8 (Z.shiftr ral 8); wrap 8 (Z.shiftr ral 16); wrap 8 (Z.shiftr ral 24);
   wrap 8 rah; wrap 8 (Z.shiftr rah 8)].

(** The register programming of [configure]; [spins] is 100_000. *)
Definition program_nic (spins : nat) (n : Nic) (d : D) : Nic * D :=
  let d := write_reg n REG_IMC 0x7fffffff d in
  let '(_, d) := read_reg n REG_ICR d in
  let '(ctrl, d) := read_reg n REG_CTRL d in
  let d := write_reg n REG_CTRL (Z.lor ctrl CTRL_RST) d in
  let d := wait_reset spins n d in
  let '(ctrl, d) := read_reg n REG_CTRL d in
  let d := write_reg n REG_CTRL (Z.lor ctrl CTRL_SLU) d in
  let '(ral, d) := read_reg n REG_RAL0 d in
  let '(rah, d) := read_reg n REG_RAH0 d in
  let n := set_mac (mac_of ral rah) n in
  let d := foldl (λ d i, write_reg n (REG_MTA + i * 4) 0 d) d (seqZ 0 128) in
  let d := write_reg n REG_RDBAL (wrap 32 (rx_ring_phys n)) d in
  let d := write_reg n REG_RDBAH 0 d in
  let d := write_reg n REG_RDLEN (wrap 32 (NUM_RX * 16)) d in
  let d := write_reg n REG_RDH 0 d in
  let d := write_reg n REG_RDT (NUM_RX - 1) d in
  let d := write_reg n REG_RCTL (Z.lor RCTL_EN RCTL_UPE) d in
  let d := write_reg n REG_TDBAL (wrap 32 (tx_ring_phys n)) d in
  let d := write_reg n REG_TDBAH 0 d in
  let d := write_reg n REG_TDLEN (wrap 32 (NUM_TX * 16)) d in
  let d := write_reg n REG_TCTL TCTL_EN d in
  let d := write_reg n REG_TDH 0 d in
  let d := write_reg n REG_TDT 0 d in
  let '(_, d) := read_reg n REG_STATUS d in
  (n, d).

Definition configure (spins : nat) (bar : Z) (w : World D) (m : Mem St PT)
    : outcome (World D * Mem St PT) :=
  r ← build_nic bar (bus w) m;
  let '(n, b, m') := r in
  let '(n', d) := program_nic spins n (card w) in
  Ret (mkWorld (Some n') b d, m').

Definition init (spins : nat) (w : World D) (m : Mem St PT) : outcome (World D * Mem St PT) :=
  r ← find_device (card w);
  match r with
  | Next d => Ret (mkWorld (nic w) (bus w) d, m)
  | Return (dev, func, bar, d) =>
      let '(_, d) := pci_read 0 dev func 0x04 d in
      configure spins bar (mkWorld (nic w) (bus w) d) m
  end.
End bringup.

(** *** e1000/arp.rs *)

Definition arp_request (mac : list Z) (target : list Z) : list Z :=
  replicate 6 0xff ++ mac ++ [0x08; 0x06] ++ [0x00; 0x01] ++ [0x08; 0x00] ++ [6] ++ [4] ++
  [0x00; 0x01] ++ mac ++ IP ++ replicate 6 0 ++ target.

(** Short-circuits like [&&]: an index is only evaluated on a long enough frame. *)
Definition is_arp_reply (frame : list Z) : outcome bool :=
  if negb (42 <=? vlen frame) then Ret false
  else
    a ← index frame 12;
    if negb (a =? 0x08) then Ret false
    else
      b ← index frame 13;
      if negb (b =? 0x06) then Ret false
      else c ← index frame 21; Ret (c =? 0x02).

End e1000.
Import e1000.

(** Reduce the projections of the driver's records, and nothing else. *)
Ltac nic_simpl :=
  cbn [nic bus card base mac rx_ring rx_bufs rx_cursor tx_ring tx_buf tx_buf_phys tx_cursor
       rx_ring_phys tx_ring_phys addr length tos cmd status css offset fst snd].

(** ** Shared pages *)

Lemma write_bytes_in a l m i b : vget l i = Some b → write_bytes a l m (a + i) = b.
Proof. intros Hi. unfold write_bytes. by rewrite Z.add_simpl_l, Hi. Qed.

Lemma write_bytes_out a l m x : ¬ (a ≤ x < a + vlen l) → write_bytes a l m x = m x.
Proof. intros Hx. unfold write_bytes. by rewrite (proj2 (vget_None _ _)) by lia. Qed.

Lemma vget_read_bytes a n m i : 0 ≤ i < n → vget (read_bytes a n m) i = Some (m (a + i)).
Proof.
  intros Hi. unfold read_bytes. apply vget_Some. split; [lia|].
  rewrite list_lookup_fmap, lookup_seqZ_lt by lia. simpl. do 2 f_equal. lia.
Qed.

Lemma vlen_read_bytes a n m : 0 ≤ n → vlen (read_bytes a n m) = n.
Proof. intros. unfold read_bytes, vlen. rewrite length_fmap, length_seqZ. lia. Qed.

Lemma read_bytes_ext a n m m' :
  (∀ x, a ≤ x < a + n → m x = m' x) → read_bytes a n m = read_bytes a n m'.
Proof.
  intros He. apply list_fmap_ext. intros i x [-> Hx]%lookup_seqZ. apply He. lia.
Qed.

Lemma read_write_bytes a l m : read_bytes a (vlen l) (write_bytes a l m) = l.
Proof.
  pose proof (vlen_nonneg l). apply vget_ext; [by apply vlen_read_bytes|].
  intros i. rewrite vlen_read_bytes by done. intros Hi. rewrite vget_read_bytes by done.
  destruct (vget_in l i Hi) as [b Hb]. by rewrite (write_bytes_in _ _ _ _ _ Hb).
Qed.

Lemma succ_mod_ne a n : 1 < n → (a + 1) `mod` n ≠ a `mod` n.
Proof.
  intros Hn He. pose proof (Z.div_mod (a + 1) n ltac:(lia)). pose proof (Z.div_mod a n ltac:(lia)).
  rewrite He in *. assert (n * ((a + 1) `div` n - a `div` n) = 1) as Hx by lia.
  apply Z.eq_mul_1 in Hx. lia.
Qed.

Lemma store_ok {A} (l : list A) i x : 0 ≤ i < vlen l → store l i x = Ret (vset l i x).
Proof. intros. unfold store. by rewrite bool_decide_true. Qed.

(** ** Transmitting *)

Section transmit.
Context {D : Type} `{Hw D} `{Profile}.
Implicit Types (w : World D).

Definition tx_ok (n : Nic) : Prop := vlen (tx_ring n) = NUM_TX ∧ fits 64 (tx_cursor n + 1) ∧ 0 ≤ tx_cursor n.

(** The NIC after it has been handed a frame. *)
Definition tx_pushed (frame : list Z) (n : Nic) : Nic :=
  mkNic (base n) (mac n) (rx_ring n) (rx_bufs n) (rx_cursor n)
    (vset (tx_ring n) (tx_cursor n `mod` NUM_TX)
       (mkDesc (tx_buf_phys n) (wrap 16 (vlen frame)) 0 TX_CMD 0 0 0))
    (tx_buf n) (tx_buf_phys n) (tx_cursor n + 1) (rx_ring_phys n) (tx_ring_phys n).

Lemma send_eq frame w n : nic w = Some n → tx_ok n →
  send frame w = Ret (true, mkWorld (Some (tx_pushed frame n))
    (write_bytes (tx_buf n) frame (bus w))
    (reg_set (base n + REG_TDT) ((tx_cursor n + 1) `mod` NUM_TX) (card w))).
Proof.
  intros Hn (Hl & Hc & Hz). unfold send. rewrite Hn.
  pose proof (Z.mod_pos_bound (tx_cursor n) NUM_TX ltac:(done)).
  pose proof (Z.mod_pos_bound (tx_cursor n + 1) NUM_TX ltac:(done)).
  rewrite store_ok by lia. cbn [mbind outcome_bind]. rewrite checked_fits by done.
  cbn [mbind outcome_bind]. rewrite (wrap_small 32) by (unfold fits, NUM_TX in *; lia). done.
Qed.

(** [send] hands the card the frame it was given: if the frame fits the 4096-byte
    transmit page, the descriptor it queues has its exact length and
    points at that page, the page holds the frame and nothing outside the page
    changes, and the tail register is moved one past the descriptor. *)
Theorem send_queues_frame frame w n :
  nic w = Some n → tx_ok n → vlen frame ≤ 4096 →
  ∃ w' n' d, send frame w = Ret (true, w') ∧ nic w' = Some n' ∧
    vget (tx_ring n') (tx_cursor n `mod` NUM_TX) = Some d ∧
    addr d = tx_buf_phys n ∧ cmd d = TX_CMD ∧ status d = 0 ∧
    read_bytes (tx_buf n) (length d) (bus w') = frame ∧
    (∀ x, ¬ (tx_buf n ≤ x < tx_buf n + 4096) → bus w' x = bus w x) ∧
    card w' = reg_set (base n + REG_TDT) ((tx_cursor n + 1) `mod` NUM_TX) (card w).
Proof.
  intros Hn Hok Hlen. rewrite (send_eq _ _ _ Hn Hok). destruct Hok as (Hl & _ & _).
  eexists _, _, _. split; [done|]. split; [done|].
  pose proof (Z.mod_pos_bound (tx_cursor n) NUM_TX ltac:(done)). pose proof (vlen_nonneg frame).
  split; [cbn [tx_ring tx_pushed]; apply vget_vset_eq; lia|]. split_and!; try done.
  - cbn [length bus]. rewrite wrap_small by (unfold fits; lia). apply read_write_bytes.
  - intros x Hx. apply write_bytes_out. lia.
Qed.

(** Two frames queued one after the other share one buffer: the descriptor of the
    first still belongs to the card, but the page it points at already holds
    the second frame. *)
Theorem tx_frames_alias f g w n :
  nic w = Some n → tx_ok n → fits 64 (tx_cursor n + 2) → vlen f ≤ 4096 → vlen g ≤ 4096 →
  ∃ w1 w2 n2 d, send f w = Ret (true, w1) ∧ send g w1 = Ret (true, w2) ∧ nic w2 = Some n2 ∧
    vget (tx_ring n2) (tx_cursor n `mod` NUM_TX) = Some d ∧
    addr d = tx_buf_phys n ∧ length d = vlen f ∧ status d = 0 ∧
    read_bytes (tx_buf n) (vlen g) (bus w2) = g.
Proof.
  intros Hn Hok Hc Hf Hg. rewrite (send_eq _ _ _ Hn Hok). destruct Hok as (Hl & _ & Hz).
  set (w1 := mkWorld _ _ _). assert (tx_ok (tx_pushed f n)) as Hok1.
  { unfold tx_ok. cbn. rewrite vlen_vset. replace (tx_cursor n + 1 + 1) with (tx_cursor n + 2) by lia.
    split_and!; [done..|lia]. }
  exists w1. rewrite (send_eq g w1 (tx_pushed f n) eq_refl Hok1).
  eexists _, _, _. split; [done|]. split; [done|]. split; [done|].
  pose proof (Z.mod_pos_bound (tx_cursor n) NUM_TX ltac:(done)). pose proof (vlen_nonneg f).
  assert ((tx_cursor n + 1) `mod` NUM_TX ≠ tx_cursor n `mod` NUM_TX) as Hne by (by apply succ_mod_ne).
  split; [cbn [tx_pushed tx_ring tx_cursor]; rewrite vget_vset_ne by done; apply vget_vset_eq; lia|].
  split_and!; try done.
  - cbn [length]. apply wrap_small. unfold fits. lia.
  - apply read_write_bytes.
Qed.

(** Nothing bounds the frame by the page: of a frame longer than 4096 bytes, [send]
    writes the bytes past the end of the transmit page into whatever memory
    follows it. *)
Theorem send_overruns_page frame w n i b :
  nic w = Some n → tx_ok n → 4096 ≤ i → vget frame i = Some b →
  ∃ w', send frame w = Ret (true, w') ∧ bus w' (tx_buf n + i) = b.
Proof.
  intros Hn Hok Hi Hb. rewrite (send_eq _ _ _ Hn Hok). eexists. split; [done|].
  by apply write_bytes_in.
Qed.
End transmit.

(** ** Receiving

    What the card does when a frame arrives, as its manual has it. With the RCTL that [configure]
    writes, long packet reception is off and a buffer has 2 KiB: a frame longer than 1522 bytes is
    discarded, any other fits one buffer. It takes the
    descriptor at the card's head, unless the head has reached the tail register (then the
    frame is dropped); the card copies the frame to the buffer, and marks the descriptor
    done. [rdt] is the tail register. *)
Section receive.
Context {D : Type} `{Hw D} `{Profile} (rdt : D → Z) (mmio : Z).
Hypothesis rdt_set : ∀ v d, rdt (reg_set (mmio + REG_RDT) v d) = v.

Definition LONGEST_FRAME : Z := 1522.

Definition rx_arrive (head : Z) (frame : list Z) (w : World D) : Z * World D :=
  match nic w with
  | None => (head, w)
  | Some n =>
      if LONGEST_FRAME <? vlen frame then (head, w)
      else let i := head `mod` NUM_RX in
      if i =? rdt (card w) then (head, w)
      else
        match vget (rx_bufs n) i with
        | None => (head, w)
        | Some b =>
            let ring := vset (rx_ring n) i (mkDesc (snd b) (vlen frame) 0 0 DESC_DD 0 0) in
            (head + 1,
             mkWorld (Some (mkNic (base n) (mac n) ring (rx_bufs n) (rx_cursor n) (tx_ring n)
                              (tx_buf n) (tx_buf_phys n) (tx_cursor n) (rx_ring_phys n) (tx_ring_phys n)))
               (write_bytes (fst b) frame (bus w)) (card w))
        end
  end.

(** The receive ring holds the frames [q], oldest first; the card writes at [head]. *)
Record rx_queue (head : Z) (q : list (list Z)) (w : World D) (n : Nic) : Prop := {
  rq_nic : nic w = Some n;
  rq_base : base n = mmio;
  rq_ring : vlen (rx_ring n) = NUM_RX;
  rq_bufs : vlen (rx_bufs n) = NUM_RX;
  rq_apart i j b c : vget (rx_bufs n) i = Some b → vget (rx_bufs n) j = Some c → i ≠ j →
    fst b + 4096 ≤ fst c ∨ fst c + 4096 ≤ fst b;
  rq_cursor : 0 ≤ rx_cursor n;
  rq_head : head = rx_cursor n + vlen q;
  rq_len : vlen q < NUM_RX;
  rq_tail : rdt (card w) = (rx_cursor n - 1) `mod` NUM_RX;
  rq_full i f : vget q i = Some f →
    0 < vlen f ≤ 4096 ∧
    ∃ b d, vget (rx_bufs n) ((rx_cursor n + i) `mod` NUM_RX) = Some b ∧
      vget (rx_ring n) ((rx_cursor n + i) `mod` NUM_RX) = Some d ∧
      status d = DESC_DD ∧ length d = vlen f ∧ read_bytes (fst b) (vlen f) (bus w) = f;
  rq_empty i : vlen q ≤ i < NUM_RX →
    ∃ d, vget (rx_ring n) ((rx_cursor n + i) `mod` NUM_RX) = Some d ∧ status d = 0;
}.

Lemma mod8_apart c i j : 0 ≤ i < NUM_RX → 0 ≤ j < NUM_RX →
  (c + i) `mod` NUM_RX = (c + j) `mod` NUM_RX → i = j.
Proof.
  unfold NUM_RX. intros Hi Hj He.
  pose proof (Z.div_mod (c + i) 8 ltac:(lia)). pose proof (Z.div_mod (c + j) 8 ltac:(lia)).
  rewrite He in *. lia.
Qed.

Lemma mod8_bound x : 0 ≤ x `mod` NUM_RX < NUM_RX.
Proof. by apply Z.mod_pos_bound. Qed.

(** Taking the oldest frame. *)
Lemma poll_pops head f q w n :
  rx_queue head (f :: q) w n → fits 64 (rx_cursor n + 1) →
  ∃ w' n', poll_receive w = Ret (Some f, w') ∧ rx_queue head q w' n'.
Proof.
  intros [Hn Hb Hlr Hlb Hap Hc Hh Hl Ht Hf He] Hc1. rewrite vlen_cons in *.
  destruct (Hf 0 f) as (Hlf & b & d & Eb & Ed & Es & Elen & Er).
  { rewrite <- (Z.add_0_l 0). by apply (vget_nat (f :: q) 0). }
  rewrite Z.add_0_r in Eb, Ed. pose proof (mod8_bound (rx_cursor n)) as Hm.
  unfold poll_receive. rewrite Hn, (index_vget _ _ _ Ed). cbn [mbind outcome_bind].
  rewrite Es, Elen, (proj2 (Z.eqb_neq (vlen f) 0)) by lia.
  change (Z.land DESC_DD DESC_DD =? 0) with false. cbn [orb].
  rewrite (index_vget _ _ _ Eb). cbn [mbind outcome_bind]. rewrite store_ok by lia.
  cbn [mbind outcome_bind]. rewrite checked_fits by done. cbn [mbind outcome_bind]. rewrite Er.
  eexists _, _. split; [done|]. eapply Build_rx_queue; [reflexivity|..]; nic_simpl; try done.
  - by rewrite vlen_vset.
  - lia.
  - lia.
  - lia.
  - unfold write_reg. rewrite Hb, rdt_set, wrap_small by (unfold fits, NUM_RX in *; lia).
    f_equal. lia.
  - intros i g Hg. pose proof (vget_lt _ _ _ Hg). rewrite <- (vget_cons_succ f) in Hg by lia.
    destruct (Hf _ _ Hg) as (? & b' & d' & Eb' & Ed' & ?). split; [done|]. exists b', d'.
    replace (rx_cursor n + 1 + i) with (rx_cursor n + (i + 1)) by lia. split; [done|].
    split; [|done]. rewrite vget_vset_ne; [done|]. intros Hx.
    rewrite <- (Z.add_0_r (rx_cursor n)) in Hx at 1. apply mod8_apart in Hx; lia.
  - intros i Hi. replace (rx_cursor n + 1 + i) with (rx_cursor n + (i + 1)) by lia.
    destruct (decide (i + 1 < NUM_RX)).
    + destruct (He (i + 1)) as (d' & Ed' & ?); [lia|]. exists d'. split; [|done].
      rewrite vget_vset_ne; [done|]. intros Hx.
      rewrite <- (Z.add_0_r (rx_cursor n)) in Hx at 1. pose proof (vlen_nonneg q).
      apply mod8_apart in Hx; lia.
    + replace (rx_cursor n + (i + 1)) with (rx_cursor n + 1 * NUM_RX) by lia.
      rewrite Z.mod_add by done. rewrite vget_vset_eq by lia. eexists. split; done.
Qed.

Lemma poll_empty head w n : rx_queue head [] w n → poll_receive w = Ret (None, w).
Proof.
  intros [Hn _ _ _ _ _ _ _ _ _ He]. destruct (He 0) as (d & Ed & Es); [done|].
  rewrite Z.add_0_r in Ed. unfold poll_receive. rewrite Hn, (index_vget _ _ _ Ed).
  cbn [mbind outcome_bind]. by rewrite Es.
Qed.

(** Whether a frame finds a place. *)
Definition refused (q : list (list Z)) (f : list Z) : bool := (vlen q =? NUM_RX - 1) || (LONGEST_FRAME <? vlen f).

(** A frame comes in: it joins the queue, unless seven are waiting or it is too long. *)
Lemma arrive_pushes head q w n f :
  rx_queue head q w n → 0 < vlen f →
  ∃ n', let '(head', w') := rx_arrive head f w in
    rx_queue head' (if refused q f then q else q ++ [f]) w' n'.
Proof.
  intros Hq Hlf0. unfold refused. destruct (Z.ltb_spec LONGEST_FRAME (vlen f)) as [Hlong|Hshort].
  { exists n. unfold rx_arrive. rewrite (rq_nic _ _ _ _ Hq), (proj2 (Z.ltb_lt _ _) Hlong), orb_true_r. done. }
  assert (0 < vlen f ≤ 4096) as Hlf by (unfold LONGEST_FRAME in Hshort; lia). rewrite orb_false_r. pose proof Hq as [Hn Hb Hlr Hlb Hap Hc Hh Hl Ht Hf He].
  unfold rx_arrive. rewrite Hn, (proj2 (Z.ltb_ge _ _) Hshort). pose proof (vlen_nonneg q) as Hq0.
  assert ((rx_cursor n - 1) `mod` NUM_RX = (rx_cursor n + 7) `mod` NUM_RX) as E7.
  { rewrite <- (Z.mod_add (rx_cursor n - 1) 1) by done. f_equal. unfold NUM_RX. lia. }
  rewrite Ht, Hh, E7. case (Z.eqb_spec (vlen q) (NUM_RX - 1)) as [Hs|Hs].
  { exists n. rewrite Hs. change (NUM_RX - 1) with 7. rewrite Z.eqb_refl.
    change 7 with (NUM_RX - 1). rewrite <- Hs, <- Hh. done. }
  set (i := (rx_cursor n + vlen q) `mod` NUM_RX). pose proof (mod8_bound (rx_cursor n + vlen q)) as Hi.
  fold i in Hi. assert (i ≠ (rx_cursor n + 7) `mod` NUM_RX) as Hi7.
  { intros Hx. apply mod8_apart in Hx; unfold NUM_RX in *; lia. }
  rewrite (proj2 (Z.eqb_neq i _) Hi7). destruct (vget_in (rx_bufs n) i) as [b Eb]; [lia|]. rewrite Eb.
  assert (∀ j, 0 ≤ j < NUM_RX → (rx_cursor n + j) `mod` NUM_RX = i → j = vlen q) as Hij.
  { intros j Hj Hx. apply mod8_apart in Hx; lia. }
  eexists. eapply Build_rx_queue; [reflexivity|..]; nic_simpl; try done.
  - by rewrite vlen_vset.
  - rewrite vlen_app. change (vlen [f]) with 1. lia.
  - rewrite vlen_app. change (vlen [f]) with 1. unfold NUM_RX in *. lia.
  - intros j g Hg. pose proof (vget_lt _ _ _ Hg) as Hj. rewrite vlen_app in Hj.
    change (vlen [f]) with 1 in Hj. destruct (decide (j = vlen q)) as [->|Hjq].
    + rewrite vget_snoc in Hg. injection Hg as <-. split; [done|].
      exists b. eexists. split; [done|]. split; [apply vget_vset_eq; lia|]. nic_simpl.
      split_and!; [done..|apply read_write_bytes].
    + rewrite vget_app_l in Hg by lia. destruct (Hf _ _ Hg) as (? & b' & d' & Eb' & Ed' & Es' & El' & Er').
      split; [done|]. exists b', d'. split; [done|]. assert (i ≠ (rx_cursor n + j) `mod` NUM_RX) as Hne.
      { intros Hx. symmetry in Hx. apply Hij in Hx; lia. }
      split; [by rewrite vget_vset_ne|]. split_and!; [done..|].
      rewrite <- Er' at 2. apply read_bytes_ext. intros x Hx. apply write_bytes_out.
      destruct (Hap _ _ _ _ Eb Eb' Hne); lia.
  - intros j Hj. rewrite vlen_app in Hj. change (vlen [f]) with 1 in Hj.
    destruct (He j) as (d & Ed & ?); [lia|]. exists d. split; [|done].
    rewrite vget_vset_ne; [done|]. intros Hx. symmetry in Hx. apply Hij in Hx; lia.
Qed.

(** C27. The receive ring is a bounded first-in first-out queue. Between the card and
    [poll_receive], the 8-descriptor ring behaves as a queue of at most seven frames:
    an arriving frame joins the back (or is dropped, when seven wait or it has more than
    1522 bytes, with the receiver programmed as the driver does), a poll
    takes the front frame, byte for byte, and gives its buffer back to the card,
    and a poll of an empty queue returns [None] and changes nothing. *)
Theorem rx_ring_is_queue head q w n :
  rx_queue head q w n → fits 64 (rx_cursor n + 1) →
  (match q with
   | [] => poll_receive w = Ret (None, w)
   | f :: q' => ∃ w' n', poll_receive w = Ret (Some f, w') ∧ rx_queue head q' w' n'
   end) ∧
  ∀ f, 0 < vlen f →
    ∃ n', let '(head', w') := rx_arrive head f w in
      rx_queue head' (if (vlen q =? NUM_RX - 1) || (LONGEST_FRAME <? vlen f) then q else q ++ [f]) w' n'.
Proof.
  intros Hq Hc. split; [|intros f Hf; by apply (arrive_pushes head q w n f)].
  destruct q; [by eapply poll_empty|by eapply poll_pops].
Qed.
End receive.

(** ** A concrete card: its registers remember what is written *)

#[global] Instance plain_Hw : Hw (Z → Z) := {|
  reg_get a d := (d a, d);
  reg_set a v d := λ x, if x =? a then v else d x;
  pci_get a d := (d a, d);
  pci_set a v d := λ x, if x =? a then v else d x;
|}.

Definition sample_nic : Nic :=
  mkNic 0xf000 [0x52; 0x54; 0; 0x12; 0x34; 0x56]
    ((λ i, mkDesc (0x20000 + i * 4096) 0 0 0 0 0 0) <$> seqZ 0 8)
    ((λ i, (0x80020000 + i * 4096, 0x20000 + i * 4096)) <$> seqZ 0 8) 0
    (replicate 8 (mkDesc 0 0 0 0 0 0 0)) 0x80030000 0x30000 0 0x10000 0x11000.

Definition sample_world : World (Z → Z) :=
  mkWorld (Some sample_nic) (λ _, 0) (λ x, if x =? 0xf000 + REG_RDT then 7 else 0).

Lemma sample_tx_ok : tx_ok sample_nic.
Proof. by unfold tx_ok. Qed.

Lemma send_queues_frame_witness :
  ∃ w' n' d, @send _ _ dev [1; 2; 3] sample_world = Ret (true, w') ∧ nic w' = Some n' ∧
    vget (tx_ring n') 0 = Some d ∧ read_bytes 0x80030000 (length d) (bus w') = [1; 2; 3].
Proof.
  destruct (@send_queues_frame _ _ dev [1; 2; 3] sample_world sample_nic)
    as (w' & n' & d & E & Hn & Hd & _ & _ & _ & Hr & _); [done|apply sample_tx_ok|done|].
  exists w', n', d. split; [exact E|]. split; [exact Hn|]. split; [exact Hd|exact Hr].
Defined.

Lemma tx_frames_alias_witness :
  ∃ w1 w2 n2 d, @send _ _ dev [1; 2; 3] sample_world = Ret (true, w1) ∧
    @send _ _ dev [7; 8; 9] w1 = Ret (true, w2) ∧ nic w2 = Some n2 ∧
    vget (tx_ring n2) 0 = Some d ∧ read_bytes 0x80030000 3 (bus w2) = [7; 8; 9].
Proof.
  destruct (@tx_frames_alias _ _ dev [1; 2; 3] [7; 8; 9] sample_world sample_nic)
    as (w1 & w2 & n2 & d & E1 & E2 & Hn & Hd & _ & _ & _ & Hr);
    [done|apply sample_tx_ok|done|done|done|].
  exists w1, w2, n2, d. split; [exact E1|]. split; [exact E2|]. split; [exact Hn|].
  split; [exact Hd|exact Hr].
Defined.

Lemma send_overruns_page_witness :
  ∃ w', @send _ _ dev (replicate 4138 0xaa) sample_world = Ret (true, w') ∧
    bus w' (0x80030000 + 4137) = 0xaa.
Proof.
  apply (@send_overruns_page _ _ dev (replicate 4138 0xaa) sample_world sample_nic 4137 0xaa);
    [done|apply sample_tx_ok|done|by vm_compute].
Defined.

Definition plain_rdt (d : Z → Z) : Z := d (0xf000 + REG_RDT).

Lemma plain_rdt_set v d : plain_rdt (reg_set (0xf000 + REG_RDT) v d) = v.
Proof. reflexivity. Qed.

Lemma sample_rx_queue : rx_queue plain_rdt 0xf000 0 [] sample_world sample_nic.
Proof.
  assert (∀ i b, vget (rx_bufs sample_nic) i = Some b →
    0 ≤ i < 8 ∧ b = (0x80020000 + i * 4096, 0x20000 + i * 4096)) as Hb.
  { intros i b [Hi Hl]%vget_Some. cbn [rx_bufs sample_nic] in Hl. rewrite list_lookup_fmap in Hl.
    apply fmap_Some in Hl as (x & [-> Hx]%lookup_seqZ & ->). split; [lia|]. f_equal; lia. }
  constructor; try done.
  - intros i j b c [Hi ->]%Hb [Hj ->]%Hb Hne. nic_simpl. lia.
  - intros i f Hf. apply vget_lt in Hf. unfold vlen in Hf. simpl in Hf. lia.
  - intros i Hi. change (0 ≤ i < NUM_RX) in Hi. pose proof (mod8_bound (0 + i)) as Hm.
    exists (mkDesc (0x20000 + ((0 + i) `mod` NUM_RX) * 4096) 0 0 0 0 0 0). split; [|done].
    apply vget_Some. split; [apply Hm|]. cbn [rx_ring sample_nic rx_cursor]. rewrite list_lookup_fmap.
    rewrite lookup_seqZ_lt by (unfold NUM_RX in *; lia). simpl. do 2 f_equal. lia.
Qed.

Lemma rx_ring_is_queue_witness :
  @poll_receive _ _ dev sample_world = Ret (None, sample_world) ∧
  ∃ n', let '(head', w') := rx_arrive plain_rdt 0 [1; 2; 3] sample_world in
    rx_queue plain_rdt 0xf000 head' [[1; 2; 3]] w' n'.
Proof.
  destruct (@rx_ring_is_queue _ plain_Hw dev plain_rdt 0xf000 plain_rdt_set 0 [] sample_world
    sample_nic) as [Hp Ha]; [apply sample_rx_queue|done|].
  split; [exact Hp|]. apply (Ha [1; 2; 3]). done.
Defined.

(** ** The pages the driver takes *)

Section bringup_pages.
Context {St PT : Type} `{MapperOk St PT} `{X86Addr} `{Profile}.
Implicit Types (m : Mem St PT) (F : gset Z).

(** The physical map starts at a canonical address and has room for 8 GiB. *)
Definition offset_ok (off : Z) : Prop :=
  0 ≤ off ∧ (off + 2 ^ 33 < 2 ^ 47 ∨ (2 ^ 64 - 2 ^ 47 ≤ off ∧ off + 2 ^ 33 < 2 ^ 64)).

Lemma vadd_phys off p : offset_ok off → 0 ≤ p < 2 ^ 33 → vadd off p = Ret (off + p).
Proof. intros [? ?] ?. apply vadd_ok; lia. Qed.

(** [got] is what has been taken from the free set [F], in order. *)
Record taken (off : Z) (F : gset Z) (got : list Z) (m : Mem St PT) : Prop := {
  tk_wf : fa_wf (falloc m);
  tk_off : phys_off m = Some off;
  tk_nodup : NoDup got;
  tk_from p : p ∈ got → p ∈ F;
  tk_left : fa_free (falloc m) = F ∖ list_to_set got;
  tk_range p : p ∈ F → ∃ f, 0 ≤ f < 2 ^ 18 ∧ p = f * 4096;
}.

Lemma alloc_page_takes off F got z b m :
  offset_ok off → taken off F got m → (List.length got < size F)%nat →
  ∃ p b' m', alloc_page z (b, m) = Ret (off + p, p, (b', m')) ∧ taken off F (got ++ [p]) m'.
Proof.
  intros Hoff [Hw Ho Hnd Hfrom Hleft Hr] Hsz. unfold alloc_page, vmm_alloc_frame.
  destruct (fa_alloc_law _ Hw) as [(p & s' & -> & Hw' & Hin & Hf)|[_ He]].
  2:{ assert (F ⊆ list_to_set got) as Hsub.
      { intros x Hx. destruct (decide (x ∈ (list_to_set got : gset Z))); [done|].
        assert (x ∈ fa_free (falloc m)) as Hxf by (rewrite Hleft; by apply elem_of_difference).
        rewrite He in Hxf. by apply not_elem_of_empty in Hxf. }
      apply subseteq_size in Hsub. rewrite size_list_to_set in Hsub by done. lia. }
  cbn [mbind outcome_bind fst snd expect]. unfold phys_offset. cbn [phys_off set_falloc]. rewrite Ho.
  cbn [mbind outcome_bind expect]. rewrite Hleft in Hin, Hf. apply elem_of_difference in Hin as [HpF Hpg].
  rewrite elem_of_list_to_set in Hpg. destruct (Hr p HpF) as (f & Hfr & Hpf).
  rewrite (vadd_phys off p) by (done || lia). cbn [mbind outcome_bind].
  eexists p, _, _. split; [done|]. constructor; cbn [falloc phys_off set_falloc]; try done.
  - apply NoDup_app. split_and!; [done| |apply NoDup_singleton].
    intros x Hx Hxp. apply list_elem_of_singleton in Hxp. congruence.
  - intros x. rewrite elem_of_app, list_elem_of_singleton. intros [?| ->]; auto.
  - rewrite Hf, list_to_set_app_L. apply set_eq. intros x.
    rewrite !elem_of_difference, elem_of_union, !elem_of_list_to_set, list_elem_of_singleton,
      elem_of_singleton. tauto.
Qed.

(** Mapping the registers costs at most three table frames a page. *)
Lemma map_mmio_maps off bar m :
  offset_ok off → 0 ≤ bar < 2 ^ 32 → fa_wf (falloc m) → phys_off m = Some off →
  (48 ≤ size (fa_free (falloc m)))%nat →
  ∃ m', map_mmio bar 16 m = Ret (off + bar, m') ∧ fa_wf (falloc m') ∧ phys_off m' = Some off ∧
    fa_free (falloc m') ⊆ fa_free (falloc m) ∧
    (size (fa_free (falloc m)) ≤ size (fa_free (falloc m')) + 48)%nat.
Proof.
  intros Hoff Hbar Hw Ho Hsz. unfold map_mmio, phys_offset. rewrite Ho. cbn [mbind outcome_bind expect].
  rewrite vadd_phys by (done || lia). cbn [mbind outcome_bind].
  match goal with |- context [for_each _ ?body m] =>
  destruct (for_each_split (λ pre m', fa_wf (falloc m') ∧ phys_off m' = Some off ∧
    fa_free (falloc m') ⊆ fa_free (falloc m) ∧
    (size (fa_free (falloc m)) ≤ size (fa_free (falloc m')) + 3 * List.length pre)%nat)
    body (seqZ 0 16) [] m) as (m' & -> & Hw' & Ho' & Hsub & Hcost) end.
  - split_and!; [done..|cbn; lia].
  - intros pre i m1 suf Hsplit (Hw1 & Ho1 & Hs1 & Hc1). pose proof (seqZ_split _ _ _ _ _ Hsplit) as [Hi _].
    assert (List.length pre < 16)%nat as Hpre.
    { apply (f_equal List.length) in Hsplit. rewrite !length_app, length_seqZ in Hsplit.
      cbn [List.length] in Hsplit. lia. }
    assert (vadd (off + bar) (i * 4096) = Ret (off + bar + i * 4096)) as ->.
    { destruct Hoff. apply vadd_ok; lia. }
    cbn [mbind outcome_bind]. set (v := off + bar + i * 4096). unfold translate, active_mapper, phys_offset.
    rewrite Ho1. cbn [mbind outcome_bind expect]. rewrite length_app. cbn [List.length].
    destruct (translate_addr (tables m1) (v - v `mod` 4096)) eqn:Et; cbn [mbind outcome_bind].
    { eexists. split; [done|]. split_and!; [done..|lia]. }
    rewrite checked_fits by (unfold fits; lia). cbn [mbind outcome_bind].
    rewrite paddr_new_ok by lia. cbn [mbind outcome_bind].
    unfold map_page, active_mapper, phys_offset. rewrite Ho1. cbn [mbind outcome_bind expect].
    assert ((v - v `mod` 4096) `mod` 4096 = 0) as Hal.
    { rewrite Zminus_mod_idemp_r, Z.sub_diag. done. }
    match goal with |- context [map_to ?pg ?fr ?fl ?t ?s] =>
      pose proof (map_to_total pg fr fl t s Hw1 Hal Et ltac:(lia)) as Hok;
      destruct (map_to pg fr fl t s) as [[ok t'] s'] eqn:Em end.
    cbn in Hok. subst ok. destruct (map_to_ok _ _ _ _ _ _ _ Hw1 Hal Em) as (_ & _ & Hw2 & Hs2 & Hc2).
    cbn [mbind outcome_bind]. eexists. split; [done|]. cbn [falloc phys_off set_falloc set_tables].
    split_and!; [done|done|set_solver|lia].
  - cbn [mbind outcome_bind]. exists m'. cbn [app] in Hcost. rewrite length_seqZ in Hcost.
    split_and!; [done..|lia].
Qed.

(** The receive buffers, one page after the other. *)
Lemma rx_pages_taken off F got b m :
  offset_ok off → taken off F got m → (List.length got + 8 ≤ size F)%nat →
  ∃ bufs b' m',
    for_each (seqZ 0 NUM_RX) (λ _ x,
      let '(bufs, s) := x in
      r ← alloc_page false s;
      let '(v, p, s') := r in
      Ret (bufs ++ [(v, p)], s')) ([], (b, m)) = Ret (bufs, (b', m')) ∧
    vlen bufs = NUM_RX ∧ Forall (λ q, fst q = off + snd q) bufs ∧
    taken off F (got ++ (snd <$> bufs)) m'.
Proof.
  intros Hoff Ht Hsz.
  match goal with |- context [for_each _ ?body _] =>
  destruct (for_each_split (λ pre x, List.length x.1 = List.length pre ∧
    Forall (λ q, fst q = off + snd q) x.1 ∧ taken off F (got ++ (snd <$> x.1)) x.2.2)
    body (seqZ 0 NUM_RX) [] ([], (b, m))) as ([bufs [b' m']] & E & Hl & Hv & Ht') end.
  - cbn. rewrite app_nil_r. split_and!; done || constructor.
  - intros pre i [bufs [b1 m1]] suf Hsplit (Hl & Hv & Ht1). cbn in Hl, Hv, Ht1.
    apply (f_equal List.length) in Hsplit. rewrite !length_app, length_seqZ in Hsplit.
    cbn [List.length] in Hsplit. unfold NUM_RX in Hsplit.
    destruct (alloc_page_takes off F _ false b1 m1 Hoff Ht1) as (p & b2 & m2 & -> & Ht2).
    { rewrite length_app, length_fmap. lia. }
    cbn [mbind outcome_bind]. eexists. split; [done|]. cbn. rewrite !length_app, fmap_app, app_assoc.
    cbn. split_and!; [lia| |done]. apply Forall_app_2; [done|]. by repeat constructor.
  - exists bufs, b', m'. split_and!; try done. unfold vlen. cbn [fst] in Hl. rewrite Hl. done.
Qed.

Lemma build_nic_ok off bar b m :
  offset_ok off → 0 ≤ bar < 2 ^ 32 → fa_wf (falloc m) → phys_off m = Some off →
  (59 ≤ size (fa_free (falloc m)))%nat →
  ∃ n b' m', build_nic bar b m = Ret (n, b', m') ∧ base n = off + bar ∧ tx_cursor n = 0 ∧ fa_wf (falloc m') ∧
    vlen (rx_bufs n) = NUM_RX ∧ vlen (rx_ring n) = NUM_RX ∧ vlen (tx_ring n) = NUM_TX ∧
    tx_buf n = off + tx_buf_phys n ∧ Forall (λ q, fst q = off + snd q) (rx_bufs n) ∧
    let pages := rx_ring_phys n :: tx_ring_phys n :: (snd <$> rx_bufs n) ++ [tx_buf_phys n] in
    NoDup pages ∧
    ∀ p, p ∈ pages → p `mod` 4096 = 0 ∧ p ∈ fa_free (falloc m) ∧ p ∉ fa_free (falloc m').
Proof.
  intros Hoff Hbar Hw Ho Hsz.
  destruct (map_mmio_maps off bar m Hoff Hbar Hw Ho ltac:(lia)) as (m1 & E1 & Hw1 & Ho1 & Hsub & Hcost).
  unfold build_nic. rewrite E1. cbn [mbind outcome_bind]. set (F := fa_free (falloc m1)) in *.
  assert (taken off F [] m1) as T0.
  { constructor; try done; [constructor|intros p Hp; by apply not_elem_of_nil in Hp| |].
    - cbn. by rewrite difference_empty_L.
    - intros p Hp. by apply (fa_range (falloc m1)). }
  destruct (alloc_page_takes off F [] true b m1 Hoff T0) as (p1 & b1 & m2 & -> & T1); [cbn; lia|].
  cbn [mbind outcome_bind app].
  destruct (alloc_page_takes off F [p1] true b1 m2 Hoff T1) as (p2 & b2 & m3 & -> & T2); [cbn; lia|].
  cbn [mbind outcome_bind app] in *.
  destruct (rx_pages_taken off F [p1; p2] b2 m3 Hoff T2) as (bufs & b3 & m4 & -> & Hl & Hv & T3);
    [cbn; lia|]. cbn [mbind outcome_bind app] in *.
  destruct (alloc_page_takes off F _ true b3 m4 Hoff T3) as (p3 & b4 & m5 & -> & T4).
  { cbn. rewrite length_fmap. unfold vlen, NUM_RX in Hl. lia. }
  cbn [mbind outcome_bind]. eexists _, _, _. split; [done|]. nic_simpl.
  destruct T4 as [? _ Hnd Hfrom Hleft Hr]. split_and!; try done.
  - unfold vlen. rewrite length_fmap. exact Hl.
  - intros p Hp. split_and!.
    + destruct (Hr p (Hfrom p Hp)) as (f & _ & ->). by rewrite Z.mod_mul.
    + apply Hsub. by apply Hfrom.
    + rewrite Hleft, elem_of_difference, elem_of_list_to_set. by intros [_ []].
Qed.

(** The card's memory is its own. Bringing the driver up (with the registers' pages
    mapped as needed) takes eleven pages, two rings, eight receive
    buffers and one transmit buffer, that are pairwise different, were free and
    are not free any more; every buffer is used at its address in the physical
    map, so no two of them overlap. *)
Theorem nic_pages_exclusive off bar b m :
  offset_ok off → 0 ≤ bar < 2 ^ 32 → fa_wf (falloc m) → phys_off m = Some off →
  (59 ≤ size (fa_free (falloc m)))%nat →
  ∃ n b' m', build_nic bar b m = Ret (n, b', m') ∧ base n = off + bar ∧
    vlen (rx_bufs n) = NUM_RX ∧ vlen (rx_ring n) = NUM_RX ∧ vlen (tx_ring n) = NUM_TX ∧
    tx_buf n = off + tx_buf_phys n ∧ Forall (λ q, fst q = off + snd q) (rx_bufs n) ∧
    let pages := rx_ring_phys n :: tx_ring_phys n :: (snd <$> rx_bufs n) ++ [tx_buf_phys n] in
    NoDup pages ∧
    ∀ p, p ∈ pages → p `mod` 4096 = 0 ∧ p ∈ fa_free (falloc m) ∧ p ∉ fa_free (falloc m').
Proof.
  intros Hoff Hbar Hw Ho Hsz. destruct (build_nic_ok off bar b m) as (n & b' & m' & ? & ? & _ & _ & ?); [done..|].
  by exists n, b', m'.
Qed.
End bringup_pages.

(** ** Bring-up as a whole *)

Section bringup_whole.
Context {D : Type} `{Hw D} {St PT : Type} `{MapperOk St PT} `{X86Addr} `{Profile}.

Lemma program_nic_fields spins n (d : D) :
  List.length (mac (fst (program_nic spins n d))) = 6%nat ∧ tx_ring (fst (program_nic spins n d)) = tx_ring n ∧
  tx_cursor (fst (program_nic spins n d)) = tx_cursor n.
Proof. unfold program_nic. repeat case_match; simplify_eq; done. Qed.

Lemma bar_bound z : 0 ≤ Z.land z 0xfffffff0 < 2 ^ 32.
Proof.
  change 0xfffffff0 with (Z.land 0xfffffff0 (Z.ones 32)). rewrite Z.land_assoc, Z.land_ones by lia.
  apply Z.mod_pos_bound. lia.
Qed.

Lemma find_device_ok (d : D) : ∃ r, find_device d = Ret r ∧
  match r with Return (_, _, bar, _) => 0 ≤ bar < 2 ^ 32 | Next _ => True end.
Proof.
  unfold find_device. match goal with |- context [for_until _ ?body _] =>
  destruct (for_until_next (λ _ _, True) body (λ r, 0 ≤ snd (fst r) < 2 ^ 32) (seqZ 0 32) [] d)
    as [(s & -> & _)|([[[dev func] bar] d'] & -> & Hr)] end; [done| |by eexists|by eexists].
  intros _ dev d' _ _ _. destruct (pci_read 0 dev 0 0 d') as [v d1]. case (_ =? 0xffff); [left; by eexists|].
  destruct (pci_read 0 dev 0 0 d1) as [v' d2]. case (_ && _); [|left; by eexists]. right.
  destruct (pci_read 0 dev 0 0x10 d2) as [bar d3], (pci_read 0 dev 0 0x04 d3) as [cmd d4].
  eexists. split; [done|]. apply bar_bound.
Qed.

(** [init] does not panic when 59 frames are left: it finds no card and changes nothing,
    or leaves one with an address and an empty transmit ring. *)
Lemma init_ok spins off (w : World D) (m : Mem St PT) :
  offset_ok off → fa_wf (falloc m) → phys_off m = Some off → (59 ≤ size (fa_free (falloc m)))%nat →
  ∃ w' m', init spins w m = Ret (w', m') ∧ fa_wf (falloc m') ∧
    (nic w' = nic w ∨ ∃ n, nic w' = Some n ∧ List.length (mac n) = 6%nat ∧ vlen (tx_ring n) = NUM_TX ∧ tx_cursor n = 0).
Proof.
  intros Hoff Hw Ho Hsz. unfold init. destruct (find_device_ok (card w)) as (r & -> & Hr).
  cbn [mbind outcome_bind]. destruct r as [d|[[[dev func] bar] d]].
  { eexists _, m. split; [done|]. split; [done|]. by left. }
  destruct (pci_read 0 dev func 0x04 d) as [v d']. unfold configure. cbn [bus card].
  destruct (build_nic_ok off bar (bus w) m) as (n & b' & m' & -> & _ & Hc & Hw' & _ & _ & Ht & _); [done..|].
  cbn [mbind outcome_bind]. destruct (program_nic_fields spins n d') as (F1 & F2 & F3).
  destruct (program_nic spins n d') as [n' d'']. cbn [fst] in *. eexists _, m'. split; [done|]. split; [done|].
  right. exists n'. by rewrite F2, F3.
Qed.
End bringup_whole.

Definition plain_X86Addr : X86Addr.
Proof. refine {| vadd a b := Ret (a + b); paddr_new a := Ret a |}; done. Defined.

Lemma nic_pages_exclusive_witness :
  let m := mkMem sample_big (∅ : gmap Z Z) (Some 0x100000000) None in
  ∃ n b' m', @build_nic dev pmm.BitmapFrameAllocator (gmap Z Z) pmm_FrameAlloc toy_Mapper plain_X86Addr
               0xfeb80000 (λ _, 0) m = Ret (n, b', m') ∧
    NoDup (rx_ring_phys n :: tx_ring_phys n :: (snd <$> rx_bufs n) ++ [tx_buf_phys n]).
Proof.
  intros m.
  destruct (@nic_pages_exclusive pmm.BitmapFrameAllocator (gmap Z Z) pmm_FrameAlloc toy_Mapper
    toy_MapperOk plain_X86Addr dev 0x100000000 0xfeb80000 (λ _, 0) m)
    as (n & b' & m' & E & _ & _ & _ & _ & _ & _ & Hnd & _).
  - split; [done|by left].
  - done.
  - exact wf_sample_big.
  - exact eq_refl.
  - pose proof (size_free_addrs sample_big wf_sample_big) as Hs. rewrite sample_big_count in Hs.
    change (fa_free (falloc m)) with (free_addrs sample_big). lia.
  - exists n, b', m'. split; [exact E|exact Hnd].
Defined.
