(* ===== verification/NicRun.v ===== *)
(** * NicRun: the driver and the card over whole runs, and the ARP demo
    (kernel/src/drivers/e1000.rs, kernel/src/drivers/e1000/arp.rs)

    A run is any sequence of frames sent, polls and frames that arrive. The first theorem says
    that the driver stays within its pages and its rings, and loses or reorders nothing
    that the card has accepted. [Module arp_demo] is the smoke test that runs as a task: it asks
    for the gateway's address and polls for the answer, sleeping in between; what
    happens while it sleeps is the class [Wire]. *)

From S2P Require Import Prelude Pmm Memory Bytes E1000.
Import e1000.

(** ** Runs *)

Inductive nic_op :=
  | OSend (frame : list Z)
  | OPoll
  | OArrive (frame : list Z).

(** The frames sent fit a page, as Ethernet frames do. *)
Definition op_ok (op : nic_op) : Prop :=
  match op with OSend f => vlen f ≤ 4096 | OPoll => True | OArrive f => 0 < vlen f end.

Definition arrivals (ops : list nic_op) : list (list Z) :=
  omap (λ op, match op with OArrive f => Some f | _ => None end) ops.

Section runs.
Context {D : Type} `{Hw D} `{Profile} (rdt tdt : D → Z) (mmio : Z).
(** The tail registers remember what is written to them. *)
Hypothesis rdt_set : ∀ v d, rdt (reg_set (mmio + REG_RDT) v d) = v.
Hypothesis rdt_other : ∀ v d, rdt (reg_set (mmio + REG_TDT) v d) = rdt d.
Hypothesis tdt_set : ∀ v d, tdt (reg_set (mmio + REG_TDT) v d) = v.
Hypothesis tdt_other : ∀ v d, tdt (reg_set (mmio + REG_RDT) v d) = tdt d.

(** [head] is the card's own receive position. *)
Definition nic_step (op : nic_op) (head : Z) (w : World D) : outcome (option (list Z) * Z * World D) :=
  match op with
  | OSend f => r ← send f w; Ret (None, head, snd r)
  | OPoll => r ← poll_receive w; Ret (fst r, head, snd r)
  | OArrive f => let '(head', w') := rx_arrive rdt head f w in Ret (None, head', w')
  end.

Fixpoint nic_run (ops : list nic_op) (head : Z) (w : World D) : outcome (list (list Z) * Z * World D) :=
  match ops with
  | [] => Ret ([], head, w)
  | op :: ops' =>
      r ← nic_step op head w;
      let '(o, head1, w1) := r in
      r ← nic_run ops' head1 w1;
      let '(got, head2, w2) := r in
      Ret (match o with Some f => f :: got | None => got end, head2, w2)
  end.

(** ** The pages of the driver *)

Definition rx_pages (n : Nic) (x : Z) : Prop := ∃ i b, vget (rx_bufs n) i = Some b ∧ fst b ≤ x < fst b + 4096.
Definition tx_page (n : Nic) (x : Z) : Prop := tx_buf n ≤ x < tx_buf n + 4096.

(** The same buffers, and cursors that have moved by one at most. *)
Record steps_to (n n' : Nic) : Prop := {
  st_bufs : rx_bufs n' = rx_bufs n;
  st_tx : tx_buf n' = tx_buf n;
  st_ring : vlen (tx_ring n') = vlen (tx_ring n);
  st_rx_cursor : rx_cursor n ≤ rx_cursor n' ≤ rx_cursor n + 1;
  st_tx_cursor : tx_cursor n ≤ tx_cursor n' ≤ tx_cursor n + 1;
}.

(** The rings are sound, with room for [b] more operations; [q] waits in the receive ring. *)
Record nic_inv (b head : Z) (q : list (list Z)) (w : World D) (n : Nic) : Prop := {
  ni_queue : rx_queue rdt mmio head q w n;
  ni_tx : vlen (tx_ring n) = NUM_TX;
  ni_cursors : 0 ≤ tx_cursor n ∧ tx_cursor n + b < 2 ^ 64 ∧ rx_cursor n + b < 2 ^ 64;
  ni_tail : tdt (card w) = tx_cursor n `mod` NUM_TX;
  ni_apart x : tx_page n x → ¬ rx_pages n x;
}.

Lemma nic_inv_step b head head' q q' w w' n n' :
  nic_inv (b + 1) head q w n → rx_queue rdt mmio head' q' w' n' → steps_to n n' →
  tdt (card w') = tx_cursor n' `mod` NUM_TX → nic_inv b head' q' w' n'.
Proof.
  intros [_ Ht Hc _ Ha] Hq [Eb Et El Hr Hx] Htail. constructor; [done|by rewrite El|lia|done|].
  intros x. unfold tx_page, rx_pages in *. rewrite Eb, Et. apply Ha.
Qed.

(** Sending does not disturb what waits. *)
Lemma send_keeps b head q w n f : 0 ≤ b → nic_inv (b + 1) head q w n → vlen f ≤ 4096 →
  ∃ w' n', send f w = Ret (true, w') ∧ nic_inv b head q w' n' ∧ rx_bufs n' = rx_bufs n ∧ tx_buf n' = tx_buf n ∧
    ∀ x, ¬ tx_page n x → bus w' x = bus w x.
Proof.
  intros Hb Hi Hf. pose proof Hi as [Hq Ht (Hc0 & Hc1 & Hc2) Htail Ha]. pose proof Hq as [Hn Hba Hlr Hlb Hap Hrc Hh Hl Hrt Hfull He].
  assert (tx_ok n) as Hok by (unfold tx_ok, fits; lia).
  exists (mkWorld (Some (tx_pushed f n)) (write_bytes (tx_buf n) f (bus w))
    (reg_set (base n + REG_TDT) ((tx_cursor n + 1) `mod` NUM_TX) (card w))), (tx_pushed f n).
  split; [by apply send_eq|]. split_and!; [|done|done|].
  - eapply (nic_inv_step b head head q q); [done| | |cbn [card tx_pushed tx_cursor]; by rewrite Hba, tdt_set].
    + constructor; try done; cbn [card bus tx_pushed rx_cursor rx_bufs rx_ring].
      * by rewrite Hba, rdt_other.
      * intros i g Hg. destruct (Hfull i g Hg) as (Hlg & bb & d & Eb & Ed & Es & El & Er). split; [done|].
        exists bb, d. split_and!; try done. rewrite <- Er at 2. apply read_bytes_ext. intros x Hx. apply write_bytes_out.
        intros Hin. apply (Ha x); [unfold tx_page; lia|]. eexists _, bb. split; [exact Eb|lia].
    + constructor; cbn [tx_pushed rx_bufs tx_buf tx_ring rx_cursor tx_cursor]; try done; [by rewrite vlen_vset|lia|lia].
  - intros x Hx. cbn [bus]. apply write_bytes_out. unfold tx_page in Hx. lia.
Qed.

(** What a poll changes. *)
Lemma poll_frame w n o w' : nic w = Some n → base n = mmio → poll_receive w = Ret (o, w') → 0 ≤ rx_cursor n →
  rx_cursor n + 1 < 2 ^ 64 →
  ∃ n', nic w' = Some n' ∧ steps_to n n' ∧ tx_cursor n' = tx_cursor n ∧ bus w' = bus w ∧ tdt (card w') = tdt (card w).
Proof.
  intros Hn Hba E Hr0 Hr1. unfold poll_receive in E. rewrite Hn in E.
  destruct (index (rx_ring n) _) as [d|]; [|done]. cbn [mbind outcome_bind] in E.
  destruct ((Z.land (status d) DESC_DD =? 0) || (length d =? 0)).
  { injection E as <- <-. exists n. split_and!; try done. constructor; try done; lia. }
  destruct (index (rx_bufs n) _) as [b|]; [|done]. cbn [mbind outcome_bind] in E.
  destruct (store (rx_ring n) _ _) as [ring|]; [|done]. cbn [mbind outcome_bind] in E.
  rewrite checked_fits in E by (unfold fits; lia). cbn [mbind outcome_bind] in E. injection E as <- <-.
  eexists. cbn [nic]. split; [done|]. split_and!; try done.
  - constructor; cbn [rx_bufs tx_buf tx_ring rx_cursor tx_cursor]; try done; lia.
  - cbn [card]. unfold write_reg. by rewrite Hba, tdt_other.
Qed.

Lemma poll_keeps b head q w n : 0 ≤ b → nic_inv (b + 1) head q w n →
  ∃ w' n', poll_receive w = Ret (List.hd_error q, w') ∧ nic_inv b head (tail q) w' n' ∧
    rx_bufs n' = rx_bufs n ∧ tx_buf n' = tx_buf n ∧ bus w' = bus w.
Proof.
  intros Hb Hi. pose proof Hi as [Hq Ht (Hc0 & Hc1 & Hc2) Htail Ha]. pose proof Hq as [Hn Hba _ _ _ Hrc _ _ _ _ _].
  assert (∃ w' n1, poll_receive w = Ret (List.hd_error q, w') ∧ rx_queue rdt mmio head (tail q) w' n1) as (w' & n1 & E & Hq').
  { destruct q as [|f q]; [exists w, n; split; [by eapply poll_empty|done]|].
    eapply poll_pops; [exact rdt_set|exact Hq|unfold fits; lia]. }
  destruct (poll_frame w n _ w' Hn Hba E Hrc) as (n' & Hn' & Hst & Etc & Eb & Etd); [lia|].
  assert (n1 = n') as -> by (pose proof (rq_nic _ _ _ _ _ _ Hq'); congruence).
  exists w', n'. split_and!; [done| |apply Hst|apply Hst|done].
  eapply nic_inv_step; [exact Hi|exact Hq'|exact Hst|]. by rewrite Etd, Etc.
Qed.

Lemma arrive_frame head f w n head' w' : nic w = Some n → 0 ≤ rx_cursor n →
  rx_arrive rdt head f w = (head', w') →
  ∃ n', nic w' = Some n' ∧ steps_to n n' ∧ tx_cursor n' = tx_cursor n ∧ card w' = card w ∧
    ∀ x, ¬ rx_pages n x → bus w' x = bus w x.
Proof.
  intros Hn Hr0 E. unfold rx_arrive in E. rewrite Hn in E.
  assert (steps_to n n) as Hs by (constructor; lia || done).
  destruct (Z.ltb_spec LONGEST_FRAME (vlen f)) as [|Hf]; [injection E as <- <-; by exists n|]. unfold LONGEST_FRAME in Hf.
  destruct (_ =? rdt (card w)); [injection E as <- <-; by exists n|].
  destruct (vget (rx_bufs n) _) as [b|] eqn:Eb; [|injection E as <- <-; by exists n].
  injection E as <- <-. eexists. cbn [nic]. split; [done|]. split_and!; try done.
  - constructor; cbn [rx_bufs tx_buf tx_ring rx_cursor tx_cursor]; try done; lia.
  - intros x Hx. cbn [bus]. apply write_bytes_out. intros Hin. apply Hx. eexists _, b. split; [exact Eb|lia].
Qed.

Lemma arrive_keeps b head q w n f : 0 ≤ b → nic_inv (b + 1) head q w n → 0 < vlen f →
  ∃ head' w' n', rx_arrive rdt head f w = (head', w') ∧
    nic_inv b head' (if refused q f then q else q ++ [f]) w' n' ∧
    rx_bufs n' = rx_bufs n ∧ tx_buf n' = tx_buf n ∧ ∀ x, ¬ rx_pages n x → bus w' x = bus w x.
Proof.
  intros Hb Hi Hf. pose proof Hi as [Hq Ht (Hc0 & Hc1 & Hc2) Htail Ha]. pose proof Hq as [Hn _ _ _ _ Hrc _ _ _ _ _].
  destruct (arrive_pushes rdt mmio head q w n f Hq Hf) as [n1 Hq']. destruct (rx_arrive rdt head f w) as [head' w'] eqn:E.
  destruct (arrive_frame head f w n head' w' Hn Hrc E) as (n' & Hn' & Hst & Etc & Ecard & Hbus).
  assert (n1 = n') as -> by (pose proof (rq_nic _ _ _ _ _ _ Hq'); congruence).
  exists head', w', n'. split_and!; [done| |apply Hst|apply Hst|done].
  eapply nic_inv_step; [exact Hi|exact Hq'|exact Hst|]. by rewrite Ecard, Etc.
Qed.

(** One operation: what the reader gets and what waits, against the frames that were there
    and the one that comes. *)
Lemma step_keeps b op head q w n : 0 ≤ b → nic_inv (b + 1) head q w n → op_ok op →
  ∃ o head' w' n' q', nic_step op head w = Ret (o, head', w') ∧ nic_inv b head' q' w' n' ∧
    rx_bufs n' = rx_bufs n ∧ tx_buf n' = tx_buf n ∧
    (∀ x, ¬ tx_page n x → ¬ rx_pages n x → bus w' x = bus w x) ∧
    option_list o ++ q' `sublist_of` q ++ arrivals [op].
Proof.
  intros Hb Hi Hop. destruct op as [f| |f]; cbn [nic_step op_ok] in *.
  - destruct (send_keeps b head q w n f Hb Hi Hop) as (w' & n' & -> & Hi' & ? & ? & Hbus).
    eexists _, _, _, n', q. split; [done|]. split_and!; try done; [intros; by apply Hbus|]. cbn. by rewrite app_nil_r.
  - destruct (poll_keeps b head q w n Hb Hi) as (w' & n' & -> & Hi' & ? & ? & Hbus).
    eexists _, _, _, n', (tail q). split; [done|]. split_and!; try done; [intros; cbn; by rewrite Hbus|].
    cbn. rewrite app_nil_r. by destruct q.
  - destruct (arrive_keeps b head q w n f Hb Hi Hop) as (head' & w' & n' & -> & Hi' & ? & ? & Hbus).
    eexists _, _, _, n', _. split; [done|]. split; [exact Hi'|]. split_and!; try done; [intros; by apply Hbus|].
    cbn. destruct (refused q f); [by apply sublist_inserts_r|done].
Qed.

Lemma arrivals_cons op ops : arrivals (op :: ops) = arrivals [op] ++ arrivals ops.
Proof. by destruct op. Qed.

(** C11. The driver stays within its rings and its pages. Whatever frames are sent, polled for and
    received, those sent no longer than a page, and in whatever order, no operation
    panics; the two cursors stay in range, and the tail registers with them; of the memory shared with
    the card, only the transmit page and the receive buffers are written; and what is
    polled, followed by what still waits, are frames that arrived, whole and in the order in
    which they did. *)
Theorem nic_in_bounds ops head q w n :
  nic_inv (vlen ops) head q w n → Forall op_ok ops →
  ∃ got head' w' n' q', nic_run ops head w = Ret (got, head', w') ∧ nic w' = Some n' ∧
    0 ≤ tdt (card w') < NUM_TX ∧ 0 ≤ rdt (card w') < NUM_RX ∧ vlen q' < NUM_RX ∧
    rx_queue rdt mmio head' q' w' n' ∧
    (∀ x, ¬ tx_page n x → ¬ rx_pages n x → bus w' x = bus w x) ∧
    got ++ q' `sublist_of` q ++ arrivals ops.
Proof.
  revert head q w n. induction ops as [|op ops IH]; intros head q w n Hi Hops.
  - exists [], head, w, n, q. pose proof Hi as [Hq _ _ Htail _]. pose proof Hq as [Hn _ _ _ _ _ _ Hl Hrt _ _].
    rewrite Htail, Hrt. split_and!; try done; try (by apply Z.mod_pos_bound). cbn. by rewrite app_nil_r.
  - apply Forall_cons in Hops as [Hop Hops]. assert (vlen (op :: ops) = vlen ops + 1) as Ev by (rewrite vlen_cons; lia).
    rewrite Ev in Hi. destruct (step_keeps (vlen ops) op head q w n) as (o & h1 & w1 & n1 & q1 & E1 & Hi1 & Eb & Et & Hbus & Hs);
      [apply vlen_nonneg|done|done|].
    destruct (IH h1 q1 w1 n1 Hi1 Hops) as (got & h2 & w2 & n2 & q2 & E2 & Hn2 & ? & ? & ? & Hq2 & Hbus2 & Hs2).
    cbn [nic_run]. rewrite E1. cbn [mbind outcome_bind]. rewrite E2. cbn [mbind outcome_bind].
    exists (option_list o ++ got), h2, w2, n2, q2. split; [by destruct o|]. split_and!; try (done || lia).
    + intros x Htx Hrx. rewrite Hbus2; [by apply Hbus|unfold tx_page in *; by rewrite Et|unfold rx_pages in *; by rewrite Eb].
    + rewrite arrivals_cons, app_assoc, <- app_assoc. etransitivity; [by apply sublist_app; [|exact Hs2]|].
      rewrite app_assoc. by apply sublist_app.
Qed.
End runs.

(** A frame goes out, one comes in and is polled. *)
Definition plain_tdt (d : Z → Z) : Z := d (0xf000 + REG_TDT).

Lemma sample_nic_inv b : 0 ≤ b < 2 ^ 40 → nic_inv plain_rdt plain_tdt 0xf000 b 0 [] sample_world sample_nic.
Proof.
  intros Hb. constructor; [apply sample_rx_queue|done|cbn; lia|done|].
  intros x Hx (i & bb & Hi & Hr). unfold tx_page in Hx. cbn [tx_buf sample_nic] in Hx.
  apply vget_Some in Hi as [Hp Hl]. cbn [rx_bufs sample_nic] in Hl. rewrite list_lookup_fmap in Hl.
  apply fmap_Some in Hl as (y & [-> Hy]%lookup_seqZ & ->). cbn [fst] in Hr. lia.
Qed.

Lemma nic_in_bounds_witness :
  ∃ got head' w', @nic_run _ plain_Hw dev plain_rdt [OSend [1; 2; 3]; OArrive [7]; OPoll] 0 sample_world = Ret (got, head', w') ∧
    0 ≤ plain_tdt (card w') < NUM_TX.
Proof.
  destruct (@nic_in_bounds _ plain_Hw dev plain_rdt plain_tdt 0xf000) with
    (ops := [OSend [1; 2; 3]; OArrive [7]; OPoll]) (head := 0) (q := @nil (list Z)) (w := sample_world) (n := sample_nic)
    as (got & head' & w' & n' & q' & E & _ & Ht & _).
  - reflexivity.
  - reflexivity.
  - reflexivity.
  - reflexivity.
  - apply sample_nic_inv. done.
  - repeat constructor; done.
  - exists got, head', w'. split; [exact E|exact Ht].
Defined.
