(* ===== verification/ArpDemo.v ===== *)
(** * ArpDemo: the smoke test of the network card (kernel/src/drivers/e1000/arp.rs,
    [rx_debug] of kernel/src/drivers/e1000.rs)

    A task of its own: it asks for the gateway's address, then sleeps and polls up to forty
    times. What happens to the card while it sleeps is the class [Wire]. The inner loop
    polls until nothing waits, which nothing in the code bounds: it takes fuel. *)

From S2P Require Import Prelude Pmm Memory Bytes E1000 NicRun.
Import e1000.

Module arp_demo.

(** What the demo prints. *)
Inductive arp_line :=
  | NoNic
  | Asked (target : list Z) (len : Z)
  | SendFailed
  | Reply (ip mac : list Z)
  | NoReply
  | RxStatus (rdh rdt icr : Z) (dd : list Z)
  | TxStatus (tdh tdt tctl st cm len : Z).

(** What the network and the other tasks do to the card during [process::sleep(n)]. *)
Class Wire (D E : Type) := { while_asleep : Z → E → World D → E * World D }.

Record Demo (D E : Type) := mkDemo { world : World D; outside : E; said : list arp_line }.
Arguments mkDemo {D E} _ _ _.
Arguments world {D E} _.
Arguments outside {D E} _.
Arguments said {D E} _.

Section demo.
Context {D E : Type} `{Hw D} `{Profile} `{Wire D E}.
Abbreviation DemoM := (T (Demo D E)).

Definition say (l : arp_line) : DemoM unit :=
  fin (modify (λ s, mkDemo (world s) (outside s) (said s ++ [l]))).

Definition sleep (n : Z) : DemoM unit :=
  fin (modify (λ s, let '(e, w) := while_asleep n (outside s) (world s) in mkDemo w e (said s))).

(** A function of the driver. *)
Definition on_card {A} (f : World D → outcome (A * World D)) : DemoM A :=
  fin (λ s, r ← f (world s); let '(x, w) := r in Ret (x, mkDemo w (outside s) (said s))).

Definition read_regs (n : Nic) (a b c : Z) (d : D) : Z * Z * Z * D :=
  let '(x, d) := read_reg n a d in
  let '(y, d) := read_reg n b d in
  let '(z, d) := read_reg n c d in
  (x, y, z, d).

Definition rx_debug : DemoM unit :=
  s ← fin getS;
  match nic (world s) with
  | None => mret tt
  | Some n =>
      dd ← fin (lift (for_each (seqZ 0 NUM_RX) (λ i dd, d ← index (rx_ring n) i; Ret (dd ++ [status d])) []));
      tx0 ← fin (lift (index (tx_ring n) 0));
      r ← on_card (λ w, let '(v, d) := read_regs n REG_RDH REG_RDT REG_ICR (card w) in Ret (v, mkWorld (nic w) (bus w) d));
      let '(rdh, rdt, icr) := (r : Z * Z * Z) in
      _ ← say (RxStatus rdh rdt icr dd);
      r ← on_card (λ w, let '(v, d) := read_regs n REG_TDH REG_TDT REG_TCTL (card w) in Ret (v, mkWorld (nic w) (bus w) d));
      let '(tdh, tdt, tctl) := (r : Z * Z * Z) in
      say (TxStatus tdh tdt tctl (status tx0) (cmd tx0) (length tx0))
  end.

(** [frame[a], ..., frame[b - 1]] *)
Definition fields (frame : list Z) (a b : Z) : outcome (list Z) :=
  for_each (seqZ a (b - a)) (λ i l, x ← index frame i; Ret (l ++ [x])) [].

(** [while let Some(frame) = poll_receive()], until the reply ([true]) or nothing waits. *)
Fixpoint drain (fuel : nat) : DemoM bool :=
  match fuel with
  | O => out_of_fuel
  | S k =>
      o ← on_card poll_receive;
      match o with
      | None => mret false
      | Some frame =>
          yes ← fin (lift (is_arp_reply frame));
          if (yes : bool) then
            ip ← fin (lift (fields frame 28 32));
            mac ← fin (lift (fields frame 22 28));
            _ ← say (Reply ip mac);
            mret true
          else drain k
      end
  end.

(** [for _ in 0..n] of the polling loop: [true] is the early return. *)
Fixpoint wait_reply (fuel n : nat) : DemoM bool :=
  match n with
  | O => mret false
  | S k =>
      _ ← sleep 5;
      found ← drain fuel;
      if (found : bool) then mret true else wait_reply fuel k
  end.

Definition demo_arp (fuel : nat) : DemoM unit :=
  s ← fin getS;
  match mac_address (world s) with
  | None => say NoNic
  | Some mac =>
      let req := arp_request mac GATEWAY in
      _ ← say (Asked GATEWAY (vlen req));
      sent ← on_card (send req);
      if negb sent then say SendFailed
      else
        found ← wait_reply fuel 40;
        if (found : bool) then mret tt
        else _ ← say NoReply; rx_debug
  end.
End demo.
End arp_demo.
Import arp_demo.

(** ** The pieces *)

Lemma is_arp_reply_total f : ∃ b, is_arp_reply f = Ret b ∧ (b = true → 42 ≤ vlen f).
Proof.
  unfold is_arp_reply. case (Z.leb_spec 42 (vlen f)) as [Hl|]; cbn [negb]; [|by exists false].
  destruct (vget_in f 12) as [a Ea]; [lia|]. destruct (vget_in f 13) as [b Eb]; [lia|].
  destruct (vget_in f 21) as [c Ec]; [lia|]. rewrite (index_vget _ _ _ Ea). cbn [mbind outcome_bind].
  destruct (negb (a =? 8)); [by exists false|]. rewrite (index_vget _ _ _ Eb). cbn [mbind outcome_bind].
  destruct (negb (b =? 6)); [by exists false|]. rewrite (index_vget _ _ _ Ec). by eexists.
Qed.

Definition replies (f : list Z) : bool := match is_arp_reply f with Ret b => b | Panic _ => false end.

Lemma replies_eq f : is_arp_reply f = Ret (replies f) ∧ (replies f = true → 42 ≤ vlen f).
Proof. unfold replies. by destruct (is_arp_reply_total f) as (b & -> & Hb). Qed.

(** The bytes [a..b] of a frame. *)
Definition part (f : list Z) (a b : Z) : list Z := take (Z.to_nat (b - a)) (drop (Z.to_nat a) f).

Lemma fields_eq f a b : 0 ≤ a ≤ b → b ≤ vlen f → fields f a b = Ret (part f a b).
Proof.
  intros Hab Hb. unfold fields.
  destruct (for_each_split (λ pre l, l = part f a (a + vlen pre)) (λ i l, x ← index f i; Ret (l ++ [x])) (seqZ a (b - a)) [] [])
    as (l & -> & ->).
  - unfold part. rewrite vlen_nil, Z.add_0_r, Z.sub_diag. done.
  - intros pre i l suf Es ->. cbn [app] in Es.
    assert (i = a + vlen pre ∧ vlen pre < b - a) as [-> Hp].
    { assert (seqZ a (b - a) !! List.length pre = Some i) as Ei by (rewrite Es; by apply list_lookup_middle).
      apply lookup_seqZ in Ei as [-> ?]. unfold vlen. lia. }
    pose proof (vlen_nonneg pre). destruct (vget_in f (a + vlen pre)) as [x Ex]; [lia|]. rewrite (index_vget _ _ _ Ex).
    eexists. split; [done|]. rewrite vlen_app. change (vlen [a + vlen pre]) with 1. apply vget_Some in Ex as [_ Ex].
    unfold part. replace (Z.to_nat (a + (vlen pre + 1) - a)) with (S (Z.to_nat (a + vlen pre - a))) by lia.
    symmetry. apply take_S_r. rewrite lookup_drop, <- Ex. f_equal. lia.
  - cbn [app]. do 2 f_equal. unfold vlen. rewrite length_seqZ. lia.
Qed.

(** ** Frames that arrive while the task sleeps *)

Section wire.
Context {D : Type} `{Hw D} `{Profile} (rdt tdt : D → Z) (mmio : Z).
Hypothesis rdt_set : ∀ v d, rdt (reg_set (mmio + REG_RDT) v d) = v.
Hypothesis rdt_other : ∀ v d, rdt (reg_set (mmio + REG_TDT) v d) = rdt d.
Hypothesis tdt_set : ∀ v d, tdt (reg_set (mmio + REG_TDT) v d) = v.
Hypothesis tdt_other : ∀ v d, tdt (reg_set (mmio + REG_RDT) v d) = tdt d.
Abbreviation nic_inv := (nic_inv rdt tdt mmio).

Fixpoint bring (fs : list (list Z)) (head : Z) (w : World D) : Z * World D :=
  match fs with
  | [] => (head, w)
  | f :: fs' => let '(head', w') := rx_arrive rdt head f w in bring fs' head' w'
  end.

(** The frames of each nap, in turn, and the card's position. *)
Definition timetable : Type := Z * list (list (list Z)).

#[local] Instance scheduled_Wire : Wire D timetable := {|
  while_asleep _ e w :=
    match snd e with
    | [] => (e, w)
    | fs :: naps => let '(head, w') := bring fs (fst e) w in ((head, naps), w')
    end;
|}.

Definition nap_ok (fs : list (list Z)) : Prop := vlen fs < NUM_RX ∧ Forall (λ f, 0 < vlen f) fs.

(** The frames the card does not discard. *)
Definition heard (fs : list (list Z)) : list (list Z) := filter (λ f, vlen f ≤ LONGEST_FRAME) fs.

Lemma nic_inv_le b b' head q w n : b' ≤ b → nic_inv b head q w n → nic_inv b' head q w n.
Proof. intros Hb [? ? ? ? ?]. constructor; try done. lia. Qed.

Lemma bring_spec fs : ∀ b head q w n, 0 ≤ b → nic_inv (b + vlen fs) head q w n → vlen q + vlen fs < NUM_RX →
  Forall (λ f, 0 < vlen f) fs →
  ∃ head' w' n', bring fs head w = (head', w') ∧ nic_inv b head' (q ++ heard fs) w' n'.
Proof.
  induction fs as [|f fs IH]; intros b head q w n Hb Hi Hl Hf.
  - exists head, w, n. rewrite app_nil_r. split; [done|]. rewrite vlen_nil, Z.add_0_r in Hi. done.
  - apply Forall_cons in Hf as [Hf Hfs]. rewrite vlen_cons in *. pose proof (vlen_nonneg fs). pose proof (vlen_nonneg q).
    destruct (arrive_keeps rdt tdt mmio (b + vlen fs) head q w n f) as (h1 & w1 & n1 & E & Hi1 & _);
      [lia|by replace (b + vlen fs + 1) with (b + (vlen fs + 1)) by lia|done|].
    unfold refused in Hi1. rewrite (proj2 (Z.eqb_neq _ _)) in Hi1 by (unfold NUM_RX in *; lia). cbn [bring orb] in *. rewrite E.
    unfold heard. destruct (Z.ltb_spec LONGEST_FRAME (vlen f)).
    + rewrite filter_cons_False by lia. by apply (IH b h1 q w1 n1); [..|lia|].
    + rewrite filter_cons_True by done. destruct (IH b h1 (q ++ [f]) w1 n1) as (h2 & w2 & n2 & E2 & Hi2); [done|done| |done|].
      { rewrite vlen_app. change (vlen [f]) with 1. lia. }
      exists h2, w2, n2. rewrite <- app_assoc in Hi2. done.
Qed.

Definition answer_of (f : list Z) : arp_line := Reply (part f 28 32) (part f 22 28).

Lemma on_card_run {E A B} (f : World D → outcome (A * World D)) (g : A → T (Demo D E) B) w e sd x w' :
  f w = Ret (x, w') → (on_card f ≫= g) (mkDemo w e sd) = g x (mkDemo w' e sd).
Proof. intros Ef. unfold on_card. apply bind_fin. cbn [world]. by rewrite Ef. Qed.

(** What [drain] does with a frame. *)
Lemma drain_frame {E} fuel w (e : E) sd f w' : poll_receive w = Ret (Some f, w') →
  drain (S fuel) (mkDemo w e sd) =
  if replies f then Some (Ret (true, mkDemo w' e (sd ++ [answer_of f]))) else drain fuel (mkDemo w' e sd).
Proof.
  intros Ep. destruct (replies_eq f) as [Er Hlen]. cbn [drain]. rewrite (on_card_run _ _ _ _ _ _ _ Ep).
  rewrite (bind_fin _ _ _ (replies f) (mkDemo w' e sd)) by (unfold lift; by rewrite Er).
  destruct (replies f); [|done]. specialize (Hlen eq_refl).
  do 2 (erewrite bind_fin by (unfold lift; rewrite fields_eq by lia; done)). unfold say. by erewrite bind_fin by done.
Qed.

(** The inner loop takes everything that waits, up to the reply; eight polls are enough. *)
Lemma drain_spec {E} (e : E) sd : ∀ fuel b head q w n,
  0 ≤ b → nic_inv (b + vlen q) head q w n → (List.length q < fuel)%nat →
  match List.find replies q with
  | Some f => ∃ w', drain fuel (mkDemo w e sd) = Some (Ret (true, mkDemo w' e (sd ++ [answer_of f])))
  | None => ∃ w' n', drain fuel (mkDemo w e sd) = Some (Ret (false, mkDemo w' e sd)) ∧ nic_inv b head [] w' n'
  end.
Proof.
  induction fuel as [|fuel IH]; intros b head q w n Hb Hi Hfu; [lia|]. destruct q as [|f q].
  - cbn [List.find drain]. rewrite vlen_nil, Z.add_0_r in Hi. exists w, n. split; [|done].
    assert (poll_receive w = Ret (None, w)) as Ep by (eapply poll_empty, Hi). by rewrite (on_card_run _ _ _ _ _ _ _ Ep).
  - rewrite vlen_cons in Hi. pose proof (vlen_nonneg q).
    destruct (poll_keeps rdt tdt mmio rdt_set tdt_other (b + vlen q) head (f :: q) w n) as (w1 & n1 & E1 & Hi1 & _);
      [lia|by replace (b + vlen q + 1) with (b + (vlen q + 1)) by lia|]. cbn [List.hd_error tail] in E1, Hi1.
    rewrite (drain_frame _ _ _ _ _ _ E1). cbn [List.find]. destruct (replies f); [by exists w1|].
    apply (IH b head q w1 n1); [done|done|cbn in Hfu; lia].
Qed.

Lemma find_app {A} (p : A → bool) l1 l2 :
  List.find p (l1 ++ l2) = match List.find p l1 with Some x => Some x | None => List.find p l2 end.
Proof. induction l1 as [|x l1 IH]; [done|]. cbn. by destruct (p x). Qed.

(** [k] rounds of sleeping and polling: the first reply among the frames of the first [k] naps. *)
Lemma wait_reply_spec k : ∀ head w n naps sd,
  nic_inv (16 * Z.of_nat k) head [] w n → Forall nap_ok naps →
  match List.find replies (heard (mjoin (take k naps))) with
  | Some f => ∃ w' e', wait_reply 8 k (mkDemo w (head, naps) sd) = Some (Ret (true, mkDemo w' e' (sd ++ [answer_of f])))
  | None => ∃ w' e' n' head', wait_reply 8 k (mkDemo w (head, naps) sd) = Some (Ret (false, mkDemo w' e' sd)) ∧
      nic_inv 0 head' [] w' n'
  end.
Proof.
  induction k as [|k IH]; intros head w n naps sd Hi Hn.
  { cbn. exists w, (head, naps), n, head. done. }
  assert (∃ fs naps', take (S k) naps = take 1 naps ++ take k naps' ∧ mjoin (take 1 naps) = fs ∧ nap_ok fs ∧ Forall nap_ok naps' ∧
    ∀ w, while_asleep 5 (head, naps) w = let '(h, w') := bring fs head w in ((h, naps'), w')) as (fs & naps' & Et & Ef & Hfs & Hn' & Hw).
  { destruct naps as [|fs naps]; [exists [], []; rewrite !take_nil; split_and!; try done; by split|]. apply Forall_cons in Hn as [Hfs Hn].
    exists fs, naps. cbn. rewrite app_nil_r. by split_and!. }
  rewrite Et, join_app, Ef. destruct Hfs as [Hl Hok]. pose proof (vlen_nonneg fs).
  assert (vlen (heard fs) ≤ vlen fs) as Hh by (unfold vlen, heard; pose proof (length_filter (λ f, vlen f ≤ LONGEST_FRAME) fs); lia).
  pose proof (vlen_nonneg (heard fs)). unfold heard at 1. rewrite filter_app. fold (heard fs) (heard (mjoin (take k naps'))).
  destruct (bring_spec fs (16 * Z.of_nat k + 8) head [] w n) as (h1 & w1 & n1 & Ed & Hi1); [lia| |done|done|].
  { eapply nic_inv_le; [|exact Hi]. unfold NUM_RX in Hl. lia. }
  cbn [app] in Hi1. cbn [wait_reply]. unfold sleep. erewrite bind_fin; [|unfold modify; cbn [world outside]; by rewrite Hw, Ed].
  pose proof (drain_spec (h1, naps') sd 8 (16 * Z.of_nat k) h1 (heard fs) w1 n1) as Hd.
  rewrite find_app. destruct (List.find replies (heard fs)) as [f|].
  - destruct Hd as (w2 & E2); [lia|eapply nic_inv_le; [|exact Hi1]; unfold NUM_RX in Hl; lia|unfold vlen, NUM_RX in *; lia|].
    rewrite (bind_some _ _ _ _ _ E2). by eexists _, _.
  - destruct Hd as (w2 & n2 & E2 & Hi2); [lia|eapply nic_inv_le; [|exact Hi1]; unfold NUM_RX in Hl; lia|unfold vlen, NUM_RX in *; lia|].
    rewrite (bind_some _ _ _ _ _ E2). by apply (IH h1 w2 n2).
Qed.

(** The diagnostics read the rings within bounds. *)
Lemma rx_debug_says head q w n (e : timetable) sd : nic_inv 0 head q w n →
  ∃ s', rx_debug (mkDemo w e sd) = Some (Ret (tt, s')) ∧
    ∃ rdh rd icr dd tdh td tctl st cm len, said s' = sd ++ [RxStatus rdh rd icr dd; TxStatus tdh td tctl st cm len] ∧
      vlen dd = NUM_RX.
Proof.
  intros Hi. pose proof Hi as [Hq Ht _ _ _]. pose proof Hq as [Hn _ Hlr _ _ _ _ _ _ _ _].
  unfold rx_debug. erewrite bind_fin by done. cbn [world]. rewrite Hn.
  destruct (for_each_inv (λ pre dd, vlen dd = vlen pre) (λ i dd, d ← index (rx_ring n) i; Ret (dd ++ [status d]))
    (seqZ 0 NUM_RX) []) as (dd & Ed & Hdd).
  { done. }
  { intros pre i dd Hin Hdd. apply elem_of_seqZ in Hin. destruct (vget_in (rx_ring n) i) as [d E]; [lia|].
    rewrite (index_vget _ _ _ E). eexists. split; [done|]. by rewrite !vlen_app, Hdd. }
  rewrite (bind_fin _ _ _ dd (mkDemo w e sd)) by (unfold lift; by rewrite Ed).
  destruct (vget_in (tx_ring n) 0) as [t0 E0]; [rewrite Ht; unfold NUM_TX; lia|].
  rewrite (bind_fin _ _ _ t0 (mkDemo w e sd)) by (unfold lift; by rewrite (index_vget _ _ _ E0)).
  destruct (read_regs n REG_RDH REG_RDT REG_ICR (card w)) as [[[rdh rd] icr] d1] eqn:E1.
  erewrite on_card_run by (rewrite E1; done). unfold say. erewrite bind_fin by done.
  cbn [world outside said]. destruct (read_regs n REG_TDH REG_TDT REG_TCTL d1) as [[[tdh td] tctl] d2] eqn:E2.
  erewrite on_card_run by (cbn [card nic bus]; rewrite E2; done). unfold fin, modify. cbn [world outside said].
  eexists. split; [done|]. cbn [said]. do 10 eexists. rewrite <- app_assoc. by split.
Qed.

(** C33. The ARP demo reports the first answer. With the card up and up to seven frames arriving
    during each of its naps, the demo ends without a panic, after at most eight polls
    a nap. It says what it asked for; then, if any frame of the first
    forty naps that the card accepts (up to 1522 bytes) is an ARP reply, the addresses in the first such frame, as they are in it;
    and otherwise that there was none, with the state of the rings. *)
Theorem arp_demo_reports head w n naps :
  nic_inv 700 head [] w n → List.length (mac n) = 6%nat → Forall nap_ok naps →
  ∃ s', demo_arp 8 (mkDemo w (head, naps) []) = Some (Ret (tt, s')) ∧
    match List.find replies (heard (mjoin (take 40 naps))) with
    | Some f => said s' = [Asked GATEWAY 42; Reply (part f 28 32) (part f 22 28)]
    | None => ∃ rx tx, said s' = [Asked GATEWAY 42; NoReply; rx; tx]
    end.
Proof.
  intros Hi Hmac Hn. unfold demo_arp. erewrite bind_fin by done. cbn [world]. pose proof (ni_queue _ _ _ _ _ _ _ _ Hi) as Hq.
  unfold mac_address. rewrite (rq_nic _ _ _ _ _ _ Hq). cbn [fmap option_fmap option_map].
  set (req := arp_request (mac n) GATEWAY). assert (vlen req = 42) as Hreq.
  { unfold req, arp_request, vlen. rewrite !length_app, !length_replicate, Hmac. done. }
  unfold say. erewrite bind_fin by done. cbn [world outside said app].
  destruct (send_keeps rdt tdt mmio rdt_other tdt_set 699 head [] w n req) as (w1 & n1 & E1 & Hi1 & _); [done|done|lia|].
  rewrite (on_card_run _ _ _ _ _ _ _ E1). cbn [negb].
  pose proof (wait_reply_spec 40 head w1 n1 naps [Asked GATEWAY (vlen req)]) as Hw. rewrite Hreq in Hw |- *.
  destruct (List.find replies (heard (mjoin (take 40 naps)))) as [f|].
  - destruct Hw as (w2 & e2 & E2); [by eapply nic_inv_le; [|exact Hi1]|done|].
    rewrite (bind_some _ _ _ _ _ E2). by eexists.
  - destruct Hw as (w2 & e2 & n2 & h2 & E2 & Hi2); [by eapply nic_inv_le; [|exact Hi1]|done|].
    rewrite (bind_some _ _ _ _ _ E2). cbn beta iota. erewrite bind_fin by done. cbn [world outside said].
    destruct (rx_debug_says h2 [] w2 n2 e2 ([Asked GATEWAY 42] ++ [NoReply]) Hi2)
      as (s3 & E3 & rdh & rd & icr & dd & tdh & td & tctl & st & cm & len & Es & _).
    exists s3. split; [exact E3|]. eexists _, _. exact Es.
Qed.
End wire.

(** Nothing in the first nap, the gateway's answer in the second. *)
Definition toy_reply : list Z :=
  [0x52; 0x54; 0; 0x12; 0x34; 0x56; 0x52; 0x55; 10; 0; 2; 2; 8; 6; 0; 1; 8; 0; 6; 4; 0; 2;
   0x52; 0x55; 10; 0; 2; 2; 10; 0; 2; 2; 0x52; 0x54; 0; 0x12; 0x34; 0x56; 10; 0; 2; 15].

Lemma arp_demo_reports_witness :
  ∃ s', @demo_arp _ _ plain_Hw dev (scheduled_Wire plain_rdt) 8 (mkDemo sample_world (0, [[[1; 2]]; [toy_reply]]) []) = Some (Ret (tt, s')) ∧
    said s' = [Asked GATEWAY 42; Reply [10; 0; 2; 2] [0x52; 0x55; 10; 0; 2; 2]].
Proof.
  destruct (@arp_demo_reports _ plain_Hw dev plain_rdt plain_tdt 0xf000) with
    (head := 0) (w := sample_world) (n := sample_nic) (naps := [[[1; 2]]; [toy_reply]]) as (s' & E & Hs).
  - reflexivity.
  - reflexivity.
  - reflexivity.
  - reflexivity.
  - apply sample_nic_inv. done.
  - reflexivity.
  - repeat constructor; vm_compute; (discriminate || reflexivity).
  - exists s'. split; [exact E|]. revert Hs. vm_compute. intros Hs. exact Hs.
Defined.
