(* ===== verification/Vfs.v ===== *)
(** * Vfs: the virtual filesystem and the descriptor table
    (kernel/src/fs/vfs.rs, kernel/src/fs/mod.rs, [fs_cat] of main.rs)

    A Rust string is its list of UTF-8 bytes. The [Inode] trait is the class
    [Inode] over a type of nodes and the kernel state [W] its methods may touch;
    nothing here depends on a concrete filesystem. *)

From S2P Require Import Prelude Bytes.

(** A string literal. *)
Definition str (s : string) : list Z :=
  (λ a, Z.of_N (Ascii.N_of_ascii a)) <$> String.list_ascii_of_string s.

Definition SLASH : Z := 47.

(** ** vfs.rs *)
Module vfs.

Inductive FsError := NotFound | PermissionDenied | NotDir | IsDir | InvalidArg | NoSpace | Io.

#[global] Instance FsError_eq_dec : EqDecision FsError.
Proof. solve_decision. Defined.

Definition errno (e : FsError) : Z :=
  match e with
  | Io => -5 | NotFound => -2 | PermissionDenied => -13 | NotDir => -20 | IsDir => -21
  | InvalidArg => -22 | NoSpace => -28
  end.

Definition FsResult (A : Type) : Type := (A + FsError)%type.
Definition Ok {A} (a : A) : FsResult A := inl a.
Definition Err {A} (e : FsError) : FsResult A := inr e.

Inductive FileKind := File_ | Dir | CharDev.

(** The [Inode] trait. [read] fills a prefix of the buffer it is lent and
    answers how much; the new contents of the buffer are part of the answer. *)
Class Inode (N W : Type) := {
  i_kind : N → FileKind;
  i_read : N → Z → list Z → W → outcome (FsResult Z * list Z * W);
  i_write : N → Z → list Z → W → outcome (FsResult Z * W);
  i_lookup : N → list Z → FsResult N;
  i_list_dir : N → FsResult (list (list Z));
  i_sock_index : N → option Z;
}.

(** The default methods of the trait. *)
Definition default_read {W} (buf : list Z) (w : W) : outcome (FsResult Z * list Z * W) :=
  Ret (Err PermissionDenied, buf, w).
Definition default_write {W} (w : W) : outcome (FsResult Z * W) := Ret (Err PermissionDenied, w).
Definition default_lookup {N} : FsResult N := Err NotFound.
Definition default_list_dir : FsResult (list (list Z)) := Err NotDir.

Record File (N : Type) := mkFile { inode : N; offset : Z }.
Arguments mkFile {N} _ _.
Arguments inode {N} _.
Arguments offset {N} _.

Record FileSystem (N : Type) := mkFs { fs_name : list Z; fs_root : N }.
Arguments mkFs {N} _ _.
Arguments fs_name {N} _.
Arguments fs_root {N} _.

Definition starts_with (prefix path : list Z) : bool := bool_decide (take (length prefix) path = prefix).

Definition covers (prefix path : list Z) : bool :=
  bool_decide (path = prefix) ||
  (starts_with prefix path && bool_decide (vget path (vlen prefix) = Some SLASH)).

(** [str::split('/')], the empty pieces dropped. *)
Fixpoint split_slash (l acc : list Z) : list (list Z) :=
  match l with
  | [] => [acc]
  | c :: l' => if c =? SLASH then acc :: split_slash l' [] else split_slash l' (acc ++ [c])
  end.
Definition components (l : list Z) : list (list Z) := filter (λ c, c ≠ []) (split_slash l []).

Section resolve.
Context {N W : Type} `{Inode N W}.

(** MOUNTS, oldest first. *)
Definition Mounts := list (list Z * FileSystem N).

Definition mount (prefix : list Z) (f : FileSystem N) (ms : Mounts) : Mounts := ms ++ [(prefix, f)].

Definition longest_mount (path : list Z) (ms : Mounts) : option (Z * FileSystem N) :=
  foldl (λ best m,
    if covers (fst m) path &&
       match best with None => true | Some (l, _) => l <=? vlen (fst m) end
    then Some (vlen (fst m), snd m) else best) None ms.

Fixpoint walk (comps : list (list Z)) (n : N) : FsResult N :=
  match comps with
  | [] => Ok n
  | c :: comps' => match i_lookup (Inode := H) n c with
                   | inl n' => walk comps' n'
                   | inr e => Err e
                   end
  end.

Definition resolve (path : list Z) (ms : Mounts) : FsResult N :=
  if negb (bool_decide (vget path 0 = Some SLASH)) then Err InvalidArg
  else match longest_mount path ms with
       | None => Err NotFound
       | Some (plen, f) => walk (components (drop (Z.to_nat plen) path)) (fs_root f)
       end.
End resolve.
Arguments Mounts : clear implicits.
End vfs.
Import vfs.

(** ** fs/mod.rs: the descriptor table *)
Module fs.
Section fds.
Context {N W : Type} `{Profile} `{!Inode N W}.

Definition MAX_FDS : Z := 64.

Definition FdTable := list (option (File N)).

Definition slot_is_none (s : option (File N)) : bool := match s with None => true | Some _ => false end.

Definition install (f : File N) (t : FdTable) : option Z * FdTable :=
  match position slot_is_none t with
  | Some i => (Some i, vset t i (Some f))
  | None => if vlen t <? MAX_FDS then (Some (vlen t), t ++ [Some f]) else (None, t)
  end.

Definition install_inode (n : N) (t : FdTable) : FsResult Z * FdTable :=
  let '(o, t') := install (mkFile n 0) t in
  (match o with Some fd => Ok fd | None => Err NoSpace end, t').

Definition open (path : list Z) (ms : Mounts N) (t : FdTable) : FsResult Z * FdTable :=
  match resolve (W := W) path ms with
  | inr e => (Err e, t)
  | inl n => install_inode n t
  end.

(** [t.get_mut(fd).and_then(|o| o.as_mut())] *)
Definition get_file (fd : Z) (t : FdTable) : option (File N) := mjoin (vget t fd).

Definition read (fd : Z) (buf : list Z) (t : FdTable) (w : W)
    : outcome (FsResult Z * list Z * FdTable * W) :=
  match get_file fd t with
  | None => Ret (Err InvalidArg, buf, t, w)
  | Some f =>
      r ← i_read (inode f) (offset f) buf w;
      let '(res, buf', w') := r in
      match res with
      | inr e => Ret (Err e, buf', t, w')
      | inl n =>
          off ← checked 64 (offset f + n);
          Ret (Ok n, buf', vset t fd (Some (mkFile (inode f) off)), w')
      end
  end.

Definition write (fd : Z) (data : list Z) (t : FdTable) (w : W)
    : outcome (FsResult Z * FdTable * W) :=
  match get_file fd t with
  | None => Ret (Err InvalidArg, t, w)
  | Some f =>
      r ← i_write (inode f) (offset f) data w;
      let '(res, w') := r in
      match res with
      | inr e => Ret (Err e, t, w')
      | inl n =>
          off ← checked 64 (offset f + n);
          Ret (Ok n, vset t fd (Some (mkFile (inode f) off)), w')
      end
  end.

Definition close (fd : Z) (t : FdTable) : FsResult unit * FdTable :=
  match vget t fd with
  | Some (Some _) => (Ok tt, vset t fd None)
  | _ => (Err InvalidArg, t)
  end.

Definition list_dir (path : list Z) (ms : Mounts N) : FsResult (list (list Z)) :=
  match resolve (W := W) path ms with
  | inr e => Err e
  | inl n => i_list_dir n
  end.

Definition sock_index (fd : Z) (t : FdTable) : option Z :=
  f ← get_file fd t; i_sock_index (inode f).

(** *** main.rs, [fs_cat]: open, read to the end of the file or of the scratch
    buffer, close. One round reads at least a byte, so [vlen scratch + 1]
    rounds are enough. *)
Fixpoint cat_loop (fuel : nat) (fd : Z) (scratch : list Z) (total : Z) (t : FdTable) (w : W)
    : outcome (Z * list Z * FdTable * W) :=
  match fuel with
  | O => Ret (total, scratch, t, w)
  | S k =>
      if total <? vlen scratch then
        r ← read fd (drop (Z.to_nat total) scratch) t w;
        let '(res, tail, t', w') := r in
        let scratch' := take (Z.to_nat total) scratch ++ tail in
        match res with
        | inr _ => Ret (total, scratch', t', w')
        | inl n => if n =? 0 then Ret (total, scratch', t', w')
                   else cat_loop k fd scratch' (total + n) t' w'
        end
      else Ret (total, scratch, t, w)
  end.

(** The bytes it prints, or the error of [open]; and the buffer as it leaves it. *)
Definition fs_cat (path : list Z) (ms : Mounts N) (scratch : list Z) (t : FdTable) (w : W)
    : outcome (FsResult (list Z) * list Z * FdTable * W) :=
  match open path ms t with
  | (inr e, t') => Ret (Err e, scratch, t', w)
  | (inl fd, t') =>
      r ← cat_loop (S (length scratch)) fd scratch 0 t' w;
      let '(total, scratch', t'', w') := r in
      let '(_, t3) := close fd t'' in
      out ← slice scratch' 0 total;
      Ret (Ok out, scratch', t3, w')
  end.
End fds.
Arguments FdTable : clear implicits.
End fs.
Import fs.

(** ** Paths *)

Lemma take_prefix {A} (l k : list A) : take (length l) (l ++ k) = l.
Proof. by rewrite take_app_length. Qed.

(** A mount covers the paths below it, component-wise. *)
Lemma covers_spec prefix path :
  covers prefix path = true ↔ path = prefix ∨ ∃ rest, path = prefix ++ SLASH :: rest.
Proof.
  unfold covers, starts_with. rewrite orb_true_iff, andb_true_iff, !bool_decide_eq_true. split.
  - intros [->|[Ht Hv]]; [by left|right]. apply vget_Some in Hv as [_ Hv].
    unfold vlen in Hv. rewrite Nat2Z.id in Hv. exists (drop (S (length prefix)) path).
    rewrite <- Ht at 1. rewrite <- (take_drop_middle _ _ _ Hv) at 1. done.
  - intros [->|[rest ->]]; [by left|right]. split; [apply take_prefix|].
    unfold vlen. rewrite vget_nat, lookup_app_r by lia. by rewrite Nat.sub_diag.
Qed.

Definition no_slash (c : list Z) : Prop := c ≠ [] ∧ SLASH ∉ c.

Lemma split_slash_piece c : ∀ acc rest, SLASH ∉ c →
  split_slash (c ++ SLASH :: rest) acc = (acc ++ c) :: split_slash rest [].
Proof.
  induction c as [|x c IH]; intros acc rest Hc; simpl; [by rewrite app_nil_r|].
  rewrite not_elem_of_cons in Hc. destruct Hc as [Hx Hc].
  rewrite (proj2 (Z.eqb_neq x SLASH)) by done. rewrite IH by done. by rewrite <- app_assoc.
Qed.

Lemma split_slash_last c : ∀ acc, SLASH ∉ c → split_slash c acc = [acc ++ c].
Proof.
  induction c as [|x c IH]; intros acc Hc; simpl; [by rewrite app_nil_r|].
  rewrite not_elem_of_cons in Hc. destruct Hc as [Hx Hc].
  rewrite (proj2 (Z.eqb_neq x SLASH)) by done. rewrite IH by done. by rewrite <- app_assoc.
Qed.

(** ["/a/b/c"] of [a; b; c]. *)
Definition join (comps : list (list Z)) : list Z := mjoin ((λ c, SLASH :: c) <$> comps).

Lemma split_slash_join comps : Forall no_slash comps →
  ∀ acc, SLASH ∉ acc → split_slash (acc ++ join comps) [] = acc :: comps.
Proof.
  induction 1 as [|c comps [Hne Hc] _ IH]; intros acc Hacc.
  - unfold join. simpl. rewrite app_nil_r. by rewrite split_slash_last.
  - unfold join in *. simpl. change (SLASH :: c ++ _) with (SLASH :: (c ++ mjoin ((λ c, SLASH :: c) <$> comps))).
    rewrite split_slash_piece by done. by rewrite IH.
Qed.

Lemma components_join comps : Forall no_slash comps → components (join comps) = comps.
Proof.
  intros Hc. unfold components. pose proof (split_slash_join comps Hc []) as E. simpl in E.
  rewrite E by apply not_elem_of_nil. rewrite filter_cons_False by auto.
  clear E. induction Hc as [|c comps [Hne _] _ IH]; [done|]. rewrite filter_cons_True by done. by rewrite IH.
Qed.

Section resolve_props.
Context {N W : Type} `{Inode N W}.

Lemma longest_mount_app path (ms : Mounts N) m :
  longest_mount path (ms ++ [m]) =
    if covers (fst m) path &&
       match longest_mount path ms with None => true | Some (l, _) => l <=? vlen (fst m) end
    then Some (vlen (fst m), snd m) else longest_mount path ms.
Proof. unfold longest_mount. by rewrite foldl_app. Qed.

(** The mount chosen is the longest of those that cover the path. *)
Lemma longest_mount_spec path (ms : Mounts N) :
  match longest_mount path ms with
  | None => ∀ m, m ∈ ms → covers (fst m) path = false
  | Some (l, f) =>
      (∃ p, (p, f) ∈ ms ∧ covers p path = true ∧ l = vlen p) ∧
      ∀ m, m ∈ ms → covers (fst m) path = true → vlen (fst m) ≤ l
  end.
Proof.
  induction ms as [|m ms IH] using rev_ind; [intros m Hm; by apply not_elem_of_nil in Hm|].
  rewrite longest_mount_app. destruct (covers (fst m) path) eqn:Hc; simpl.
  - destruct (longest_mount path ms) as [[l f]|].
    + destruct IH as [(p & Hp & Hcp & ->) Hmax]. case (Z.leb_spec (vlen p) (vlen (fst m))) as [Hle|Hlt].
      * split; [exists (fst m); split; [rewrite elem_of_app; right; destruct m; by left|done]|].
        intros m'. rewrite elem_of_app, list_elem_of_singleton. intros [Hm'| ->] Hc'; [|lia].
        specialize (Hmax m' Hm' Hc'). lia.
      * split; [exists p; split; [rewrite elem_of_app; by left|done]|].
        intros m'. rewrite elem_of_app, list_elem_of_singleton. intros [Hm'| ->] Hc'; [auto|lia].
    + split; [exists (fst m); split; [rewrite elem_of_app; right; destruct m; by left|done]|].
      intros m'. rewrite elem_of_app, list_elem_of_singleton. intros [Hm'| ->] Hc'; [|lia].
      by rewrite IH in Hc'.
  - destruct (longest_mount path ms) as [[l f]|].
    + destruct IH as [(p & Hp & Hcp & ->) Hmax].
      split; [exists p; split; [rewrite elem_of_app; by left|done]|].
      intros m'. rewrite elem_of_app, list_elem_of_singleton. intros [Hm'| ->] Hc'; [auto|congruence].
    + intros m'. rewrite elem_of_app, list_elem_of_singleton. intros [Hm'| ->]; auto.
Qed.

Lemma longest_mount_unique prefix path f (ms : Mounts N) :
  (prefix, f) ∈ ms → covers prefix path = true →
  (∀ m, m ∈ ms → covers (fst m) path = true → vlen (fst m) < vlen prefix ∨ m = (prefix, f)) →
  longest_mount path ms = Some (vlen prefix, f).
Proof.
  intros Hin Hc Hother. pose proof (longest_mount_spec path ms) as Hs.
  destruct (longest_mount path ms) as [[l g]|]; [|specialize (Hs _ Hin); simpl in Hs; congruence].
  destruct Hs as [(p & Hp & Hcp & ->) Hmax]. specialize (Hmax _ Hin Hc). simpl in Hmax.
  destruct (Hother _ Hp Hcp) as [Hlt|[= -> ->]]; [simpl in Hlt; lia|done].
Qed.

Lemma resolve_mounted prefix comps f (ms : Mounts N) :
  vget prefix 0 = Some SLASH → Forall no_slash comps → (prefix, f) ∈ ms →
  (∀ m, m ∈ ms → covers (fst m) (prefix ++ join comps) = true →
     vlen (fst m) < vlen prefix ∨ m = (prefix, f)) →
  resolve (W := W) (prefix ++ join comps) ms = walk (W := W) comps (fs_root f).
Proof.
  intros H0 Hc Hin Hother. unfold resolve.
  rewrite vget_app_l by (apply vget_lt in H0; lia). rewrite bool_decide_true by done.
  cbn [negb]. rewrite (longest_mount_unique prefix _ f); [|done| |done].
  - unfold vlen. rewrite Nat2Z.id, drop_app_length. by rewrite components_join.
  - apply covers_spec. destruct comps as [|c comps]; [left; by rewrite app_nil_r|right]. by eexists.
Qed.

Lemma resolve_relative path (ms : Mounts N) :
  vget path 0 ≠ Some SLASH → resolve (W := W) path ms = Err InvalidArg.
Proof. intros Hp. unfold resolve. by rewrite bool_decide_false. Qed.

Lemma resolve_unmounted path (ms : Mounts N) :
  vget path 0 = Some SLASH → (∀ m, m ∈ ms → covers (fst m) path = false) →
  resolve (W := W) path ms = Err NotFound.
Proof.
  intros Hp Hno. unfold resolve. rewrite bool_decide_true by done. cbn [negb].
  pose proof (longest_mount_spec path ms) as Hs. destruct (longest_mount path ms) as [[l g]|]; [|done].
  destruct Hs as [(p & Hpin & Hcp & _) _]. specialize (Hno _ Hpin). simpl in Hno. congruence.
Qed.

End resolve_props.

(** ** Descriptors *)

Section fd_props.
Context {N W : Type} `{Profile} `{!Inode N W}.
Implicit Types (t : FdTable N) (f : File N).

Lemma get_file_Some fd t f : get_file fd t = Some f ↔ vget t fd = Some (Some f).
Proof. unfold get_file. destruct (vget t fd) as [[]|]; simpl; split; congruence. Qed.

Lemma get_file_vset fd fd' o t : 0 ≤ fd < vlen t →
  get_file fd' (vset t fd o) = if bool_decide (fd' = fd) then o else get_file fd' t.
Proof.
  intros Hfd. unfold get_file. rewrite vget_vset. case_bool_decide as E1; case_bool_decide as E2; try done.
  - destruct E1; congruence.
  - subst. by destruct E1.
Qed.

Lemma get_file_snoc fd f t :
  get_file fd (t ++ [Some f]) = if bool_decide (fd = vlen t) then Some f else get_file fd t.
Proof.
  unfold get_file. case_bool_decide as E; [subst; by rewrite vget_snoc|].
  destruct (decide (fd < vlen t)); [by rewrite vget_app_l|].
  rewrite !(proj2 (vget_None _ fd)); [done|lia|rewrite vlen_app; change (vlen [Some f]) with 1; lia].
Qed.

(** [install] gives the lowest free descriptor. *)
Lemma install_spec f t : vlen t ≤ MAX_FDS →
  match install f t with
  | (Some fd, t') =>
      0 ≤ fd < MAX_FDS ∧ get_file fd t = None ∧ (∀ k, 0 ≤ k < fd → get_file k t ≠ None) ∧
      (∀ k, get_file k t' = if bool_decide (k = fd) then Some f else get_file k t) ∧
      vlen t' ≤ MAX_FDS
  | (None, t') => t' = t ∧ ∀ k, 0 ≤ k < MAX_FDS → get_file k t ≠ None
  end.
Proof.
  intros Hl. pose proof (vlen_nonneg t). unfold install.
  assert (∀ k, 0 ≤ k < vlen t → get_file k t = None → vget t k = Some None) as Hhole.
  { intros k Hk Hn. destruct (vget_in t k Hk) as [o Ho]. unfold get_file in Hn. rewrite Ho in Hn.
    simpl in Hn. by subst. }
  destruct (position slot_is_none t) as [i|] eqn:E.
  - apply position_Some in E as [([|] & Hi & Hn) Hmin]; [done|].
    pose proof (vget_lt _ _ _ Hi). split_and!; [lia|lia| | | |].
    + unfold get_file. by rewrite Hi.
    + intros k Hk Hno. specialize (Hmin k None ltac:(lia) (Hhole k ltac:(lia) Hno)). done.
    + intros k. by apply get_file_vset.
    + by rewrite vlen_vset.
  - rewrite position_None in E.
    assert (∀ k, 0 ≤ k < vlen t → get_file k t ≠ None) as Hfull.
    { intros k Hk Hn. specialize (E None (vget_elem_of _ _ _ (Hhole k Hk Hn))). done. }
    case (Z.ltb_spec (vlen t) MAX_FDS) as [Hlt|Hge].
    + split_and!; [lia|lia| |done| |].
      * unfold get_file. by rewrite (proj2 (vget_None _ _)) by lia.
      * intros k. apply get_file_snoc.
      * rewrite vlen_app. change (vlen [Some f]) with 1. lia.
    + split; [done|]. intros k Hk. apply Hfull. lia.
Qed.

Lemma close_spec fd t :
  match close fd t with
  | (inl _, t') => get_file fd t ≠ None ∧
      (∀ k, get_file k t' = if bool_decide (k = fd) then None else get_file k t) ∧ vlen t' = vlen t
  | (inr e, t') => e = InvalidArg ∧ t' = t ∧ get_file fd t = None
  end.
Proof.
  unfold close. destruct (vget t fd) as [[f|]|] eqn:E.
  - split_and!; [apply get_file_Some in E; congruence| |apply vlen_vset].
    intros k. apply get_file_vset. by apply vget_lt in E.
  - split_and!; [done..|]. unfold get_file. by rewrite E.
  - split_and!; [done..|]. unfold get_file. by rewrite E.
Qed.

(** ** Reading a file to its end *)

(** A node with fixed contents: what [InodeNode::read] and [ProcFile::read] do. *)
Definition contents_read (data : list Z) (off : Z) (buf : list Z) : Z * list Z :=
  if vlen data <=? off then (0, buf)
  else
    let n := Z.min (vlen buf) (vlen data - off) in
    (n, take (Z.to_nat n) (drop (Z.to_nat off) data) ++ drop (Z.to_nat n) buf).

Definition has_contents (n : N) (data : list Z) : Prop :=
  ∀ off buf (w : W), 0 ≤ off →
    i_read n off buf w = Ret (Ok (fst (contents_read data off buf)), snd (contents_read data off buf), w).

(** The same, for the kernel state [w] only: a file whose text is made when it is read. *)
Definition reads_as (n : N) (data : list Z) (w : W) : Prop :=
  ∀ off buf, 0 ≤ off →
    i_read n off buf w = Ret (Ok (fst (contents_read data off buf)), snd (contents_read data off buf), w).

Lemma get_file_lt fd t f : get_file fd t = Some f → 0 ≤ fd < vlen t.
Proof. intros E%get_file_Some. by apply vget_lt in E. Qed.

(** The loop, with the first [total] bytes of the file already in the buffer. *)
Lemma cat_loop_spec fuel fd n data (scratch : list Z) : ∀ t w total rest,
  reads_as n data w → vlen data < 2 ^ 64 → vlen scratch < 2 ^ 64 →
  get_file fd t = Some (mkFile n total) → 0 ≤ total ≤ vlen scratch → total ≤ vlen data →
  vlen rest = vlen scratch - total → vlen scratch - total < Z.of_nat fuel →
  ∃ total' t' out,
    cat_loop fuel fd (take (Z.to_nat total) data ++ rest) total t w = Ret (total', out, t', w) ∧
    total' = Z.min (vlen scratch) (vlen data) ∧ vlen out = vlen scratch ∧
    take (Z.to_nat total') out = take (Z.to_nat total') data ∧ vlen t' = vlen t ∧
    get_file fd t' ≠ None ∧ ∀ k, k ≠ fd → get_file k t' = get_file k t.
Proof.
  induction fuel as [|fuel IH]; intros t w total rest Hc Hd Hs Hf Ht Htd Hr Hfu; [lia|].
  assert (length (take (Z.to_nat total) data) = Z.to_nat total) as Hlt
    by (rewrite length_take; unfold vlen in *; lia).
  assert (vlen (take (Z.to_nat total) data ++ rest) = vlen scratch) as Hlen
    by (rewrite vlen_app; unfold vlen at 1; rewrite Hlt; lia).
  cbn [cat_loop]. rewrite Hlen. case (Z.ltb_spec total (vlen scratch)) as [Hlt'|Hge].
  2:{ exists total, t, (take (Z.to_nat total) data ++ rest).
      split; [done|]. split_and!; [lia|done| |done|congruence|done].
      rewrite take_app_le by lia. rewrite take_take. f_equal. lia. }
  unfold read. rewrite Hf. cbn [inode offset].
  replace (drop (Z.to_nat total) (take (Z.to_nat total) data ++ rest)) with rest
    by (by rewrite drop_app_length').
  replace (take (Z.to_nat total) (take (Z.to_nat total) data ++ rest)) with (take (Z.to_nat total) data)
    by (by rewrite take_app_length').
  rewrite Hc by lia. cbn [mbind outcome_bind]. unfold contents_read.
  case (Z.leb_spec (vlen data) total) as [He|He]; cbn [fst snd Ok].
  { rewrite checked_fits by (unfold fits; lia). cbn [mbind outcome_bind Ok Z.eqb].
    exists total. eexists _, _. split; [done|]. split_and!; [lia|done| |apply vlen_vset| |].
    - rewrite take_app_le by lia. rewrite take_take. f_equal. lia.
    - rewrite get_file_vset by (by eapply get_file_lt). by rewrite bool_decide_true.
    - intros k Hk. rewrite get_file_vset by (by eapply get_file_lt). by rewrite bool_decide_false. }
  set (k := Z.min (vlen rest) (vlen data - total)). assert (0 < k) as Hk by lia.
  rewrite checked_fits by (unfold fits; lia). cbn [mbind outcome_bind Ok].
  rewrite (proj2 (Z.eqb_neq k 0)) by lia. rewrite app_assoc.
  replace (take (Z.to_nat total) data ++ take (Z.to_nat k) (drop (Z.to_nat total) data))
    with (take (Z.to_nat (total + k)) data)
    by (rewrite Z2Nat.inj_add by lia; by rewrite take_take_drop).
  pose proof (get_file_lt _ _ _ Hf) as Hfd.
  destruct (IH (vset t fd (Some (mkFile n (total + k)))) w (total + k) (drop (Z.to_nat k) rest))
    as (total' & t' & out & -> & Ht' & Ho & Htk & Hl' & Hfn & Hk'); try done; try lia.
  { rewrite get_file_vset by done. by rewrite bool_decide_true. }
  { unfold vlen in *. rewrite length_drop. lia. }
  exists total', t', out. split; [done|]. split_and!; try done; [by rewrite Hl', vlen_vset|].
  intros j Hj. rewrite Hk' by done. rewrite get_file_vset by done. by rewrite bool_decide_false.
Qed.
End fd_props.

Section fd_claims.
Context {N W : Type} `{Profile} `{!Inode N W}.
Implicit Types (t : FdTable N) (f : File N).

(** C35. Descriptors are allocated lowest-first, never shared and reusable. Seen as a
    partial map from descriptors to open files, [install] (behind [open] and
    [socket]) adds exactly one entry, at the least descriptor not in use, below 64,
    and fails with [None] only when all 64 are in use; [close] removes exactly
    the entry named, and is [InvalidArg], changing nothing, on a descriptor
    that is not open, so that closing twice fails. *)
Theorem descriptors_correct f fd t : vlen t ≤ MAX_FDS →
  match install f t with
  | (Some fd', t') =>
      0 ≤ fd' < MAX_FDS ∧ get_file fd' t = None ∧ (∀ k, 0 ≤ k < fd' → get_file k t ≠ None) ∧
      (∀ k, get_file k t' = if bool_decide (k = fd') then Some f else get_file k t) ∧
      vlen t' ≤ MAX_FDS
  | (None, t') => t' = t ∧ ∀ k, 0 ≤ k < MAX_FDS → get_file k t ≠ None
  end ∧
  match close fd t with
  | (inl _, t') => get_file fd t ≠ None ∧
      (∀ k, get_file k t' = if bool_decide (k = fd) then None else get_file k t) ∧
      vlen t' ≤ MAX_FDS ∧ close fd t' = (Err InvalidArg, t')
  | (inr e, t') => e = InvalidArg ∧ t' = t ∧ get_file fd t = None
  end.
Proof.
  intros Hl. split; [by apply install_spec|]. pose proof (close_spec fd t) as Hc.
  destruct (close fd t) as [[u|e] t1]; [|done]. destruct Hc as (Hn & Hk & Hv).
  split_and!; [done|done|lia|]. pose proof (close_spec fd t1) as Hc1.
  destruct (close fd t1) as [[u1|e1] t2]; [|by destruct Hc1 as (-> & -> & _)].
  destruct Hc1 as [Hn1 _]. rewrite Hk, bool_decide_true in Hn1 by done. done.
Qed.

(** [fs_cat] (and any reader that loops until [read] returns 0) gets the file, the
    whole file, and nothing else: for a node with contents [data], opening the path,
    reading until the end of the file or of the buffer and closing returns the first
    [len(scratch)] bytes of [data] in order, the descriptor offset advancing by
    what each read returned, and leaves every other descriptor as it was. *)
Theorem cat_reads_contents path ms n data scratch t (w : W) :
  resolve (W := W) path ms = Ok n → reads_as n data w →
  vlen t ≤ MAX_FDS → (∃ k, 0 ≤ k < MAX_FDS ∧ get_file k t = None) →
  vlen data < 2 ^ 64 → vlen scratch < 2 ^ 64 →
  ∃ t' scratch', fs_cat path ms scratch t w = Ret (Ok (take (length scratch) data), scratch', t', w) ∧
    vlen scratch' = vlen scratch ∧ vlen t' ≤ MAX_FDS ∧ ∀ k, get_file k t' = get_file k t.
Proof.
  intros Hres Hc Hl (k0 & Hk0 & Hn0) Hd Hs. unfold fs_cat, open. rewrite Hres. cbn [Ok].
  unfold install_inode. pose proof (install_spec (mkFile n 0) t Hl) as Hi.
  destruct (install (mkFile n 0) t) as [[fd|] t1].
  2:{ destruct Hi as [_ Hi]. by destruct (Hi k0 Hk0). }
  destruct Hi as (_ & Hfree & _ & Hk1 & Hl1). cbn [Ok].
  assert (get_file fd t1 = Some (mkFile n 0)) as Hf by (rewrite Hk1; by rewrite bool_decide_true).
  pose proof (vlen_nonneg scratch). pose proof (vlen_nonneg data).
  destruct (cat_loop_spec (S (length scratch)) fd n data scratch t1 w 0 scratch)
    as (total & t2 & out & E & Htot & Ho & Htk & Hl2 & Hfd & Hk2); try done; try lia;
    [unfold vlen; lia|].
  change (take (Z.to_nat 0) data ++ scratch) with scratch in E. rewrite E. cbn [mbind outcome_bind].
  pose proof (close_spec fd t2) as Hcl. destruct (close fd t2) as [[[]|e] t3]; [|by destruct Hcl as (_ & _ & ?)].
  destruct Hcl as (_ & Hk3 & Hl3). unfold slice. rewrite bool_decide_true by lia.
  cbn [mbind outcome_bind]. exists t3, out. rewrite Z.sub_0_r, drop_0. split; [|split; [done|split; [lia|]]].
  - rewrite Htk. do 5 f_equal. apply list_eq. intros i. 
    destruct (decide (i < Z.to_nat total)%nat).
    + rewrite !lookup_take_lt by (unfold vlen in *; lia). done.
    + rewrite lookup_take_ge by lia. destruct (decide (i < length scratch)%nat).
      * rewrite lookup_take_lt by lia. symmetry. apply lookup_ge_None. unfold vlen in *. lia.
      * by rewrite lookup_take_ge by lia.
  - intros k. rewrite Hk3. case_bool_decide as Ek; [subst; by rewrite Hfree|].
    rewrite Hk2 by done. rewrite Hk1. by rewrite bool_decide_false.
Qed.
End fd_claims.

(** ** A small filesystem for the witnesses: files with fixed contents *)

Inductive toy_node := ToyDir | ToyFile (data : list Z).

#[global] Instance toy_Inode : Inode toy_node unit := {|
  i_kind n := match n with ToyDir => Dir | ToyFile _ => File_ end;
  i_read n off buf w :=
    match n with
    | ToyDir => default_read buf w
    | ToyFile d => Ret (Ok (fst (contents_read d off buf)), snd (contents_read d off buf), w)
    end;
  i_write n off data w := default_write w;
  i_lookup n name :=
    match n with
    | ToyDir => if bool_decide (name = str "motd") then Ok (ToyFile (str "hello")) else Err NotFound
    | ToyFile _ => default_lookup
    end;
  i_list_dir n := match n with ToyDir => Ok [str "motd"] | ToyFile _ => default_list_dir end;
  i_sock_index n := None;
|}.

Definition toy_mounts : Mounts toy_node :=
  mount (str "/dev") (mkFs (str "toy") ToyDir) (mount (str "/") (mkFs (str "root") ToyDir) []).


Lemma descriptors_correct_witness :
  let t : FdTable toy_node := [Some (mkFile ToyDir 0); None; Some (mkFile ToyDir 3)] in
  ∃ t', install (mkFile ToyDir 9) t = (Some 1, t') ∧ get_file 1 t' = Some (mkFile ToyDir 9) ∧
    get_file 0 (snd (close 0 t)) = None.
Proof.
  intros t. destruct (descriptors_correct (mkFile ToyDir 9) 0 t ltac:(done)) as [Hi Hc].
  eexists. split; [reflexivity|].
  destruct Hi as (_ & _ & _ & Hk & _). split; [exact (Hk 1)|].
  destruct Hc as (_ & Hk0 & _). exact (Hk0 0).
Defined.

Lemma cat_reads_contents_witness :
  ∃ t' scratch', @fs_cat _ _ dev toy_Inode (str "/dev/motd") toy_mounts (replicate 3 0) [] tt =
    Ret (Ok (str "hel"), scratch', t', tt).
Proof.
  destruct (@cat_reads_contents _ _ dev toy_Inode (str "/dev/motd") toy_mounts (ToyFile (str "hello"))
    (str "hello") (replicate 3 0) [] tt) as (t' & scr & E & _); try done.
  - exists 0. split; done.
  - exists t', scr. exact E.
Defined.
