(* ===== verification/Net.v ===== *)
(** * Net: the network stack (kernel/src/net/*.rs)

    Each function of a layer is a computation over [Net], the statics it can
    reach: the card (drivers/e1000.rs), the ARP cache and the socket table. A
    packet is a byte list, an address a list of 4 (IPv4) or 6 (MAC) bytes.
    What the functions print is not modelled. *)

From S2P Require Import Prelude Bytes Memory E1000 Vfs.
Import e1000 vfs.

(** ** State *)

Record Socket := mkSocket {
  proto : Z;
  local_port : Z;
  peer : option (list Z * Z);
  rx : list (list Z * Z * list Z);      (* (source, source port, data), oldest first *)
}.

Record Net (D : Type) := mkNet {
  world : World D;
  cache : gmap (list Z) (list Z);
  sockets : list (option Socket);
}.
Arguments mkNet {D} _ _ _.
Arguments world {D} _.
Arguments cache {D} _.
Arguments sockets {D} _.

Definition set_world {D : Type} (w : World D) (s : Net D) : Net D := mkNet w (cache s) (sockets s).
Definition set_cache {D : Type} (c : gmap (list Z) (list Z)) (s : Net D) : Net D := mkNet (world s) c (sockets s).
Definition set_sockets {D : Type} (t : list (option Socket)) (s : Net D) : Net D := mkNet (world s) (cache s) t.

(** ** ethernet.rs *)

Definition BROADCAST : list Z := replicate 6 0xff.
Definition ETHERTYPE_ARP : Z := 0x0806.
Definition ETHERTYPE_IP : Z := 0x0800.
Definition ETH_HEADER_LEN : Z := 14.

(** [MacAddr::fmt]: ["aa:bb:cc:dd:ee:ff"]. *)
Definition hex_digits : list Z := str "0123456789abcdef".
Definition mac_fmt (m : list Z) : outcome (list Z) :=
  for_each (imap (λ i b, (Z.of_nat i, b)) m) (λ ib out,
    let '(i, b) := ib in
    let out := if 0 <? i then out ++ str ":" else out in
    hi ← index hex_digits (Z.shiftr b 4);
    lo ← index hex_digits (Z.land b 0xf);
    Ret (out ++ [hi] ++ [lo])) [].

Definition eth_frame (dst src : list Z) (ethertype : Z) (payload : list Z) : list Z :=
  dst ++ src ++ be16_bytes ethertype ++ payload.

(** ** The protocol numbers and constants of the layers *)

Definition HTYPE_ETH : Z := 1.
Definition PTYPE_IP : Z := 0x0800.
Definition OP_REQUEST : Z := 1.
Definition OP_REPLY : Z := 2.
Definition PROTO_ICMP : Z := 1.
Definition PROTO_TCP : Z := 6.
Definition PROTO_UDP : Z := 17.
Definition IP_HEADER_LEN : Z := 20.
Definition ECHO_REPLY : Z := 0.
Definition ECHO_REQUEST : Z := 8.
Definition UDP_HEADER_LEN : Z := 8.
Definition TCP_HEADER_LEN : Z := 20.
Definition SYN : Z := 0x02.
Definition ACK : Z := 0x10.

Definition sock_is_none (s : option Socket) : bool := match s with None => true | Some _ => false end.

(** ARP payload: [htype ptype hlen plen oper sha spa tha tpa]. *)
Definition arp_payload (oper : Z) (sha spa tha tpa : list Z) : list Z :=
  be16_bytes HTYPE_ETH ++ be16_bytes PTYPE_IP ++ [6] ++ [4] ++ be16_bytes oper ++
  sha ++ spa ++ tha ++ tpa.

Section stack.
Context {D : Type} `{Hw D} `{Profile}.
Abbreviation NetM := (M (Net D)).

(** ** mod.rs *)

Definition our_mac : NetM (list Z) :=
  gets (λ s, match mac_address (world s) with Some m => m | None => replicate 6 0 end).

(** Run an operation of the driver. *)
Definition on_card {A} (f : World D → outcome (A * World D)) : NetM A :=
  λ s, match f (world s) with
       | Ret (a, w) => Ret (a, set_world w s)
       | Panic p => Panic p
       end.

Definition transmit_ethernet (dst_mac : list Z) (ethertype : Z) (payload : list Z) : NetM bool :=
  me ← our_mac;
  on_card (send (eth_frame dst_mac me ethertype payload)).

(** ** arp.rs *)

Definition arp_init : NetM unit := modify (set_cache ∅).
Definition arp_remember (ip mac : list Z) : NetM unit :=
  modify (λ s, set_cache (<[ip := mac]> (cache s)) s).
Definition arp_lookup (ip : list Z) : NetM (option (list Z)) := gets (λ s, cache s !! ip).

Definition arp_request (target : list Z) : NetM unit :=
  me ← our_mac;
  _ ← transmit_ethernet BROADCAST ETHERTYPE_ARP (arp_payload OP_REQUEST me IP (replicate 6 0) target);
  mret tt.

Definition next_hop_mac (dst_ip : list Z) : NetM (list Z) :=
  a ← arp_lookup dst_ip;
  match a with
  | Some m => mret m
  | None =>
      b ← arp_lookup GATEWAY;
      match b with
      | Some m => mret m
      | None => mret BROADCAST
      end
  end.

(** [[a[i], a[i+1], ...]] *)
Definition take_bytes (l : list Z) (from n : Z) : outcome (list Z) :=
  for_each (seqZ from n) (λ i acc, b ← index l i; Ret (acc ++ [b])) [].

Definition arp_handle (arp : list Z) : NetM unit :=
  if vlen arp <? 28 then mret tt
  else
    f ← lift (slice arp 6 8);
    oper ← lift (be16 f);
    sha ← lift (take_bytes arp 8 6);
    spa ← lift (take_bytes arp 14 4);
    tpa ← lift (take_bytes arp 24 4);
    _ ← arp_remember spa sha;
    if (oper =? OP_REQUEST) && bool_decide (tpa = IP) then
      me ← our_mac;
      _ ← transmit_ethernet sha ETHERTYPE_ARP (arp_payload OP_REPLY me IP sha spa);
      mret tt
    else mret tt.

(** ** ip.rs, sending *)

Definition ip_header (proto : Z) (src dst : list Z) (total : Z) : outcome (list Z) :=
  let h := [Z.lor (Z.shiftl 4 4) 5; 0] ++ be16_bytes total ++ be16_bytes 1 ++ be16_bytes 0x4000 ++
           [64; proto] ++ [0; 0] ++ src ++ dst in
  cks ← checksum h;
  copy_into h 10 (be16_bytes cks).

Definition ip_send (dst : list Z) (proto : Z) (payload : list Z) : NetM bool :=
  let total := wrap 16 (IP_HEADER_LEN + vlen payload) in
  h ← lift (ip_header proto IP dst total);
  mac ← next_hop_mac dst;
  transmit_ethernet mac ETHERTYPE_IP (h ++ payload).

(** ** icmp.rs *)

Definition echo_request (id seq : Z) (payload : list Z) : outcome (list Z) :=
  let m := [ECHO_REQUEST; 0] ++ be16_bytes 0 ++ be16_bytes id ++ be16_bytes seq ++ payload in
  cks ← checksum m;
  copy_into m 2 (be16_bytes cks).

Definition echo_reply (req : list Z) : outcome (list Z) :=
  m ← store req 0 ECHO_REPLY;
  m ← store m 1 0;
  m ← store m 2 0;
  m ← store m 3 0;
  cks ← checksum m;
  copy_into m 2 (be16_bytes cks).

Definition icmp_handle (src msg : list Z) : NetM unit :=
  if vlen msg <? 8 then mret tt
  else
    t ← lift (index msg 0);
    if t =? ECHO_REQUEST then
      reply ← lift (echo_reply msg);
      _ ← ip_send src PROTO_ICMP reply;
      mret tt
    else mret tt.

Definition ping (dst : list Z) (seq : Z) : NetM unit :=
  req ← lift (echo_request 0x5f seq (str "simplelinux-ping"));
  _ ← ip_send dst PROTO_ICMP req;
  mret tt.

(** ** socket.rs *)

Definition socket_init : NetM unit := modify (set_sockets []).

Definition socket_new (p : Z) : NetM Z :=
  λ s, let t := sockets s in
       let x := mkSocket p 0 None [] in
       match position sock_is_none t with
       | Some i => Ret (i, set_sockets (vset t i (Some x)) s)
       | None => Ret (vlen (t ++ [Some x]) - 1, set_sockets (t ++ [Some x]) s)
       end.

(** [t.get(idx).and_then(|o| o.as_ref())] *)
Definition sock_get (idx : Z) (t : list (option Socket)) : option Socket := mjoin (vget t idx).

Definition sock_update (idx : Z) (f : Socket → Socket) : NetM bool :=
  λ s, match sock_get idx (sockets s) with
       | Some x => Ret (true, set_sockets (vset (sockets s) idx (Some (f x))) s)
       | None => Ret (false, s)
       end.

Definition socket_bind (idx port : Z) : NetM bool :=
  sock_update idx (λ x, mkSocket (proto x) port (peer x) (rx x)).
Definition socket_connect (idx : Z) (ip : list Z) (port : Z) : NetM bool :=
  sock_update idx (λ x, mkSocket (proto x) (local_port x) (Some (ip, port)) (rx x)).
Definition socket_close (idx : Z) : NetM unit :=
  modify (λ s, if idx <? vlen (sockets s) then set_sockets (vset (sockets s) idx None) s else s).

(** [recvfrom] writes the datagram over the start of [buf]. *)
Definition recvfrom (idx : Z) (buf : list Z) : NetM (option (Z * list Z * Z) * list Z) :=
  λ s, match sock_get idx (sockets s) with
       | None => Ret ((None, buf), s)
       | Some x =>
           match rx x with
           | [] => Ret ((None, buf), s)
           | (src, sport, data) :: q =>
               let n := Z.min (vlen buf) (vlen data) in
               let x' := mkSocket (proto x) (local_port x) (peer x) q in
               Ret ((Some (n, src, sport), blit buf 0 (take (Z.to_nat n) data)),
                    set_sockets (vset (sockets s) idx (Some x')) s)
           end
       end.

Definition deliver_slot (dport : Z) (src : list Z) (sport : Z) (data : list Z) (o : option Socket)
    : option Socket :=
  match o with
  | Some x =>
      if (proto x =? PROTO_UDP) && (local_port x =? dport)
      then Some (mkSocket (proto x) (local_port x) (peer x) (rx x ++ [(src, sport, data)]))
      else Some x
  | None => None
  end.

Definition deliver (dport : Z) (src : list Z) (sport : Z) (data : list Z) : NetM unit :=
  modify (λ s, set_sockets (deliver_slot dport src sport data <$> sockets s) s).

(** ** udp.rs *)

Definition pseudo_header (dst : list Z) (p total : Z) : list Z :=
  IP ++ dst ++ [0] ++ [p] ++ be16_bytes total.

Definition udp_datagram (src_port : Z) (dst : list Z) (dst_port : Z) (data : list Z) : outcome (list Z) :=
  let total := wrap 16 (UDP_HEADER_LEN + vlen data) in
  let d := be16_bytes src_port ++ be16_bytes dst_port ++ be16_bytes total ++ be16_bytes 0 ++ data in
  cks ← checksum (pseudo_header dst PROTO_UDP total ++ d);
  copy_into d 6 (be16_bytes cks).

Definition udp_send (src_port : Z) (dst : list Z) (dst_port : Z) (data : list Z) : NetM bool :=
  d ← lift (udp_datagram src_port dst dst_port data);
  ip_send dst PROTO_UDP d.

(** [u16::from_be_bytes([l[i], l[i + 1]])] *)
Definition field16 (l : list Z) (i : Z) : outcome Z :=
  a ← index l i; b ← index l (i + 1); Ret (from_be16 a b).
Definition field32 (l : list Z) (i : Z) : outcome Z :=
  a ← index l i; b ← index l (i + 1); c ← index l (i + 2); d ← index l (i + 3);
  Ret (from_be32 a b c d).

Definition udp_handle (src d : list Z) : NetM unit :=
  if vlen d <? UDP_HEADER_LEN then mret tt
  else
    sport ← lift (field16 d 0);
    dport ← lift (field16 d 2);
    length ← lift (field16 d 4);
    let e := Z.min (Z.max length UDP_HEADER_LEN) (vlen d) in
    payload ← lift (slice d UDP_HEADER_LEN e);
    deliver dport src sport payload.

(** ** tcp.rs *)

Definition tcp_segment (sport dport seq ack flags : Z) (payload dst : list Z) : outcome (list Z) :=
  let t := be16_bytes sport ++ be16_bytes dport ++ be32_bytes seq ++ be32_bytes ack ++
           be16_bytes (Z.lor (Z.shiftl (TCP_HEADER_LEN `div` 4) 12) flags) ++ be16_bytes 536 ++
           be16_bytes 0 ++ be16_bytes 0 ++ payload in
  cks ← checksum (pseudo_header dst PROTO_TCP (wrap 16 (vlen t)) ++ t);
  copy_into t 16 (be16_bytes cks).

Definition send_segment (sport : Z) (dst : list Z) (dport seq ack flags : Z) : NetM bool :=
  t ← lift (tcp_segment sport dport seq ack flags [] dst);
  ip_send dst PROTO_TCP t.

Definition tcp_handle (src t : list Z) : NetM unit :=
  if vlen t <? TCP_HEADER_LEN then mret tt
  else
    sport ← lift (field16 t 0);
    dport ← lift (field16 t 2);
    seq ← lift (field32 t 4);
    _ ← lift (field32 t 8);
    flags ← lift (field16 t 12);
    if negb (Z.land flags SYN =? 0) && (Z.land flags ACK =? 0) then
      ack ← lift (checked 32 (seq + 1));
      syn_ack ← lift (tcp_segment dport sport 1000 ack (Z.lor SYN ACK) [] src);
      _ ← ip_send src PROTO_TCP syn_ack;
      mret tt
    else mret tt.

(** ** ip.rs, receiving *)

Definition ip_handle (pkt : list Z) : NetM unit :=
  if vlen pkt <? IP_HEADER_LEN then mret tt
  else
    v ← lift (index pkt 0);
    if negb (Z.shiftr v 4 =? 4) then mret tt
    else
      let ihl := Z.land v 0x0f * 4 in
      f ← lift (slice pkt 2 4);
      total ← lift (be16 f);
      p ← lift (index pkt 9);
      src ← lift (take_bytes pkt 12 4);
      body ← lift (slice pkt (Z.max ihl IP_HEADER_LEN) (Z.min total (vlen pkt)));
      if p =? PROTO_ICMP then icmp_handle src body
      else if p =? PROTO_UDP then udp_handle src body
      else if p =? PROTO_TCP then tcp_handle src body
      else mret tt.

(** ** ethernet.rs, receiving *)

Definition eth_handle (frame : list Z) : NetM unit :=
  if vlen frame <? ETH_HEADER_LEN then mret tt
  else
    f ← lift (slice frame 12 14);
    ethertype ← lift (be16 f);
    payload ← lift (slice frame ETH_HEADER_LEN (vlen frame));
    if ethertype =? ETHERTYPE_ARP then arp_handle payload
    else if ethertype =? ETHERTYPE_IP then ip_handle payload
    else mret tt.

(** ** mod.rs, [pump] and [init] *)

(** At most 16 frames a call: [fuel] is 16, then the loop breaks. *)
Fixpoint pump_loop (fuel : nat) (n : Z) : NetM Z :=
  match fuel with
  | O => mret n
  | S k =>
      o ← on_card poll_receive;
      match o with
      | None => mret n
      | Some frame =>
          _ ← eth_handle frame;
          pump_loop k (n + 1)
      end
  end.
Definition pump : NetM Z := pump_loop 16 0.

Definition net_init : NetM unit := _ ← arp_init; socket_init.

(** ** socket.rs, the inode *)

Definition sendto (idx : Z) (dst : list Z) (port : Z) (data : list Z) : NetM (FsResult Z) :=
  x ← gets (λ s, sock_get idx (sockets s));
  let p := match x with Some x => proto x | None => 0 end in
  if negb (p =? PROTO_UDP) then mret (Err InvalidArg)
  else
    let sport := match x with Some x => local_port x | None => 0 end in
    ok ← udp_send sport dst port data;
    mret (if (ok : bool) then Ok (vlen data) else Err Io).

Definition SocketInode_read (idx : Z) (buf : list Z) : NetM (FsResult Z * list Z) :=
  r ← recvfrom idx buf;
  match r with
  | (Some (n, _, _), buf') => mret (Ok n, buf')
  | (None, buf') => mret (Ok 0, buf')
  end.

Definition SocketInode_write (idx : Z) (data : list Z) : NetM (FsResult Z) :=
  x ← gets (λ s, sock_get idx (sockets s));
  match x ≫= peer with
  | Some (ip, port) => sendto idx ip port data
  | None => mret (Err InvalidArg)
  end.

(** [info]: index, protocol, port, peer, queue length of every socket. *)
Definition socket_info (s : Net D) : list (Z * Z * Z * option (list Z * Z) * Z) :=
  omap id (imap (λ i o, match o with
    | Some x => Some (Z.of_nat i, proto x, local_port x, peer x, vlen (rx x))
    | None => None
    end) (sockets s)).
End stack.
