(* ===== verification/NetProps.v ===== *)
(** * NetProps: what the network stack does with packets

    Every packet the stack builds carries a correct checksum; what it sends, its
    own receive path understands; which received frames it survives and which two
    kinds stop the kernel; sockets are first-in first-out queues. *)

From S2P Require Import Prelude Bytes Memory E1000 Vfs Net.
Import e1000 vfs Corelib.Init.Datatypes.

(** ** Running the monad *)

Section running.
Context {S A B : Type}.

Lemma bind_lift (o : outcome A) (f : A → M S B) s a : o = Ret a → (lift o ≫= f) s = f a s.
Proof. by intros ->. Qed.

Lemma bind_panic (o : outcome A) (f : A → M S B) s p : o = Panic p → (lift o ≫= f) s = Panic p.
Proof. by intros ->. Qed.

Lemma bind_run (m : M S A) (f : A → M S B) s a s' : m s = Ret (a, s') → (m ≫= f) s = f a s'.
Proof. intros E. unfold mbind, M_bind. by rewrite E. Qed.
End running.

(** ** Reading packets *)

Lemma take_bytes_spec (l : list Z) from n : 0 ≤ from → 0 ≤ n → from + n ≤ vlen l →
  take_bytes l from n = Ret (take (Z.to_nat n) (drop (Z.to_nat from) l)).
Proof.
  intros Hf Hn Hl. unfold take_bytes.
  destruct (for_each_split (λ pre acc, acc = take (length pre) (drop (Z.to_nat from) l))
    (λ i acc, b ← index l i; Ret (acc ++ [b])) (seqZ from n) [] []) as (out & -> & ->).
  - done.
  - intros pre i acc suf Hsplit ->. simpl in Hsplit.
    assert (seqZ from n !! length pre = Some i) as [-> Hi]%lookup_seqZ.
    { by rewrite Hsplit, lookup_app_r, Nat.sub_diag by lia. }
    rewrite index_lookup by lia. replace (Z.to_nat (from + Z.of_nat (length pre))) with (Z.to_nat from + length pre)%nat by lia.
    destruct (lookup_lt_is_Some_2 l (Z.to_nat from + length pre)) as [x Hx]; [unfold vlen in Hl; lia|].
    rewrite Hx. simpl. eexists. split; [done|]. rewrite length_app. simpl.
    rewrite Nat.add_1_r. erewrite take_S_r; [done|]. by rewrite lookup_drop.
  - simpl. by rewrite length_seqZ.
Qed.

(** An IPv4 or MAC address as its bytes. *)
Lemma list4 {A} (l : list A) : length l = 4%nat → ∃ a b c d, l = [a; b; c; d].
Proof. destruct l as [|a [|b [|c [|d [|]]]]]; try done. eauto. Qed.

Lemma list6 {A} (l : list A) : length l = 6%nat → ∃ a b c d e f, l = [a; b; c; d; e; f].
Proof. destruct l as [|a [|b [|c [|d [|e [|f [|]]]]]]]; try done. repeat eexists. Qed.

(** ** Sending *)

Section sending.
Context {D : Type} `{Hw D} `{Profile}.
Implicit Types (s : Net D).

(** The card, if there is one, has room for one more frame number. *)
Definition card_ok s : Prop := match nic (world s) with Some n => tx_ok n | None => True end.

Definition has_nic s : bool := match nic (world s) with Some _ => true | None => false end.
Definition mac_of_net s : list Z :=
  match mac_address (world s) with Some m => m | None => replicate 6 0 end.

(** The state after the driver was handed [frame]. *)
Definition sent (frame : list Z) s : Net D :=
  match send frame (world s) with Ret (_, w) => set_world w s | Panic _ => s end.

Lemma transmit_eq dst et p s : card_ok s →
  transmit_ethernet dst et p s = Ret (has_nic s, sent (eth_frame dst (mac_of_net s) et p) s).
Proof.
  unfold card_ok, has_nic, sent. intros Hok. unfold transmit_ethernet.
  erewrite bind_run by reflexivity. fold (mac_of_net s). unfold on_card.
  destruct (nic (world s)) as [n|] eqn:En.
  - by rewrite (send_eq _ _ _ En Hok).
  - unfold send. by rewrite En.
Qed.

Definition hop s (dst : list Z) : list Z :=
  match cache s !! dst with
  | Some m => m
  | None => match cache s !! GATEWAY with Some m => m | None => BROADCAST end
  end.

Lemma next_hop_eq dst s : next_hop_mac dst s = Ret (hop s dst, s).
Proof.
  unfold next_hop_mac, hop. erewrite bind_run by reflexivity.
  destruct (cache s !! dst); [done|]. erewrite bind_run by reflexivity. by destruct (cache s !! GATEWAY).
Qed.

(** ** The IPv4 header *)

Definition ip_bytes (proto total cks : Z) (src dst : list Z) : list Z :=
  ([0x45; 0] ++ be16_bytes total ++ be16_bytes 1 ++ be16_bytes 0x4000 ++ [64; proto]) ++
  be16_bytes cks ++ (src ++ dst).

Lemma ip_header_eq proto src dst total :
  is_byte proto → bytes src → bytes dst → length src = 4%nat → length dst = 4%nat →
  ∃ cks, ip_header proto src dst total = Ret (ip_bytes proto total cks src dst) ∧ fits 16 cks ∧
    checksum (ip_bytes proto total cks src dst) = Ret 0.
Proof.
  intros Hp Hbs Hbd Hs Hd. unfold ip_header, ip_bytes.
  set (pre := [0x45; 0] ++ be16_bytes total ++ be16_bytes 1 ++ be16_bytes 0x4000 ++ [64; proto]).
  assert (bytes pre) as Hpre by (unfold pre; auto 10 with bytes).
  change ([Z.lor (Z.shiftl 4 4) 5; 0] ++ be16_bytes total ++ be16_bytes 1 ++ be16_bytes 0x4000 ++
    [64; proto] ++ [0; 0] ++ src ++ dst) with (pre ++ [0; 0] ++ (src ++ dst)).
  assert (vlen pre = 10) as Hl by done.
  destruct (checksum_verifies pre (src ++ dst)) as (cks & E & Hc & Hz); try done.
  - auto with bytes.
  - rewrite Hl, vlen_app. unfold vlen. rewrite Hs, Hd. done.
  - exists cks. rewrite E. cbn [mbind outcome_bind]. split; [|done].
    rewrite copy_into_blit; [|done|rewrite !vlen_app, Hl; unfold vlen; rewrite Hs, Hd; done].
    by rewrite blit_mid.
Qed.

Lemma vlen_ip_bytes proto total cks src dst : length src = 4%nat → length dst = 4%nat →
  vlen (ip_bytes proto total cks src dst) = 20.
Proof. intros Hs Hd. unfold ip_bytes. rewrite !vlen_app. unfold vlen. rewrite Hs, Hd. done. Qed.

(** The frame [ip::send] hands to the driver. *)
Lemma ip_send_eq dst proto payload s :
  is_byte proto → bytes dst → length dst = 4%nat → card_ok s →
  ∃ cks, fits 16 cks ∧
    let pkt := ip_bytes proto (wrap 16 (20 + vlen payload)) cks IP dst in
    checksum pkt = Ret 0 ∧
    ip_send dst proto payload s =
      Ret (has_nic s, sent (eth_frame (hop s dst) (mac_of_net s) ETHERTYPE_IP (pkt ++ payload)) s).
Proof.
  intros Hp Hb Hd Hok.
  destruct (ip_header_eq proto IP dst (wrap 16 (20 + vlen payload))) as (cks & E & Hc & Hz);
    [done|unfold IP; auto 10 with bytes|done|done|done|].
  exists cks. split; [done|]. split; [done|]. unfold ip_send, IP_HEADER_LEN.
  rewrite (bind_lift _ _ _ _ E). rewrite (bind_run _ _ _ _ _ (next_hop_eq dst s)).
  by rewrite transmit_eq.
Qed.
End sending.

(** ** Receiving what was built *)

Section receiving.
Context {D : Type} `{Hw D} `{Profile}.
Implicit Types (s : Net D).

Lemma be16_of_bytes z : fits 16 z → be16 (be16_bytes z) = Ret z.
Proof.
  intros Hz. unfold be16. rewrite !index_lookup by done. simpl. by rewrite from_be16_bytes.
Qed.

(** Demultiplexing an Ethernet frame. *)
Lemma eth_handle_frame dst src et payload s :
  length dst = 6%nat → length src = 6%nat → fits 16 et →
  eth_handle (eth_frame dst src et payload) s =
    (if et =? ETHERTYPE_ARP then arp_handle payload
     else if et =? ETHERTYPE_IP then ip_handle payload else mret tt) s.
Proof.
  intros Hd Hs He. unfold eth_handle, eth_frame. pose proof (vlen_nonneg payload).
  assert (vlen dst = 6) as Ld by (unfold vlen; lia). assert (vlen src = 6) as Ls by (unfold vlen; lia).
  assert (vlen (be16_bytes et) = 2) as Le by done.
  rewrite (proj2 (Z.ltb_ge _ _)) by (unfold ETH_HEADER_LEN; rewrite !vlen_app; lia).
  rewrite (app_assoc dst). erewrite bind_lift by (apply slice_mid; rewrite ?vlen_app; lia).
  erewrite bind_lift by (by apply be16_of_bytes).
  erewrite bind_lift by (rewrite (app_assoc (dst ++ src)); apply slice_tail;
    unfold ETH_HEADER_LEN; rewrite ?vlen_app; lia).
  by destruct (et =? ETHERTYPE_ARP), (et =? ETHERTYPE_IP).
Qed.

(** Demultiplexing a packet with the header of [ip_bytes]. *)
Lemma ip_handle_packet proto cks src dst body s :
  length src = 4%nat → length dst = 4%nat → 20 + vlen body < 65536 →
  ip_handle (ip_bytes proto (20 + vlen body) cks src dst ++ body) s =
    (if proto =? PROTO_ICMP then icmp_handle src body
     else if proto =? PROTO_UDP then udp_handle src body
     else if proto =? PROTO_TCP then tcp_handle src body else mret tt) s.
Proof.
  intros Hs Hd Hl. pose proof (vlen_nonneg body). unfold ip_handle, IP_HEADER_LEN.
  pose proof (vlen_ip_bytes proto (20 + vlen body) cks src dst Hs Hd) as Lh.
  set (h := ip_bytes _ _ _ _ _) in *.
  rewrite (proj2 (Z.ltb_ge _ _)) by (rewrite vlen_app; lia).
  erewrite bind_lift by (by rewrite index_lookup). change (Z.shiftr 0x45 4 =? 4) with true. cbn [negb].
  change (Z.max (Z.land 69 15 * 4) 20) with 20.
  erewrite bind_lift.
  2:{ unfold h, ip_bytes. rewrite <- !app_assoc. rewrite (app_assoc [0x45; 0]), <- (app_assoc [0x45; 0]).
      apply slice_mid; done. }
  erewrite bind_lift by (apply be16_of_bytes; unfold fits; lia).
  erewrite bind_lift by (by rewrite index_lookup).
  erewrite bind_lift by (apply take_bytes_spec; [done|done|rewrite vlen_app; lia]).
  erewrite bind_lift.
  2:{ apply slice_tail; [done|]. rewrite Z.min_r by (rewrite vlen_app; lia). done. }
  destruct (list4 src Hs) as (a & b & c & d & ->). destruct (list4 dst Hd) as (a' & b' & c' & d' & ->).
  by destruct (proto =? PROTO_ICMP), (proto =? PROTO_UDP), (proto =? PROTO_TCP).
Qed.

(** ** UDP *)

Definition udp_bytes (sport dport cks : Z) (data : list Z) : list Z :=
  (be16_bytes sport ++ be16_bytes dport ++ be16_bytes (8 + vlen data)) ++ be16_bytes cks ++ data.

Lemma vlen_udp_bytes sport dport cks data : vlen (udp_bytes sport dport cks data) = 8 + vlen data.
Proof. unfold udp_bytes. rewrite !vlen_app. change (vlen (be16_bytes _)) with 2. lia. Qed.

Lemma udp_datagram_eq sport dst dport data :
  bytes dst → length dst = 4%nat → bytes data → 8 + vlen data < 65536 →
  ∃ cks, udp_datagram sport dst dport data = Ret (udp_bytes sport dport cks data) ∧ fits 16 cks ∧
    checksum (pseudo_header dst PROTO_UDP (8 + vlen data) ++ udp_bytes sport dport cks data) = Ret 0.
Proof.
  intros Hbd Hd Hb Hl. pose proof (vlen_nonneg data). unfold udp_datagram, UDP_HEADER_LEN.
  rewrite wrap_small by (unfold fits; lia).
  set (hd := be16_bytes sport ++ be16_bytes dport ++ be16_bytes (8 + vlen data)).
  set (ps := pseudo_header dst PROTO_UDP (8 + vlen data)).
  assert (vlen dst = 4) as Ld by (unfold vlen; lia).
  assert (vlen hd = 6) as Lh by done. assert (vlen ps = 12) as Lp.
  { unfold ps, pseudo_header. rewrite !vlen_app, Ld. done. }
  assert (bytes hd ∧ bytes ps) as [Hbh Hbp].
  { unfold hd, ps, pseudo_header, IP. split; auto 10 with bytes. }
  replace (be16_bytes sport ++ be16_bytes dport ++ be16_bytes (8 + vlen data) ++ be16_bytes 0 ++ data)
    with (hd ++ [0; 0] ++ data) by (unfold hd; by rewrite <- !app_assoc).
  destruct (checksum_verifies (ps ++ hd) data) as (cks & E & Hc & Hz).
  - auto with bytes.
  - done.
  - rewrite vlen_app, Lp, Lh. done.
  - rewrite vlen_app. lia.
  - exists cks. rewrite <- app_assoc in E, Hz. rewrite E. cbn [mbind outcome_bind]. split; [|done].
    rewrite copy_into_blit; [|done|rewrite !vlen_app, Lh; change (vlen (be16_bytes cks)) with 2;
      change (vlen [0; 0]) with 2; lia]. by rewrite blit_mid.
Qed.

Lemma field16_be pre z suf i : i = vlen pre → fits 16 z → field16 (pre ++ be16_bytes z ++ suf) i = Ret z.
Proof.
  intros -> Hz. unfold field16. rewrite !index_lookup by (pose proof (vlen_nonneg pre); lia).
  unfold vlen. replace (Z.to_nat (Z.of_nat (length pre) + 1)) with (S (length pre)) by lia.
  rewrite Nat2Z.id, !(lookup_app_r pre), Nat.sub_diag by lia.
  replace (S (length pre) - length pre)%nat with 1%nat by lia. simpl. by rewrite from_be16_bytes.
Qed.

Lemma field32_be pre z suf i : i = vlen pre → fits 32 z → field32 (pre ++ be32_bytes z ++ suf) i = Ret z.
Proof.
  intros -> Hz. unfold field32. rewrite !index_lookup by (pose proof (vlen_nonneg pre); lia).
  unfold vlen. replace (Z.to_nat (Z.of_nat (length pre) + 1)) with (S (length pre)) by lia.
  replace (Z.to_nat (Z.of_nat (length pre) + 2)) with (S (S (length pre))) by lia.
  replace (Z.to_nat (Z.of_nat (length pre) + 3)) with (S (S (S (length pre)))) by lia.
  rewrite Nat2Z.id, !(lookup_app_r pre), Nat.sub_diag by lia.
  replace (S (length pre) - length pre)%nat with 1%nat by lia.
  replace (S (S (length pre)) - length pre)%nat with 2%nat by lia.
  replace (S (S (S (length pre))) - length pre)%nat with 3%nat by lia. simpl.
  by rewrite from_be32_bytes.
Qed.

(** Receiving a datagram delivers exactly its payload. *)
Lemma udp_handle_datagram src sport dport cks data s :
  fits 16 sport → fits 16 dport → 8 + vlen data < 65536 →
  udp_handle src (udp_bytes sport dport cks data) s = deliver dport src sport data s.
Proof.
  intros Hs Hd Hl. pose proof (vlen_nonneg data). unfold udp_handle, UDP_HEADER_LEN.
  rewrite vlen_udp_bytes, (proj2 (Z.ltb_ge _ _)) by lia. unfold udp_bytes.
  erewrite bind_lift by (rewrite <- !app_assoc; by apply (field16_be [])).
  erewrite bind_lift by (rewrite <- !app_assoc; by apply (field16_be (be16_bytes sport))).
  erewrite bind_lift.
  2:{ rewrite <- !app_assoc. rewrite (app_assoc (be16_bytes sport)).
      apply field16_be; [done|unfold fits; lia]. }
  rewrite Z.max_l, Z.min_l by lia.
  erewrite bind_lift; [done|]. rewrite app_assoc. apply slice_tail; [done|].
  rewrite !vlen_app. change (vlen (be16_bytes _)) with 2. lia.
Qed.
End receiving.

Section udp_claims.
Context {D : Type} `{Hw D} `{Profile}.

(** C17. A UDP datagram survives the stack end to end. What [udp::send] hands to the
    driver is one Ethernet frame whose IPv4 header checksum and UDP
    checksum (with its pseudo-header) both verify; and a machine running this
    stack that receives that frame delivers to its sockets on the destination port
    exactly the data sent, with the sender's address and port. *)
Theorem udp_end_to_end sport dst dport data (s s2 : Net D) :
  fits 16 sport → fits 16 dport → bytes dst → length dst = 4%nat → bytes data →
  28 + vlen data < 65536 → card_ok s → length (hop s dst) = 6%nat → length (mac_of_net s) = 6%nat →
  ∃ icks ucks,
    let d := udp_bytes sport dport ucks data in
    let h := ip_bytes PROTO_UDP (20 + vlen d) icks IP dst in
    let frame := eth_frame (hop s dst) (mac_of_net s) ETHERTYPE_IP (h ++ d) in
    udp_send sport dst dport data s = Ret (has_nic s, sent frame s) ∧
    checksum h = Ret 0 ∧
    checksum (pseudo_header dst PROTO_UDP (8 + vlen data) ++ d) = Ret 0 ∧
    eth_handle frame s2 = deliver dport IP sport data s2.
Proof.
  intros Hsp Hdp Hbd Hd Hb Hl Hok Hh Hm. pose proof (vlen_nonneg data).
  destruct (udp_datagram_eq sport dst dport data Hbd Hd Hb) as (ucks & Eu & Hfu & Hzu); [lia|].
  set (d := udp_bytes sport dport ucks data) in *.
  assert (vlen d = 8 + vlen data) as Ld by apply vlen_udp_bytes.
  destruct (ip_send_eq dst PROTO_UDP d s) as (icks & Hfi & Hzi & Ei); [done|done|done|done|].
  rewrite wrap_small in Hzi, Ei by (unfold fits; lia). exists icks, ucks. split; [|split; [|split]].
  - unfold udp_send. by rewrite (bind_lift _ _ _ _ Eu).
  - exact Hzi.
  - exact Hzu.
  - rewrite eth_handle_frame by done. change (ETHERTYPE_IP =? ETHERTYPE_ARP) with false.
    cbn [Z.eqb]. change (ETHERTYPE_IP =? ETHERTYPE_IP) with true. cbv iota.
    rewrite ip_handle_packet by (done || (rewrite vlen_udp_bytes; lia)).
    change (PROTO_UDP =? PROTO_ICMP) with false. change (PROTO_UDP =? PROTO_UDP) with true. cbv iota.
    apply udp_handle_datagram; done || lia.
Qed.
End udp_claims.

(** ** ICMP echo *)

Definition echo_bytes (ty cks id seq : Z) (data : list Z) : list Z :=
  [ty; 0] ++ be16_bytes cks ++ (be16_bytes id ++ be16_bytes seq ++ data).

Lemma store_nat {A} (l : list A) n i x : i = Z.of_nat n → (n < length l)%nat → store l i x = Ret (<[n:=x]> l).
Proof.
  intros -> Hn. assert (0 ≤ Z.of_nat n < vlen l) as Hi by (unfold vlen; lia).
  rewrite store_ok by done. unfold vset. by rewrite bool_decide_true, Nat2Z.id by done.
Qed.

Section icmp.
Context {D : Type} `{Hw D} `{Profile}.

Lemma echo_sum ty id seq data : is_byte ty → bytes data → 8 + vlen data ≤ 131072 →
  ∃ cks, checksum ([ty; 0] ++ [0; 0] ++ (be16_bytes id ++ be16_bytes seq ++ data)) = Ret cks ∧
    fits 16 cks ∧ checksum (echo_bytes ty cks id seq data) = Ret 0 ∧
    copy_into ([ty; 0] ++ [0; 0] ++ (be16_bytes id ++ be16_bytes seq ++ data)) 2 (be16_bytes cks) =
      Ret (echo_bytes ty cks id seq data).
Proof.
  intros Ht Hb Hl. pose proof (vlen_nonneg data). set (suf := be16_bytes id ++ be16_bytes seq ++ data).
  assert (vlen suf = 4 + vlen data) as Ls.
  { unfold suf. rewrite !vlen_app. change (vlen (be16_bytes _)) with 2. lia. }
  destruct (checksum_verifies [ty; 0] suf) as (cks & E & Hc & Hz); [auto with bytes| |done| |].
  - unfold suf. auto with bytes.
  - change (vlen [ty; 0]) with 2. lia.
  - exists cks. split_and!; [done|apply Hc..|exact Hz|]. rewrite copy_into_blit; [|done|].
    + by rewrite blit_mid.
    + rewrite !vlen_app, Ls. change (vlen (be16_bytes cks)) with 2. change (vlen [ty; 0]) with 2.
      change (vlen [0; 0]) with 2. lia.
Qed.

Lemma echo_request_eq id seq data : bytes data → 8 + vlen data ≤ 131072 →
  ∃ cks, echo_request id seq data = Ret (echo_bytes ECHO_REQUEST cks id seq data) ∧
    checksum (echo_bytes ECHO_REQUEST cks id seq data) = Ret 0.
Proof.
  intros Hb Hl. destruct (echo_sum ECHO_REQUEST id seq data) as (cks & E & _ & Hz & Ec); [done..|].
  exists cks. split; [|done]. unfold echo_request.
  change (be16_bytes 0) with [0; 0]. rewrite E. cbn [mbind outcome_bind]. exact Ec.
Qed.

Lemma echo_reply_eq ty c id seq data : bytes data → 8 + vlen data ≤ 131072 →
  ∃ cks, echo_reply (echo_bytes ty c id seq data) = Ret (echo_bytes ECHO_REPLY cks id seq data) ∧
    checksum (echo_bytes ECHO_REPLY cks id seq data) = Ret 0.
Proof.
  intros Hb Hl. destruct (echo_sum ECHO_REPLY id seq data) as (cks & E & _ & Hz & Ec); [done..|].
  exists cks. split; [|done]. unfold echo_reply, echo_bytes.
  rewrite (store_nat _ 0) by (simpl; lia). cbn [mbind outcome_bind].
  rewrite (store_nat _ 1) by (simpl; lia). cbn [mbind outcome_bind].
  rewrite (store_nat _ 2) by (simpl; lia). cbn [mbind outcome_bind].
  rewrite (store_nat _ 3) by (simpl; lia). cbn [mbind outcome_bind].
  match goal with |- context [checksum ?l] =>
    change l with ([ECHO_REPLY; 0] ++ [0; 0] ++ (be16_bytes id ++ be16_bytes seq ++ data)) end.
  rewrite E. cbn [mbind outcome_bind]. exact Ec.
Qed.

Lemma vlen_echo ty c id seq data : vlen (echo_bytes ty c id seq data) = 8 + vlen data.
Proof.
  unfold echo_bytes. rewrite !vlen_app. change (vlen (be16_bytes _)) with 2.
  change (vlen [ty; 0]) with 2. lia.
Qed.

(** What handling an echo request sends. *)
Lemma icmp_handle_echo c id seq data src (s : Net D) :
  bytes data → 28 + vlen data < 65536 → bytes src → length src = 4%nat → card_ok s →
  ∃ c' icks', let reply := echo_bytes ECHO_REPLY c' id seq data in
    let hdr := ip_bytes PROTO_ICMP (20 + vlen reply) icks' IP src in
    checksum reply = Ret 0 ∧ checksum hdr = Ret 0 ∧
    icmp_handle src (echo_bytes ECHO_REQUEST c id seq data) s =
      Ret (tt, sent (eth_frame (hop s src) (mac_of_net s) ETHERTYPE_IP (hdr ++ reply)) s).
Proof.
  intros Hb Hl Hbs Hs Hok. pose proof (vlen_nonneg data).
  destruct (echo_reply_eq ECHO_REQUEST c id seq data Hb) as (c' & Er & Hr); [lia|].
  destruct (ip_send_eq src PROTO_ICMP (echo_bytes ECHO_REPLY c' id seq data) s)
    as (ic' & _ & Hz & Ei); [done|done|done|done|].
  rewrite wrap_small in Hz, Ei by (unfold fits; rewrite vlen_echo; lia).
  exists c', ic'. split_and!; [done|done|]. unfold icmp_handle.
  rewrite vlen_echo, (proj2 (Z.ltb_ge _ _)) by lia. erewrite bind_lift by (by rewrite index_lookup).
  change (ECHO_REQUEST =? ECHO_REQUEST) with true. cbv iota.
  rewrite (bind_lift _ _ _ _ Er), (bind_run _ _ _ _ _ Ei). by rewrite vlen_echo.
Qed.

(** C34. Pings are answered. An echo request built by [echo_request], received in an IPv4
    packet from [src], makes the stack send to [src] one packet: an echo reply with
    the same identifier, sequence number and data, whose ICMP checksum and
    IPv4 header checksum both verify (as the request's did). *)
Theorem ping_answered id seq data src eth_dst eth_src icks (s : Net D) :
  bytes data → 28 + vlen data < 65536 → bytes src → length src = 4%nat →
  length eth_dst = 6%nat → length eth_src = 6%nat → card_ok s →
  ∃ c c' icks', let req := echo_bytes ECHO_REQUEST c id seq data in
    let reply := echo_bytes ECHO_REPLY c' id seq data in
    let hdr := ip_bytes PROTO_ICMP (20 + vlen reply) icks' IP src in
    echo_request id seq data = Ret req ∧ checksum req = Ret 0 ∧
    checksum reply = Ret 0 ∧ checksum hdr = Ret 0 ∧
    eth_handle (eth_frame eth_dst eth_src ETHERTYPE_IP
      (ip_bytes PROTO_ICMP (20 + vlen req) icks src IP ++ req)) s =
    Ret (tt, sent (eth_frame (hop s src) (mac_of_net s) ETHERTYPE_IP (hdr ++ reply)) s).
Proof.
  intros Hb Hl Hbs Hs Hed Hes Hok. pose proof (vlen_nonneg data).
  destruct (echo_request_eq id seq data Hb) as (c & Eq & Hq); [lia|].
  destruct (icmp_handle_echo c id seq data src s) as (c' & ic' & Hr & Hz & E); [done..|].
  exists c, c', ic'. split_and!; try done.
  rewrite eth_handle_frame by done. change (ETHERTYPE_IP =? ETHERTYPE_ARP) with false.
  change (ETHERTYPE_IP =? ETHERTYPE_IP) with true. cbv iota.
  rewrite ip_handle_packet by (done || (rewrite vlen_echo; lia)). exact E.
Qed.
End icmp.

(** ** ARP *)

Section arp.
Context {D : Type} `{Hw D} `{Profile}.

Lemma arp_handle_payload oper sha spa tha tpa (s : Net D) :
  fits 16 oper → length sha = 6%nat → length spa = 4%nat → length tha = 6%nat → length tpa = 4%nat →
  card_ok s →
  let s1 := set_cache (<[spa := sha]> (cache s)) s in
  arp_handle (arp_payload oper sha spa tha tpa) s =
    Ret (tt, if (oper =? OP_REQUEST) && bool_decide (tpa = IP)
             then sent (eth_frame sha (mac_of_net s) ETHERTYPE_ARP
                          (arp_payload OP_REPLY (mac_of_net s) IP sha spa)) s1
             else s1).
Proof.
  intros Ho Hsha Hspa Htha Htpa Hok s1.
  assert (vlen sha = 6 ∧ vlen spa = 4 ∧ vlen tha = 6 ∧ vlen tpa = 4) as (L1 & L2 & L3 & L4)
    by (unfold vlen; lia).
  unfold arp_handle. set (p := arp_payload oper sha spa tha tpa).
  assert (vlen p = 28) as Lp.
  { unfold p, arp_payload. rewrite !vlen_app, L1, L2, L3, L4. done. }
  rewrite Lp. change (28 <? 28) with false. cbv iota.
  set (pre := be16_bytes HTYPE_ETH ++ be16_bytes PTYPE_IP ++ [6] ++ [4]).
  assert (p = pre ++ be16_bytes oper ++ sha ++ spa ++ tha ++ tpa) as Hp.
  { unfold p, arp_payload, pre. by rewrite <- !app_assoc. }
  erewrite bind_lift by (rewrite Hp; by apply slice_mid).
  erewrite bind_lift by (by apply be16_of_bytes).
  erewrite bind_lift by (apply take_bytes_spec; lia).
  erewrite bind_lift by (apply take_bytes_spec; lia).
  erewrite bind_lift by (apply take_bytes_spec; lia).
  assert (∀ a l b n m, p = a ++ l ++ b → n = Z.of_nat (length a) → m = Z.of_nat (length l) →
    take (Z.to_nat m) (drop (Z.to_nat n) p) = l) as Hpart.
  { intros a l b n m -> -> ->. by rewrite !Nat2Z.id, drop_app_length, take_app_length. }
  rewrite (Hpart (pre ++ be16_bytes oper) sha (spa ++ tha ++ tpa) 8 6); [|by rewrite Hp, <- app_assoc|done|lia].
  rewrite (Hpart (pre ++ be16_bytes oper ++ sha) spa (tha ++ tpa) 14 4);
    [|by rewrite Hp, <- !app_assoc|rewrite !length_app, Hsha; done|lia].
  rewrite (Hpart (pre ++ be16_bytes oper ++ sha ++ spa ++ tha) tpa [] 24 4);
    [|by rewrite Hp, app_nil_r, <- !app_assoc|rewrite !length_app, Hsha, Hspa, Htha; done|lia].
  erewrite bind_run by reflexivity. fold s1.
  destruct ((oper =? OP_REQUEST) && bool_decide (tpa = IP)); [|done].
  erewrite bind_run by reflexivity. erewrite bind_run by (by apply transmit_eq). done.
Qed.

(** C39. ARP teaches the cache and answers for us only. A well-formed ARP payload leaves
    the sender's binding in the cache (so that packets to it go to its MAC from
    then on, and nothing else in the cache changes); a unicast
    reply with our MAC is sent exactly when it was a request for our address. *)
Theorem arp_learns_and_answers oper sha spa tha tpa (s : Net D) :
  fits 16 oper → length sha = 6%nat → length spa = 4%nat → length tha = 6%nat → length tpa = 4%nat →
  card_ok s →
  let s1 := set_cache (<[spa := sha]> (cache s)) s in
  arp_handle (arp_payload oper sha spa tha tpa) s =
    Ret (tt, if (oper =? OP_REQUEST) && bool_decide (tpa = IP)
             then sent (eth_frame sha (mac_of_net s) ETHERTYPE_ARP
                          (arp_payload OP_REPLY (mac_of_net s) IP sha spa)) s1
             else s1) ∧
  hop s1 spa = sha.
Proof.
  intros Ho Hsha Hspa Htha Htpa Hok s1. split; [by apply arp_handle_payload|].
  unfold hop. simpl. by rewrite lookup_insert_eq.
Qed.
End arp.

(** ** TCP *)

Section tcp.
Context {D : Type} `{Hw D} `{Profile}.

Definition tcp_bytes (sport dport seq ack flags cks : Z) : list Z :=
  (be16_bytes sport ++ be16_bytes dport ++ be32_bytes seq ++ be32_bytes ack ++
   be16_bytes (Z.lor 0x5000 flags) ++ be16_bytes 536) ++ be16_bytes cks ++ be16_bytes 0.

Lemma tcp_segment_eq sport dport seq ack flags dst :
  bytes dst → length dst = 4%nat →
  ∃ cks, tcp_segment sport dport seq ack flags [] dst = Ret (tcp_bytes sport dport seq ack flags cks) ∧
    fits 16 cks ∧
    checksum (pseudo_header dst PROTO_TCP 20 ++ tcp_bytes sport dport seq ack flags cks) = Ret 0.
Proof.
  intros Hbd Hd. unfold tcp_segment. change (Z.shiftl (TCP_HEADER_LEN `div` 4) 12) with 0x5000.
  set (hd := be16_bytes sport ++ be16_bytes dport ++ be32_bytes seq ++ be32_bytes ack ++
   be16_bytes (Z.lor 0x5000 flags) ++ be16_bytes 536).
  set (ps := pseudo_header dst PROTO_TCP 20).
  assert (vlen hd = 16) as Lh by done. assert (vlen ps = 12) as Lp.
  { unfold ps, pseudo_header. rewrite !vlen_app. unfold vlen. rewrite Hd. done. }
  assert (bytes hd ∧ bytes ps) as [Hbh Hbp].
  { unfold hd, ps, pseudo_header, IP. split; auto 10 with bytes. }
  replace (be16_bytes sport ++ be16_bytes dport ++ be32_bytes seq ++ be32_bytes ack ++
    be16_bytes (Z.lor 20480 flags) ++ be16_bytes 536 ++ be16_bytes 0 ++ be16_bytes 0 ++ [])
    with (hd ++ [0; 0] ++ be16_bytes 0) by (unfold hd; by rewrite <- !app_assoc).
  assert (vlen (hd ++ [0; 0] ++ be16_bytes 0) = 20) as Lt by done.
  rewrite Lt, wrap_small by done. fold ps.
  destruct (checksum_verifies (ps ++ hd) (be16_bytes 0)) as (cks & E & Hc & Hz).
  - auto with bytes.
  - auto with bytes.
  - rewrite vlen_app, Lp, Lh. done.
  - rewrite vlen_app, Lp, Lh. done.
  - exists cks. rewrite <- app_assoc in E, Hz. rewrite E. cbn [mbind outcome_bind]. split; [|done].
    rewrite copy_into_blit by done. by rewrite blit_mid.
Qed.

Lemma tcp_fields sport dport seq ack flags cks :
  fits 16 sport → fits 16 dport → fits 32 seq → fits 32 ack → fits 16 (Z.lor 0x5000 flags) →
  let t := tcp_bytes sport dport seq ack flags cks in
  vlen t = 20 ∧ field16 t 0 = Ret sport ∧ field16 t 2 = Ret dport ∧ field32 t 4 = Ret seq ∧
  field32 t 8 = Ret ack ∧ field16 t 12 = Ret (Z.lor 0x5000 flags).
Proof.
  intros Hs Hd Hq Ha Hf t. unfold t, tcp_bytes. split; [done|].
  split_and!; rewrite <- ?app_assoc.
  - by apply (field16_be []).
  - by apply (field16_be (be16_bytes sport)).
  - rewrite (app_assoc (be16_bytes sport)). by apply field32_be.
  - rewrite (app_assoc (be16_bytes dport)), (app_assoc (be16_bytes sport)). by apply field32_be.
  - rewrite (app_assoc (be32_bytes seq)), (app_assoc (be16_bytes dport)), (app_assoc (be16_bytes sport)).
    by apply field16_be.
Qed.

(** A SYN segment without ACK, as a client sends it. *)
Lemma tcp_handle_syn src sport dport seq ack cks flags (s : Net D) :
  fits 16 sport → fits 16 dport → fits 32 seq → fits 32 ack → fits 16 (Z.lor 0x5000 flags) →
  Z.land (Z.lor 0x5000 flags) SYN ≠ 0 → Z.land (Z.lor 0x5000 flags) ACK = 0 →
  tcp_handle src (tcp_bytes sport dport seq ack flags cks) s =
    (a ← lift (checked 32 (seq + 1));
     syn_ack ← lift (tcp_segment dport sport 1000 a (Z.lor SYN ACK) [] src);
     _ ← ip_send src PROTO_TCP syn_ack;
     mret tt) s.
Proof.
  intros Hs Hd Hq Ha Hf Hsyn Hack.
  destruct (tcp_fields sport dport seq ack flags cks Hs Hd Hq Ha Hf) as (Lt & E0 & E2 & E4 & E8 & E12).
  unfold tcp_handle. rewrite Lt. change (20 <? TCP_HEADER_LEN) with false. cbv iota.
  rewrite (bind_lift _ _ _ _ E0), (bind_lift _ _ _ _ E2), (bind_lift _ _ _ _ E4),
    (bind_lift _ _ _ _ E8), (bind_lift _ _ _ _ E12).
  by rewrite (proj2 (Z.eqb_neq _ 0) Hsyn), Hack.
Qed.

(** The second step of the TCP handshake. A SYN (with neither ACK nor the last sequence
    number) makes the stack send back one segment: source and destination
    ports exchanged, acknowledgement number one past the client's sequence number,
    flags SYN and ACK, with a TCP checksum that verifies. *)
Theorem syn_gets_syn_ack src sport dport seq ack cks flags (s : Net D) :
  fits 16 sport → fits 16 dport → 0 ≤ seq < 2 ^ 32 - 1 → fits 32 ack → fits 16 (Z.lor 0x5000 flags) →
  Z.land (Z.lor 0x5000 flags) SYN ≠ 0 → Z.land (Z.lor 0x5000 flags) ACK = 0 →
  bytes src → length src = 4%nat → card_ok s →
  ∃ c icks, let reply := tcp_bytes dport sport 1000 (seq + 1) (Z.lor SYN ACK) c in
    let hdr := ip_bytes PROTO_TCP 40 icks IP src in
    checksum (pseudo_header src PROTO_TCP 20 ++ reply) = Ret 0 ∧ checksum hdr = Ret 0 ∧
    tcp_handle src (tcp_bytes sport dport seq ack flags cks) s =
      Ret (tt, sent (eth_frame (hop s src) (mac_of_net s) ETHERTYPE_IP (hdr ++ reply)) s).
Proof.
  intros Hs Hd Hq Ha Hf Hsyn Hack Hb Hl Hok.
  rewrite tcp_handle_syn by (done || (unfold fits; lia)).
  destruct (tcp_segment_eq dport sport 1000 (seq + 1) (Z.lor SYN ACK) src Hb Hl) as (c & E & _ & Hz).
  destruct (ip_send_eq src PROTO_TCP (tcp_bytes dport sport 1000 (seq + 1) (Z.lor SYN ACK) c) s)
    as (ic & _ & Hzi & Ei); [done..|].
  exists c, ic. split; [done|]. split; [exact Hzi|].
  erewrite bind_lift by (apply checked_fits; unfold fits; lia).
  rewrite (bind_lift _ _ _ _ E), (bind_run _ _ _ _ _ Ei). done.
Qed.

(** The last sequence number stops the kernel: in a build with overflow checks, a SYN
    whose sequence number is 2^32 - 1 panics the receive path. *)
Theorem syn_last_seq_panics src sport dport ack cks flags (s : Net D) :
  overflow_checks = true →
  fits 16 sport → fits 16 dport → fits 32 ack → fits 16 (Z.lor 0x5000 flags) →
  Z.land (Z.lor 0x5000 flags) SYN ≠ 0 → Z.land (Z.lor 0x5000 flags) ACK = 0 →
  tcp_handle src (tcp_bytes sport dport (2 ^ 32 - 1) ack flags cks) s = Panic POverflow.
Proof.
  intros Hdev Hs Hd Ha Hf Hsyn Hack. rewrite tcp_handle_syn by done.
  apply bind_panic. unfold checked. rewrite bool_decide_false by (unfold fits; lia). by rewrite Hdev.
Qed.
End tcp.

(** ** Which frames the receive path survives *)

Lemma index_in l i : bytes l → 0 ≤ i < vlen l → ∃ x, index l i = Ret x ∧ is_byte x.
Proof.
  intros Hb Hi. destruct (vget_in l i Hi) as [x Hx]. exists x. split; [by apply index_vget|].
  by eapply (proj1 (Forall_vget _ _)).
Qed.

Lemma field16_in l i : bytes l → 0 ≤ i → i + 1 < vlen l → ∃ z, field16 l i = Ret z ∧ fits 16 z.
Proof.
  intros Hb Hi Hl. unfold field16. destruct (index_in l i Hb) as (a & -> & Ha); [lia|].
  destruct (index_in l (i + 1) Hb) as (b & -> & Hbb); [lia|]. simpl. eexists. split; [done|].
  by apply from_be16_fits.
Qed.

Lemma from_be32_fits a b c d : is_byte a → is_byte b → is_byte c → is_byte d → fits 32 (from_be32 a b c d).
Proof.
  intros Ha Hb Hc Hd. pose proof (from_be16_fits a b Ha Hb). pose proof (from_be16_fits c d Hc Hd) as F.
  unfold from_be32. rewrite lor_shiftl_add by (done || apply F). unfold fits in *. lia.
Qed.

Lemma field32_in l i : bytes l → 0 ≤ i → i + 3 < vlen l → ∃ z, field32 l i = Ret z ∧ fits 32 z.
Proof.
  intros Hb Hi Hl. unfold field32. destruct (index_in l i Hb) as (a & -> & Ha); [lia|].
  destruct (index_in l (i + 1) Hb) as (b & -> & Hbb); [lia|].
  destruct (index_in l (i + 2) Hb) as (c & -> & Hc); [lia|].
  destruct (index_in l (i + 3) Hb) as (d & -> & Hd); [lia|]. simpl. eexists. split; [done|].
  by apply from_be32_fits.
Qed.

(** [be16(&l[i..i + 2])] reads the same field. *)
Lemma slice_be16 l i : 0 ≤ i → i + 2 ≤ vlen l →
  ∃ f, slice l i (i + 2) = Ret f ∧ be16 f = field16 l i.
Proof.
  intros Hi Hl. rewrite slice_ok by lia. eexists. split; [done|]. unfold be16, field16.
  replace (i + 2 - i) with 2 by lia. rewrite !index_lookup by lia.
  rewrite !lookup_take_lt by lia. rewrite !lookup_drop.
  replace (Z.to_nat i + Z.to_nat 0)%nat with (Z.to_nat i) by lia.
  by replace (Z.to_nat i + Z.to_nat 1)%nat with (Z.to_nat (i + 1)) by lia.
Qed.

Lemma bytes_take n l : bytes l → bytes (take n l).
Proof. apply Forall_take. Qed.
Lemma bytes_drop n l : bytes l → bytes (drop n l).
Proof. apply Forall_drop. Qed.
#[export] Hint Resolve bytes_take bytes_drop : bytes.

Section survives.
Context {D : Type} `{Hw D} `{Profile}.
Implicit Types (s : Net D).

Lemma arp_handle_total p s : bytes p → card_ok s → ∃ s', arp_handle p s = Ret (tt, s').
Proof.
  intros Hb Hok. unfold arp_handle. case (Z.ltb_spec (vlen p) 28) as [|Hl]; [by eexists|].
  destruct (slice_be16 p 6) as (f & Ef & Eb); [lia|lia|]. destruct (field16_in p 6) as (op & Eo & _); [done|lia|lia|].
  rewrite (bind_lift _ _ _ _ Ef), (bind_lift _ _ _ _ (eq_trans Eb Eo)).
  do 3 erewrite bind_lift by (apply take_bytes_spec; lia).
  erewrite bind_run by reflexivity. destruct (_ && _); [|by eexists].
  erewrite bind_run by reflexivity. erewrite bind_run by (by apply transmit_eq). by eexists.
Qed.

Lemma icmp_handle_total src msg s :
  bytes msg → vlen msg ≤ 65535 → bytes src → length src = 4%nat → card_ok s →
  ∃ s', icmp_handle src msg s = Ret (tt, s').
Proof.
  intros Hb Hm Hbs Hs Hok. unfold icmp_handle. case (Z.ltb_spec (vlen msg) 8) as [|Hl]; [by eexists|].
  destruct (index_in msg 0 Hb) as (t & Et & _); [lia|]. rewrite (bind_lift _ _ _ _ Et).
  destruct (t =? ECHO_REQUEST); [|by eexists].
  assert (∃ r, echo_reply msg = Ret r) as [r Er].
  { unfold echo_reply. do 4 (rewrite store_ok by (rewrite ?vlen_vset; lia); cbn [mbind outcome_bind]).
    set (m := vset _ _ _). assert (bytes m) as Hbm.
    { unfold m. repeat (apply Forall_vset; [|done]). done. }
    assert (vlen m = vlen msg) as Lm by (unfold m; by rewrite !vlen_vset).
    destruct (checksum_val m Hbm) as (c & -> & _); [lia|]. cbn [mbind outcome_bind].
    rewrite copy_into_blit; [by eexists|lia|]. change (vlen (be16_bytes _)) with 2. lia. }
  rewrite (bind_lift _ _ _ _ Er).
  destruct (ip_send_eq src PROTO_ICMP r s) as (c & _ & _ & E); [done..|].
  rewrite (bind_run _ _ _ _ _ E). by eexists.
Qed.

Lemma udp_handle_total src d s : bytes d → ∃ s', udp_handle src d s = Ret (tt, s').
Proof.
  intros Hb. unfold udp_handle. case (Z.ltb_spec (vlen d) UDP_HEADER_LEN) as [|Hl]; [by eexists|].
  unfold UDP_HEADER_LEN in *.
  destruct (field16_in d 0 Hb) as (sp & E0 & _); [lia|lia|].
  destruct (field16_in d 2 Hb) as (dp & E2 & _); [lia|lia|].
  destruct (field16_in d 4 Hb) as (ln & E4 & _); [lia|lia|].
  rewrite (bind_lift _ _ _ _ E0), (bind_lift _ _ _ _ E2), (bind_lift _ _ _ _ E4).
  erewrite bind_lift by (apply slice_ok; lia). by eexists.
Qed.

Lemma tcp_handle_total src t s :
  bytes t → bytes src → length src = 4%nat → card_ok s →
  (overflow_checks = true → field32 t 4 ≠ Ret (2 ^ 32 - 1)) →
  ∃ s', tcp_handle src t s = Ret (tt, s').
Proof.
  intros Hb Hbs Hs Hok Hseq. unfold tcp_handle.
  case (Z.ltb_spec (vlen t) TCP_HEADER_LEN) as [|Hl]; [by eexists|]. unfold TCP_HEADER_LEN in *.
  destruct (field16_in t 0 Hb) as (sp & E0 & _); [lia|lia|].
  destruct (field16_in t 2 Hb) as (dp & E2 & _); [lia|lia|].
  destruct (field32_in t 4 Hb) as (sq & E4 & Hsq); [lia|lia|].
  destruct (field32_in t 8 Hb) as (ak & E8 & _); [lia|lia|].
  destruct (field16_in t 12 Hb) as (fl & E12 & _); [lia|lia|].
  rewrite (bind_lift _ _ _ _ E0), (bind_lift _ _ _ _ E2), (bind_lift _ _ _ _ E4),
    (bind_lift _ _ _ _ E8), (bind_lift _ _ _ _ E12).
  destruct (negb _ && _); [|by eexists].
  assert (∃ a, checked 32 (sq + 1) = Ret a) as [a Ea].
  { unfold checked. case_bool_decide as Hf; [by eexists|].
    destruct overflow_checks eqn:Hov; [|by eexists]. exfalso. apply (Hseq eq_refl). rewrite E4. f_equal.
    unfold fits in *. lia. }
  rewrite (bind_lift _ _ _ _ Ea).
  destruct (tcp_segment_eq dp sp 1000 a (Z.lor SYN ACK) src Hbs Hs) as (c & E & _).
  destruct (ip_send_eq src PROTO_TCP (tcp_bytes dp sp 1000 a (Z.lor SYN ACK) c) s) as (ic & _ & _ & Ei); [done..|].
  rewrite (bind_lift _ _ _ _ E), (bind_run _ _ _ _ _ Ei). by eexists.
Qed.

(** The two ways a packet stops the kernel: a total length that ends before the header
    does, and (with overflow checks) the last TCP sequence number. *)
Definition ip_lengths_ok (pkt : list Z) : Prop :=
  ∀ v total, pkt !! 0%nat = Some v → field16 pkt 2 = Ret total →
    Z.max (Z.land v 0x0f * 4) IP_HEADER_LEN ≤ Z.min total (vlen pkt).

Definition ip_seq_ok (pkt : list Z) : Prop :=
  ∀ v total body, pkt !! 0%nat = Some v → field16 pkt 2 = Ret total → pkt !! 9%nat = Some PROTO_TCP →
    slice pkt (Z.max (Z.land v 0x0f * 4) IP_HEADER_LEN) (Z.min total (vlen pkt)) = Ret body →
    overflow_checks = true → field32 body 4 ≠ Ret (2 ^ 32 - 1).

Definition is_v4 (pkt : list Z) : Prop :=
  20 ≤ vlen pkt ∧ ∃ v, pkt !! 0%nat = Some v ∧ Z.shiftr v 4 = 4.

Lemma ip_handle_prefix pkt v total p s :
  bytes pkt → 20 ≤ vlen pkt → pkt !! 0%nat = Some v → Z.shiftr v 4 = 4 → field16 pkt 2 = Ret total →
  pkt !! 9%nat = Some p →
  ip_handle pkt s =
    (body ← lift (slice pkt (Z.max (Z.land v 0x0f * 4) IP_HEADER_LEN) (Z.min total (vlen pkt)));
     let src := take 4 (drop 12 pkt) in
     if p =? PROTO_ICMP then icmp_handle src body
     else if p =? PROTO_UDP then udp_handle src body
     else if p =? PROTO_TCP then tcp_handle src body
     else mret tt) s.
Proof.
  intros Hb Hl Hv H4 Ht Hp. unfold ip_handle. unfold IP_HEADER_LEN in *.
  rewrite (proj2 (Z.ltb_ge _ _)) by lia.
  erewrite bind_lift by (rewrite index_lookup by done; change (Z.to_nat 0) with 0%nat; by rewrite Hv).
  rewrite H4. change (negb (4 =? 4)) with false. cbv iota.
  destruct (slice_be16 pkt 2) as (f & Ef & Eb); [lia|lia|].
  rewrite (bind_lift _ _ _ _ Ef), (bind_lift _ _ _ _ (eq_trans Eb Ht)).
  erewrite bind_lift by (rewrite index_lookup by done; change (Z.to_nat 9) with 9%nat; by rewrite Hp).
  erewrite bind_lift by (apply take_bytes_spec; lia). done.
Qed.

Lemma ip_handle_total pkt s :
  bytes pkt → vlen pkt ≤ 65535 → card_ok s → (is_v4 pkt → ip_lengths_ok pkt ∧ ip_seq_ok pkt) →
  ∃ s', ip_handle pkt s = Ret (tt, s').
Proof.
  intros Hb Hm Hok Hgood. destruct (decide (vlen pkt < 20)) as [|Hl].
  { unfold ip_handle. rewrite (proj2 (Z.ltb_lt _ _)) by done. by eexists. }
  assert (∀ i : nat, (i < 20)%nat → ∃ x, pkt !! i = Some x) as Hin.
  { intros i Hi. apply lookup_lt_is_Some_2. unfold vlen in Hl. lia. }
  destruct (Hin 0%nat) as [v Hv]; [lia|]. destruct (Hin 9%nat) as [p Hp]; [lia|].
  destruct (decide (Z.shiftr v 4 = 4)) as [H4|H4].
  2:{ unfold ip_handle, IP_HEADER_LEN. rewrite (proj2 (Z.ltb_ge _ _)) by lia.
      erewrite bind_lift by (rewrite index_lookup by done; change (Z.to_nat 0) with 0%nat; by rewrite Hv).
      rewrite (proj2 (Z.eqb_neq _ _)) by done. by eexists. }
  destruct (field16_in pkt 2 Hb) as (total & Ht & _); [lia|lia|].
  destruct Hgood as [Hlen Hsq]; [split; [lia|by exists v]|].
  rewrite (ip_handle_prefix pkt v total p) by (done || lia).
  specialize (Hlen v total Hv Ht). unfold IP_HEADER_LEN in *.
  pose proof (slice_ok pkt (Z.max (Z.land v 15 * 4) 20) (Z.min total (vlen pkt)) ltac:(lia) ltac:(lia)) as Es.
  rewrite (bind_lift _ _ _ _ Es). set (body := take _ (drop _ pkt)) in *. cbv zeta.
  assert (bytes body) as Hbb by (unfold body; auto with bytes).
  assert (vlen body ≤ 65535).
  { unfold body, vlen in *. rewrite length_take, length_drop. lia. }
  assert (bytes (take 4 (drop 12 pkt))) as Hbs by auto with bytes.
  assert (length (take 4 (drop 12 pkt)) = 4%nat) as Hls.
  { rewrite length_take, length_drop. unfold vlen in Hl. lia. }
  destruct (p =? PROTO_ICMP); [by apply icmp_handle_total|].
  destruct (p =? PROTO_UDP); [by apply udp_handle_total|].
  destruct (Z.eqb_spec p PROTO_TCP) as [->|]; [|by eexists].
  apply tcp_handle_total; try done. intros Hov. by eapply Hsq.
Qed.

(** The IPv4 packet a frame carries, if it carries one. *)
Definition frame_ip (frame : list Z) : option (list Z) :=
  match field16 frame 12 with
  | Ret e => if (14 <=? vlen frame) && (e =? ETHERTYPE_IP) then Some (drop 14 frame) else None
  | Panic _ => None
  end.

Lemma eth_handle_prefix frame e s : bytes frame → 14 ≤ vlen frame → field16 frame 12 = Ret e →
  eth_handle frame s =
    (if e =? ETHERTYPE_ARP then arp_handle (drop 14 frame)
     else if e =? ETHERTYPE_IP then ip_handle (drop 14 frame) else mret tt) s.
Proof.
  intros Hb Hl He. unfold eth_handle, ETH_HEADER_LEN. rewrite (proj2 (Z.ltb_ge _ _)) by lia.
  destruct (slice_be16 frame 12) as (f & Ef & Eb); [lia|lia|].
  rewrite (bind_lift _ _ _ _ Ef), (bind_lift _ _ _ _ (eq_trans Eb He)).
  erewrite bind_lift by (apply slice_ok; lia).
  rewrite take_ge; [by destruct (e =? ETHERTYPE_ARP), (e =? ETHERTYPE_IP)|].
  rewrite length_drop. unfold vlen. lia.
Qed.

(** C18. The receive path survives every frame but two kinds. Any byte string of up to 65535
    bytes, however malformed, is handled without a panic (truncated headers, unknown
    protocols, wrong lengths, odd fields), unless it carries an IPv4 packet whose
    total length ends before its header, or, with overflow checks on, a TCP
    segment with the last sequence number. *)
Theorem rx_survives frame s :
  bytes frame → vlen frame ≤ 65535 → card_ok s →
  (∀ pkt, frame_ip frame = Some pkt → is_v4 pkt → ip_lengths_ok pkt ∧ ip_seq_ok pkt) →
  ∃ s', eth_handle frame s = Ret (tt, s').
Proof.
  intros Hb Hm Hok Hgood. destruct (decide (vlen frame < 14)) as [|Hl].
  { unfold eth_handle. rewrite (proj2 (Z.ltb_lt _ _)) by done. by eexists. }
  destruct (field16_in frame 12 Hb) as (e & He & _); [lia|lia|].
  rewrite (eth_handle_prefix frame e) by (done || lia).
  assert (bytes (drop 14 frame)) as Hbd by auto with bytes.
  destruct (e =? ETHERTYPE_ARP); [by apply arp_handle_total|].
  destruct (e =? ETHERTYPE_IP) eqn:Ei; [|by eexists].
  apply ip_handle_total; try done.
  - unfold vlen in *. rewrite length_drop. lia.
  - intros Hv. apply Hgood; [|done]. unfold frame_ip.
    rewrite He, Ei, (proj2 (Z.leb_le _ _)) by lia. done.
Qed.

(** A frame off the wire can stop the kernel: an IPv4 packet of at least 20 bytes whose total
    length field is smaller than its header (for instance zero) makes the slice
    of its body panic. *)
Theorem short_total_panics frame pkt v total s :
  bytes frame → frame_ip frame = Some pkt → 20 ≤ vlen pkt →
  pkt !! 0%nat = Some v → Z.shiftr v 4 = 4 → field16 pkt 2 = Ret total →
  total < Z.max (Z.land v 0x0f * 4) IP_HEADER_LEN →
  eth_handle frame s = Panic PSlice.
Proof.
  intros Hb Hf Hl Hv H4 Ht Hs. unfold frame_ip in Hf. destruct (field16 frame 12) as [e|] eqn:He; [|done].
  destruct (Z.leb_spec 14 (vlen frame)) as [H14|]; [|done]. destruct (Z.eqb_spec e ETHERTYPE_IP) as [->|]; [|done].
  simpl in Hf. injection Hf as <-. rewrite (eth_handle_prefix frame _ s Hb H14 He).
  change (ETHERTYPE_IP =? ETHERTYPE_ARP) with false. change (ETHERTYPE_IP =? ETHERTYPE_IP) with true. cbv iota.
  destruct (lookup_lt_is_Some_2 (drop 14 frame) 9) as [p Hp]; [unfold vlen in Hl; lia|].
  rewrite (ip_handle_prefix _ v total p) by (done || auto with bytes).
  apply bind_panic. unfold slice. rewrite bool_decide_false; [done|]. lia.
Qed.
End survives.

(** ** Sockets *)

Section sockets.
Context {D : Type} `{Hw D} `{Profile}.
Implicit Types (s : Net D) (t : list (option Socket)).

Lemma sock_get_Some i t x : sock_get i t = Some x ↔ vget t i = Some (Some x).
Proof. unfold sock_get. destruct (vget t i) as [[]|]; simpl; split; congruence. Qed.

Lemma sock_get_vset i j o t : 0 ≤ i < vlen t →
  sock_get j (vset t i o) = if bool_decide (j = i) then o else sock_get j t.
Proof.
  intros Hi. unfold sock_get. rewrite vget_vset. case_bool_decide as E1; case_bool_decide as E2; try done.
  - destruct E1; congruence.
  - subst. by destruct E1.
Qed.

Lemma sock_get_deliver i dport src sport data t :
  sock_get i (deliver_slot dport src sport data <$> t) =
    sock_get i t ≫= λ x, deliver_slot dport src sport data (Some x).
Proof.
  unfold sock_get. destruct (decide (0 ≤ i)) as [Hi|Hi].
  - rewrite <- (Z2Nat.id i) by done. rewrite !vget_nat, list_lookup_fmap.
    by destruct (t !! Z.to_nat i) as [[]|].
  - rewrite !(proj2 (vget_None _ i)) by lia. done.
Qed.

(** The datagrams waiting on socket [i]. *)
Definition queue s (i : Z) : option (list (list Z * Z * list Z)) := rx <$> sock_get i (sockets s).

(** Whether socket [i] listens on UDP port [p]. *)
Definition listens s (i p : Z) : bool :=
  match sock_get i (sockets s) with
  | Some x => (proto x =? PROTO_UDP) && (local_port x =? p)
  | None => false
  end.

(** A socket is a first-in first-out queue of datagrams. [deliver] appends the datagram to
    the queue of every UDP socket bound to its port and leaves every other
    queue alone; [recvfrom] takes the oldest datagram of the socket named, copies as
    much of it as fits to the start of the caller's buffer and leaves the rest of
    the buffer and every other socket alone; on an empty queue it changes
    nothing. *)
Theorem socket_fifo s i dport src sport data buf :
  (∃ s1, deliver dport src sport data s = Ret (tt, s1) ∧
     ∀ j, queue s1 j = (λ q, if listens s j dport then q ++ [(src, sport, data)] else q) <$> queue s j) ∧
  match queue s i with
  | Some ((from, fport, d) :: q) =>
      ∃ s2, recvfrom i buf s =
        Ret ((Some (Z.min (vlen buf) (vlen d), from, fport),
              take (length buf) d ++ drop (length d) buf), s2) ∧
        ∀ j, queue s2 j = if bool_decide (j = i) then Some q else queue s j
  | _ => recvfrom i buf s = Ret ((None, buf), s)
  end.
Proof.
  split.
  - eexists. split; [reflexivity|]. intros j. unfold queue, listens. simpl. rewrite sock_get_deliver.
    destruct (sock_get j (sockets s)) as [x|]; [|done]. simpl. by destruct (_ && _).
  - unfold queue, recvfrom. destruct (sock_get i (sockets s)) as [x|] eqn:Ex; [|done]. simpl.
    destruct (rx x) as [|[[from fport] d] q] eqn:Eq; [done|]. eexists. split.
    + do 3 f_equal. unfold blit. simpl. assert (length (take (Z.to_nat (Z.min (vlen buf) (vlen d))) d) =
        min (length buf) (length d)) as Hl by (rewrite length_take; unfold vlen; lia).
      rewrite Hl. destruct (decide (length buf ≤ length d)%nat).
      * rewrite (drop_ge buf (length d)), drop_ge by lia. rewrite !app_nil_r. f_equal. unfold vlen. lia.
      * rewrite !take_ge by (unfold vlen; lia). do 2 f_equal. lia.
    + intros j. simpl. rewrite sock_get_vset by (apply sock_get_Some in Ex; by apply vget_lt in Ex).
      by case_bool_decide.
Qed.

(** [pump] processes the frames that wait, oldest first, sixteen at most. *)
Lemma pump_loop_bound fuel : ∀ n s r s', pump_loop fuel n s = Ret (r, s') → n ≤ r ≤ n + Z.of_nat fuel.
Proof.
  induction fuel as [|fuel IH]; intros n s r s'; cbn [pump_loop].
  - intros [= <- _]. lia.
  - unfold mbind, M_bind. destruct (on_card poll_receive s) as [[[f|] s1]|]; [| |done].
    + destruct (eth_handle f s1) as [[[] s2]|]; [|done]. intros Hr%IH. lia.
    + intros [= <- _]. lia.
Qed.
End sockets.

(** ** Concrete instances *)

Definition net0 : Net (Z → Z) :=
  mkNet sample_world (<[GATEWAY := [0x52; 0x54; 0; 0x12; 0x34; 0x02]]> ∅)
    [Some (mkSocket PROTO_UDP 9999 None [])].

Lemma net0_ok : card_ok net0.
Proof. apply sample_tx_ok. Qed.

Lemma udp_end_to_end_witness :
  ∃ frame, @udp_send _ _ dev 5555 GATEWAY 9999 (str "hello") net0 = Ret (true, sent (H0 := dev) frame net0) ∧
    @eth_handle _ _ dev frame net0 = deliver 9999 IP 5555 (str "hello") net0.
Proof.
  destruct (@udp_end_to_end _ _ dev 5555 GATEWAY 9999 (str "hello") net0 net0)
    as (icks & ucks & E & _ & _ & Er);
    [done|done|by apply (bool_decide_unpack _)|done|by apply (bool_decide_unpack _)|done|apply net0_ok|done|done|].
  eexists. split; [exact E|exact Er].
Defined.

Lemma ping_answered_witness :
  ∃ frame s', @eth_handle _ _ dev frame net0 = Ret (tt, s').
Proof.
  destruct (@ping_answered _ _ dev 7 1 (str "hi") GATEWAY (replicate 6 1) (replicate 6 2) 0 net0)
    as (c & c' & ic & _ & _ & _ & _ & E);
    [by apply (bool_decide_unpack _)|done|by apply (bool_decide_unpack _)|done|done|done|apply net0_ok|].
  eexists _, _. exact E.
Defined.

Lemma arp_learns_and_answers_witness :
  ∃ s', @arp_handle _ _ dev (arp_payload OP_REQUEST (replicate 6 9) [10; 0; 2; 3] (replicate 6 0) IP) net0 =
    Ret (tt, s') ∧ hop (set_cache (<[[10; 0; 2; 3] := replicate 6 9]> (cache net0)) net0) [10; 0; 2; 3] = replicate 6 9.
Proof.
  destruct (@arp_learns_and_answers _ _ dev OP_REQUEST (replicate 6 9) [10; 0; 2; 3] (replicate 6 0) IP net0)
    as [E Hh]; try done.
  eexists. split; [exact E|exact Hh].
Defined.

Lemma syn_gets_syn_ack_witness :
  ∃ s', @tcp_handle _ _ dev GATEWAY (tcp_bytes 51000 80 777 0 SYN 0) net0 = Ret (tt, s').
Proof.
  destruct (@syn_gets_syn_ack _ _ dev GATEWAY 51000 80 777 0 0 SYN net0) as (c & ic & _ & _ & E);
    [done|done|done|done|done|done|done|by apply (bool_decide_unpack _)|done|apply net0_ok|].
  eexists. exact E.
Defined.

Lemma syn_last_seq_panics_witness :
  @tcp_handle _ _ dev GATEWAY (tcp_bytes 51000 80 (2 ^ 32 - 1) 0 SYN 0) net0 = Panic POverflow.
Proof. by apply (@syn_last_seq_panics _ _ dev). Defined.

Definition zero_total_frame : list Z :=
  eth_frame (replicate 6 0xff) (replicate 6 2) ETHERTYPE_IP (0x45 :: replicate 19 0).

Lemma rx_survives_witness :
  ∃ s', @eth_handle _ _ dev (eth_frame (replicate 6 0xff) (replicate 6 2) ETHERTYPE_ARP (replicate 40 7)) net0 =
    Ret (tt, s').
Proof.
  apply (@rx_survives _ _ dev).
  - by apply (bool_decide_unpack _).
  - by vm_compute.
  - apply net0_ok.
  - intros pkt Hp. by vm_compute in Hp.
Defined.

Lemma short_total_panics_witness : @eth_handle _ _ dev zero_total_frame net0 = Panic PSlice.
Proof.
  apply (@short_total_panics _ _ dev zero_total_frame (0x45 :: replicate 19 0) 0x45 0); try done.
  by apply (bool_decide_unpack _).
Defined.
