(* ===== verification/NetTypes.v ===== *)
(** * NetTypes: the state of the network stack stays well typed

    The model keeps bytes, addresses and ports as plain integers and lists. Here are the
    types the source gives them ([u8], [u16], [[u8; 4]], [MacAddr]) as a predicate on
    the state of the stack, and the proof that every operation of net/*.rs, run on arguments
    of its types, keeps it, whatever a peer sends. The proofs are compositional: [gives]
    and [keeps] are the judgments for a pure computation and for one on the state, with
    one rule per construct of the monad in the hint database [typed]. *)

From S2P Require Import Prelude Bytes E1000 Vfs Net NetProps.

(** ** The types *)

Definition ip4 (a : list Z) : Prop := bytes a ∧ length a = 4%nat.
Definition mac6 (a : list Z) : Prop := bytes a ∧ length a = 6%nat.
Definition port (p : Z) : Prop := fits 16 p.

Definition datagram_typed (d : list Z * Z * list Z) : Prop :=
  let '(src, sport, data) := d in ip4 src ∧ port sport ∧ bytes data.

Record socket_typed (x : Socket) : Prop := {
  st_proto : fits 8 (proto x);
  st_port : port (local_port x);
  st_peer : ∀ ip p, peer x = Some (ip, p) → ip4 ip ∧ port p;
  st_rx : Forall datagram_typed (rx x);
}.

Record nic_typed (n : e1000.Nic) : Prop := {
  nt_mac : mac6 (e1000.mac n);
  nt_rx : Forall (λ d, fits 16 (e1000.length d)) (e1000.rx_ring n);
  nt_tx : Forall (λ d, fits 16 (e1000.length d)) (e1000.tx_ring n);
}.

Record net_typed {D : Type} (s : Net D) : Prop := {
  ty_nic : ∀ n, e1000.nic (world s) = Some n → nic_typed n;
  ty_bus : ∀ a, is_byte (e1000.bus (world s) a);
  ty_cache : ∀ ip mac, cache s !! ip = Some mac → ip4 ip ∧ mac6 mac;
  ty_sockets : ∀ x, Some x ∈ sockets s → socket_typed x;
}.

(** ** The judgments *)

Definition gives {A} (Q : A → Prop) (o : outcome A) : Prop := ∀ a, o = Ret a → Q a.
Definition keeps {D A : Type} (Q : A → Prop) (m : M (Net D) A) : Prop :=
  ∀ s a s', net_typed s → m s = Ret (a, s') → net_typed s' ∧ Q a.

Create HintDb typed.

Section rules.
Context {D : Type}.

Lemma gives_ret {A} (Q : A → Prop) a : Q a → gives Q (Ret a).
Proof. by intros ? ? [= <-]. Qed.

Lemma gives_panic {A} (Q : A → Prop) p : gives Q (Panic p).
Proof. by intros ? ?. Qed.

Lemma gives_bind {A B} (P : A → Prop) (Q : B → Prop) (o : outcome A) f :
  gives P o → (∀ a, P a → gives Q (f a)) → gives Q (o ≫= f).
Proof. intros Ho Hf b. destruct o as [a|]; [|done]. intros E. by eapply Hf, E; apply Ho. Qed.

Lemma keeps_ret {A} (Q : A → Prop) a : Q a → keeps (D := D) Q (mret a).
Proof. by intros ? ? ? ? ? [= <- <-]. Qed.

Lemma keeps_bind {A B} (P : A → Prop) (Q : B → Prop) (m : M (Net D) A) f :
  keeps P m → (∀ a, P a → keeps Q (f a)) → keeps Q (m ≫= f).
Proof.
  intros Hm Hf s b s' Hs E. unfold mbind, M_bind in E. destruct (m s) as [[a s1]|] eqn:Em; [|done].
  destruct (Hm _ _ _ Hs Em) as [Hs1 Ha]. by eapply Hf.
Qed.

Lemma keeps_lift {A} (Q : A → Prop) (o : outcome A) : gives Q o → keeps (D := D) Q (lift o).
Proof.
  intros Ho s a s' Hs E. unfold lift in E. destruct o as [b|]; [|done]. injection E as <- <-. auto.
Qed.

Lemma keeps_gets {A} (Q : A → Prop) (f : Net D → A) :
  (∀ s, net_typed s → Q (f s)) → keeps Q (gets f).
Proof. intros Hf s a s' Hs [= <- <-]. auto. Qed.

Lemma keeps_modify (f : Net D → Net D) : (∀ s, net_typed s → net_typed (f s)) → keeps (λ _, True) (modify f).
Proof. intros Hf s a s' Hs [= <- <-]. auto. Qed.

Lemma keeps_weaken {A} (P Q : A → Prop) (m : M (Net D) A) :
  keeps P m → (∀ a, P a → Q a) → keeps Q m.
Proof. intros Hm HPQ s a s' Hs E. destruct (Hm _ _ _ Hs E). auto. Qed.

Lemma keeps_if {A} (Q : A → Prop) (b : bool) (m1 m2 : M (Net D) A) :
  (b = true → keeps Q m1) → (b = false → keeps Q m2) → keeps Q (if b then m1 else m2).
Proof. destruct b; auto. Qed.
End rules.

(** ** Pure pieces *)

Section pieces.
Context `{Profile}.

Lemma gives_index l i : bytes l → gives is_byte (index l i).
Proof.
  intros Hl x E. unfold index in E. destruct (vget l i) as [y|] eqn:Ei; [|done]. injection E as <-.
  by eapply (proj1 (Forall_forall _ _) Hl), vget_elem_of.
Qed.

Lemma gives_slice l a b : bytes l → gives bytes (slice l a b).
Proof. intros Hl x E. unfold slice in E. case_bool_decide; [|done]. injection E as <-. auto with bytes. Qed.

Lemma gives_be16 l : bytes l → gives (fits 16) (be16 l).
Proof.
  intros Hl. unfold be16. repeat (eapply gives_bind; [by apply gives_index|]; intros).
  apply gives_ret. by apply from_be16_fits.
Qed.

Lemma gives_field16 l i : bytes l → gives port (field16 l i).
Proof.
  intros Hl. unfold field16. repeat (eapply gives_bind; [by apply gives_index|]; intros).
  apply gives_ret. by apply from_be16_fits.
Qed.

Lemma gives_field32 l i : bytes l → gives (fits 32) (field32 l i).
Proof.
  intros Hl. unfold field32. repeat (eapply gives_bind; [by apply gives_index|]; intros).
  apply gives_ret. by apply from_be32_fits.
Qed.

Lemma gives_take_bytes l from n : bytes l → 0 ≤ n →
  gives (λ a, bytes a ∧ length a = Z.to_nat n) (take_bytes l from n).
Proof.
  intros Hl Hn x E. unfold take_bytes in E.
  assert (∀ ks acc, bytes acc → for_each ks (λ i acc, b ← index l i; Ret (acc ++ [b])) acc = Ret x →
    bytes x ∧ length x = (length acc + length ks)%nat) as Hgen.
  { induction ks as [|i ks IH]; intros acc Ha; cbn [for_each].
    - intros [= <-]. by rewrite Nat.add_0_r.
    - destruct (index l i) as [b|] eqn:Eb; [|done]. cbn [mbind outcome_bind]. intros E'.
      destruct (IH (acc ++ [b])) as [? ->]; [|done|].
      + apply bytes_app; [done|]. apply bytes_cons; [by apply (gives_index l i Hl)|apply bytes_nil].
      + split; [done|]. rewrite length_app. simpl. lia. }
  destruct (Hgen _ [] bytes_nil E) as [? ->]. rewrite length_seqZ. done.
Qed.

Lemma gives_take4 l from : bytes l → gives ip4 (take_bytes l from 4).
Proof. intros Hl. by apply (gives_take_bytes l from 4). Qed.

Lemma gives_take6 l from : bytes l → gives mac6 (take_bytes l from 6).
Proof. intros Hl. by apply (gives_take_bytes l from 6). Qed.

Lemma gives_copy_into l off bs : bytes l → bytes bs → gives bytes (copy_into l off bs).
Proof. intros Hl Hb x E. unfold copy_into in E. case_bool_decide; [|done]. injection E as <-. by apply bytes_blit. Qed.

Lemma gives_store l i x : bytes l → is_byte x → gives bytes (store l i x).
Proof.
  intros Hl Hx y E. unfold store in E. case_bool_decide; [|done]. injection E as <-.
  by apply Forall_vset.
Qed.

Lemma gives_any {A} (o : outcome A) : gives (λ _, True) o.
Proof. done. Qed.
End pieces.

#[export] Hint Resolve gives_ret gives_index gives_slice gives_be16 gives_field16 gives_field32
  gives_copy_into gives_store gives_take4 gives_take6 keeps_ret keeps_lift : typed.

(** ** The operations of the stack *)

Section operations.
Context {D : Type} `{e1000.Hw D} `{Profile}.
Implicit Types (s : Net D).

Lemma keeps_our_mac : keeps (D := D) mac6 our_mac.
Proof.
  apply keeps_gets. intros s Hs. unfold e1000.mac_address.
  destruct (e1000.nic (world s)) as [n|] eqn:En; cbn; [by eapply nt_mac, ty_nic|].
  split; [auto 10 with bytes|done].
Qed.

Lemma typed_world s w : net_typed s → (∀ n, e1000.nic w = Some n → nic_typed n) →
  (∀ a, is_byte (e1000.bus w a)) → net_typed (set_world w s).
Proof. intros [] ? ?. by split. Qed.

Lemma keeps_send frame : bytes frame → keeps (D := D) (λ _, True) (on_card (e1000.send frame)).
Proof.
  intros Hf s a s' Hs E. split; [|done]. unfold on_card, e1000.send in E.
  destruct (e1000.nic (world s)) as [n|] eqn:En; [|injection E as <- <-; apply typed_world; [done|..]; apply Hs].
  pose proof (ty_nic _ Hs _ En) as [Hm Hrx Htx].
  destruct (store _ _ _) as [ring|] eqn:Er; [|done]. cbn [mbind outcome_bind] in E.
  destruct (checked _ _) as [c|]; [|done]. cbn [mbind outcome_bind] in E. injection E as <- <-.
  apply typed_world; [done|..].
  - intros ? [= <-]. split; [done|done|]. cbn [e1000.tx_ring]. unfold store in Er.
    case_bool_decide; [|done]. injection Er as <-. apply Forall_vset; [done|]. by apply wrap_fits.
  - intros x. cbn [e1000.bus]. unfold e1000.write_bytes. destruct (vget frame _) eqn:Ev; [|apply Hs].
    by eapply (proj1 (Forall_forall _ _) Hf), vget_elem_of.
Qed.

Lemma keeps_poll : keeps (D := D) (λ o, ∀ f, o = Some f → bytes f ∧ vlen f ≤ 65535) (on_card e1000.poll_receive).
Proof.
  intros s a s' Hs E. unfold on_card, e1000.poll_receive in E.
  destruct (e1000.nic (world s)) as [n|] eqn:En.
  2:{ injection E as <- <-. split; [|by intros ? [=]]. apply typed_world; [done|..]; apply Hs. }
  pose proof (ty_nic _ Hs _ En) as [Hm Hrx Htx].
  destruct (index (e1000.rx_ring n) _) as [d|] eqn:Ed; [|done]. cbn [mbind outcome_bind] in E.
  assert (fits 16 (e1000.length d)) as Hd.
  { unfold index in Ed. destruct (vget _ _) eqn:Ev; [|done]. injection Ed as <-.
    by eapply (proj1 (Forall_forall _ _) Hrx), vget_elem_of. }
  destruct (_ || _).
  { injection E as <- <-. split; [|by intros ? [=]]. apply typed_world; [done|..]; apply Hs. }
  destruct (index (e1000.rx_bufs n) _) as [b|]; [|done]. cbn [mbind outcome_bind] in E.
  destruct (store _ _ _) as [ring|] eqn:Er; [|done]. cbn [mbind outcome_bind] in E.
  destruct (checked _ _) as [c|]; [|done]. cbn [mbind outcome_bind] in E. injection E as <- <-. split.
  - apply typed_world; [done|..]; [|apply Hs]. intros ? [= <-]. split; [done| |done].
    cbn [e1000.rx_ring]. unfold store in Er. case_bool_decide; [|done]. injection Er as <-.
    by apply Forall_vset.
  - intros f [= <-]. unfold fits in Hd. rewrite vlen_read_bytes by lia. split; [|lia].
    apply Forall_fmap, Forall_true. apply Hs.
Qed.

Lemma keeps_transmit dst et payload : mac6 dst → bytes payload →
  keeps (D := D) (λ _, True) (transmit_ethernet dst et payload).
Proof.
  intros [Hd _] Hp. eapply keeps_bind; [apply keeps_our_mac|]. intros me [Hm _].
  apply keeps_send. unfold eth_frame. auto with bytes.
Qed.

Lemma keeps_remember ip mac : ip4 ip → mac6 mac → keeps (D := D) (λ _, True) (arp_remember ip mac).
Proof.
  intros Hi Hm. apply keeps_modify. intros s []. split; try done. cbn [set_cache cache].
  intros ip' mac'. rewrite lookup_insert_Some. intros [[<- <-]|[_ ?]]; auto.
Qed.

Lemma keeps_lookup ip : keeps (D := D) (λ o, ∀ m, o = Some m → mac6 m) (arp_lookup ip).
Proof. apply keeps_gets. intros s Hs m Em. by eapply ty_cache. Qed.

Lemma keeps_next_hop dst : keeps (D := D) mac6 (next_hop_mac dst).
Proof.
  unfold next_hop_mac. eapply keeps_bind; [apply keeps_lookup|]. intros [m|] Hm; [apply keeps_ret; auto|].
  eapply keeps_bind; [apply keeps_lookup|]. intros [m|] Hm'; apply keeps_ret; [auto|].
  split; [by apply Forall_replicate|done].
Qed.

Lemma arp_payload_bytes oper sha spa tha tpa : mac6 sha → ip4 spa → mac6 tha → ip4 tpa →
  bytes (arp_payload oper sha spa tha tpa).
Proof. intros [] [] [] []. unfold arp_payload. auto 20 with bytes. Qed.

Lemma IP_typed : ip4 e1000.IP.
Proof. split; [unfold e1000.IP; auto 10 with bytes|done]. Qed.

Lemma mac6_rep b : is_byte b → mac6 (replicate 6 b).
Proof. intros Hb. split; [by apply Forall_replicate|done]. Qed.

(** One step of a monadic program: apply the rule of its head, by hint for what it binds. *)
Ltac kstep := cbv beta in *;
  match goal with
  | |- keeps _ (mret _) => apply keeps_ret
  | |- keeps _ (if _ then _ else _) => apply keeps_if; intros
  | |- keeps _ (lift ?o ≫= _) => eapply keeps_bind; [apply keeps_lift; solve [eauto with typed]|]; intros
  | |- keeps _ (_ ≫= _) => eapply keeps_bind; [solve [eauto with typed]|]; intros
  | |- gives _ (Ret _) => apply gives_ret
  | |- gives _ (_ ≫= _) => eapply gives_bind; [solve [eauto with typed]|]; intros
  end; cbv beta in *.

#[local] Hint Resolve keeps_our_mac keeps_transmit keeps_next_hop keeps_remember keeps_lookup
  arp_payload_bytes IP_typed keeps_send keeps_poll : typed.
#[local] Hint Resolve mac6_rep : typed.
#[local] Hint Extern 1 (mac6 BROADCAST) => apply mac6_rep : typed.
#[local] Hint Extern 1 (is_byte _) => (by unfold is_byte, fits) : typed.

Lemma keeps_arp_request target : ip4 target → keeps (D := D) (λ _, True) (arp_request target).
Proof. intros Ht. unfold arp_request. repeat kstep. done. Qed.

Lemma keeps_arp_handle p : bytes p → keeps (D := D) (λ _, True) (arp_handle p).
Proof. intros Hp. unfold arp_handle. repeat kstep; done. Qed.

#[local] Hint Resolve keeps_arp_request keeps_arp_handle : typed.

Lemma gives_checksum data : gives (λ _, True) (checksum data).
Proof. done. Qed.
#[local] Hint Resolve gives_checksum : typed.
#[local] Hint Extern 3 (bytes _) => (auto 20 with bytes) : typed.

Lemma gives_ip_header p src dst total : is_byte p → ip4 src → ip4 dst →
  gives bytes (ip_header p src dst total).
Proof. intros Hp [] []. unfold ip_header. kstep. apply gives_copy_into; auto 20 with bytes. Qed.
#[local] Hint Resolve gives_ip_header : typed.

Lemma keeps_ip_send dst p payload : ip4 dst → is_byte p → bytes payload →
  keeps (D := D) (λ _, True) (ip_send dst p payload).
Proof. intros Hd Hp Hb. unfold ip_send. repeat kstep. apply keeps_transmit; auto with bytes. Qed.
#[local] Hint Resolve keeps_ip_send : typed.

Lemma gives_echo_request id seq payload : bytes payload → gives bytes (echo_request id seq payload).
Proof. intros Hb. unfold echo_request. kstep. apply gives_copy_into; auto 20 with bytes. Qed.

Lemma gives_echo_reply req : bytes req → gives bytes (echo_reply req).
Proof. intros Hb. unfold echo_reply. repeat kstep. apply gives_copy_into; auto with bytes. Qed.
#[local] Hint Resolve gives_echo_request gives_echo_reply : typed.

Lemma keeps_icmp_handle src msg : ip4 src → bytes msg → keeps (D := D) (λ _, True) (icmp_handle src msg).
Proof. intros Hs Hm. unfold icmp_handle. repeat kstep; done. Qed.

Lemma keeps_ping dst seq : ip4 dst → keeps (D := D) (λ _, True) (ping dst seq).
Proof.
  intros Hd. unfold ping.
  eapply keeps_bind; [apply keeps_lift, gives_echo_request; by apply (bool_decide_unpack (bytes _))|].
  intros. repeat kstep. done.
Qed.
#[local] Hint Resolve keeps_icmp_handle keeps_ping : typed.

(** Sockets. *)

Lemma typed_sockets s t : net_typed s → (∀ x, Some x ∈ t → socket_typed x) → net_typed (set_sockets t s).
Proof. intros [] ?. by split. Qed.

Lemma vset_sockets s i o : net_typed s → (∀ x, o = Some x → socket_typed x) →
  net_typed (set_sockets (vset (sockets s) i o) s).
Proof.
  intros Hs Ho. apply typed_sockets; [done|]. intros x Hx. unfold vset in Hx. case_bool_decide; [|by apply Hs].
  apply list_elem_of_lookup in Hx as [k Hk]. apply list_lookup_insert_Some in Hk as [(_ & Eo & _)|[_ Hk]]; [by apply Ho|].
  by eapply Hs, list_elem_of_lookup_2.
Qed.

Lemma sock_get_typed s i x : net_typed s → sock_get i (sockets s) = Some x → socket_typed x.
Proof. intros Hs E%sock_get_Some. by eapply Hs, vget_elem_of. Qed.

Lemma keeps_socket_init : keeps (D := D) (λ _, True) socket_init.
Proof. apply keeps_modify. intros s Hs. apply typed_sockets; [done|]. intros x Hx. by apply elem_of_nil in Hx. Qed.

Lemma keeps_arp_init : keeps (D := D) (λ _, True) arp_init.
Proof. apply keeps_modify. intros s []. split; [done..| |done]. cbn [set_cache cache]. intros ip mac. by rewrite lookup_empty. Qed.

Lemma keeps_socket_new p : fits 8 p → keeps (D := D) (λ i, 0 ≤ i) (socket_new p).
Proof.
  intros Hp s a s' Hs E. assert (socket_typed (mkSocket p 0 None [])) as Hx by (split; done || constructor).
  unfold socket_new in E. destruct (position sock_is_none (sockets s)) as [i|] eqn:Ei; injection E as <- <-.
  - apply position_Some in Ei as [(? & Ei & _) _]. apply vget_lt in Ei. split; [|lia].
    apply vset_sockets; [done|]. by intros ? [= <-].
  - split; [|rewrite vlen_app; change (vlen [_]) with 1; pose proof (vlen_nonneg (sockets s)); lia].
    apply typed_sockets; [done|]. intros x [Hin|Hin]%elem_of_app; [by apply Hs|].
    by apply list_elem_of_singleton in Hin as [= ->].
Qed.

Lemma keeps_sock_update i f : (∀ x, socket_typed x → socket_typed (f x)) →
  keeps (D := D) (λ _, True) (sock_update i f).
Proof.
  intros Hf s a s' Hs E. unfold sock_update in E. split; [|done].
  destruct (sock_get i (sockets s)) as [x|] eqn:Ex; injection E as <- <-; [|done].
  apply vset_sockets; [done|]. intros ? [= <-]. by eapply Hf, sock_get_typed.
Qed.

Lemma keeps_bind_port i p : port p → keeps (D := D) (λ _, True) (socket_bind i p).
Proof. intros Hp. apply keeps_sock_update. intros x []. by split. Qed.

Lemma keeps_connect i ip p : ip4 ip → port p → keeps (D := D) (λ _, True) (socket_connect i ip p).
Proof. intros Hi Hp. apply keeps_sock_update. intros x []. split; try done. by intros ? ? [= <- <-]. Qed.

Lemma keeps_close i : keeps (D := D) (λ _, True) (socket_close i).
Proof. apply keeps_modify. intros s Hs. destruct (_ <? _); [|done]. by apply vset_sockets. Qed.

Lemma keeps_recvfrom i buf : bytes buf →
  keeps (D := D) (λ r, bytes (snd r) ∧ ∀ n src p, fst r = Some (n, src, p) → 0 ≤ n ≤ vlen buf ∧ ip4 src ∧ port p)
    (recvfrom i buf).
Proof.
  intros Hb s a s' Hs E. unfold recvfrom in E.
  destruct (sock_get i (sockets s)) as [x|] eqn:Ex; [|injection E as <- <-; by split].
  pose proof (sock_get_typed _ _ _ Hs Ex) as [Hp Hl Hpe Hrx].
  destruct (rx x) as [|[[src sport] data] q]; injection E as <- <-; [by split|].
  apply Forall_cons in Hrx as [(Hsrc & Hsp & Hd) Hq]. split.
  - apply vset_sockets; [done|]. intros ? [= <-]. by split.
  - cbn [fst snd]. split; [apply bytes_blit; auto with bytes|]. intros n ? ? [= <- <- <-].
    pose proof (vlen_nonneg buf). pose proof (vlen_nonneg data). split; [lia|done].
Qed.

Lemma keeps_deliver dport src sport data : datagram_typed (src, sport, data) →
  keeps (D := D) (λ _, True) (deliver dport src sport data).
Proof.
  intros Hd. apply keeps_modify. intros s Hs. apply typed_sockets; [done|]. intros x Hx.
  apply list_elem_of_fmap in Hx as ([y|] & Ey & Hy); [|done]. pose proof (ty_sockets _ Hs _ Hy) as Hty.
  cbn in Ey. destruct (_ && _); injection Ey as ->; [|done]. destruct Hty. split; try done.
  apply Forall_app_2; [done|]. apply Forall_cons. by split.
Qed.
#[local] Hint Resolve keeps_socket_init keeps_arp_init keeps_deliver keeps_recvfrom : typed.
#[local] Hint Extern 1 (datagram_typed _) => (split; [eassumption|split; eassumption]) : typed.

(** Datagrams, segments and the demultiplexers. *)

Lemma keeps_udp_handle src d : ip4 src → bytes d → keeps (D := D) (λ _, True) (udp_handle src d).
Proof. intros Hs Hd. unfold udp_handle. repeat kstep; [done|]. apply keeps_deliver. by split_and!. Qed.

Lemma pseudo_header_bytes dst p total : ip4 dst → is_byte p → bytes (pseudo_header dst p total).
Proof. intros [] Hp. unfold pseudo_header, e1000.IP. auto 20 with bytes. Qed.

Lemma gives_udp_datagram sport dst dport data : bytes data → gives bytes (udp_datagram sport dst dport data).
Proof. intros Hd. unfold udp_datagram. kstep. apply gives_copy_into; auto 20 with bytes. Qed.

Lemma gives_tcp_segment sport dport seq ack flags payload dst : bytes payload →
  gives bytes (tcp_segment sport dport seq ack flags payload dst).
Proof. intros Hp. unfold tcp_segment. kstep. apply gives_copy_into; auto 20 with bytes. Qed.
#[local] Hint Resolve gives_udp_datagram gives_tcp_segment : typed.

Lemma gives_checked w z : gives (λ _, True) (checked w z).
Proof. done. Qed.
#[local] Hint Resolve gives_checked : typed.

Lemma keeps_udp_send sport dst dport data : ip4 dst → bytes data →
  keeps (D := D) (λ _, True) (udp_send sport dst dport data).
Proof. intros Hd Hb. unfold udp_send. kstep. apply keeps_ip_send; auto with bytes. Qed.

Lemma keeps_tcp_handle src t : ip4 src → bytes t → keeps (D := D) (λ _, True) (tcp_handle src t).
Proof. intros Hs Ht. unfold tcp_handle. repeat kstep; done. Qed.

Lemma keeps_ip_handle pkt : bytes pkt → keeps (D := D) (λ _, True) (ip_handle pkt).
Proof.
  intros Hp. unfold ip_handle. repeat kstep; auto using keeps_icmp_handle, keeps_udp_handle, keeps_tcp_handle.
Qed.

Lemma keeps_eth_handle frame : bytes frame → keeps (D := D) (λ _, True) (eth_handle frame).
Proof. intros Hf. unfold eth_handle. repeat kstep; auto using keeps_arp_handle, keeps_ip_handle. Qed.
#[local] Hint Resolve keeps_eth_handle keeps_udp_send : typed.

Lemma keeps_pump_loop fuel n : keeps (D := D) (λ _, True) (pump_loop fuel n).
Proof.
  revert n. induction fuel as [|k IH]; intros n; cbn [pump_loop]; [by kstep|]. kstep.
  destruct a as [f|]; [|by kstep]. destruct (H1 f eq_refl) as [Hf _]. kstep. apply IH.
Qed.

Lemma keeps_sendto i dst p data : ip4 dst → bytes data → keeps (D := D) (λ _, True) (sendto i dst p data).
Proof.
  intros Hd Hb. unfold sendto. eapply keeps_bind; [by apply (keeps_gets (λ _, True))|]. intros.
  repeat kstep; done.
Qed.
End operations.

(** ** The stack as a whole *)

(** The calls other parts of the kernel make, with arguments of any value. *)
Inductive net_op :=
  | NetInit | Pump | Receive (frame : list Z)
  | NewSocket (p : Z) | BindSocket (i p : Z) | ConnectSocket (i : Z) (ip : list Z) (p : Z)
  | CloseSocket (i : Z) | SendTo (i : Z) (ip : list Z) (p : Z) (data : list Z)
  | RecvFrom (i : Z) (buf : list Z) | ReadInode (i : Z) (buf : list Z) | WriteInode (i : Z) (data : list Z)
  | ArpRequest (ip : list Z) | Ping (ip : list Z) (seq : Z).

(** The arguments have the types of the parameters. *)
Definition op_typed (o : net_op) : Prop :=
  match o with
  | Receive f => bytes f
  | NewSocket p => fits 8 p
  | BindSocket _ p => port p
  | ConnectSocket _ ip p => ip4 ip ∧ port p
  | SendTo _ ip p data => ip4 ip ∧ port p ∧ bytes data
  | RecvFrom _ buf | ReadInode _ buf => bytes buf
  | WriteInode _ data => bytes data
  | ArpRequest ip | Ping ip _ => ip4 ip
  | _ => True
  end.

(** What came back, for the calls that hand out data. *)
Inductive net_result := Done | Datagram (r : option (Z * list Z * Z)) (buf : list Z) | Bytes (buf : list Z).

Definition result_typed (o : net_op) (r : net_result) : Prop :=
  match r with
  | Done => True
  | Datagram d buf => bytes buf ∧ ∀ n src p, d = Some (n, src, p) →
      (∀ i b, o = RecvFrom i b → 0 ≤ n ≤ vlen b) ∧ ip4 src ∧ port p
  | Bytes buf => bytes buf
  end.

Section whole.
Context {D : Type} `{e1000.Hw D} `{Profile}.

Definition net_exec (o : net_op) : M (Net D) net_result :=
  match o with
  | NetInit => _ ← net_init; mret Done
  | Pump => _ ← pump; mret Done
  | Receive f => _ ← eth_handle f; mret Done
  | NewSocket p => _ ← socket_new p; mret Done
  | BindSocket i p => _ ← socket_bind i p; mret Done
  | ConnectSocket i ip p => _ ← socket_connect i ip p; mret Done
  | CloseSocket i => _ ← socket_close i; mret Done
  | SendTo i ip p data => _ ← sendto i ip p data; mret Done
  | RecvFrom i buf => r ← recvfrom i buf; mret (Datagram (fst r) (snd r))
  | ReadInode i buf => r ← SocketInode_read i buf; mret (Bytes (snd r))
  | WriteInode i data => _ ← SocketInode_write i data; mret Done
  | ArpRequest ip => _ ← arp_request ip; mret Done
  | Ping ip seq => _ ← ping ip seq; mret Done
  end.

Lemma keeps_done {A} (Q : A → Prop) (m : M (Net D) A) o : keeps Q m → keeps (result_typed o) (_ ← m; mret Done).
Proof. intros Hm. eapply keeps_bind; [done|]. intros. by apply keeps_ret. Qed.

Lemma keeps_write_inode i data : bytes data → keeps (D := D) (λ _, True) (SocketInode_write i data).
Proof.
  intros Hd. unfold SocketInode_write.
  eapply keeps_bind; [apply (keeps_gets (λ o, ∀ x, o = Some x → socket_typed x)); intros; by eapply sock_get_typed|].
  intros [x|] Hx; cbn [mbind option_bind]; [|by apply keeps_ret].
  destruct (peer x) as [[ip p]|] eqn:Ep; [|by apply keeps_ret].
  destruct (st_peer _ (Hx x eq_refl) _ _ Ep). by apply keeps_sendto.
Qed.

Lemma net_exec_keeps o : op_typed o → keeps (result_typed o) (net_exec o).
Proof.
  destruct o; cbn [op_typed net_exec]; intros Ho; try (eapply keeps_done).
  - eapply keeps_bind; [apply keeps_arp_init|]. intros. apply keeps_socket_init.
  - apply keeps_pump_loop.
  - by apply keeps_eth_handle.
  - by apply keeps_socket_new.
  - by apply keeps_bind_port.
  - apply keeps_connect; apply Ho.
  - apply keeps_close.
  - apply keeps_sendto; apply Ho.
  - eapply keeps_bind; [by apply keeps_recvfrom|]. intros [d b] [Hb Hd]. apply keeps_ret. split; [done|].
    cbn [fst] in Hd. intros n src p E. destruct (Hd n src p E) as (? & ? & ?). split; [|done].
    by intros ? ? [= <- <-].
  - unfold SocketInode_read. eapply keeps_bind.
    + eapply keeps_bind; [by apply keeps_recvfrom|]. intros [[[[n src] p]|] b] [Hb _];
        apply (keeps_ret (λ r, bytes (snd r))); done.
    + intros r Hr. by apply keeps_ret.
  - by apply keeps_write_inode.
  - by apply keeps_arp_request.
  - by apply keeps_ping.
Qed.

(** Run a list of operations, collecting what came back. *)
Fixpoint net_run (ops : list net_op) : M (Net D) (list net_result) :=
  match ops with
  | [] => mret []
  | o :: ops' => r ← net_exec o; rs ← net_run ops'; mret (r :: rs)
  end.

(** The state of the network stack stays well typed. Whatever sequence of calls the
    kernel makes (initialisation, pumping frames off the ring, handling any byte string as a
    frame, socket calls on any index, sending), with arguments of the declared types, as
    long as none panics: every cached binding is a 4-byte address with a 6-byte MAC,
    every socket has an 8-bit protocol, a 16-bit port, a well-formed peer and a queue of
    well-formed datagrams, every descriptor length is 16 bits wide, everything in memory and
    everything handed back to a caller is bytes, and a received count is within the
    caller's buffer. *)
Theorem net_types_preserved ops s rs s' :
  net_typed s → Forall op_typed ops → net_run ops s = Ret (rs, s') →
  net_typed s' ∧ Forall2 result_typed ops rs.
Proof.
  intros Hs Hops E. enough (keeps (λ rs, Forall2 result_typed ops rs) (net_run ops)) as Hk by by eapply Hk.
  clear Hs E. induction Hops as [|o ops Ho _ IH]; cbn [net_run]; [by apply keeps_ret|].
  eapply keeps_bind; [by apply net_exec_keeps|]. intros r Hr.
  eapply keeps_bind; [exact IH|]. intros rs' Hrs. apply keeps_ret. by constructor.
Qed.
End whole.

(** ** A concrete run *)

Lemma net0_typed : net_typed net0.
Proof.
  split.
  - intros n [= <-]. split; by apply (bool_decide_unpack _).
  - intros a. by apply (bool_decide_unpack _).
  - intros ip mac. cbn [net0 cache]. rewrite lookup_insert_Some. intros [[<- <-]|[_ E]];
      [|by rewrite lookup_empty in E]. split; (split; [by apply (bool_decide_unpack (bytes _))|done]).
  - intros x Hx. apply list_elem_of_singleton in Hx as [= ->]. split; done || constructor.
Qed.

Definition net0_ops : list net_op :=
  [Receive (eth_frame BROADCAST (replicate 6 9) ETHERTYPE_ARP
              (arp_payload OP_REQUEST (replicate 6 9) [10; 0; 2; 3] (replicate 6 0) e1000.IP));
   NewSocket PROTO_UDP; BindSocket 1 7; ConnectSocket 1 [10; 0; 2; 3] 9; WriteInode 1 (str "hi");
   Pump; RecvFrom 1 (replicate 8 0); CloseSocket 1].

Definition results {D A : Type} (o : outcome (A * Net D)) : option A :=
  match o with Ret (a, _) => Some a | Panic _ => None end.

Lemma net_types_preserved_witness : ∃ s',
  net_run (H0 := dev) net0_ops net0 =
    Ret ([Done; Done; Done; Done; Done; Done; Datagram None (replicate 8 0); Done], s') ∧ net_typed s'.
Proof.
  assert (results (net_run (H0 := dev) net0_ops net0) =
    Some [Done; Done; Done; Done; Done; Done; Datagram None (replicate 8 0); Done]) as E by by vm_compute.
  destruct (net_run (H0 := dev) net0_ops net0) as [[rs s']|p] eqn:Er; [|discriminate E].
  injection E as ->. exists s'. split; [done|].
  refine (proj1 (@net_types_preserved _ _ dev net0_ops net0 _ s' net0_typed _ Er)).
  unfold net0_ops. repeat apply Forall_cons_2; [..|apply Forall_nil_2];
    repeat split; by apply (bool_decide_unpack _).
Defined.
