(* ===== verification/Initrd.v ===== *)
(** * Initrd: the initial ramdisk (kernel/src/fs/initrd.rs)

    The ustar parser, the tree it builds and the inodes of that tree. The tree is
    built once and only read afterwards, so a node is an inductive value; the
    mutable [children] list of the source is rebuilt on the way to the
    insertion point. *)

From S2P Require Import Prelude Bytes Vfs.
Import vfs.

(** ** UTF-8, as [core::str] decides it *)

Definition between (a b x : Z) : bool := (a <=? x) && (x <=? b).
Definition is_cont (b : Z) : bool := between 0x80 0xbf b.

(** One decoding step: whether a character starts [l], and how many bytes it (or
    the longest prefix of one) takes. *)
Definition utf8_step (l : list Z) : bool * nat :=
  match l with
  | [] => (true, O)
  | a :: r =>
      if a <? 0x80 then (true, 1%nat)
      else if between 0xc2 0xdf a then
        match r with
        | b :: _ => if is_cont b then (true, 2%nat) else (false, 1%nat)
        | [] => (false, 1%nat)
        end
      else if between 0xe0 0xef a then
        match r with
        | b :: r2 =>
            if between (if a =? 0xe0 then 0xa0 else 0x80) (if a =? 0xed then 0x9f else 0xbf) b then
              match r2 with
              | c :: _ => if is_cont c then (true, 3%nat) else (false, 2%nat)
              | [] => (false, 2%nat)
              end
            else (false, 1%nat)
        | [] => (false, 1%nat)
        end
      else if between 0xf0 0xf4 a then
        match r with
        | b :: r2 =>
            if between (if a =? 0xf0 then 0x90 else 0x80) (if a =? 0xf4 then 0x8f else 0xbf) b then
              match r2 with
              | c :: r3 =>
                  if is_cont c then
                    match r3 with
                    | d :: _ => if is_cont d then (true, 4%nat) else (false, 3%nat)
                    | [] => (false, 3%nat)
                    end
                  else (false, 2%nat)
              | [] => (false, 2%nat)
              end
            else (false, 1%nat)
        | [] => (false, 1%nat)
        end
      else (false, 1%nat)
  end.

(** A step takes at least a byte, so [length l] steps are enough. *)
Fixpoint utf8_valid_loop (fuel : nat) (l : list Z) : bool :=
  match fuel with
  | O => true
  | S k => match l with
           | [] => true
           | _ => let '(ok, n) := utf8_step l in ok && utf8_valid_loop k (drop n l)
           end
  end.
Definition utf8_valid (l : list Z) : bool := utf8_valid_loop (length l) l.

(** [String::from_utf8_lossy]: U+FFFD for every maximal invalid prefix. *)
Fixpoint utf8_lossy_loop (fuel : nat) (l : list Z) : list Z :=
  match fuel with
  | O => []
  | S k => match l with
           | [] => []
           | _ => let '(ok, n) := utf8_step l in
                  (if ok then take n l else [0xef; 0xbf; 0xbd]) ++ utf8_lossy_loop k (drop n l)
           end
  end.
Definition from_utf8_lossy (l : list Z) : list Z := utf8_lossy_loop (length l) l.

(** [str::from_utf8(..).ok()] *)
Definition from_utf8 (l : list Z) : option (list Z) := if utf8_valid l then Some l else None.

Module initrd.

Definition BLOCK : Z := 512.

Record Entry := mkEntry { path : list Z; data : list Z; is_dir : bool }.

Definition read_cstr (field : list Z) : list Z :=
  let e := match position (λ b, b =? 0) field with Some i => i | None => vlen field end in
  from_utf8_lossy (take (Z.to_nat e) field).

(** A size field has 12 digits at most: no overflow. *)
Fixpoint octal_loop (field : list Z) (value : Z) : Z :=
  match field with
  | [] => value
  | b :: field' =>
      if between 0x30 0x37 b then octal_loop field' (value * 8 + (b - 0x30))
      else if (b =? 0x20) || (b =? 0) then octal_loop field' value
      else value
  end.
Definition octal (field : list Z) : Z := octal_loop field 0.

(** Every round advances by a block at least. *)
Fixpoint parse_loop (fuel : nat) (tar : list Z) (pos : Z) (out : list Entry) : outcome (list Entry) :=
  match fuel with
  | O => Ret out
  | S k =>
      if negb (pos + BLOCK <=? vlen tar) then Ret out
      else
        hdr ← slice tar pos (pos + BLOCK);
        h0 ← index hdr 0;
        if h0 =? 0 then Ret out
        else
          nf ← slice hdr 0 100;
          let name := read_cstr nf in
          sf ← slice hdr 124 136;
          let size := octal sf in
          typeflag ← index hdr 156;
          let body := pos + BLOCK in
          let blocks := (size + BLOCK - 1) `div` BLOCK in
          out' ← (if bool_decide (name ≠ []) then
                    let dir := typeflag =? 0x35 in
                    d ← (if dir then Ret [] else slice tar body (Z.min (body + size) (vlen tar)));
                    Ret (out ++ [mkEntry name d dir])
                  else Ret out);
          parse_loop k tar (body + blocks * BLOCK) out'
  end.
Definition parse (tar : list Z) : outcome (list Entry) := parse_loop (S (length tar)) tar 0 [].

(** [InodeNode] *)
#[warnings="-register-all"]
Inductive InodeNode := Node (name : list Z) (kind : FileKind) (data : list Z) (children : list InodeNode).

Definition node_name (n : InodeNode) : list Z := let 'Node a _ _ _ := n in a.
Definition node_kind (n : InodeNode) : FileKind := let 'Node _ k _ _ := n in k.
Definition node_data (n : InodeNode) : list Z := let 'Node _ _ d _ := n in d.
Definition node_children (n : InodeNode) : list InodeNode := let 'Node _ _ _ c := n in c.

Definition dir (name : list Z) : InodeNode := Node name Dir [] [].
Definition file (name data : list Z) : InodeNode := Node name File_ data [].

Definition find_child (d : InodeNode) (name : list Z) : option InodeNode :=
  match position (λ c, bool_decide (node_name c = name)) (node_children d) with
  | Some i => vget (node_children d) i
  | None => None
  end.

(** Replace the child [find_child] finds. *)
Fixpoint replace_child (name : list Z) (n' : InodeNode) (cs : list InodeNode) : list InodeNode :=
  match cs with
  | [] => []
  | c :: cs' => if bool_decide (node_name c = name) then n' :: cs' else c :: replace_child name n' cs'
  end.

Definition with_children (cs : list InodeNode) (n : InodeNode) : InodeNode :=
  Node (node_name n) (node_kind n) (node_data n) cs.

(** The loop of [Initrd::insert] over the components. *)
Fixpoint insert_at (comps : list (list Z)) (e : Entry) (cur : InodeNode) : InodeNode :=
  match comps with
  | [] => cur
  | [comp] =>
      let node := if is_dir e then dir comp else file comp (data e) in
      with_children (node_children cur ++ [node]) cur
  | comp :: rest =>
      match find_child cur comp with
      | Some c => with_children (replace_child comp (insert_at rest e c) (node_children cur)) cur
      | None => with_children (node_children cur ++ [insert_at rest e (dir comp)]) cur
      end
  end.

Definition insert (root : InodeNode) (e : Entry) : InodeNode := insert_at (components (path e)) e root.

Definition from_tar (tar : list Z) : outcome InodeNode :=
  es ← parse tar;
  Ret (foldl insert (dir (str "/")) es).

(** *** The inodes *)

(** [buf[..n].copy_from_slice(&data[start..start + n])]: all in range. *)
Definition node_read (n : InodeNode) (off : Z) (buf : list Z) : FsResult Z * list Z :=
  let start := off in
  if vlen (node_data n) <=? start then (Ok 0, buf)
  else
    let k := Z.min (vlen buf) (vlen (node_data n) - start) in
    (Ok k, blit buf 0 (take (Z.to_nat k) (drop (Z.to_nat start) (node_data n)))).

Definition node_lookup (n : InodeNode) (name : list Z) : FsResult InodeNode :=
  match find_child n name with Some c => Ok c | None => Err NotFound end.

Definition node_list_dir (n : InodeNode) : FsResult (list (list Z)) := Ok (node_name <$> node_children n).
End initrd.
Import initrd.

(** ** Valid strings pass through [from_utf8_lossy] *)

Lemma utf8_step_progress l ok n : l ≠ [] → utf8_step l = (ok, n) → (1 ≤ n)%nat.
Proof.
  intros Hl. unfold utf8_step. destruct l as [|a r]; [done|].
  repeat case_match; intros [= <- <-]; lia.
Qed.

Lemma utf8_lossy_valid_loop fuel : ∀ l, (length l ≤ fuel)%nat →
  utf8_valid_loop fuel l = true → utf8_lossy_loop fuel l = l.
Proof.
  induction fuel as [|k IH]; intros l Hl; cbn [utf8_valid_loop utf8_lossy_loop].
  - intros _. destruct l; [done|simpl in Hl; lia].
  - destruct l as [|a r] eqn:El; [done|]. rewrite <- El in *. assert (l ≠ []) as Hne by congruence.
    destruct (utf8_step l) as [ok n] eqn:Es. pose proof (utf8_step_progress l ok n Hne Es).
    rewrite andb_true_iff. intros [-> Hv]. rewrite IH; [apply take_drop| |done].
    rewrite length_drop. lia.
Qed.

Lemma from_utf8_lossy_valid l : utf8_valid l = true → from_utf8_lossy l = l.
Proof. by apply utf8_lossy_valid_loop. Qed.

(** ** Writing an archive

    The fields of the header the parser reads; the others ([m1], [m2], [m3]: mode and
    owners, time and checksum, the rest) are arbitrary. *)

Fixpoint oct_digits (n : nat) (z : Z) : list Z :=
  match n with O => [] | S k => oct_digits k (z `div` 8) ++ [0x30 + z `mod` 8] end.

Definition padding (n : Z) : list Z := replicate (Z.to_nat ((- n) `mod` 512)) 0.

Record meta := mkMeta { m1 : list Z; m2 : list Z; m3 : list Z }.
Definition meta_ok (m : meta) : Prop :=
  length (m1 m) = 24%nat ∧ length (m2 m) = 20%nat ∧ length (m3 m) = 355%nat.

Definition tar_header (m : meta) (e : Entry) : list Z :=
  (path e ++ replicate (100 - length (path e)) 0) ++ m1 m ++ (oct_digits 11 (vlen (data e)) ++ [0]) ++
  m2 m ++ [if is_dir e then 0x35 else 0x30] ++ m3 m.

Definition tar_entry (me : meta * Entry) : list Z :=
  let '(m, e) := me in tar_header m e ++ data e ++ padding (vlen (data e)).

Definition archive (es : list (meta * Entry)) : list Z := mjoin (tar_entry <$> es) ++ replicate 1024 0.

(** Entries a tool can write: a nonempty UTF-8 name of at most 100 bytes, and a directory has
    no data. *)
Definition entry_ok (e : Entry) : Prop :=
  path e ≠ [] ∧ (length (path e) ≤ 100)%nat ∧ (0 ∉ path e) ∧ utf8_valid (path e) = true ∧
  vlen (data e) < 8 ^ 11 ∧ (is_dir e = true → data e = []).

Lemma length_oct_digits n z : length (oct_digits n z) = n.
Proof. revert z. induction n as [|n IH]; intros z; simpl; [done|]. rewrite length_app, IH. simpl. lia. Qed.

Lemma octal_loop_digits n : ∀ z rest v, 0 ≤ z < 8 ^ Z.of_nat n →
  octal_loop (oct_digits n z ++ rest) v = octal_loop rest (v * 8 ^ Z.of_nat n + z).
Proof.
  induction n as [|n IH]; intros z rest v Hz.
  - simpl in *. f_equal. lia.
  - assert (8 ^ Z.of_nat (S n) = 8 * 8 ^ Z.of_nat n) as E8.
    { rewrite Nat2Z.inj_succ, Z.pow_succ_r by lia. done. }
    pose proof (Z.mod_pos_bound z 8 ltac:(lia)). pose proof (Z.div_mod z 8 ltac:(lia)).
    cbn [oct_digits]. rewrite <- app_assoc, IH.
    + cbn [app octal_loop]. unfold between.
      rewrite (proj2 (Z.leb_le 48 _)), (proj2 (Z.leb_le _ 55)) by lia. cbn [andb]. f_equal. lia.
    + split; [apply Z.div_pos; lia|]. apply Z.div_lt_upper_bound; lia.
Qed.

Lemma octal_size z : 0 ≤ z < 8 ^ 11 → octal (oct_digits 11 z ++ [0]) = z.
Proof. intros Hz. unfold octal. rewrite octal_loop_digits by done. simpl. lia. Qed.

Lemma read_cstr_name name : 0 ∉ name → utf8_valid name = true → (length name ≤ 100)%nat →
  read_cstr (name ++ replicate (100 - length name) 0) = name.
Proof.
  intros H0 Hv Hl. unfold read_cstr.
  assert (take (Z.to_nat match position (λ b, b =? 0) (name ++ replicate (100 - length name) 0) with
    Some i => i | None => vlen (name ++ replicate (100 - length name) 0) end)
    (name ++ replicate (100 - length name) 0) = name) as ->; [|by apply from_utf8_lossy_valid].
  destruct (position _ _) as [i|] eqn:Ep.
  - apply position_Some in Ep as [(x & Hx & Hx0) Hmin]. apply Z.eqb_eq in Hx0. subst x.
    assert (i = vlen name) as ->.
    { destruct (Z.lt_trichotomy i (vlen name)) as [Hlt|[->|Hgt]]; [|done|].
      - rewrite vget_app_l in Hx by done. apply vget_elem_of in Hx. done.
      - pose proof (vget_lt _ _ _ Hx) as Hi. rewrite vlen_app, vlen_replicate in Hi.
        specialize (Hmin (vlen name) 0 Hgt). unfold vlen in Hmin at 1.
        rewrite vget_nat, lookup_app_r, Nat.sub_diag, lookup_replicate_2 in Hmin by (unfold vlen in *; lia).
        specialize (Hmin eq_refl). done. }
    unfold vlen. by rewrite Nat2Z.id, take_app_length.
  - rewrite position_None in Ep. destruct (decide (length name = 100%nat)) as [E|].
    + rewrite E. simpl. rewrite app_nil_r. unfold vlen. rewrite Nat2Z.id. by rewrite take_ge by lia.
    + specialize (Ep 0). rewrite Z.eqb_refl in Ep. discriminate Ep. apply elem_of_app. right.
      apply elem_of_replicate. split; [done|lia].
Qed.

Lemma length_header m e : meta_ok m → entry_ok e → length (tar_header m e) = 512%nat.
Proof.
  intros (L1 & L2 & L3) (_ & Hl & _). unfold tar_header.
  rewrite !length_app, length_oct_digits, length_replicate, L1, L2, L3. simpl. lia.
Qed.

Lemma padded_blocks n : 0 ≤ n → n + vlen (padding n) = ((n + BLOCK - 1) `div` BLOCK) * BLOCK.
Proof.
  intros Hn. unfold padding, BLOCK. rewrite vlen_replicate.
  pose proof (Z.mod_pos_bound (- n) 512 ltac:(lia)). rewrite Z2Nat.id by lia.
  pose proof (Z.div_mod (- n) 512 ltac:(lia)). pose proof (Z.div_mod (n + 512 - 1) 512 ltac:(lia)).
  pose proof (Z.mod_pos_bound (n + 512 - 1) 512 ltac:(lia)). lia.
Qed.

(** Parsing one entry. *)
(** The fields of a header as [parse] reads them. *)
Lemma header_fields m e : meta_ok m → entry_ok e →
  let h := tar_header m e in
  (∃ x, h !! 0%nat = Some x ∧ x ≠ 0) ∧
  (∃ nm, slice h 0 100 = Ret nm ∧ read_cstr nm = path e) ∧
  slice h 124 136 = Ret (oct_digits 11 (vlen (data e)) ++ [0]) ∧
  index h 156 = Ret (if is_dir e then 0x35 else 0x30).
Proof.
  intros (L1 & L2 & L3) (Hne & Hlen & H0 & Hv & Hsz & _) h.
  set (nm := path e ++ replicate (100 - length (path e)) 0).
  assert (length nm = 100%nat) as Ln by (unfold nm; rewrite length_app, length_replicate; lia).
  assert (h = nm ++ m1 m ++ (oct_digits 11 (vlen (data e)) ++ [0]) ++ m2 m ++
    [if is_dir e then 0x35 else 0x30] ++ m3 m) as Eh by done.
  rewrite Eh. split_and!.
  - destruct (path e) as [|x p] eqn:Ep; [done|]. exists x. split; [done|]. intros ->. apply H0. by left.
  - exists nm. split; [|by apply read_cstr_name]. apply (slice_mid []); [done|]. unfold vlen. simpl. lia.
  - rewrite (app_assoc nm). apply slice_mid; rewrite vlen_app; unfold vlen; rewrite Ln, L1; done.
  - rewrite index_lookup by done. change (Z.to_nat 156) with 156%nat.
    rewrite lookup_app_r by lia. rewrite lookup_app_r by lia.
    rewrite lookup_app_r by (rewrite length_app, length_oct_digits; simpl; lia).
    rewrite lookup_app_r by (rewrite length_app, length_oct_digits; simpl; lia).
    rewrite length_app, length_oct_digits, Ln, L1, L2. done.
Qed.

Lemma parse_entry k pre m e suf out : meta_ok m → entry_ok e →
  parse_loop (S k) (pre ++ tar_entry (m, e) ++ suf) (vlen pre) out =
  parse_loop k (pre ++ tar_entry (m, e) ++ suf) (vlen (pre ++ tar_entry (m, e))) (out ++ [e]).
Proof.
  intros Hm He. pose proof (length_header m e Hm He) as Lh.
  destruct (header_fields m e Hm He) as ((x & Hx & Hx0) & (nm & Enm & Erd) & Eoct & Edir).
  destruct He as (Hne & _ & _ & Hv & Hsz & Hdir). pose proof (vlen_nonneg pre). pose proof (vlen_nonneg suf).
  unfold tar_entry. set (h := tar_header m e) in *. set (d := data e) in *.
  assert (vlen h = 512) as Lv by (unfold vlen; lia). pose proof (vlen_nonneg d).
  set (pad := padding (vlen d)). pose proof (vlen_nonneg pad).
  rewrite <- !app_assoc. set (tar := pre ++ h ++ d ++ pad ++ suf).
  assert (vlen tar = vlen pre + 512 + vlen d + vlen pad + vlen suf) as Lt
    by (unfold tar; rewrite !vlen_app; lia).
  cbn [parse_loop]. unfold BLOCK at 1. rewrite (proj2 (Z.leb_le _ _)) by lia. cbn [negb].
  rewrite (slice_mid pre h (d ++ pad ++ suf)) by (done || (unfold BLOCK; lia)). cbn [mbind outcome_bind].
  rewrite (index_lookup h 0) by done. change (Z.to_nat 0) with 0%nat. rewrite Hx. cbn [mbind outcome_bind].
  rewrite (proj2 (Z.eqb_neq x 0) Hx0), Enm. cbn [mbind outcome_bind]. rewrite Erd, Eoct.
  cbn [mbind outcome_bind]. rewrite octal_size by done. rewrite Edir.
  cbn [mbind outcome_bind]. rewrite bool_decide_true by done.
  replace (vlen pre + BLOCK + (vlen d + BLOCK - 1) `div` BLOCK * BLOCK) with (vlen (pre ++ h ++ d ++ pad))
    by (rewrite <- padded_blocks by done; fold pad; unfold BLOCK; rewrite !vlen_app; lia).
  destruct e as [pa da []]; cbn [is_dir data path] in *.
  - unfold d in *. rewrite (Hdir eq_refl). done.
  - change (0x30 =? 0x35) with false. cbv iota. rewrite Z.min_l by (unfold BLOCK; lia).
    assert (slice tar (vlen pre + BLOCK) (vlen pre + BLOCK + vlen d) = Ret d) as ->.
    { unfold tar. rewrite (app_assoc pre). apply slice_mid; rewrite vlen_app; unfold BLOCK; lia. }
    done.
Qed.

Lemma archive_cons me es : archive (me :: es) = tar_entry me ++ archive es.
Proof. unfold archive. simpl. by rewrite <- app_assoc. Qed.

Lemma parse_entries es : ∀ fuel pre out, (length es < fuel)%nat →
  Forall (λ me, meta_ok (fst me) ∧ entry_ok (snd me)) es →
  parse_loop fuel (pre ++ archive es) (vlen pre) out = Ret (out ++ (snd <$> es)).
Proof.
  induction es as [|[m e] es IH]; intros fuel pre out Hf Hes; (destruct fuel as [|k]; [simpl in Hf; lia|]).
  - unfold archive. cbn [fmap list_fmap mjoin list_join app]. rewrite app_nil_r. pose proof (vlen_nonneg pre).
    cbn [parse_loop]. rewrite vlen_app, vlen_replicate. unfold BLOCK.
    rewrite (proj2 (Z.leb_le _ _)) by lia. cbn [negb].
    change (replicate 1024 0) with (replicate 512 0 ++ replicate 512 0).
    by rewrite slice_mid.
  - inversion_clear Hes as [|? ? [Hm He] Hes']. cbn [fst snd] in Hm, He.
    rewrite archive_cons, parse_entry by done. rewrite app_assoc, IH by (done || (simpl in Hf; lia)).
    by rewrite <- app_assoc.
Qed.

Lemma archive_length es : Forall (λ me, meta_ok (fst me) ∧ entry_ok (snd me)) es →
  (length es ≤ length (archive es))%nat.
Proof.
  induction 1 as [|[m e] es [Hm He] _ IH]; [simpl; lia|]. rewrite archive_cons, length_app.
  cbn [tar_entry]. rewrite length_app, (length_header m e Hm He). simpl. lia.
Qed.

Lemma parse_written es :
  Forall (λ me, meta_ok (fst me) ∧ entry_ok (snd me)) es → parse (archive es) = Ret (snd <$> es).
Proof.
  intros Hes. pose proof (archive_length es Hes). unfold parse.
  apply (parse_entries es _ [] []); [lia|done].
Qed.

(** C29. The ramdisk parser reads back what an archiver writes. For any list of entries (names of
    1 to 100 bytes of UTF-8 without NUL, files of less than 8 GiB, directories without
    data), whatever the header fields the kernel ignores contain, parsing
    the ustar archive of the entries returns exactly those entries, in order. *)
Theorem parse_archive es :
  Forall (λ me, meta_ok (fst me) ∧ entry_ok (snd me)) es →
  parse (archive es) = Ret (snd <$> es).
Proof.
  apply parse_written.
Qed.

Definition demo_meta : meta := mkMeta (replicate 24 0x30) (replicate 20 0x30) (replicate 355 0).

Lemma parse_archive_witness :
  parse (archive [(demo_meta, mkEntry (str "etc/") [] true);
                  (demo_meta, mkEntry (str "etc/motd") (str "hello") false)]) =
  Ret [mkEntry (str "etc/") [] true; mkEntry (str "etc/motd") (str "hello") false].
Proof.
  apply (parse_archive [(demo_meta, mkEntry (str "etc/") [] true);
                        (demo_meta, mkEntry (str "etc/motd") (str "hello") false)]).
  repeat constructor; try done; simpl; try lia; apply (bool_decide_unpack _); by vm_compute.
Defined.

(** ** The tree *)

(** The [Inode] of the tree's nodes; they touch no kernel state. *)
Definition initrd_Inode (W : Type) : Inode InodeNode W := {|
  i_kind := node_kind;
  i_read n off buf w := Ret (fst (node_read n off buf), snd (node_read n off buf), w);
  i_write n off data w := default_write w;
  i_lookup := node_lookup;
  i_list_dir := node_list_dir;
  i_sock_index n := None;
|}.

Lemma find_child_cons c cs m name :
  find_child (with_children (c :: cs) m) name =
    if bool_decide (node_name c = name) then Some c else find_child (with_children cs m) name.
Proof.
  unfold find_child. cbn [with_children node_children]. rewrite position_cons.
  case_bool_decide; [exact (vget_nat (c :: cs) 0)|].
  destruct (position _ cs) as [i|] eqn:E; [|done]. simpl.
  apply position_Some in E as [(x & Hx & _) _]. apply vget_cons_succ. apply vget_lt in Hx; lia.
Qed.

Lemma find_child_nil m name : find_child (with_children [] m) name = None.
Proof. done. Qed.

Lemma find_child_children n name : find_child n name = find_child (with_children (node_children n) n) name.
Proof. by destruct n. Qed.

Lemma find_child_any cs m m' name : find_child (with_children cs m) name = find_child (with_children cs m') name.
Proof. done. Qed.

Lemma find_child_snoc cs n m name :
  find_child (with_children (cs ++ [n]) m) name =
    match find_child (with_children cs m) name with
    | Some c => Some c
    | None => if bool_decide (node_name n = name) then Some n else None
    end.
Proof.
  induction cs as [|c cs IH]; cbn [app]; [apply find_child_cons|].
  rewrite !find_child_cons, IH. destruct (bool_decide (node_name c = name)); done.
Qed.

Lemma find_child_replace cs n m comp name : node_name n = comp →
  find_child (with_children (replace_child comp n cs) m) name =
    if bool_decide (name = comp) then (λ _, n) <$> find_child (with_children cs m) name
    else find_child (with_children cs m) name.
Proof.
  intros Hn. induction cs as [|c cs IH]; cbn [replace_child].
  - rewrite find_child_nil. by case_bool_decide.
  - destruct (decide (node_name c = comp)) as [Hc|Hc].
    + rewrite (bool_decide_true (node_name c = comp)), !find_child_cons by done.
      destruct (decide (name = comp)) as [E|E].
      * by rewrite !bool_decide_true by congruence.
      * by rewrite !bool_decide_false by congruence.
    + rewrite (bool_decide_false (node_name c = comp)), !find_child_cons, IH by done.
      destruct (decide (name = comp)) as [E|E].
      * by rewrite (bool_decide_true (name = comp)), bool_decide_false by congruence.
      * by rewrite (bool_decide_false (name = comp)) by congruence.
Qed.

Lemma insert_at_name comps e cur : node_name (insert_at comps e cur) = node_name cur.
Proof. destruct comps as [|c [|c' cs]]; simpl; [done..|]. by destruct (find_child cur c). Qed.

Fixpoint tree_walk (comps : list (list Z)) (n : InodeNode) : option InodeNode :=
  match comps with
  | [] => Some n
  | c :: cs => find_child n c ≫= tree_walk cs
  end.

Lemma walk_tree W comps n :
  walk (W := W) (H := initrd_Inode W) comps n =
    match tree_walk comps n with Some m => Ok m | None => Err NotFound end.
Proof.
  revert n. induction comps as [|c cs IH]; intros n; simpl; [done|].
  unfold node_lookup. destruct (find_child n c) as [m|]; [apply IH|done].
Qed.

(** What the children look like after an insertion below [comp]. *)
Definition down (comp : list Z) (rest : list (list Z)) (e : Entry) (cur : InodeNode) : InodeNode :=
  insert_at rest e (match find_child cur comp with Some c => c | None => dir comp end).

Lemma find_child_name cur comp c : find_child cur comp = Some c → node_name c = comp.
Proof.
  unfold find_child. destruct (position _ _) as [i|] eqn:E; [|done]. intros Hi.
  apply position_Some in E as [(x & Hx & Hn) _]. apply bool_decide_eq_true in Hn. congruence.
Qed.

Lemma insert_at_step comp c' rest e cur :
  insert_at (comp :: c' :: rest) e cur =
    match find_child cur comp with
    | Some c => with_children (replace_child comp (insert_at (c' :: rest) e c) (node_children cur)) cur
    | None => with_children (node_children cur ++ [insert_at (c' :: rest) e (dir comp)]) cur
    end.
Proof. reflexivity. Qed.

Lemma find_child_insert comp c' rest e cur name :
  find_child (insert_at (comp :: c' :: rest) e cur) name =
    if bool_decide (name = comp) then Some (down comp (c' :: rest) e cur) else find_child cur name.
Proof.
  rewrite insert_at_step. unfold down. destruct (find_child cur comp) as [c|] eqn:E.
  - rewrite find_child_replace by (rewrite insert_at_name; by eapply find_child_name).
    rewrite <- find_child_children. case_bool_decide; [subst; by rewrite E|done].
  - rewrite find_child_snoc, <- find_child_children, insert_at_name. cbn [node_name dir].
    case_bool_decide; [subst; by rewrite E, bool_decide_true|].
    rewrite bool_decide_false by congruence. by destruct (find_child cur name).
Qed.

(** A new name can be found afterwards. *)
Lemma insert_at_finds comps last e : ∀ cur,
  (∀ d, tree_walk comps cur = Some d → find_child d last = None) →
  tree_walk (comps ++ [last]) (insert_at (comps ++ [last]) e cur) =
    Some (if is_dir e then dir last else file last (data e)).
Proof.
  induction comps as [|c cs IH]; intros cur Hnew.
  - specialize (Hnew cur eq_refl). cbn [app insert_at tree_walk].
    rewrite find_child_snoc, <- find_child_children, Hnew.
    by rewrite bool_decide_true by (by destruct (is_dir e)).
  - assert (∃ c' rest, cs ++ [last] = c' :: rest) as (c' & rest & E) by (destruct cs; simpl; eauto).
    cbn [app tree_walk]. rewrite E, find_child_insert, bool_decide_true, <- E by done.
    cbn [mbind option_bind]. unfold down. apply IH. intros d Hd.
    destruct (find_child cur c) as [m|] eqn:Ec; [apply Hnew; simpl; by rewrite Ec|].
    destruct cs as [|x cs']; [injection Hd as <-; done|]. done.
Qed.

(** What was there stays there, with its kind and contents. *)
Definition same_file (n n' : InodeNode) : Prop := node_kind n' = node_kind n ∧ node_data n' = node_data n.

Lemma insert_at_same comps e cur : same_file cur (insert_at comps e cur).
Proof. destruct comps as [|c [|c' cs]]; simpl; [done..|]. by destruct (find_child cur c). Qed.

Lemma insert_at_keeps comps e : ∀ cur q n,
  tree_walk q cur = Some n → ∃ n', tree_walk q (insert_at comps e cur) = Some n' ∧ same_file n n'.
Proof.
  induction comps as [|c cs IH]; intros cur q n Hq; [by exists n|].
  destruct q as [|x q]; [injection Hq as <-; eexists; split; [done|]; apply insert_at_same|].
  simpl in Hq. destruct (find_child cur x) as [y|] eqn:Ey; [|done]. cbn [mbind option_bind] in Hq.
  destruct cs as [|c' rest].
  - cbn [insert_at tree_walk]. rewrite find_child_snoc, <- find_child_children, Ey. by exists n.
  - cbn [tree_walk]. rewrite find_child_insert. case_bool_decide as Ec.
    + subst x. unfold down. rewrite Ey. cbn [mbind option_bind]. by apply IH.
    + rewrite Ey. by exists n.
Qed.

(** Nothing else appears: every path of the tree is a prefix of an entry's. *)
Lemma insert_at_only comps e : ∀ cur q n,
  tree_walk q (insert_at comps e cur) = Some n → (∃ n0, tree_walk q cur = Some n0) ∨ q `prefix_of` comps.
Proof.
  induction comps as [|c cs IH]; intros cur q n Hq; [left; by exists n|].
  destruct q as [|x q]; [left; by eexists|]. cbn [tree_walk] in Hq.
  destruct cs as [|c' rest].
  - cbn [insert_at] in Hq. rewrite find_child_snoc, <- find_child_children in Hq.
    simpl. destruct (find_child cur x) as [y|]; [left; by exists n|].
    case_bool_decide as Ex; [|done]. cbn [mbind option_bind] in Hq. right.
    assert (node_name (if is_dir e then dir c else file c (data e)) = c) as En by (by destruct (is_dir e)).
    rewrite En in Ex. subst x. destruct q as [|z q]; [apply prefix_cons, prefix_nil|].
    exfalso. simpl in Hq. by destruct (is_dir e).
  - rewrite find_child_insert in Hq. case_bool_decide as Ec; [subst x|left; by exists n].
    cbn [mbind option_bind] in Hq. unfold down in Hq. destruct (IH _ _ _ Hq) as [[n0 Hn0]|Hp].
    + simpl. destruct (find_child cur c) as [y|]; [left; by exists n0|].
      right. destruct q as [|z q]; [apply prefix_cons, prefix_nil|]. done.
    + right. by apply prefix_cons.
Qed.

Lemma foldl_keeps es : ∀ root q n, tree_walk q root = Some n →
  ∃ n', tree_walk q (foldl insert root es) = Some n' ∧ same_file n n'.
Proof.
  induction es as [|e es IH]; intros root q n Hq; [by exists n|]. simpl.
  destruct (insert_at_keeps (components (path e)) e root q n Hq) as (n1 & H1 & Hk1 & Hd1).
  destruct (IH _ _ _ H1) as (n2 & H2 & Hk2 & Hd2). exists n2. split; [done|]. split; congruence.
Qed.

Lemma foldl_only es : ∀ root q n, tree_walk q (foldl insert root es) = Some n →
  (∃ n0, tree_walk q root = Some n0) ∨ ∃ e, e ∈ es ∧ q `prefix_of` components (path e).
Proof.
  induction es as [|e es IH]; intros root q n Hq; [left; by exists n|]. simpl in Hq.
  destruct (IH _ _ _ Hq) as [[n0 Hn0]|(e' & He' & Hp)].
  - destruct (insert_at_only _ _ _ _ _ Hn0) as [?|Hp]; [by left|right]. exists e. split; [by left|done].
  - right. exists e'. split; [by right|done].
Qed.

(** Files packed in the ramdisk are found where they were packed. If the archive [es] contains
    the file [e], and no entry before it lies at or below its path, then walking that path
    component by component from the root of the mounted ramdisk reaches a
    regular file with exactly the packed contents; a path that no entry lies at or
    below is [NotFound]. *)
Theorem ramdisk_lookup W es1 e es2 comps last :
  Forall (λ me, meta_ok (fst me) ∧ entry_ok (snd me)) (es1 ++ e :: es2) →
  components (path (snd e)) = comps ++ [last] → is_dir (snd e) = false →
  (∀ e', e' ∈ es1 → ¬ (comps ++ [last]) `prefix_of` components (path (snd e'))) →
  ∃ root, from_tar (archive (es1 ++ e :: es2)) = Ret root ∧
    (∃ n, walk (W := W) (H := initrd_Inode W) (comps ++ [last]) root = Ok n ∧
       node_kind n = File_ ∧ node_data n = data (snd e)) ∧
    ∀ q, q ≠ [] → (∀ e', e' ∈ es1 ++ e :: es2 → ¬ q `prefix_of` components (path (snd e'))) →
      walk (W := W) (H := initrd_Inode W) q root = Err NotFound.
Proof.
  intros Hok Hc Hf Hfresh. unfold from_tar.
  rewrite (parse_written _ Hok). cbn [mbind outcome_bind]. eexists. split; [done|]. set (es := es1 ++ e :: es2).
  assert (∀ q, q ≠ [] → tree_walk q (dir (str "/")) = None) as Hroot by (by intros [|x q] Hq).
  split.
  - rewrite walk_tree. unfold es. rewrite fmap_app, fmap_cons, foldl_app. cbn [foldl].
    set (r1 := foldl insert (dir (str "/")) (snd <$> es1)).
    assert (tree_walk (comps ++ [last]) (insert r1 (snd e)) = Some (file last (data (snd e)))) as Hw.
    { unfold insert. rewrite Hc, insert_at_finds, Hf; [done|]. intros d Hd.
      destruct (find_child d last) as [x|] eqn:Ex; [|done]. exfalso.
      assert (tree_walk (comps ++ [last]) r1 = Some x) as Hx.
      { clear -Hd Ex. revert Hd. generalize r1. induction comps as [|c cs IH]; intros r Hd.
        - injection Hd as ->. simpl. by rewrite Ex.
        - simpl in *. destruct (find_child r c) as [y|]; [|done]. by apply IH. }
      destruct (foldl_only _ _ _ _ Hx) as [[n0 Hn0]|(e' & He' & Hp)].
      - rewrite Hroot in Hn0 by (by destruct comps). done.
      - apply list_elem_of_fmap in He' as (e0 & -> & He0). by eapply Hfresh. }
    destruct (foldl_keeps (snd <$> es2) _ _ _ Hw) as (n & -> & Hk & Hd). by exists n.
  - intros q Hq Hno. rewrite walk_tree. destruct (tree_walk q _) as [n|] eqn:E; [exfalso|done].
    destruct (foldl_only _ _ _ _ E) as [[n0 Hn0]|(e' & He' & Hp)]; [by rewrite Hroot in Hn0|].
    apply list_elem_of_fmap in He' as (e0 & -> & He0). by eapply Hno.
Qed.

Lemma ramdisk_lookup_witness :
  let e1 := (demo_meta, mkEntry (str "etc/") [] true) in
  let e2 := (demo_meta, mkEntry (str "etc/motd") (str "hello") false) in
  ∃ root n, from_tar (archive [e1; e2]) = Ret root ∧
    walk (W := unit) (H := initrd_Inode unit) [str "etc"; str "motd"] root = Ok n ∧
    node_data n = str "hello".
Proof.
  intros e1 e2.
  destruct (ramdisk_lookup unit [e1] e2 [] [str "etc"] (str "motd")) as (root & E & (n & Hn & _ & Hd) & _).
  - repeat constructor; try done; simpl; try lia; apply (bool_decide_unpack _); by vm_compute.
  - by vm_compute.
  - done.
  - intros e' He'. apply list_elem_of_singleton in He'. subst e'.
    intros Hp%prefix_length. by vm_compute in Hp; lia.
  - exists root, n. split; [exact E|]. split; [exact Hn|exact Hd].
Defined.

(** An initrd file has fixed contents, in the sense of the descriptor layer. *)
Lemma initrd_has_contents W n : @has_contents InodeNode W (initrd_Inode W) n (node_data n).
Proof.
  intros off buf w Hoff. cbn [i_read initrd_Inode]. unfold node_read, contents_read.
  case (Z.leb_spec (vlen (node_data n)) off) as [|Hlt]; [done|]. cbn [fst snd].
  unfold blit. cbn [Z.to_nat take app Nat.add].
  rewrite length_take, length_drop, Nat.min_l by (unfold vlen; lia). done.
Qed.
