(* ===== verification/Devices.v ===== *)
(** * The keyboard, the device files, /proc and the boot namespace

    [Module keyboard] models drivers/keyboard.rs over the pc_keyboard decoder;
    [Module devfs] and [Module procfs] the files of fs/devfs.rs and fs/procfs.rs;
    [Node] is every type of the kernel that implements the [Inode] trait, with
    its instance; [fs_init] is [fs::init]. *)

From S2P Require Import Prelude Pmm Scheduler Bytes E1000 Vfs Net Initrd.
Import vfs fs.

(** ** drivers/keyboard.rs *)
Module keyboard.

Inductive DecodedKey := RawKey (code : Z) | Unicode (cp : Z).

(** [pc_keyboard::Keyboard]: [add_byte] answers [Err], [Ok(None)] (more bytes
    wanted) or [Ok(Some(event))]. *)
Class Decoder (K : Type) := {
  KeyEvent : Type;
  decoder_new : K;
  add_byte : Z → K → (option KeyEvent + unit) * K;
  process_keyevent : KeyEvent → K → option DecodedKey * K;
}.

Record KeyboardState (K : Type) := mkKbd { decoder : K; buffer : list Z }.
Arguments mkKbd {K} _ _.
Arguments decoder {K} _.
Arguments buffer {K} _.

Definition push (buf : list Z) (cp : Z) : list Z := if cp <? 0x80 then buf ++ [wrap 8 cp] else buf.

Section keyboard.
Context {K : Type} `{Decoder K}.

Definition kbd_new : KeyboardState K := mkKbd decoder_new [].

Definition handle_scancode (scancode : Z) (kb : KeyboardState K) : KeyboardState K :=
  match add_byte scancode (decoder kb) with
  | (inl (Some event), d) =>
      match process_keyevent event d with
      | (Some (Unicode ch), d') => mkKbd d' (push (buffer kb) ch)
      | (_, d') => mkKbd d' (buffer kb)
      end
  | (_, d) => mkKbd d (buffer kb)
  end.

(** The byte of port 0x60 is the argument. *)
Definition interrupt_handler (port60 : Z) (kb : KeyboardState K) : KeyboardState K :=
  handle_scancode port60 kb.

Definition inject (scancodes : list Z) (kb : KeyboardState K) : KeyboardState K :=
  foldl (λ kb s, handle_scancode s kb) kb scancodes.

(** [chars] are the code points of the string. *)
Definition inject_str (chars : list Z) (kb : KeyboardState K) : KeyboardState K :=
  foldl (λ kb ch, mkKbd (decoder kb) (push (buffer kb) ch)) kb chars.

Definition read_key (kb : KeyboardState K) : option Z * KeyboardState K :=
  match buffer kb with
  | b :: rest => (Some b, mkKbd (decoder kb) rest)
  | [] => (None, kb)
  end.
End keyboard.
End keyboard.
Import keyboard.

(** ** Numbers as text: [Display] of an unsigned integer (at most 20 digits) *)

Fixpoint dec_loop (fuel : nat) (z : Z) (acc : list Z) : list Z :=
  match fuel with
  | O => acc
  | S k => let acc' := (48 + z `mod` 10) :: acc in
           if z <? 10 then acc' else dec_loop k (z `div` 10) acc'
  end.

Definition dec (z : Z) : list Z := dec_loop 20 z [].

(** ** The kernel state behind the files

    [linked_list_allocator]'s heap answers its size, what is used and what is
    free. *)

Class Heap (A : Type) := { heap_size : A → Z; heap_used : A → Z; heap_free : A → Z }.

Record Kworld (K D A : Type) := mkKworld {
  kbd : KeyboardState K;              (* KEYBOARD *)
  serial : list Z;                    (* the bytes sent on COM1 *)
  net : Net D;                        (* NIC, ARP cache, SOCKETS *)
  frames : pmm.BitmapFrameAllocator;  (* FRAME_ALLOCATOR *)
  heap : A;                           (* ALLOCATOR *)
  ticks : Z;                          (* TICKS *)
}.
Arguments mkKworld {K D A} _ _ _ _ _ _.
Arguments kbd {K D A} _.
Arguments serial {K D A} _.
Arguments net {K D A} _.
Arguments frames {K D A} _.
Arguments heap {K D A} _.
Arguments ticks {K D A} _.

Section kworld.
Context {K D A : Type} `{Profile} `{e1000.Hw D} `{Heap A}.
Abbreviation KW := (Kworld K D A).

(** heap.rs: the counters, for diagnostics *)
Definition used_bytes (h : A) : Z := heap_used h.
Definition free_bytes (h : A) : Z := heap_free h.
Definition total_bytes (h : A) : Z := heap_size h.

Definition set_kbd (k : KeyboardState K) (w : KW) : KW :=
  mkKworld k (serial w) (net w) (frames w) (heap w) (ticks w).
Definition set_serial (s : list Z) (w : KW) : KW :=
  mkKworld (kbd w) s (net w) (frames w) (heap w) (ticks w).
Definition set_net (n : Net D) (w : KW) : KW :=
  mkKworld (kbd w) (serial w) n (frames w) (heap w) (ticks w).

(** serial.rs, [write_bytes] *)
Definition serial_write_bytes (data : list Z) (w : KW) : KW :=
  foldl (λ w b, set_serial (serial w ++ [b]) w) w data.

(** serial.rs, [_print]: [write_fmt] hands the pieces of the formatted text to [write_str], which sends their bytes. *)
Definition serial_print (pieces : list (list Z)) (w : KW) : KW :=
  foldl (λ w piece, foldl (λ w b, set_serial (serial w ++ [b]) w) w piece) w pieces.

(** ** devfs.rs *)

Definition Console_read (buf : list Z) (w : KW) : outcome (FsResult Z * list Z * KW) := Ret (Ok 0, buf, w).
Definition Console_write (data : list Z) (w : KW) : outcome (FsResult Z * KW) :=
  Ret (Ok (vlen data), serial_write_bytes data w).
Definition Null_read (buf : list Z) (w : KW) : outcome (FsResult Z * list Z * KW) := Ret (Ok 0, buf, w).
Definition Null_write (data : list Z) (w : KW) : outcome (FsResult Z * KW) := Ret (Ok (vlen data), w).
Definition Zero_read (buf : list Z) (w : KW) : outcome (FsResult Z * list Z * KW) :=
  Ret (Ok (vlen buf), (λ _, 0) <$> buf, w).
Definition Zero_write (data : list Z) (w : KW) : outcome (FsResult Z * KW) := Ret (Ok (vlen data), w).

(** A round of the loop stores a byte, so [length buf] rounds are enough. *)
Fixpoint Kbd_loop (fuel : nat) (n : Z) (buf : list Z) (kb : KeyboardState K)
    : outcome (Z * list Z * KeyboardState K) :=
  match fuel with
  | O => Ret (n, buf, kb)
  | S k =>
      if n <? vlen buf then
        match read_key kb with
        | (Some b, kb') => buf' ← store buf n b; Kbd_loop k (n + 1) buf' kb'
        | (None, kb') => Ret (n, buf, kb')
        end
      else Ret (n, buf, kb)
  end.

Definition Kbd_read (buf : list Z) (w : KW) : outcome (FsResult Z * list Z * KW) :=
  r ← Kbd_loop (length buf) 0 buf (kbd w);
  let '(n, buf', kb) := r in Ret (Ok n, buf', set_kbd kb w).

(** ** procfs.rs *)

Definition meminfo (w : KW) : list Z :=
  str "MemTotal: " ++ dec (total_bytes (heap w) `div` 1024) ++ str " KiB" ++ [10] ++
  str "MemUsed: " ++ dec (used_bytes (heap w) `div` 1024) ++ str " KiB" ++ [10] ++
  str "MemFree: " ++ dec (free_bytes (heap w) `div` 1024) ++ str " KiB" ++ [10] ++
  str "FreeFrames: " ++ dec (pmm.free_count (frames w)) ++ [10].

Definition uptime (w : KW) : list Z := dec (ticks w `div` timer.HZ) ++ str " seconds since boot" ++ [10].
End kworld.

(** ** The nodes *)

Inductive ProcGen := Gmeminfo | Guptime.     (* the function pointer of a [ProcFile] *)

Inductive Node :=
  | DevDir | Console | Null | Zero | Kbd       (* devfs.rs *)
  | ProcDir | ProcFile (gen : ProcGen)         (* procfs.rs *)
  | Ram (n : initrd.InodeNode)                 (* initrd.rs *)
  | SocketInode (idx : Z).                     (* net/socket.rs *)

Definition DevDir_lookup (name : list Z) : FsResult Node :=
  if bool_decide (name = str "console") then Ok Console
  else if bool_decide (name = str "null") then Ok Null
  else if bool_decide (name = str "zero") then Ok Zero
  else if bool_decide (name = str "kbd") then Ok Kbd
  else Err NotFound.

Definition DevDir_list_dir : FsResult (list (list Z)) :=
  Ok [str "console"; str "null"; str "zero"; str "kbd"].

Definition ProcDir_lookup (name : list Z) : FsResult Node :=
  if bool_decide (name = str "meminfo") then Ok (ProcFile Gmeminfo)
  else if bool_decide (name = str "uptime") then Ok (ProcFile Guptime)
  else Err NotFound.

Definition ProcDir_list_dir : FsResult (list (list Z)) := Ok [str "meminfo"; str "uptime"].

(** The file system objects: a name and the root of a tree. *)
Definition DevFs : FileSystem Node := mkFs (str "devfs") DevDir.
Definition ProcFs : FileSystem Node := mkFs (str "procfs") ProcDir.
Definition Initrd (root : initrd.InodeNode) : FileSystem Node := mkFs (str "initrd") (Ram root).

Section nodes.
Context {K D A : Type} `{Profile} `{e1000.Hw D} `{Heap A}.
Abbreviation KW := (Kworld K D A).

Definition gen_text (g : ProcGen) (w : KW) : list Z :=
  match g with Gmeminfo => meminfo w | Guptime => uptime w end.

Definition ProcFile_read (g : ProcGen) (off : Z) (buf : list Z) (w : KW)
    : outcome (FsResult Z * list Z * KW) :=
  let bytes := gen_text g w in
  if vlen bytes <=? off then Ret (Ok 0, buf, w)
  else
    let n := Z.min (vlen buf) (vlen bytes - off) in
    src ← slice bytes off (off + n);
    buf' ← copy_into buf 0 src;
    Ret (Ok n, buf', w).

(** The network stack, run on its part of the state. *)
Definition on_net {R} (m : M (Net D) R) (w : KW) : outcome (R * KW) :=
  r ← m (net w); let '(x, n) := r in Ret (x, set_net n w).

Definition Node_kind (n : Node) : FileKind :=
  match n with
  | DevDir | ProcDir => Dir
  | ProcFile _ => File_
  | Console | Null | Zero | Kbd | SocketInode _ => CharDev
  | Ram r => initrd.node_kind r
  end.

Definition Node_read (n : Node) (off : Z) (buf : list Z) (w : KW) : outcome (FsResult Z * list Z * KW) :=
  match n with
  | Console => Console_read buf w
  | Null => Null_read buf w
  | Zero => Zero_read buf w
  | Kbd => Kbd_read buf w
  | ProcFile g => ProcFile_read g off buf w
  | Ram r => Ret (fst (initrd.node_read r off buf), snd (initrd.node_read r off buf), w)
  | SocketInode i => on_net (SocketInode_read i buf) w
  | DevDir | ProcDir => default_read buf w
  end.

Definition Node_write (n : Node) (off : Z) (data : list Z) (w : KW) : outcome (FsResult Z * KW) :=
  match n with
  | Console => Console_write data w
  | Null => Null_write data w
  | Zero => Zero_write data w
  | SocketInode i => on_net (SocketInode_write i data) w
  | DevDir | Kbd | ProcDir | ProcFile _ | Ram _ => default_write w
  end.

Definition Node_lookup (n : Node) (name : list Z) : FsResult Node :=
  match n with
  | DevDir => DevDir_lookup name
  | ProcDir => ProcDir_lookup name
  | Ram r => match initrd.node_lookup r name with inl c => Ok (Ram c) | inr e => Err e end
  | _ => default_lookup
  end.

Definition Node_list_dir (n : Node) : FsResult (list (list Z)) :=
  match n with
  | DevDir => DevDir_list_dir
  | ProcDir => ProcDir_list_dir
  | Ram r => initrd.node_list_dir r
  | _ => default_list_dir
  end.

#[global] Instance Node_Inode : Inode Node KW := {|
  i_kind := Node_kind;
  i_read := Node_read;
  i_write := Node_write;
  i_lookup := Node_lookup;
  i_list_dir := Node_list_dir;
  i_sock_index n := match n with SocketInode i => Some i | _ => None end;
|}.

(** ** fs/mod.rs, [init] *)

(** The seeding of descriptors 0, 1 and 2. *)
Definition seed_std (console : Node) (t : FdTable Node) : outcome (FdTable Node) :=
  for_each [0; 1; 2] (λ _ t,
    let '(o, t') := install (mkFile console 0) t in _ ← expect o; Ret t') t.

Definition expect_ok {R} (r : FsResult R) : outcome R :=
  match r with inl x => Ret x | inr _ => Panic PUnwrap end.

Definition fs_init (tar : list Z) (ms : Mounts Node) (t : FdTable Node)
    : outcome (Mounts Node * FdTable Node) :=
  let ms := mount (str "/dev") DevFs ms in
  let ms := mount (str "/proc") ProcFs ms in
  root ← initrd.from_tar tar;
  let ms := mount (str "/initrd") (Initrd root) ms in
  console ← expect_ok (resolve (W := KW) (str "/dev/console") ms);
  t' ← seed_std console t;
  Ret (ms, t').
End nodes.

(** ** Serial output *)

Section serial.
Context {K D A : Type}.

Lemma serial_write_bytes_eq (data : list Z) (w : Kworld K D A) :
  serial_write_bytes data w = set_serial (serial w ++ data) w.
Proof.
  unfold serial_write_bytes. revert w. induction data as [|b data IH]; intros w; cbn [foldl].
  - rewrite app_nil_r. by destruct w.
  - rewrite IH. cbn [set_serial serial]. by rewrite <- app_assoc.
Qed.

(** Printing sends the text, however it was cut into pieces: as [write_bytes] of the whole. *)
Lemma serial_print_eq (pieces : list (list Z)) (w : Kworld K D A) :
  serial_print pieces w = serial_write_bytes (mjoin pieces) w.
Proof.
  unfold serial_print. revert w. induction pieces as [|p ps IH]; intros w; cbn [foldl mjoin list_join]; [done|].
  rewrite IH. unfold serial_write_bytes. by rewrite foldl_app.
Qed.
End serial.

(** ** The keyboard is a queue *)

Lemma blit_nil {A} (l : list A) n : blit l n [] = l.
Proof. unfold blit. change (length []) with 0%nat. rewrite Nat.add_0_r. apply take_drop. Qed.

Lemma blit_cons {A} (l : list A) n b bs : 0 ≤ n < vlen l →
  blit (vset l n b) (n + 1) bs = blit l n (b :: bs).
Proof.
  intros Hn. unfold blit, vset. rewrite bool_decide_true by lia.
  assert (Z.to_nat n < length l)%nat by (unfold vlen in Hn; lia).
  replace (Z.to_nat (n + 1)) with (S (Z.to_nat n)) by lia.
  rewrite (take_S_r _ _ b) by (by apply list_lookup_insert_eq).
  rewrite take_insert_ge by lia. rewrite <- app_assoc, drop_insert_lt by lia.
  cbn [app]. do 4 f_equal. simpl. lia.
Qed.

Section kbd_queue.
Context {K D A : Type} `{Decoder K}.
Implicit Types (w : Kworld K D A) (kb : KeyboardState K).

Lemma Kbd_loop_eq fuel : ∀ n buf kb, 0 ≤ n ≤ vlen buf → vlen buf - n ≤ Z.of_nat fuel →
  let k := Z.min (vlen buf - n) (vlen (buffer kb)) in
  Kbd_loop fuel n buf kb = Ret (n + k, blit buf n (take (Z.to_nat k) (buffer kb)),
    mkKbd (decoder kb) (drop (Z.to_nat k) (buffer kb))).
Proof.
  induction fuel as [|fuel IH]; intros n buf [d q] Hn Hf k; cbn [Kbd_loop decoder buffer] in *;
    pose proof (vlen_nonneg q).
  { replace k with 0 by lia. change (Z.to_nat 0) with 0%nat. rewrite take_0, drop_0. by rewrite Z.add_0_r, blit_nil. }
  case (Z.ltb_spec n (vlen buf)) as [Hlt|Hge].
  2:{ replace k with 0 by lia. change (Z.to_nat 0) with 0%nat. rewrite take_0, drop_0. by rewrite Z.add_0_r, blit_nil. }
  destruct q as [|b q]; unfold read_key; cbn [buffer decoder].
  { replace k with 0 by (unfold k, vlen in *; simpl; lia). change (Z.to_nat 0) with 0%nat. rewrite take_0, drop_0.
    by rewrite Z.add_0_r, blit_nil. }
  unfold store. rewrite bool_decide_true by lia. cbn [mbind outcome_bind].
  rewrite IH by (rewrite vlen_vset; lia). cbn [buffer decoder]. rewrite vlen_vset.
  set (k' := Z.min (vlen buf - (n + 1)) (vlen q)).
  assert (0 ≤ k') by (unfold k'; pose proof (vlen_nonneg q); lia).
  replace k with (k' + 1) by (unfold k, k'; rewrite vlen_cons; lia). replace (Z.to_nat (k' + 1)) with (S (Z.to_nat k')) by lia.
  rewrite blit_cons by lia. cbn [take drop]. do 3 f_equal. lia.
Qed.

(** [Kbd::read] takes what is there, up to the buffer. *)
Lemma Kbd_read_eq buf w :
  let n := Z.min (vlen buf) (vlen (buffer (kbd w))) in
  Kbd_read buf w = Ret (Ok n, blit buf 0 (take (Z.to_nat n) (buffer (kbd w))),
    set_kbd (mkKbd (decoder (kbd w)) (drop (Z.to_nat n) (buffer (kbd w)))) w).
Proof.
  intros n. unfold Kbd_read. rewrite Kbd_loop_eq by (unfold vlen; lia).
  cbn [mbind outcome_bind]. by rewrite Z.sub_0_r.
Qed.

(** What happens to the keyboard: interrupts, the test hook, reads of /dev/kbd
    into a buffer of [n] bytes. *)
Inductive kbd_event := Scan (scancode : Z) | Typed (chars : list Z) | ReadKbd (n : nat).

(** The characters the reads returned. *)
Fixpoint kbd_run (evs : list kbd_event) w : outcome (list Z * Kworld K D A) :=
  match evs with
  | [] => Ret ([], w)
  | Scan b :: evs' => kbd_run evs' (set_kbd (interrupt_handler b (kbd w)) w)
  | Typed cs :: evs' => kbd_run evs' (set_kbd (inject_str cs (kbd w)) w)
  | ReadKbd n :: evs' =>
      r ← Kbd_read (replicate n 0) w;
      let '(res, buf, w1) := r in
      r' ← kbd_run evs' w1;
      let '(out, w2) := r' in
      Ret (match res with inl k => take (Z.to_nat k) buf | inr _ => [] end ++ out, w2)
  end.

(** The ASCII characters the decoder makes of the scancodes, with the typed ones. *)
Definition ascii (cp : Z) : list Z := if cp <? 128 then [wrap 8 cp] else [].

Definition decoded (b : Z) (d : K) : list Z * K :=
  match add_byte b d with
  | (inl (Some e), d1) =>
      let '(o, d2) := process_keyevent e d1 in
      (match o with Some (Unicode cp) => ascii cp | _ => [] end, d2)
  | (_, d1) => ([], d1)
  end.

Fixpoint keys (evs : list kbd_event) (d : K) : list Z :=
  match evs with
  | [] => []
  | Scan b :: evs' => fst (decoded b d) ++ keys evs' (snd (decoded b d))
  | Typed cs :: evs' => mjoin (ascii <$> cs) ++ keys evs' d
  | ReadKbd _ :: evs' => keys evs' d
  end.

Lemma push_ascii buf cp : push buf cp = buf ++ ascii cp.
Proof. unfold push, ascii. case (cp <? 128); [done|by rewrite app_nil_r]. Qed.

Lemma handle_scancode_eq b kb :
  handle_scancode b kb = mkKbd (snd (decoded b (decoder kb))) (buffer kb ++ fst (decoded b (decoder kb))).
Proof.
  unfold handle_scancode, decoded. destruct (add_byte b (decoder kb)) as [[[e|]|u] d];
    cbn [fst snd]; rewrite ?app_nil_r; try done.
  destruct (process_keyevent e d) as [[[c|cp]|] d']; cbn [fst snd]; rewrite ?app_nil_r, ?push_ascii; done.
Qed.

Lemma inject_str_eq cs kb : inject_str cs kb = mkKbd (decoder kb) (buffer kb ++ mjoin (ascii <$> cs)).
Proof.
  unfold inject_str. revert kb. induction cs as [|c cs IH]; intros [d q]; cbn [foldl].
  - cbn. by rewrite app_nil_r.
  - rewrite IH. cbn [decoder buffer]. rewrite push_ascii. f_equal. rewrite <- app_assoc. done.
Qed.

(** Keystrokes reach readers in order, none lost, none invented. In any
    interleaving of keyboard interrupts, typed text and reads of /dev/kbd, the reads
    never block or panic, and what they returned, followed by what is still
    buffered, is what was buffered at first followed by the ASCII characters decoded
    from the scancodes, in the order they came; a read returns as many as are
    there, up to its buffer. *)
Theorem kbd_fifo evs w :
  (∃ out w', kbd_run evs w = Ret (out, w') ∧
     out ++ buffer (kbd w') = buffer (kbd w) ++ keys evs (decoder (kbd w))) ∧
  ∀ buf, ∃ w', Kbd_read buf w =
    Ret (Ok (Z.min (vlen buf) (vlen (buffer (kbd w)))),
         take (length buf) (buffer (kbd w)) ++ drop (length (buffer (kbd w))) buf, w').
Proof.
  split.
  - revert w. induction evs as [|[b|cs|n] evs IH]; intros w; cbn [kbd_run keys].
    + exists [], w. by rewrite app_nil_r.
    + destruct (IH (set_kbd (interrupt_handler b (kbd w)) w)) as (out & w' & -> & E).
      exists out, w'. split; [done|]. rewrite E. cbn [set_kbd kbd]. unfold interrupt_handler.
      rewrite handle_scancode_eq. cbn [buffer decoder]. by rewrite <- app_assoc.
    + destruct (IH (set_kbd (inject_str cs (kbd w)) w)) as (out & w' & -> & E).
      exists out, w'. split; [done|]. rewrite E. cbn [set_kbd kbd].
      rewrite inject_str_eq. cbn [buffer decoder]. by rewrite <- app_assoc.
    + rewrite Kbd_read_eq. cbn [mbind outcome_bind Ok]. set (k := Z.min _ _).
      edestruct IH as (out & w' & -> & E). cbn [mbind outcome_bind]. eexists _, w'. split; [done|].
      rewrite <- app_assoc, E. cbn [set_kbd kbd buffer decoder].
      assert (0 ≤ k ≤ vlen (buffer (kbd w))) by (unfold k, vlen; lia). unfold blit.
      change (Z.to_nat 0) with 0%nat. rewrite take_0. cbn [app]. rewrite take_app_le, take_take by (rewrite length_take; unfold vlen in *; lia).
      rewrite Nat.min_id, app_assoc, take_drop. done.
  - intros buf. rewrite Kbd_read_eq. set (n := Z.min _ _). eexists. do 2 f_equal. f_equal.
    unfold blit. change (Z.to_nat 0) with 0%nat. rewrite take_0. cbn [app Nat.add].
    rewrite length_take. unfold n, vlen. destruct (decide (length buf ≤ length (buffer (kbd w)))%nat).
    + rewrite !(drop_ge buf) by lia. do 2 f_equal. lia.
    + rewrite !(take_ge (buffer _)) by lia. do 2 f_equal. lia.
Qed.
End kbd_queue.

(** ** The boot namespace *)

Section namespace.
Context {K D A : Type} `{Profile} `{e1000.Hw D} `{Heap A}.
Abbreviation KW := (Kworld K D A).

Lemma walk_ram comps : ∀ n, walk (W := KW) comps (Ram n) =
  match tree_walk comps n with Some m => Ok (Ram m) | None => Err NotFound end.
Proof.
  induction comps as [|c comps IH]; intros n; cbn [walk tree_walk]; [done|].
  change (i_lookup (Ram n) c) with (Node_lookup (Ram n) c). cbn [Node_lookup].
  unfold initrd.node_lookup. destruct (initrd.find_child n c) as [m|]; cbn [Ok Err mbind option_bind]; [|done].
  apply IH.
Qed.

(** The mounts of the running kernel. *)
Definition boot_mounts (root : initrd.InodeNode) : Mounts Node :=
  [(str "/dev", DevFs); (str "/proc", ProcFs);
   (str "/initrd", Initrd root)].

Definition boot_fds : FdTable Node := replicate 3 (Some (mkFile Console 0)).

Lemma fs_init_eq tar root : initrd.from_tar tar = Ret root →
  fs_init (K := K) (D := D) (A := A) tar [] [] = Ret (boot_mounts root, boot_fds).
Proof.
  intros E. unfold fs_init. rewrite E. cbn [mbind outcome_bind mount app].
  fold (boot_mounts root).
  assert (resolve (W := KW) (str "/dev/console") (boot_mounts root) = Ok Console) as -> by reflexivity.
  reflexivity.
Qed.

Lemma boot_mount_cases root m : m ∈ boot_mounts root →
  m = (str "/dev", DevFs) ∨ m = (str "/proc", ProcFs) ∨
  m = (str "/initrd", Initrd root).
Proof. unfold boot_mounts. rewrite !elem_of_cons. intros [|[|[|[]%not_elem_of_nil]]]; auto. Qed.

Lemma resolve_boot root prefix f comps : (prefix, f) ∈ boot_mounts root → Forall no_slash comps →
  resolve (W := KW) (prefix ++ join comps) (boot_mounts root) = walk (W := KW) comps (fs_root f).
Proof.
  intros Hin Hc. apply resolve_mounted; [|done|done|].
  - by apply boot_mount_cases in Hin as [[= -> ->]|[[= -> ->]|[= -> ->]]].
  - intros m Hm. apply boot_mount_cases in Hin, Hm.
    destruct Hin as [[= -> ->]|[[= -> ->]|[= -> ->]]], Hm as [-> |[-> | ->]]; intros Hcov;
      first [by right | exfalso; revert Hcov; by vm_compute].
Qed.

Lemma ram_has_contents r : has_contents (W := KW) (Ram r) (initrd.node_data r).
Proof. intros off buf w Hoff. exact (initrd_has_contents KW r off buf w Hoff). Qed.

Lemma procfile_read_eq g off buf (w : KW) : 0 ≤ off →
  ProcFile_read g off buf w = Ret (Ok (fst (contents_read (gen_text g w) off buf)),
    snd (contents_read (gen_text g w) off buf), w).
Proof.
  intros Hoff. unfold ProcFile_read, contents_read. generalize (gen_text g w) as l. intros l.
  case (Z.leb_spec (vlen l) off) as [|Hlt]; [done|]. set (n := Z.min _ _). pose proof (vlen_nonneg buf).
  unfold slice. rewrite bool_decide_true by lia. cbn [mbind outcome_bind].
  replace (off + n - off) with n by lia.
  assert (length (take (Z.to_nat n) (drop (Z.to_nat off) l)) = Z.to_nat n) as Hl
    by (rewrite length_take, length_drop; unfold vlen in *; lia).
  unfold copy_into. rewrite bool_decide_true by (unfold vlen at 1; rewrite Hl; lia).
  cbn [mbind outcome_bind]. unfold blit. rewrite Hl. done.
Qed.

(** The namespace the kernel boots with. [fs::init] does not panic on an archive
    that parses; descriptors 0, 1 and 2 are the console and no other is open;
    /dev, /proc and /initrd are mounted side by side: names under /dev and /proc
    are the device and information files (with their exact set of names), paths under
    /initrd are the tree of the archive, a device or text file has nothing
    below it, and every other absolute path is [NotFound]. *)
Theorem boot_namespace tar root : initrd.from_tar tar = Ret root →
  ∃ ms t, fs_init (K := K) (D := D) (A := A) tar [] [] = Ret (ms, t) ∧
    (∀ fd, get_file fd t = if bool_decide (0 ≤ fd < 3) then Some (mkFile Console 0) else None) ∧
    (∀ name, no_slash name →
       resolve (W := KW) (str "/dev" ++ join [name]) ms = DevDir_lookup name ∧
       resolve (W := KW) (str "/proc" ++ join [name]) ms = ProcDir_lookup name ∧
       (resolve (W := KW) (str "/dev" ++ join [name]) ms ≠ Err NotFound ↔
          name ∈ [str "console"; str "null"; str "zero"; str "kbd"]) ∧
       (resolve (W := KW) (str "/proc" ++ join [name]) ms ≠ Err NotFound ↔
          name ∈ [str "meminfo"; str "uptime"]) ∧
       ∀ name', no_slash name' →
         resolve (W := KW) (str "/dev" ++ join [name; name']) ms = Err NotFound ∧
         resolve (W := KW) (str "/proc" ++ join [name; name']) ms = Err NotFound) ∧
    (∀ comps, Forall no_slash comps →
       resolve (W := KW) (str "/initrd" ++ join comps) ms =
         match tree_walk comps root with Some n => Ok (Ram n) | None => Err NotFound end) ∧
    (∀ path, vget path 0 = Some SLASH →
       covers (str "/dev") path = false → covers (str "/proc") path = false →
       covers (str "/initrd") path = false → resolve (W := KW) path ms = Err NotFound).
Proof.
  intros E. exists (boot_mounts root), boot_fds. split; [by apply fs_init_eq|]. split_and!.
  - intros fd. case_bool_decide as Hfd.
    + assert (fd = 0 ∨ fd = 1 ∨ fd = 2) as [-> |[-> | ->]] by lia; reflexivity.
    + unfold get_file. rewrite (proj2 (vget_None _ fd)); [done|]. change (vlen boot_fds) with 3. lia.
  - intros name Hn.
    assert (∀ comps, Forall no_slash comps →
      resolve (W := KW) (str "/dev" ++ join comps) (boot_mounts root) = walk (W := KW) comps DevDir ∧
      resolve (W := KW) (str "/proc" ++ join comps) (boot_mounts root) = walk (W := KW) comps ProcDir) as Hr.
    { intros comps Hc. split.
      - refine (resolve_boot root _ (DevFs) comps _ Hc). by left.
      - refine (resolve_boot root _ (ProcFs) comps _ Hc). by right; left. }
    destruct (Hr [name]) as [Hd Hp]; [by apply Forall_singleton|].
    assert (∀ n, walk (W := KW) [name] n = Node_lookup n name) as Hw.
    { intros n. cbn [walk]. change (i_lookup n name) with (Node_lookup n name). by destruct (Node_lookup n name). }
    rewrite Hw in Hd, Hp. rewrite Hd, Hp. cbn [Node_lookup]. split_and!; [done..| | |].
    + unfold DevDir_lookup. rewrite !elem_of_cons, elem_of_nil. repeat case_bool_decide; intuition done.
    + unfold ProcDir_lookup. rewrite !elem_of_cons, elem_of_nil. repeat case_bool_decide; intuition done.
    + intros name' Hn'. destruct (Hr [name; name']) as [-> ->]; [by rewrite Forall_cons, Forall_singleton|].
      cbn [walk]. change (i_lookup DevDir name) with (DevDir_lookup name).
      change (i_lookup ProcDir name) with (ProcDir_lookup name).
      unfold DevDir_lookup, ProcDir_lookup. split; by repeat case_bool_decide.
  - intros comps Hc. rewrite <- walk_ram. refine (resolve_boot root _ (Initrd root) comps _ Hc).
    by right; right; left.
  - intros path Hp H1' H2' H3'. apply resolve_unmounted; [done|]. intros m Hm.
    by apply boot_mount_cases in Hm as [-> |[-> | ->]].
Qed.
End namespace.

(** ** A concrete kernel for the witnesses *)

Definition toy_Heap : Heap unit :=
  {| heap_size _ := 1048576; heap_used _ := 4096; heap_free _ := 1044480 |}.

Definition toy_tar : list Z := archive [(demo_meta, initrd.mkEntry (str "motd.txt") (str "hi") false)].

Lemma boot_namespace_witness :
  ∃ ms t, @fs_init unit (Z → Z) unit dev plain_Hw toy_Heap toy_tar [] [] = Ret (ms, t) ∧
    get_file 1 t = Some (mkFile Console 0) ∧
    @resolve _ _ (@Node_Inode unit (Z → Z) unit dev plain_Hw toy_Heap) (str "/initrd/motd.txt") ms =
      Ok (Ram (initrd.file (str "motd.txt") (str "hi"))).
Proof.
  destruct (@boot_namespace unit (Z → Z) unit dev plain_Hw toy_Heap toy_tar
    (initrd.Node (str "/") Dir [] [initrd.file (str "motd.txt") (str "hi")])) as (ms & t & E & Hf & _ & Hr & _).
  - vm_compute. reflexivity.
  - exists ms, t. split; [exact E|]. split; [exact (Hf 1)|].
    refine (Hr [str "motd.txt"] _). apply Forall_singleton. split; [done|].
    apply (bool_decide_unpack _). by vm_compute.
Defined.
