(* ===== verification/Syscall.v ===== *)
(** * System calls

    [Module syscall] models the dispatcher of syscall/mod.rs and its handlers
    over the descriptor table, the mounted nodes and the memory the user
    program shares with the kernel; [Module entry] the hand-written assembly
    that enters ring 3, takes [int 0x80] and leaves through [exit]. *)

From S2P Require Import Prelude Pmm Bytes E1000 Vfs Net NetProps Initrd Devices.
Import vfs fs keyboard.

(** ** syscall/mod.rs *)
Module syscall.

Inductive SyscallNr := Write | Exit | Open | Read | Close | Socket | Bind | Connect.

Definition nr (n : SyscallNr) : Z :=
  match n with
  | Write => 1 | Exit => 2 | Open => 3 | Read => 4 | Close => 5 | Socket => 6 | Bind => 7 | Connect => 8
  end.

Record SyscallFrame := mkFrame {
  rax : Z; rbx : Z; rcx : Z; rdx : Z; rsi : Z; rdi : Z; rbp : Z; r8 : Z;
  r9 : Z; r10 : Z; r11 : Z; r12 : Z; r13 : Z; r14 : Z; r15 : Z;
}.

Definition set_rax (v : Z) (f : SyscallFrame) : SyscallFrame :=
  mkFrame v (rbx f) (rcx f) (rdx f) (rsi f) (rdi f) (rbp f) (r8 f)
    (r9 f) (r10 f) (r11 f) (r12 f) (r13 f) (r14 f) (r15 f).

(** ** The caller's pages

    The kernel follows the caller's pointers unchecked, so what its page tables allow at an
    address is part of the model. *)
Inductive access := Load | Store.

Class UserPages := { can : access → Z → bool }.

Definition canonical (p : Z) : bool := (0 <=? p) && (p <? 2 ^ 47) || (2 ^ 64 - 2 ^ 47 <=? p) && (p <? 2 ^ 64).

(** How one access ends: a general protection fault, a page fault, a store that lands in the
    kernel's half of the address space, or well. *)
Definition access_fault `{UserPages} (a : access) (p : Z) : option panic :=
  if negb (canonical p) then Some (PTrap 13)
  else if negb (can a p) then Some PFault
  else match a with Store => if 2 ^ 47 <=? p then Some PWild else None | Load => None end.

(** [n] bytes from [p] on are read or written. *)
Definition touch `{UserPages} (a : access) (p n : Z) : outcome unit :=
  for_each (seqZ p n) (λ q _, match access_fault a q with None => Ret tt | Some e => Panic e end) tt.

(** [slice::from_raw_parts] and its [_mut], which assert a pointer that is not null in a build with
    debug assertions. *)
Definition raw_slice `{Profile} (p : Z) : outcome unit :=
  if overflow_checks && (p =? 0) then Panic PNull else Ret tt.

(** The state a system call works on; [umem] is the shared address space, byte by byte. *)
Record Sys (K D A : Type) := mkSys {
  kw : Kworld K D A;
  mounts : Mounts Node;
  fds : FdTable Node;
  umem : Z → Z;
}.
Arguments mkSys {K D A} _ _ _ _.
Arguments kw {K D A} _.
Arguments mounts {K D A} _.
Arguments fds {K D A} _.
Arguments umem {K D A} _.

Section handlers.
Context {K D A : Type} `{Profile} `{e1000.Hw D} `{Heap A} `{UserPages}.
Abbreviation SY := (Sys K D A).
Abbreviation KW := (Kworld K D A).

(** [Ok(k) => k as u64, Err(e) => e.errno() as u64] *)
Definition to_rax (r : FsResult Z) : Z :=
  match r with inl k => wrap 64 k | inr e => wrap 64 (errno e) end.

(** Read a NUL-terminated string of at most 255 bytes. *)
Fixpoint cstr_loop (fuel : nat) (p : Z) (bytes : list Z) (m : Z → Z) : outcome (option (list Z)) :=
  match fuel with
  | O => Ret None
  | S k =>
      _ ← touch Load p 1;
      if m p =? 0 then Ret (from_utf8 bytes) else cstr_loop k (p + 1) (bytes ++ [m p]) m
  end.

Definition read_user_cstr (ptr : Z) (m : Z → Z) : outcome (option (list Z)) := cstr_loop 256 ptr [] m.

Definition sys_open (path_ptr : Z) (s : SY) : outcome (Z * SY) :=
  p ← read_user_cstr path_ptr (umem s);
  match p with
  | None => Ret (wrap 64 (errno InvalidArg), s)
  | Some path =>
      let '(r, t) := open (W := KW) path (mounts s) (fds s) in
      Ret (to_rax r, mkSys (kw s) (mounts s) t (umem s))
  end.

(** The nodes store to the front of the buffer exactly the bytes they report. *)
Definition sys_read (fd buf len : Z) (s : SY) : outcome (Z * SY) :=
  let n := Z.min len 4096 in
  _ ← raw_slice buf;
  let dst := e1000.read_bytes buf n (umem s) in
  r ← read fd dst (fds s) (kw s);
  let '(res, dst', t, w) := r in
  _ ← touch Store buf (match res with inl k => k | inr _ => 0 end);
  Ret (to_rax res, mkSys w (mounts s) t (e1000.write_bytes buf dst' (umem s))).

(** Whether a [write] looks at the data: the console does, and a UDP socket that has a peer. *)
Definition node_loads (n : Node) (w : KW) : bool :=
  match n with
  | Console => true
  | SocketInode i =>
      match sock_get i (sockets (net w)) with
      | Some x => bool_decide (is_Some (peer x)) && (proto x =? PROTO_UDP)
      | None => false
      end
  | _ => false
  end.

Definition fd_loads (fd : Z) (s : SY) : bool :=
  match get_file fd (fds s) with Some f => node_loads (inode f) (kw s) | None => false end.

Definition sys_write (fd buf len : Z) (s : SY) : outcome (Z * SY) :=
  let n := Z.min len 4096 in
  _ ← raw_slice buf;
  _ ← touch Load buf (if fd_loads fd s then n else 0);
  let src := e1000.read_bytes buf n (umem s) in
  r ← write fd src (fds s) (kw s);
  let '(res, t, w) := r in
  Ret (to_rax res, mkSys w (mounts s) t (umem s)).

Definition sys_close (fd : Z) (s : SY) : Z * SY :=
  let '(r, t) := close fd (fds s) in
  (match r with inl _ => 0 | inr e => wrap 64 (errno e) end,
   mkSys (kw s) (mounts s) t (umem s)).

Definition sys_socket (p : Z) (s : SY) : outcome (Z * SY) :=
  r ← on_net (socket_new (wrap 8 p)) (kw s);
  let '(idx, w) := r in
  let '(res, t) := install_inode (SocketInode idx) (fds s) in
  Ret (to_rax res, mkSys w (mounts s) t (umem s)).

Definition sys_bind (fd port : Z) (s : SY) : outcome (Z * SY) :=
  match sock_index (W := KW) fd (fds s) with
  | None => Ret (wrap 64 (errno InvalidArg), s)
  | Some idx =>
      r ← on_net (socket_bind idx (wrap 16 port)) (kw s);
      let '(ok, w) := r in
      Ret (if (ok : bool) then 0 else wrap 64 (errno InvalidArg), mkSys w (mounts s) (fds s) (umem s))
  end.

Definition sys_connect (fd ip port : Z) (s : SY) : outcome (Z * SY) :=
  let addr := be32_bytes (wrap 32 ip) in
  match sock_index (W := KW) fd (fds s) with
  | None => Ret (wrap 64 (errno InvalidArg), s)
  | Some idx =>
      r ← on_net (socket_connect idx addr (wrap 16 port)) (kw s);
      let '(ok, w) := r in
      Ret (if (ok : bool) then 0 else wrap 64 (errno InvalidArg), mkSys w (mounts s) (fds s) (umem s))
  end.

(** What the dispatcher does with the caller: resume it with the new frame, or
    leave ring 3 for good ([syscall_return_to_kernel]). *)
Inductive action := Resume (f : SyscallFrame) | ReturnToKernel (code : Z).

Definition resume_with (f : SyscallFrame) (r : Z * SY) : outcome (action * SY) :=
  let '(v, s) := r in Ret (Resume (set_rax v f), s).

Definition syscall_dispatch (f : SyscallFrame) (s : SY) : outcome (action * SY) :=
  if rax f =? nr Write then r ← sys_write (rdi f) (rsi f) (rdx f) s; resume_with f r
  else if rax f =? nr Read then r ← sys_read (rdi f) (rsi f) (rdx f) s; resume_with f r
  else if rax f =? nr Open then r ← sys_open (rdi f) s; resume_with f r
  else if rax f =? nr Close then resume_with f (sys_close (rdi f) s)
  else if rax f =? nr Socket then r ← sys_socket (rdi f) s; resume_with f r
  else if rax f =? nr Bind then r ← sys_bind (rdi f) (rsi f) s; resume_with f r
  else if rax f =? nr Connect then r ← sys_connect (rdi f) (rsi f) (rdx f) s; resume_with f r
  else if rax f =? nr Exit then Ret (ReturnToKernel (rdi f), s)
  else resume_with f (wrap 64 (-3), s).
End handlers.
End syscall.
