(* ===== verification/SyscallProps.v ===== *)
(** * What system calls guarantee

    An invariant of the kernel state under system calls, that no program makes
    the kernel panic through them, and what each call does, from the bytes in
    the caller's memory to the device and back. *)

From S2P Require Import Prelude Pmm Bytes E1000 Vfs Net NetProps Initrd Devices Syscall.
Import vfs fs keyboard syscall.

(** ** The invariant *)

(** Every file of a tree holds bytes. *)
Fixpoint tree_bytes (n : initrd.InodeNode) : Prop :=
  let 'initrd.Node _ _ d cs := n in bytes d ∧ foldr (λ c P, tree_bytes c ∧ P) True cs.

Definition node_ok (n : Node) : Prop := match n with Ram r => tree_bytes r | _ => True end.

Definition sock_ok (x : Net.Socket) : Prop :=
  match peer x with Some (ip, _) => bytes ip ∧ length ip = 4%nat | None => True end ∧
  Forall (λ d, bytes (snd d)) (rx x).

Lemma tree_bytes_child n c m : tree_bytes n → initrd.find_child n c = Some m → tree_bytes m.
Proof.
  destruct n as [nm k d cs]. cbn [tree_bytes]. intros [_ Hcs].
  unfold initrd.find_child. cbn [initrd.node_children].
  destruct (position _ cs) as [i|]; [|done]. intros Hi%vget_elem_of.
  induction cs as [|x cs IH]; [by apply not_elem_of_nil in Hi|]. destruct Hcs as [Hx Hcs].
  apply elem_of_cons in Hi as [->|Hi]; auto.
Qed.

Lemma dec_bytes z : bytes (dec z).
Proof.
  unfold dec. assert (bytes []) as Hn by constructor. revert z Hn. generalize (@nil Z) as acc.
  generalize 20%nat as fuel. induction fuel as [|k IH]; intros acc z Ha; cbn [dec_loop]; [done|].
  assert (bytes ((48 + z `mod` 10) :: acc)).
  { constructor; [|done]. pose proof (Z.mod_pos_bound z 10). unfold is_byte, fits. lia. }
  destruct (z <? 10); auto.
Qed.

Section inv.
Context {K D A : Type} `{Profile} `{e1000.Hw D} `{Heap A}.
Abbreviation KW := (Kworld K D A).
Abbreviation SY := (Sys K D A).
Implicit Types (w : KW) (s : SY) (c : Z).

(** After [c] calls: at most [c] frames were sent. *)
Definition card_inv c (n : Net D) : Prop :=
  match e1000.nic (world n) with
  | Some k => vlen (e1000.tx_ring k) = e1000.NUM_TX ∧ 0 ≤ e1000.tx_cursor k ≤ c ∧ length (e1000.mac k) = 6%nat
  | None => True
  end.

Definition socks_inv (n : Net D) : Prop :=
  ∀ i x, sock_get i (sockets n) = Some x → sock_ok x.

Record kw_ok c w : Prop := {
  kw_kbd : bytes (buffer (kbd w));
  kw_socks : socks_inv (net w);
  kw_card : card_inv c (net w);
}.

Record sys_inv c s : Prop := {
  inv_kw : kw_ok c (kw s);
  inv_mounts : ∀ m, m ∈ mounts s → node_ok (fs_root (snd m));
  inv_len : vlen (fds s) ≤ MAX_FDS;
  inv_fds : ∀ fd f, get_file fd (fds s) = Some f → node_ok (inode f) ∧ 0 ≤ offset f ≤ 4096 * c;
  inv_mem : ∀ a, is_byte (umem s a);
}.

Lemma card_inv_weaken c c' n : c ≤ c' → card_inv c n → card_inv c' n.
Proof. unfold card_inv. destruct (e1000.nic (world n)); [|done]. intros ? (? & ? & ?). split_and!; [done|lia|lia|done]. Qed.

Lemma card_inv_ok c n : c + 1 < 2 ^ 64 → card_inv c n → card_ok n.
Proof.
  unfold card_inv, card_ok, tx_ok. destruct (e1000.nic (world n)); [|done].
  intros ? (? & ? & ?). split_and!; [done|unfold fits; lia|lia].
Qed.

Lemma card_mac c n : card_inv c n → length (mac_of_net n) = 6%nat.
Proof.
  unfold card_inv, mac_of_net, e1000.mac_address. destruct (e1000.nic (world n)); cbn; [by intros (_ & _ & ?)|done].
Qed.

Lemma sent_card c frame n : c + 1 < 2 ^ 64 → card_inv c n → card_inv (c + 1) (sent frame n).
Proof.
  intros Hc Hi. pose proof (card_inv_ok _ _ Hc Hi) as Hok. unfold card_inv, card_ok, sent in *.
  destruct (e1000.nic (world n)) as [k|] eqn:En.
  - rewrite (send_eq _ _ _ En Hok). cbn [world set_world e1000.nic]. unfold tx_pushed.
    cbn [e1000.tx_ring e1000.tx_cursor]. rewrite vlen_vset. destruct Hi as (? & ? & ?). split_and!; [done|lia|lia|done].
  - unfold e1000.send. rewrite En. cbn [world set_world]. by rewrite En.
Qed.

Lemma sent_sockets frame (n : Net D) : sockets (sent frame n) = sockets n.
Proof. unfold sent. by destruct (e1000.send frame (world n)) as [[]|]. Qed.

(** ** The network calls *)

Lemma socks_inv_set n i x : socks_inv n → 0 ≤ i < vlen (sockets n) → sock_ok x →
  socks_inv (set_sockets (vset (sockets n) i (Some x)) n).
Proof.
  intros Hs Hi Hx j y. cbn [set_sockets sockets]. rewrite sock_get_vset by done.
  case_bool_decide; [by intros [= <-]|apply Hs].
Qed.

Lemma sock_get_lt i (t : list (option Net.Socket)) x : sock_get i t = Some x → 0 ≤ i < vlen t.
Proof. intros E%sock_get_Some. by apply vget_lt in E. Qed.

Lemma udp_send_ok c sport dst dport data (n : Net D) :
  bytes dst → length dst = 4%nat → bytes data → vlen data ≤ 4096 → c + 1 < 2 ^ 64 → card_inv c n →
  ∃ b n', udp_send sport dst dport data n = Ret (b, n') ∧ card_inv (c + 1) n' ∧ sockets n' = sockets n.
Proof.
  intros Hb Hl Hd Hlen Hc Hi. destruct (udp_datagram_eq sport dst dport data Hb Hl Hd) as (u & E & _); [lia|].
  destruct (ip_send_eq dst PROTO_UDP (udp_bytes sport dport u data) n) as (k & _ & _ & E2);
    [done|done|done|by eapply card_inv_ok|].
  unfold udp_send. rewrite (bind_lift _ _ _ _ E), E2. eexists _, _. split; [done|].
  split; [by apply sent_card|apply sent_sockets].
Qed.

Lemma socket_write_ok c i data (n : Net D) :
  socks_inv n → bytes data → vlen data ≤ 4096 → c + 1 < 2 ^ 64 → card_inv c n →
  ∃ r n', SocketInode_write i data n = Ret (r, n') ∧ card_inv (c + 1) n' ∧ socks_inv n' ∧
    ∀ k, r = inl k → k = vlen data.
Proof.
  intros Hs Hd Hlen Hc Hi. assert (card_inv (c + 1) n) by (eapply card_inv_weaken; [|done]; lia).
  unfold SocketInode_write. erewrite bind_run by reflexivity.
  destruct (sock_get i (sockets n)) as [x|] eqn:Ex; cbn [mbind option_bind];
    [|by exists (Err InvalidArg), n].
  pose proof (Hs _ _ Ex) as [Hp _]. destruct (peer x) as [[ip port]|]; [|by exists (Err InvalidArg), n].
  destruct Hp as [Hb Hl]. unfold sendto. erewrite bind_run by reflexivity. rewrite Ex.
  destruct (negb _); [by exists (Err InvalidArg), n|].
  destruct (udp_send_ok c (local_port x) ip port data n) as (b & n' & E & Hc' & Es); try done.
  rewrite (bind_run _ _ _ _ _ E). exists (if b then Ok (vlen data) else Err Io), n'.
  split; [done|]. split; [done|]. split.
  - intros j y. rewrite Es. apply Hs.
  - intros k. by destruct b; intros [= <-].
Qed.

Lemma vlen_blit0 {T} (l d : list T) : vlen d ≤ vlen l → vlen (blit l 0 d) = vlen l.
Proof.
  intros. unfold blit. change (Z.to_nat 0) with 0%nat. rewrite take_0. cbn [app Nat.add].
  unfold vlen in *. rewrite length_app, length_drop. lia.
Qed.

Lemma vlen_take {T} n (l : list T) : 0 ≤ n ≤ vlen l → vlen (take (Z.to_nat n) l) = n.
Proof. unfold vlen. rewrite length_take. lia. Qed.

Lemma socket_read_ok i buf (n : Net D) : socks_inv n → bytes buf →
  ∃ k buf' n', SocketInode_read i buf n = Ret ((Ok k, buf'), n') ∧ world n' = world n ∧ socks_inv n' ∧
    bytes buf' ∧ vlen buf' = vlen buf ∧ 0 ≤ k ≤ vlen buf.
Proof.
  intros Hs Hb. pose proof (vlen_nonneg buf). unfold SocketInode_read, recvfrom, mbind, M_bind.
  destruct (sock_get i (sockets n)) as [x|] eqn:Ex; [|exists 0, buf, n; by split_and!].
  destruct (rx x) as [|[[src sport] d] q] eqn:Eq; [exists 0, buf, n; by split_and!|].
  pose proof (Hs _ _ Ex) as [Hp Hr]. rewrite Eq in Hr. apply Forall_cons in Hr as [Hd Hr]. cbn [snd] in Hd.
  pose proof (vlen_nonneg d). eexists _, _, _. split; [reflexivity|]. split_and!; [done| | | |lia|lia].
  - apply socks_inv_set; [done|by eapply sock_get_lt|done].
  - apply bytes_blit; [done|by apply Forall_take].
  - apply vlen_blit0. rewrite vlen_take; lia.
Qed.

(** ** Reading and writing a node *)

Lemma contents_read_ok data off buf : bytes data → bytes buf → 0 ≤ off →
  bytes (snd (contents_read data off buf)) ∧ vlen (snd (contents_read data off buf)) = vlen buf ∧
  0 ≤ fst (contents_read data off buf) ≤ vlen buf.
Proof.
  intros Hd Hb Ho. pose proof (vlen_nonneg buf). unfold contents_read.
  case (Z.leb_spec (vlen data) off) as [|Hlt]; cbn [fst snd]; [split_and!; [done|done|lia|lia]|].
  split_and!; [|unfold vlen in *; rewrite length_app, length_take, !length_drop; lia|lia|lia].
  apply Forall_app. split; [by apply Forall_take, Forall_drop|by apply Forall_drop].
Qed.

Lemma str_bytes x : bytes (str x).
Proof.
  unfold str. apply Forall_fmap, Forall_true. intros a. unfold is_byte, fits. cbn.
  destruct a as [[] [] [] [] [] [] [] []]; vm_compute; by split.
Qed.

Lemma gen_text_bytes g w : bytes (gen_text g w).
Proof.
  unfold gen_text, meminfo, uptime.
  assert (bytes [10]) by (repeat constructor; done).
  destruct g; repeat (apply Forall_app; split); first [apply str_bytes | apply dec_bytes | done].
Qed.

Lemma Node_read_ok c n off buf w : kw_ok c w → node_ok n → bytes buf → 0 ≤ off →
  ∃ r buf' w', Node_read n off buf w = Ret (r, buf', w') ∧ kw_ok c w' ∧ bytes buf' ∧
    vlen buf' = vlen buf ∧ ∀ k, r = inl k → 0 ≤ k ≤ vlen buf.
Proof.
  intros Hw Hn Hb Ho. pose proof (vlen_nonneg buf). pose proof Hw as [Hk Hs Hc].
  assert (∀ r : FsResult Z, (∀ k, r = inl k → 0 ≤ k ≤ vlen buf) → ∃ r' buf' w',
    Ret (r, buf, w) = Ret (r', buf', w') ∧ kw_ok c w' ∧ bytes buf' ∧
    vlen buf' = vlen buf ∧ ∀ k, r' = inl k → 0 ≤ k ≤ vlen buf) as Hsame.
  { intros r Hr. exists r, buf, w. by split_and!. }
  destruct n as [| | | | | |g|r|i]; cbn [Node_read].
  - by apply Hsame.
  - apply Hsame. intros k [= <-]. lia.
  - apply Hsame. intros k [= <-]. lia.
  - eexists _, _, w. split; [reflexivity|]. split_and!; [done| | |by intros k [= <-]; lia].
    + apply Forall_fmap, Forall_true. intros ?. done.
    + apply vlen_fmap.
  - rewrite Kbd_read_eq. set (k := Z.min _ _). pose proof (vlen_nonneg (buffer (kbd w))).
    eexists _, _, _. split; [reflexivity|]. split_and!.
    + split; [by apply Forall_drop|done|done].
    + apply bytes_blit; [done|by apply Forall_take].
    + apply vlen_blit0. rewrite vlen_take; lia.
    + intros j [= <-]. lia.
  - by apply Hsame.
  - rewrite procfile_read_eq by done.
    destruct (contents_read_ok (gen_text g w) off buf) as (? & ? & ?); [apply gen_text_bytes|done|done|].
    eexists _, _, w. split; [reflexivity|]. split_and!; [done..|by intros k [= <-]].
  - destruct (contents_read_ok (initrd.node_data r) off buf) as (? & ? & ?);
      [by destruct r; destruct Hn|done|done|].
    pose proof (ram_has_contents (K := K) (D := D) (A := A) r off buf w Ho) as E.
    eexists _, _, w. split; [exact E|]. split_and!; [done..|by intros k [= <-]].
  - destruct (socket_read_ok i buf (net w)) as (k & buf' & n' & E & Ew & ? & ? & ? & ?); [done|done|].
    unfold on_net. rewrite E. cbn [mbind outcome_bind]. eexists _, _, _. split; [reflexivity|].
    split_and!; [|done|done|by intros j [= <-]]. split; [done|done|]. unfold card_inv. cbn [set_net net]. by rewrite Ew.
Qed.

(** A read changes the front of the buffer only. *)
Lemma drop_blit0 {T} k (l d : list T) : length d = k → drop k (blit l 0 d) = drop k l.
Proof. intros <-. unfold blit. change (Z.to_nat 0) with 0%nat. rewrite take_0. cbn [app Nat.add]. by rewrite drop_app_length. Qed.

Lemma contents_read_frame data off buf : 0 ≤ off →
  drop (Z.to_nat (fst (contents_read data off buf))) (snd (contents_read data off buf)) =
  drop (Z.to_nat (fst (contents_read data off buf))) buf.
Proof.
  intros Ho. unfold contents_read. case (Z.leb_spec (vlen data) off) as [|Hlt]; cbn [fst snd]; [done|].
  set (k := Z.min _ _). pose proof (vlen_nonneg buf).
  assert (length (take (Z.to_nat k) (drop (Z.to_nat off) data)) = Z.to_nat k) as Hk
    by (rewrite length_take, length_drop; unfold k, vlen in *; lia).
  rewrite <- Hk at 1. by rewrite drop_app_length.
Qed.

Lemma Node_read_frame n off buf w k buf' w' : 0 ≤ off → Node_read n off buf w = Ret (inl k, buf', w') →
  drop (Z.to_nat k) buf' = drop (Z.to_nat k) buf.
Proof.
  intros Ho. destruct n as [| | | | | |g|r|i]; cbn [Node_read]; try (by intros [= <- <- <-]); try discriminate.
  - intros [= <- <- <-]. by rewrite !drop_ge by (unfold vlen; rewrite ?length_fmap; lia).
  - rewrite Kbd_read_eq. intros [= <- <- <-]. apply drop_blit0. rewrite length_take. unfold vlen. lia.
  - rewrite procfile_read_eq by done. intros [= <- <- <-]. by apply contents_read_frame.
  - pose proof (ram_has_contents (K := K) (D := D) (A := A) r off buf w Ho) as E. intros E'.
    change (i_read (Ram r) off buf w) with (Node_read (Ram r) off buf w) in E. cbn [Node_read] in E. rewrite E in E'.
    injection E' as <- <- <-. by apply contents_read_frame.
  - unfold on_net, SocketInode_read, recvfrom, mbind, outcome_bind, M_bind.
    destruct (sock_get i _) as [x|]; [|by intros [= <- <- <-]]. destruct (rx x) as [|[[] d]]; [by intros [= <- <- <-]|].
    intros [= <- <- <-]. apply drop_blit0. rewrite length_take. unfold vlen. lia.
Qed.

Lemma Node_read_err n off buf w e buf' w' : Node_read n off buf w = Ret (inr e, buf', w') → buf' = buf ∧ w' = w.
Proof.
  destruct n as [| | | | | |g|r|i]; cbn [Node_read]; try (intros [= _ <- <-]; done); try discriminate.
  - unfold Kbd_read. by destruct (Kbd_loop _ _ _ _) as [[[]]|].
  - unfold ProcFile_read. destruct (_ <=? off); [done|]. destruct (slice _ _ _) as [l|]; [|done].
    cbn [mbind outcome_bind]. by destruct (copy_into _ _ _).
  - unfold initrd.node_read. by destruct (_ <=? off).
  - unfold on_net, SocketInode_read, recvfrom, mbind, outcome_bind, M_bind.
    destruct (sock_get i _) as [x|]; [|done]. by destruct (rx x) as [|[[] ]].
Qed.

Lemma Node_write_ok c n off data w : kw_ok c w → bytes data → vlen data ≤ 4096 → c + 1 < 2 ^ 64 →
  ∃ r w', Node_write n off data w = Ret (r, w') ∧ kw_ok (c + 1) w' ∧ ∀ k, r = inl k → k = vlen data.
Proof.
  intros [Hk Hs Hc] Hd Hl Hlt. assert (kw_ok (c + 1) w) as Hw.
  { split; [done|done|]. eapply card_inv_weaken; [|done]. lia. }
  destruct n as [| | | | | |g|r|i]; cbn [Node_write];
    try (eexists _, w; split; [reflexivity|]; split; [done|]; by intros k [= <-]).
  - unfold Console_write. rewrite serial_write_bytes_eq. eexists _, _. split; [reflexivity|].
    split; [|by intros k [= <-]]. destruct Hw. by split.
  - destruct (socket_write_ok c i data (net w)) as (r & n' & E & ? & ? & ?); try done.
    unfold on_net. rewrite E. cbn [mbind outcome_bind]. eexists _, _. split; [reflexivity|].
    split; [|done]. by split.
Qed.
End inv.

(** ** The calls, one by one *)

(** A result a caller can tell: a count or a descriptor, at most [n], or a negated error number
    in two's complement. *)
Definition good_rax (n v : Z) : Prop := 0 ≤ v ≤ n ∨ ∃ e, v = wrap 64 (errno e).

(** [read] and [write] move at most what was asked for. *)
Definition limit (f : SyscallFrame) : Z :=
  if (rax f =? nr Read) || (rax f =? nr Write) then Z.max 0 (Z.min (rdx f) 4096) else 4096.

(** ** The caller's buffers *)

Section pages.
Context `{Profile} `{UserPages}.

(** How a call with a bad pointer ends. *)
Definition bad_pointer (e : panic) : Prop := e ∈ [PFault; PTrap 13; PWild; PNull].

Definition buffer_ok (a : access) (p len : Z) : Prop :=
  (overflow_checks = true → p ≠ 0) ∧ ∀ q, p ≤ q < p + Z.min len 4096 → access_fault a q = None.

(** Every byte up to the terminator, or up to the 256th. *)
Definition cstr_ok (m : Z → Z) (p : Z) : Prop :=
  ∀ i, 0 ≤ i < 256 → (∀ j, 0 ≤ j < i → m (p + j) ≠ 0) → access_fault Load (p + i) = None.

Definition buffers_ok (f : SyscallFrame) (m : Z → Z) : Prop :=
  (rax f = nr Write → buffer_ok Load (rsi f) (rdx f)) ∧
  (rax f = nr Read → buffer_ok Store (rsi f) (rdx f)) ∧
  (rax f = nr Open → cstr_ok m (rdi f)).

Lemma access_fault_bad a p e : access_fault a p = Some e → bad_pointer e.
Proof.
  unfold access_fault, bad_pointer. rewrite !elem_of_cons.
  destruct (negb (canonical p)); [intros [= <-]; by auto|]. destruct (negb (can a p)); [intros [= <-]; by auto|].
  destruct a; [done|]. destruct (_ <=? _); intros [= <-]. by auto.
Qed.

Lemma touch_cases a p n :
  touch a p n = Ret tt ∧ (∀ q, p ≤ q < p + n → access_fault a q = None) ∨
  ∃ q e, p ≤ q < p + n ∧ access_fault a q = Some e ∧ touch a p n = Panic e.
Proof.
  unfold touch. assert (∀ l, for_each l (λ q _, match access_fault a q with None => Ret tt | Some e => Panic e end) tt = Ret tt ∧
    (∀ q, q ∈ l → access_fault a q = None) ∨ ∃ q e, q ∈ l ∧ access_fault a q = Some e ∧
      for_each l (λ q _, match access_fault a q with None => Ret tt | Some e => Panic e end) tt = Panic e) as Hl.
  { induction l as [|x l IH]; cbn [for_each]; [left; split; [done|by intros q ?%elem_of_nil]|].
    destruct (access_fault a x) as [e|] eqn:Ex; cbn [mbind outcome_bind].
    - right. exists x, e. split_and!; [by left|done|done].
    - destruct IH as [[E Hq]|(q & e & Hq & Hf & E)]; [left; split; [done|]|right; exists q, e; split_and!; [by right|done|done]].
      intros q [->|?]%elem_of_cons; auto. }
  destruct (Hl (seqZ p n)) as [[E Hq]|(q & e & Hq & Hf & E)]; [left; split; [done|]|right; exists q, e; split; [by apply elem_of_seqZ in Hq|done]].
  intros q ?. apply Hq, elem_of_seqZ. lia.
Qed.

Lemma touch_ok a p n : (∀ q, p ≤ q < p + n → access_fault a q = None) → touch a p n = Ret tt.
Proof. intros Hq. destruct (touch_cases a p n) as [[E _]|(q & e & Hin & E & _)]; [done|]. by rewrite Hq in E. Qed.

Lemma touch_none a p : touch a p 0 = Ret tt.
Proof. apply touch_ok. lia. Qed.

Lemma raw_slice_cases p : raw_slice p = Ret tt ∨ raw_slice p = Panic PNull ∧ overflow_checks = true ∧ p = 0.
Proof. unfold raw_slice. destruct overflow_checks; [|by left]. destruct (Z.eqb_spec p 0); [by right|by left]. Qed.

Lemma raw_slice_ok p : p ≠ 0 → raw_slice p = Ret tt.
Proof. intros. by destruct (raw_slice_cases p) as [|(_ & _ & ?)]. Qed.

(** A string that cannot be read has a byte that cannot be. *)
Lemma cstr_loop_cases m : ∀ fuel p acc, (∃ r, cstr_loop fuel p acc m = Ret r) ∨
  ∃ i e, 0 ≤ i < Z.of_nat fuel ∧ (∀ j, 0 ≤ j < i → m (p + j) ≠ 0) ∧ access_fault Load (p + i) = Some e ∧
    cstr_loop fuel p acc m = Panic e.
Proof.
  induction fuel as [|k IH]; intros p acc; cbn [cstr_loop]; [left; by eexists|].
  destruct (touch_cases Load p 1) as [[-> _]|(q & e & Hq & Hf & ->)]; cbn [mbind outcome_bind].
  2:{ right. exists 0, e. replace (p + 0) with q by lia. split_and!; [lia|lia|lia|done|done]. }
  destruct (Z.eqb_spec (m p) 0) as [|Hn]; [left; by eexists|].
  destruct (IH (p + 1) (acc ++ [m p])) as [?|(i & e & Hi & Hj & Hf & E)]; [by left|right].
  exists (i + 1), e. split_and!; [lia|lia| |by replace (p + (i + 1)) with (p + 1 + i) by lia|done].
  intros j Hj1. destruct (decide (j = 0)) as [->|]; [by rewrite Z.add_0_r|].
  replace (p + j) with (p + 1 + (j - 1)) by lia. apply Hj. lia.
Qed.

Lemma read_user_cstr_cases p m : (∃ r, read_user_cstr p m = Ret r) ∨
  ¬ cstr_ok m p ∧ ∃ e, bad_pointer e ∧ read_user_cstr p m = Panic e.
Proof.
  destruct (cstr_loop_cases m 256 p []) as [?|(i & e & Hi & Hj & Hf & E)]; [by left|right].
  split; [|exists e; by eauto using access_fault_bad]. intros Hok. by rewrite (Hok i Hi Hj) in Hf.
Qed.
End pages.

Section calls.
Context {K D A : Type} `{Profile} `{e1000.Hw D} `{Heap A} `{UserPages}.
Abbreviation KW := (Kworld K D A).
Abbreviation SY := (Sys K D A).
Implicit Types (w : KW) (s : SY) (c : Z) (t : FdTable Node).

(** A call comes back, or it was given a pointer it could not use. *)
Definition goes c (ok : Prop) (n : Z) (o : outcome (Z * SY)) : Prop :=
  (∃ v s', o = Ret (v, s') ∧ sys_inv (c + 1) s' ∧ good_rax n v) ∨ ¬ ok ∧ ∃ e, bad_pointer e ∧ o = Panic e.

Definition fds_inv c t : Prop :=
  vlen t ≤ MAX_FDS ∧ ∀ fd f, get_file fd t = Some f → node_ok (inode f) ∧ 0 ≤ offset f ≤ 4096 * c.

Lemma fds_inv_weaken c c' t : c ≤ c' → fds_inv c t → fds_inv c' t.
Proof. intros Hc [Hl Hf]. split; [done|]. intros fd f E. destruct (Hf fd f E). split; [done|lia]. Qed.

Lemma sys_inv_intro c w ms t m : kw_ok c w → (∀ x, x ∈ ms → node_ok (fs_root (snd x))) → fds_inv c t →
  (∀ a, is_byte (m a)) → sys_inv c (mkSys w ms t m).
Proof. intros Hw Hm [Hl Hf] Ha. by split. Qed.

Lemma kw_ok_weaken c c' w : c ≤ c' → kw_ok c w → kw_ok c' w.
Proof. intros Hc []. split; [done|done|by eapply card_inv_weaken]. Qed.

Lemma sys_inv_le c c' s : c ≤ c' → sys_inv c s → sys_inv c' s.
Proof.
  intros Hc [Hw ? ? Hf ?]. split; try done; [by eapply kw_ok_weaken|].
  intros fd g E. destruct (Hf fd g E). split; [done|lia].
Qed.

Lemma to_rax_good n r : n ≤ 4096 → (∀ k, r = inl k → 0 ≤ k ≤ n) → good_rax n (to_rax r).
Proof.
  intros Hn Hr. destruct r as [k|e]; cbn [to_rax]; [left|right; by eexists].
  specialize (Hr k eq_refl). rewrite wrap_small by (unfold fits; lia). done.
Qed.

Lemma fds_inv_set c t fd f : fds_inv c t → 0 ≤ fd < vlen t → node_ok (inode f) → 0 ≤ offset f ≤ 4096 * c →
  fds_inv c (vset t fd (Some f)).
Proof.
  intros [Hl Hf] Hfd Hn Ho. split; [by rewrite vlen_vset|]. intros j g. rewrite get_file_vset by done.
  case_bool_decide; [by intros [= <-]|apply Hf].
Qed.

Lemma install_inode_ok c n t : 0 ≤ c → node_ok n → fds_inv c t →
  good_rax 4096 (to_rax (fst (install_inode n t))) ∧ fds_inv c (snd (install_inode n t)).
Proof.
  intros Hc Hn [Hl Hf]. unfold install_inode. pose proof (install_spec (mkFile n 0) t Hl) as Hi.
  destruct (install (mkFile n 0) t) as [[fd|] t']; cbn [fst snd].
  - destruct Hi as (Hfd & _ & _ & Hk & Hl'). split.
    + apply to_rax_good; [done|]. intros k [= <-]. unfold MAX_FDS in Hfd. lia.
    + split; [done|]. intros j f. rewrite Hk. case_bool_decide; [intros [= <-]|apply Hf].
      cbn [inode offset]. split; [done|lia].
  - destruct Hi as [-> _]. split; [by apply to_rax_good|done].
Qed.

Lemma walk_ok comps : ∀ n m, node_ok n → walk (W := KW) comps n = inl m → node_ok m.
Proof.
  induction comps as [|x comps IH]; intros n m Hn; cbn [walk]; [by intros [= <-]|].
  change (i_lookup n x) with (Node_lookup n x).
  destruct (Node_lookup n x) as [n'|e] eqn:E; [|done]. apply IH.
  destruct n as [| | | | | |g|r|i]; cbn [Node_lookup] in E; try done.
  - unfold DevDir_lookup, Ok, Err in E. repeat case_bool_decide; by simplify_eq.
  - unfold ProcDir_lookup, Ok, Err in E. repeat case_bool_decide; by simplify_eq.
  - unfold initrd.node_lookup in E. destruct (initrd.find_child r x) as [r'|] eqn:Er; unfold Ok, Err in E; simplify_eq/=.
    by eapply tree_bytes_child.
Qed.

Lemma open_ok c path ms t : 0 ≤ c → (∀ x, x ∈ ms → node_ok (fs_root (snd x))) → fds_inv c t →
  good_rax 4096 (to_rax (fst (open (W := KW) path ms t))) ∧ fds_inv c (snd (open (W := KW) path ms t)).
Proof.
  intros Hc Hm Hf. unfold open. destruct (resolve (W := KW) path ms) as [n|e] eqn:E.
  - apply install_inode_ok; [done| |done]. unfold resolve in E. destruct (negb _); [done|].
    pose proof (longest_mount_spec path ms) as Hs. destruct (longest_mount path ms) as [[l f]|]; [|done].
    destruct Hs as [(p & Hin & _) _]. eapply walk_ok; [|exact E]. exact (Hm _ Hin).
  - split; [by apply to_rax_good|done].
Qed.

Lemma read_bytes_ok a n (m : Z → Z) : (∀ x, is_byte (m x)) → bytes (e1000.read_bytes a n m).
Proof. intros Hm. unfold e1000.read_bytes. apply Forall_fmap, Forall_true. intros x. apply Hm. Qed.

Lemma vlen_read_bytes_max a n (m : Z → Z) : vlen (e1000.read_bytes a n m) = Z.max 0 n.
Proof. unfold e1000.read_bytes. rewrite vlen_fmap. unfold vlen. rewrite length_seqZ. lia. Qed.

Lemma write_bytes_ok a l (m : Z → Z) x : bytes l → (∀ x, is_byte (m x)) → is_byte (e1000.write_bytes a l m x).
Proof.
  intros Hl Hm. unfold e1000.write_bytes. destruct (vget l (x - a)) as [b|] eqn:E; [|done].
  eapply Forall_vget in Hl; done.
Qed.

Lemma raw_slice_goes a p len n c (o : outcome (Z * SY)) : goes c (buffer_ok a p len) n o →
  goes c (buffer_ok a p len) n (_ ← raw_slice p; o).
Proof.
  intros Ho. destruct (raw_slice_cases p) as [-> |(-> & Hd & Hp)]; cbn [mbind outcome_bind]; [done|right].
  split; [intros [Hn _]; by apply Hn|]. exists PNull. split; [|done]. unfold bad_pointer. rewrite !elem_of_cons. auto.
Qed.

Lemma touch_goes a p len n lim c (o : outcome (Z * SY)) : n ≤ Z.max 0 (Z.min len 4096) → goes c (buffer_ok a p len) lim o →
  goes c (buffer_ok a p len) lim (_ ← touch a p n; o).
Proof.
  intros Hn Ho. destruct (touch_cases a p n) as [[-> _]|(q & e & Hq & Hf & ->)]; cbn [mbind outcome_bind]; [done|right].
  split; [|exists e; by eauto using access_fault_bad]. intros [_ Hok]. by rewrite Hok in Hf by lia.
Qed.

Lemma write_back a n (m : Z → Z) x : e1000.write_bytes a (e1000.read_bytes a n m) m x = m x.
Proof.
  unfold e1000.write_bytes, e1000.read_bytes. destruct (vget _ (x - a)) as [b|] eqn:E; [|done].
  apply vget_Some in E as [Hp E]. rewrite list_lookup_fmap in E.
  destruct (seqZ a n !! Z.to_nat (x - a)) as [y|] eqn:Ey; [|done]. apply lookup_seqZ in Ey as [-> _].
  injection E as <-. f_equal. lia.
Qed.

(** What [read] leaves of the caller's memory: all but the bytes it counts. *)
Lemma write_bytes_frame a n k l (m : Z → Z) x : drop (Z.to_nat k) l = drop (Z.to_nat k) (e1000.read_bytes a n m) → 0 ≤ k →
  ¬ (a ≤ x < a + k) → e1000.write_bytes a l m x = m x.
Proof.
  intros E Hk Hx. rewrite <- (write_back a n m x) at 1. unfold e1000.write_bytes.
  destruct (decide (0 ≤ x - a)) as [Hp|Hp]; [|by rewrite !(proj2 (vget_None _ _)) by lia].
  assert (∀ y : list Z, vget y (x - a) = drop (Z.to_nat k) y !! (Z.to_nat (x - a) - Z.to_nat k)%nat) as Hd.
  { intros y. rewrite <- (Z2Nat.id (x - a)) at 1 by done. rewrite vget_nat, lookup_drop. f_equal. lia. }
  by rewrite !Hd, E.
Qed.

Lemma sys_read_frame c fd buf len s v s' : sys_inv c s → sys_read fd buf len s = Ret (v, s') →
  ∀ a, umem s' a = umem s a ∨ buf ≤ a < buf + v ∧ v ≤ Z.max 0 (Z.min len 4096).
Proof.
  intros [Hw Hm Hl Hf Ha] ([] & _ & ([[[res b] t] w] & E & ([] & _ & [= <- <-])%bind_Ret)%bind_Ret)%bind_Ret a.
  cbn [umem]. unfold read in E. set (dst := e1000.read_bytes buf (Z.min len 4096) (umem s)) in E.
  destruct (get_file fd (fds s)) as [f|] eqn:Ef; [|injection E as _ <- _ _; left; apply write_back].
  destruct (Hf _ _ Ef) as [Hn Ho]. change (i_read (inode f) (offset f) dst (kw s)) with (Node_read (inode f) (offset f) dst (kw s)) in E.
  destruct (Node_read_ok c (inode f) (offset f) dst (kw s)) as (r & dst' & w' & Er & _ & _ & _ & Hr);
    [done|done|by apply read_bytes_ok|lia|]. rewrite Er in E. cbn [mbind outcome_bind] in E. destruct r as [k|e].
  - apply bind_Ret in E as (o & _ & [= <- <- _ _]). specialize (Hr k eq_refl). cbn [to_rax Ok].
    unfold dst in Hr. rewrite vlen_read_bytes_max in Hr.
    rewrite wrap_small by (unfold fits; lia). destruct (decide (buf ≤ a < buf + k)) as [|Hno]; [right; lia|left].
    eapply write_bytes_frame; [by eapply Node_read_frame; [|exact Er]; lia|lia|done].
  - injection E as _ <- _ _. destruct (Node_read_err _ _ _ _ _ _ _ Er) as [-> _]. left. apply write_back.
Qed.

Lemma sys_read_ok c fd buf len s : 0 ≤ c < 2 ^ 40 → sys_inv c s → goes c (buffer_ok Store buf len) (Z.max 0 (Z.min len 4096)) (sys_read fd buf len s).
Proof.
  intros Hc [Hw Hm Hl Hf Ha]. unfold sys_read, read. apply raw_slice_goes.
  set (dst := e1000.read_bytes buf (Z.min len 4096) (umem s)).
  assert (bytes dst) as Hb by by apply read_bytes_ok.
  assert (vlen dst = Z.max 0 (Z.min len 4096)) as Hv by (unfold dst; by rewrite vlen_read_bytes_max).
  assert (kw_ok (c + 1) (kw s)) by (eapply kw_ok_weaken; [|done]; lia).
  assert (fds_inv (c + 1) (fds s)) as Hfi by (eapply (fds_inv_weaken c); [lia|by split]).
  destruct (get_file fd (fds s)) as [f|] eqn:Ef.
  2:{ cbn [mbind outcome_bind Err]. apply touch_goes; [lia|]. left. eexists _, _. split; [done|]. split; [|apply to_rax_good; [lia|done]].
      apply sys_inv_intro; [done..|]. intros a. by apply write_bytes_ok. }
  destruct (Hf _ _ Ef) as [Hn Ho].
  destruct (Node_read_ok c (inode f) (offset f) dst (kw s)) as (r & dst' & w' & E & Hw' & Hb' & Hv' & Hr);
    [done|done|done|lia|]. change (i_read (inode f) (offset f) dst (kw s)) with
    (Node_read (inode f) (offset f) dst (kw s)). rewrite E. cbn [mbind outcome_bind].
  assert (∀ a, is_byte (e1000.write_bytes buf dst' (umem s) a)) by (intros a; by apply write_bytes_ok).
  assert (kw_ok (c + 1) w') by (eapply kw_ok_weaken; [|done]; lia).
  destruct r as [k|e].
  - specialize (Hr k eq_refl). rewrite checked_fits by (unfold fits; lia). cbn [mbind outcome_bind Ok].
    apply touch_goes; [lia|]. left.
    eexists _, _. split; [done|]. split; [|apply to_rax_good; [lia|]; intros j [= <-]; lia].
    apply sys_inv_intro; [done|done| |done].
    apply fds_inv_set; [done|by eapply get_file_lt|done|cbn [offset]; lia].
  - cbn [mbind outcome_bind]. apply (touch_goes _ _ _ 0); [lia|]. left.
    eexists _, _. split; [done|]. split; [|apply to_rax_good; [lia|done]]. by apply sys_inv_intro.
Qed.

Lemma sys_write_ok c fd buf len s : 0 ≤ c < 2 ^ 40 → sys_inv c s → goes c (buffer_ok Load buf len) (Z.max 0 (Z.min len 4096)) (sys_write fd buf len s).
Proof.
  intros Hc [Hw Hm Hl Hf Ha]. unfold sys_write, write. apply raw_slice_goes, touch_goes; [destruct (fd_loads fd s); lia|]. left.
  set (src := e1000.read_bytes buf (Z.min len 4096) (umem s)).
  assert (bytes src) as Hb by by apply read_bytes_ok.
  assert (vlen src = Z.max 0 (Z.min len 4096)) as Hv by (unfold src; by rewrite vlen_read_bytes_max).
  pose proof (vlen_nonneg src).
  assert (kw_ok (c + 1) (kw s)) by (eapply kw_ok_weaken; [|done]; lia).
  assert (fds_inv (c + 1) (fds s)) as Hfi by (eapply (fds_inv_weaken c); [lia|by split]).
  destruct (get_file fd (fds s)) as [f|] eqn:Ef.
  2:{ cbn [mbind outcome_bind]. eexists _, _. split; [done|]. split; [|apply to_rax_good; [lia|done]].
      by apply sys_inv_intro. }
  destruct (Hf _ _ Ef) as [Hn Ho].
  destruct (Node_write_ok c (inode f) (offset f) src (kw s)) as (r & w' & E & Hw' & Hr);
    [done|done|lia|lia|]. change (i_write (inode f) (offset f) src (kw s)) with
    (Node_write (inode f) (offset f) src (kw s)). rewrite E. cbn [mbind outcome_bind].
  destruct r as [k|e].
  - rewrite (Hr k eq_refl). rewrite checked_fits by (unfold fits; lia). cbn [mbind outcome_bind].
    eexists _, _. split; [done|]. split; [|apply to_rax_good; [lia|]; intros j [= <-]; lia].
    apply sys_inv_intro; [done|done| |done].
    apply fds_inv_set; [done|by eapply get_file_lt|done|cbn [offset]; lia].
  - eexists _, _. split; [done|]. split; [|apply to_rax_good; [lia|done]]. by apply sys_inv_intro.
Qed.

Lemma sock_get_snoc i x (t : list (option Net.Socket)) :
  sock_get i (t ++ [Some x]) = if bool_decide (i = vlen t) then Some x else sock_get i t.
Proof.
  unfold sock_get. case_bool_decide as E; [subst; by rewrite vget_snoc|].
  destruct (decide (i < vlen t)); [by rewrite vget_app_l|].
  rewrite !(proj2 (vget_None _ i)); [done|lia|rewrite vlen_app; change (vlen [Some x]) with 1; lia].
Qed.

(** [socket] gives a slot that was free, and touches no other. *)
Lemma socket_new_eq p (n : Net D) : ∃ i n',
  socket_new p n = Ret (i, n') ∧ world n' = world n ∧ cache n' = cache n ∧
  0 ≤ i < vlen (sockets n') ∧ sock_get i (sockets n) = None ∧
  (∀ j, sock_get j (sockets n') = if bool_decide (j = i) then Some (mkSocket p 0 None []) else sock_get j (sockets n)) ∧
  vlen (sockets n') = Z.max (vlen (sockets n)) (i + 1).
Proof.
  unfold socket_new. destruct (position sock_is_none (sockets n)) as [i|] eqn:E.
  - apply position_Some in E as [([x|] & Hx & Hn) _]; [done|]. pose proof (vget_lt _ _ _ Hx).
    eexists i, _. split; [done|]. cbn [set_sockets sockets world cache]. rewrite vlen_vset.
    split_and!; [done|done|lia|lia| | |lia].
    + unfold sock_get. by rewrite Hx.
    + intros j. by rewrite sock_get_vset.
  - pose proof (vlen_nonneg (sockets n)). eexists _, _. split; [done|].
    cbn [set_sockets sockets world cache]. rewrite vlen_app. change (vlen [Some _]) with 1.
    replace (vlen (sockets n) + 1 - 1) with (vlen (sockets n)) by lia.
    split_and!; [done|done|lia|lia| | |lia].
    + unfold sock_get. by rewrite (proj2 (vget_None _ _)) by lia.
    + intros j. apply sock_get_snoc.
Qed.

Lemma sys_socket_ok c p s : 0 ≤ c < 2 ^ 40 → sys_inv c s →
  ∃ v s', sys_socket p s = Ret (v, s') ∧ sys_inv (c + 1) s' ∧ good_rax 4096 v.
Proof.
  intros Hc [[Hk Hs Hcd] Hm Hl Hf Ha]. unfold sys_socket, on_net.
  destruct (socket_new_eq (wrap 8 p) (net (kw s))) as (i & n' & -> & Ew & _ & _ & _ & Hg & _).
  cbn [mbind outcome_bind].
  destruct (install_inode_ok (c + 1) (SocketInode i) (fds s)) as [Hg1 Hf1]; [lia|done| |].
  { eapply (fds_inv_weaken c); [lia|by split]. }
  destruct (install_inode (SocketInode i) (fds s)) as [r t]. eexists _, _. split; [done|].
  split; [|done]. apply sys_inv_intro; [|done|done|done]. split; [done| |].
  - intros j x. cbn [set_net net]. rewrite Hg. case_bool_decide; [intros [= <-]; by split|apply Hs].
  - unfold card_inv. cbn [set_net net]. rewrite Ew. eapply card_inv_weaken; [|exact Hcd]. lia.
Qed.

Lemma sock_update_ok c i f w : (∀ x, sock_ok x → sock_ok (f x)) → kw_ok c w →
  ∃ b w', on_net (sock_update i f) w = Ret (b, w') ∧ kw_ok (c + 1) w'.
Proof.
  intros Hf [Hk Hs Hc]. unfold on_net, sock_update.
  assert (card_inv (c + 1) (net w)) by (eapply card_inv_weaken; [|done]; lia).
  destruct (sock_get i (sockets (net w))) as [x|] eqn:Ex; cbn [mbind outcome_bind].
  - eexists _, _. split; [done|]. split; [done| |done].
    apply socks_inv_set; [done|by eapply sock_get_lt|]. apply Hf. by eapply Hs.
  - eexists _, _. split; [done|]. by split.
Qed.

Lemma bool_rax_good (b : bool) : good_rax 4096 (if b then 0 else wrap 64 (errno InvalidArg)).
Proof. destruct b; [by left|right; by eexists]. Qed.

Lemma sys_inv_weaken c s : sys_inv c s → sys_inv (c + 1) s.
Proof. apply sys_inv_le. lia. Qed.

Lemma sys_update_ok c i f s : (∀ x, sock_ok x → sock_ok (f x)) → 0 ≤ c → sys_inv c s →
  ∃ v s', (r ← on_net (sock_update i f) (kw s);
           let '(ok, w) := r in
           Ret (if (ok : bool) then 0 else wrap 64 (errno InvalidArg), mkSys w (mounts s) (fds s) (umem s)))
          = Ret (v, s') ∧ sys_inv (c + 1) s' ∧ good_rax 4096 v.
Proof.
  intros Hf Hc [Hw Hm Hl Hfd Ha]. destruct (sock_update_ok c i f (kw s)) as (b & w' & -> & Hw'); [done..|].
  cbn [mbind outcome_bind]. eexists _, _. split; [done|]. split; [|apply bool_rax_good].
  apply sys_inv_intro; [done|done| |done]. eapply (fds_inv_weaken c); [lia|by split].
Qed.

Lemma sys_bind_ok c fd port s : 0 ≤ c → sys_inv c s →
  ∃ v s', sys_bind fd port s = Ret (v, s') ∧ sys_inv (c + 1) s' ∧ good_rax 4096 v.
Proof.
  intros Hc Hs. unfold sys_bind. destruct (sock_index (W := KW) fd (fds s)) as [i|].
  - by apply sys_update_ok.
  - eexists _, _. split; [done|]. split; [by apply sys_inv_weaken|right; by eexists].
Qed.

Lemma sys_connect_ok c fd ip port s : 0 ≤ c → sys_inv c s →
  ∃ v s', sys_connect fd ip port s = Ret (v, s') ∧ sys_inv (c + 1) s' ∧ good_rax 4096 v.
Proof.
  intros Hc Hs. unfold sys_connect. destruct (sock_index (W := KW) fd (fds s)) as [i|].
  - apply sys_update_ok; [|done|done]. intros x [_ Hr]. split; [|done]. cbn [peer].
    split; [auto with bytes|done].
  - eexists _, _. split; [done|]. split; [by apply sys_inv_weaken|right; by eexists].
Qed.

Lemma sys_open_ok c p s : 0 ≤ c → sys_inv c s → goes c (cstr_ok (umem s) p) 4096 (sys_open p s).
Proof.
  intros Hc [Hw Hm Hl Hf Ha]. unfold sys_open.
  destruct (read_user_cstr_cases p (umem s)) as [[r ->]|(Hn & e & He & ->)]; cbn [mbind outcome_bind];
    [left|right; split; [done|by exists e]].
  destruct r as [path|].
  - destruct (open_ok (c + 1) path (mounts s) (fds s)) as [Hg Hfi]; [lia|done| |].
    { eapply (fds_inv_weaken c); [lia|by split]. }
    destruct (open path (mounts s) (fds s)) as [r t]. eexists _, _. split; [done|]. split; [|done].
    apply sys_inv_intro; [|done|done|done]. eapply kw_ok_weaken; [|done]. lia.
  - eexists _, _. split; [done|]. split; [by apply sys_inv_weaken|right; by eexists].
Qed.

Lemma sys_close_ok c fd s : 0 ≤ c → sys_inv c s →
  sys_inv (c + 1) (snd (sys_close fd s)) ∧ good_rax 4096 (fst (sys_close fd s)).
Proof.
  intros Hc [Hw Hm Hl Hf Ha]. unfold sys_close. pose proof (close_spec fd (fds s)) as Hs.
  assert (kw_ok (c + 1) (kw s)) by (eapply kw_ok_weaken; [|done]; lia).
  destruct (close fd (fds s)) as [[u|e] t]; cbn [fst snd].
  - destruct Hs as (_ & Hk & Hv). split; [|by left]. apply sys_inv_intro; [done|done| |done].
    eapply (fds_inv_weaken c); [lia|]. split; [lia|]. intros j f. rewrite Hk.
    case_bool_decide; [done|apply Hf].
  - destruct Hs as (_ & -> & _). split; [|right; by eexists].
    apply sys_inv_intro; [done|done| |done]. eapply (fds_inv_weaken c); [lia|by split].
Qed.
End calls.

(** ** Any program *)

Section programs.
Context {K D A : Type} `{Profile} `{e1000.Hw D} `{Heap A} `{UserPages}.
Abbreviation SY := (Sys K D A).
Implicit Types (s : SY) (c : Z).

(** What a call may answer. *)
Definition answer (f : SyscallFrame) (a : action) : Prop :=
  match a with
  | Resume f' => ∃ v, f' = set_rax v f ∧
      (good_rax (limit f) v ∨ (∀ n, rax f ≠ nr n) ∧ v = wrap 64 (-3))
  | ReturnToKernel code => rax f = nr Exit ∧ code = rdi f
  end.

(** The whole dispatcher, as [goes] for one call. *)
Definition dispatched c f m (o : outcome (action * SY)) : Prop :=
  (∃ a s', o = Ret (a, s') ∧ sys_inv (c + 1) s' ∧ answer f a) ∨
  ¬ buffers_ok f m ∧ ∃ e, bad_pointer e ∧ o = Panic e.

Lemma resume_ok c f m ok (r : outcome (Z * SY)) : (buffers_ok f m → ok) → goes c ok (limit f) r →
  dispatched c f m (r ≫= resume_with f).
Proof.
  intros Hok [(v & s' & -> & Hi & Hg)|(Hn & e & He & ->)]; cbn [mbind outcome_bind resume_with].
  - left. eexists _, s'. split; [done|]. split; [done|]. exists v. by split; [|left].
  - right. split; [auto|by exists e].
Qed.

Lemma resume_ok_ret c f m (r : outcome (Z * SY)) : rax f ≠ nr Read → rax f ≠ nr Write →
  (∃ v s', r = Ret (v, s') ∧ sys_inv (c + 1) s' ∧ good_rax 4096 v) → dispatched c f m (r ≫= resume_with f).
Proof.
  intros N1 N2 Hr. apply (resume_ok c f m True); [done|left]. unfold limit.
  by rewrite (proj2 (Z.eqb_neq _ _) N1), (proj2 (Z.eqb_neq _ _) N2).
Qed.

Lemma dispatch_cases c f s : 0 ≤ c < 2 ^ 40 → sys_inv c s → dispatched c f (umem s) (syscall_dispatch f s).
Proof.
  intros Hc Hs. unfold syscall_dispatch.
  destruct (Z.eqb_spec (rax f) (nr Write)) as [E1|N1].
  { apply (resume_ok c f _ (buffer_ok Load (rsi f) (rdx f))); [intros Hb; by apply Hb|]. unfold limit. rewrite E1. by apply sys_write_ok. }
  destruct (Z.eqb_spec (rax f) (nr Read)) as [E2|N2].
  { apply (resume_ok c f _ (buffer_ok Store (rsi f) (rdx f))); [intros Hb; by apply Hb|]. unfold limit. rewrite E2. by apply sys_read_ok. }
  destruct (Z.eqb_spec (rax f) (nr Open)) as [E3|N3].
  { apply (resume_ok c f _ (cstr_ok (umem s) (rdi f))); [intros Hb; by apply Hb|]. unfold limit. rewrite E3. apply sys_open_ok; [lia|done]. }
  destruct (Z.eqb_spec (rax f) (nr Close)) as [|N4].
  { destruct (sys_close_ok c (rdi f) s) as [Hi Hg]; [lia|done|].
    apply (resume_ok_ret c f _ (Ret (sys_close (rdi f) s))); [done|done|]. destruct (sys_close (rdi f) s) as [v s']. by exists v, s'. }
  destruct (Z.eqb_spec (rax f) (nr Socket)) as [|N5]; [by apply resume_ok_ret, sys_socket_ok|].
  destruct (Z.eqb_spec (rax f) (nr Bind)) as [|N6]; [apply resume_ok_ret, sys_bind_ok; [done|done|lia|done]|].
  destruct (Z.eqb_spec (rax f) (nr Connect)) as [|N7]; [apply resume_ok_ret, sys_connect_ok; [done|done|lia|done]|].
  left. destruct (Z.eqb_spec (rax f) (nr Exit)) as [|N8].
  - eexists _, s. split; [done|]. split; [by apply sys_inv_weaken|by split].
  - eexists _, s. split; [done|]. split; [by apply sys_inv_weaken|]. eexists. split; [done|]. right.
    split; [|done]. by intros [].
Qed.

Lemma dispatch_ok c f s : 0 ≤ c < 2 ^ 40 → sys_inv c s → buffers_ok f (umem s) →
  ∃ a s', syscall_dispatch f s = Ret (a, s') ∧ sys_inv (c + 1) s' ∧ answer f a.
Proof. intros Hc Hs Hb. by destruct (dispatch_cases c f s Hc Hs) as [?|[? _]]. Qed.

(** What a program that is resumed may find: rax, and its memory, which only [read] changes, in the
    bytes of the buffer it reports. *)
Definition reply (f : SyscallFrame) (v : Z) (m m' : Z → Z) : Prop :=
  (good_rax (limit f) v ∨ (∀ n, rax f ≠ nr n) ∧ v = wrap 64 (-3)) ∧ (∀ a, is_byte (m' a)) ∧
  ∀ a, m' a = m a ∨ rax f = nr Read ∧ rsi f ≤ a < rsi f + v ∧ v ≤ limit f.

Lemma resume_mem f (o : outcome (Z * SY)) f' s s' : (∀ v s', o = Ret (v, s') → umem s' = umem s) →
  o ≫= resume_with f = Ret (Resume f', s') → ∀ a, umem s' a = umem s a.
Proof. intros Ho ([v s1] & E & [= <- <-])%bind_Ret a. by rewrite (Ho _ _ E). Qed.

Lemma dispatch_memory c f v s s' : sys_inv c s → syscall_dispatch f s = Ret (Resume (set_rax v f), s') →
  ∀ a, umem s' a = umem s a ∨ rax f = nr Read ∧ rsi f ≤ a < rsi f + v ∧ v ≤ limit f.
Proof.
  intros Hs. unfold syscall_dispatch, limit.
  destruct (Z.eqb_spec (rax f) (nr Write)) as [E1|N1].
  { intros E a. left. revert E a. apply resume_mem. unfold sys_write.
    intros v' s1 ([] & _ & ([] & _ & ([[] ] & _ & [= <- <-])%bind_Ret)%bind_Ret)%bind_Ret. done. }
  destruct (Z.eqb_spec (rax f) (nr Read)) as [E2|N2].
  { intros ([v' s1] & E & [= Ev <-])%bind_Ret a. subst v'.
    destruct (sys_read_frame c _ _ _ _ _ _ Hs E a) as [?|[? ?]]; [by left|by right]. }
  intros E a. left. revert E a.
  destruct (rax f =? nr Open).
  { apply resume_mem. intros v' s1 ([p|] & _ & E)%bind_Ret; [|by injection E as _ <-]. destruct (open _ _ _). by injection E as _ <-. }
  destruct (rax f =? nr Close).
  { apply (resume_mem f (Ret (sys_close (rdi f) s))). unfold sys_close. destruct (close _ _). by intros v' s1 [= _ <-]. }
  destruct (rax f =? nr Socket).
  { apply resume_mem. intros v' s1 ([i w] & _ & E)%bind_Ret. destruct (install_inode _ _). by injection E as _ <-. }
  destruct (rax f =? nr Bind).
  { apply resume_mem. unfold sys_bind. destruct (sock_index _ _); [|by intros v' s1 [= _ <-]].
    intros v' s1 ([b w] & _ & [= _ <-])%bind_Ret. done. }
  destruct (rax f =? nr Connect).
  { apply resume_mem. unfold sys_connect. destruct (sock_index _ _); [|by intros v' s1 [= _ <-]].
    intros v' s1 ([b w] & _ & [= _ <-])%bind_Ret. done. }
  destruct (rax f =? nr Exit); [done|]. by intros [= _ <-].
Qed.

Lemma dispatch_reply c f s : 0 ≤ c < 2 ^ 40 → sys_inv c s → buffers_ok f (umem s) →
  ∃ a s', syscall_dispatch f s = Ret (a, s') ∧ sys_inv (c + 1) s' ∧
    ∀ f', a = Resume f' → ∃ v, f' = set_rax v f ∧ reply f v (umem s) (umem s').
Proof.
  intros Hc Hs Hb. destruct (dispatch_ok c f s Hc Hs Hb) as (a & s' & E & Hi & Ha). exists a, s'. split_and!; [done..|].
  intros f' ->. destruct Ha as (v & -> & Hv). exists v. split; [done|]. split; [done|]. split; [apply Hi|].
  exact (dispatch_memory c f v s s' Hs E).
Qed.

(** A program is the list of its calls, each with the memory as the program left
    it; [exit] ends it. *)
Definition set_umem (m : Z → Z) s : SY := mkSys (kw s) (mounts s) (fds s) m.

Fixpoint run_calls (p : list (SyscallFrame * (Z → Z))) s : outcome (list action * SY) :=
  match p with
  | [] => Ret ([], s)
  | (f, m) :: p' =>
      r ← syscall_dispatch f (set_umem m s);
      let '(a, s1) := r in
      match a with
      | ReturnToKernel _ => Ret ([a], s1)
      | Resume _ => r' ← run_calls p' s1; let '(l, s2) := r' in Ret (a :: l, s2)
      end
  end.

(** All calls came back, or one of them, after [i] that did, was given a bad pointer. *)
Definition served c p s : Prop :=
  (∃ l s', run_calls p s = Ret (l, s') ∧ sys_inv (c + vlen p) s' ∧
     ∀ i a, l !! i = Some a → ∃ f m, p !! i = Some (f, m) ∧ answer f a) ∨
  (∃ i f m e l s', p !! i = Some (f, m) ∧ ¬ buffers_ok f m ∧ bad_pointer e ∧
     run_calls (take i p) s = Ret (l, s') ∧ length l = i ∧ run_calls p s = Panic e).

Lemma run_calls_ok p : ∀ c s, 0 ≤ c → c + vlen p ≤ 2 ^ 40 → sys_inv c s →
  Forall (λ fm, ∀ a, is_byte (snd fm a)) p → served c p s.
Proof.
  induction p as [|[f m] p IH]; intros c s Hc Hl Hs Hm.
  - left. exists [], s. rewrite vlen_nil, Z.add_0_r. by split_and!.
  - apply Forall_cons in Hm as [Hm0 Hm]. rewrite vlen_cons in *. pose proof (vlen_nonneg p). unfold served. cbn [run_calls].
    destruct (dispatch_cases c f (set_umem m s)) as [(a & s1 & E & Hs1 & Ha)|(Hn & e & He & E)]; [lia|by destruct Hs; split| |].
    2:{ right. exists 0%nat, f, m, e, [], s. rewrite E. by split_and!. }
    rewrite E. cbn [mbind outcome_bind]. destruct a as [f'|code].
    + destruct (IH (c + 1) s1) as [(l & s2 & -> & Hs2 & Hl2)|(i & f2 & m2 & e & l & s2 & Hi & Hn & He & Et & Ei & ->)];
        [lia|lia|done|done| |]; cbn [mbind outcome_bind].
      * left. eexists _, s2. split; [done|]. rewrite vlen_cons. split; [by replace (c + (vlen p + 1)) with (c + 1 + vlen p) by lia|].
        intros [|i] a; [intros [= <-]; by eauto|]. apply Hl2.
      * right. exists (S i), f2, m2, e, (Resume f' :: l), s2. cbn [take run_calls length]. rewrite E. cbn [mbind outcome_bind].
        rewrite Et. split_and!; [done..|by rewrite Ei|done].
    + left. eexists _, s1. split; [done|]. rewrite vlen_cons. split.
      * eapply sys_inv_le; [|done]. lia.
      * intros [|i] a; [intros [= <-]; by eauto|done].
Qed.

End programs.

(** ** From the caller's memory to the device and back *)

Section io.
Context {K D A : Type} `{Profile} `{e1000.Hw D} `{Heap A} `{UserPages}.
Abbreviation KW := (Kworld K D A).
Abbreviation SY := (Sys K D A).
Implicit Types (s : SY) (f : SyscallFrame).

(** The string [path] at address [p], with its terminator. *)
Definition cstr_at (m : Z → Z) (p : Z) (path : list Z) : Prop :=
  (∀ i b, vget path i = Some b → m (p + i) = b ∧ b ≠ 0) ∧ m (p + vlen path) = 0.

Lemma cstr_at_cons m p b path : cstr_at m p (b :: path) → m p = b ∧ b ≠ 0 ∧ cstr_at m (p + 1) path.
Proof.
  intros [Hb Hz]. destruct (Hb 0 b) as [E ?]; [done|]. rewrite Z.add_0_r in E.
  split_and!; [done..|]. split.
  - intros i x Hx. pose proof (vget_lt _ _ _ Hx). rewrite <- Z.add_assoc, (Z.add_comm 1).
    apply Hb. by rewrite vget_cons_succ by lia.
  - rewrite vlen_cons in Hz. by replace (p + 1 + vlen path) with (p + (vlen path + 1)) by lia.
Qed.

(** Its bytes and the terminator can be read. *)
Definition cstr_mapped (p : Z) (path : list Z) : Prop := ∀ i, 0 ≤ i ≤ vlen path → access_fault Load (p + i) = None.

Lemma cstr_loop_eq m path : ∀ fuel p acc, cstr_at m p path → cstr_mapped p path → (length path < fuel)%nat →
  cstr_loop fuel p acc m = Ret (from_utf8 (acc ++ path)).
Proof.
  induction path as [|b path IH]; intros [|fuel] p acc Hp Hm Hf; simpl in Hf; try lia; cbn [cstr_loop];
    (rewrite touch_ok; [cbn [mbind outcome_bind]|
       intros q Hq; replace q with (p + 0) by lia; apply Hm; match goal with |- context [vlen ?l] => pose proof (vlen_nonneg l) end; lia]).
  - destruct Hp as [_ Hz]. change (vlen []) with 0 in Hz. rewrite Z.add_0_r in Hz.
    by rewrite Hz, app_nil_r.
  - apply cstr_at_cons in Hp as (Hb & Hn & Hp). rewrite Hb, (proj2 (Z.eqb_neq b 0)) by done.
    rewrite (IH fuel); [by rewrite <- app_assoc|done| |lia].
    intros i Hi. replace (p + 1 + i) with (p + (i + 1)) by lia. apply Hm. rewrite vlen_cons. lia.
Qed.

Lemma read_bytes_of a n m i : 0 ≤ i < n → vget (e1000.read_bytes a n m) i = Some (m (a + i)).
Proof.
  intros Hi. apply vget_Some. split; [lia|]. unfold e1000.read_bytes.
  rewrite list_lookup_fmap, lookup_seqZ_lt by lia. simpl. do 2 f_equal. lia.
Qed.

(** A write to the console reaches the serial line. [write] on a descriptor of the
    console (as 0, 1 and 2 are at boot) sends the bytes of the caller's buffer, the first
    4096 at most, in order, and returns how many; it changes no memory, no other
    register, no other part of the kernel and no other descriptor. *)
Theorem write_reaches_serial f s off :
  rax f = nr Write → get_file (rdi f) (fds s) = Some (mkFile Console off) →
  0 ≤ off → off + 4096 < 2 ^ 64 → 0 ≤ rdx f → rsi f ≠ 0 →
  let n := Z.min (rdx f) 4096 in
  (∀ a, rsi f ≤ a < rsi f + n → access_fault Load a = None) →
  ∃ s', syscall_dispatch f s = Ret (Resume (set_rax n f), s') ∧
    kw s' = set_serial (serial (kw s) ++ (umem s <$> seqZ (rsi f) n)) (kw s) ∧
    umem s' = umem s ∧ mounts s' = mounts s ∧
    get_file (rdi f) (fds s') = Some (mkFile Console (off + n)) ∧
    ∀ fd, fd ≠ rdi f → get_file fd (fds s') = get_file fd (fds s).
Proof.
  intros Hr Hg Ho Hl Hd Hp n Ht. unfold syscall_dispatch. rewrite Hr. cbn [nr Z.eqb Pos.eqb].
  unfold sys_write, write, fd_loads. rewrite Hg. cbn [inode offset node_loads]. fold n.
  rewrite raw_slice_ok, touch_ok by done. cbn [mbind outcome_bind].
  set (src := e1000.read_bytes (rsi f) n (umem s)).
  assert (vlen src = n) as Hv by (unfold src; rewrite vlen_read_bytes_max; lia).
  change (i_write Console off src (kw s)) with (Console_write (K := K) (D := D) (A := A) src (kw s)).
  unfold Console_write. rewrite serial_write_bytes_eq. cbn [mbind outcome_bind Ok]. rewrite Hv.
  rewrite checked_fits by (unfold fits; lia). cbn [mbind outcome_bind resume_with to_rax Ok].
  rewrite wrap_small by (unfold fits; lia). eexists. split; [reflexivity|].
  pose proof (get_file_lt _ _ _ Hg). cbn [kw umem mounts fds]. split_and!; [done..| |].
  - rewrite get_file_vset by done. by rewrite bool_decide_true.
  - intros fd Hfd. rewrite get_file_vset by done. by rewrite bool_decide_false.
Qed.

Lemma sys_read_contents f s n off data :
  rax f = nr Read → get_file (rdi f) (fds s) = Some (mkFile n off) → has_contents (W := KW) n data →
  0 ≤ off ≤ vlen data → vlen data < 2 ^ 64 → 0 ≤ rdx f → rsi f ≠ 0 →
  let k := Z.min (Z.min (rdx f) 4096) (vlen data - off) in
  (∀ a, rsi f ≤ a < rsi f + k → access_fault Store a = None) →
  ∃ s', syscall_dispatch f s = Ret (Resume (set_rax k f), s') ∧
    (∀ a, umem s' a = match vget data (off + (a - rsi f)) with
                      | Some b => if bool_decide (rsi f ≤ a < rsi f + k) then b else umem s a
                      | None => umem s a
                      end) ∧
    kw s' = kw s ∧ mounts s' = mounts s ∧ get_file (rdi f) (fds s') = Some (mkFile n (off + k)) ∧
    ∀ fd, fd ≠ rdi f → get_file fd (fds s') = get_file fd (fds s).
Proof.
  intros Hr Hg Hc Ho Hl Hd Hp k Ht. unfold syscall_dispatch. rewrite Hr. cbn [nr Z.eqb Pos.eqb].
  unfold sys_read, read. rewrite Hg, raw_slice_ok by done. cbn [inode offset mbind outcome_bind].
  set (m := Z.min (rdx f) 4096) in *. set (dst := e1000.read_bytes (rsi f) m (umem s)).
  assert (vlen dst = m) as Hv by (unfold dst; rewrite vlen_read_bytes_max; lia).
  rewrite Hc by lia. cbn [mbind outcome_bind Ok].
  assert (fst (contents_read data off dst) = k) as Hk.
  { unfold contents_read. rewrite Hv. case (Z.leb_spec (vlen data) off); cbn [fst]; lia. }
  rewrite Hk, checked_fits by (unfold fits; lia). cbn [mbind outcome_bind Ok]. rewrite touch_ok by done.
  cbn [mbind outcome_bind resume_with to_rax Ok].
  rewrite wrap_small by (unfold fits; lia). eexists. split; [reflexivity|].
  pose proof (get_file_lt _ _ _ Hg). cbn [kw umem mounts fds]. split_and!; [|done|done| |].
  - intros a. unfold e1000.write_bytes.
    assert (vget (snd (contents_read data off dst)) (a - rsi f) =
      if bool_decide (rsi f ≤ a < rsi f + k) then vget data (off + (a - rsi f))
      else vget dst (a - rsi f)) as ->.
    { unfold contents_read. case (Z.leb_spec (vlen data) off) as [He|Hlt]; cbn [snd].
      { rewrite bool_decide_false by lia. done. }
      rewrite Hv. fold k. assert (length (take (Z.to_nat k) (drop (Z.to_nat off) data)) = Z.to_nat k) as Hlk
        by (rewrite length_take, length_drop; unfold vlen in *; lia).
      case_bool_decide as Hi.
      - rewrite vget_app_l by (unfold vlen; rewrite Hlk; lia).
        destruct (vget_in data (off + (a - rsi f))) as [b Hb]; [lia|]. rewrite Hb.
        apply vget_Some in Hb as [_ Hb]. apply vget_Some. split; [lia|].
        rewrite lookup_take_lt, lookup_drop by lia. rewrite <- Hb. f_equal. lia.
      - destruct (decide (0 ≤ a - rsi f)) as [Hq|Hq].
        + rewrite <- (Z2Nat.id (a - rsi f)) by done. rewrite !vget_nat.
          rewrite lookup_app_r by lia. rewrite Hlk, lookup_drop. f_equal. lia.
        + rewrite !(proj2 (vget_None _ _)); [done|lia|lia]. }
    case_bool_decide as Hi.
    + destruct (vget_in data (off + (a - rsi f))) as [b Hb]; [lia|]. by rewrite Hb.
    + assert (match vget dst (a - rsi f) with Some b => b | None => umem s a end = umem s a) as ->.
      { destruct (decide (0 ≤ a - rsi f < m)) as [Hq|Hq].
        - unfold dst. rewrite read_bytes_of by done. f_equal. lia.
        - by rewrite (proj2 (vget_None _ _)) by lia. }
      by destruct (vget data _).
  - rewrite get_file_vset by done. by rewrite bool_decide_true.
  - intros fd Hfd. rewrite get_file_vset by done. by rewrite bool_decide_false.
Qed.

(** C20. A file is read through system calls as it is. With the path as a C string in its
    memory (at most 255 bytes, UTF-8, on pages it may read), [open] gives a program a descriptor that was free,
    changing no other and no memory; and whenever a descriptor is open on the file at
    offset [off], [read] copies the next bytes of the file, as many as asked for, at most
    4096, up to the end, to the caller's buffer (which it may write), returns their number, advances the
    offset by it, and changes no other byte of memory and no other descriptor. *)
Theorem file_syscalls f1 s path n data :
  rax f1 = nr Open → cstr_at (umem s) (rdi f1) path → cstr_mapped (rdi f1) path → vlen path ≤ 255 → utf8_valid path = true →
  resolve (W := KW) path (mounts s) = Ok n → has_contents (W := KW) n data → vlen data < 2 ^ 64 →
  vlen (fds s) ≤ MAX_FDS → (∃ k, 0 ≤ k < MAX_FDS ∧ get_file k (fds s) = None) →
  ∃ fd s1, syscall_dispatch f1 s = Ret (Resume (set_rax fd f1), s1) ∧
    0 ≤ fd < MAX_FDS ∧ get_file fd (fds s) = None ∧
    (∀ k, get_file k (fds s1) = if bool_decide (k = fd) then Some (mkFile n 0) else get_file k (fds s)) ∧
    kw s1 = kw s ∧ umem s1 = umem s ∧ mounts s1 = mounts s ∧
    ∀ f2 s2 off, rax f2 = nr Read → 0 ≤ rdx f2 → 0 ≤ off ≤ vlen data →
      get_file (rdi f2) (fds s2) = Some (mkFile n off) → rsi f2 ≠ 0 →
      let k := Z.min (Z.min (rdx f2) 4096) (vlen data - off) in
      (∀ a, rsi f2 ≤ a < rsi f2 + k → access_fault Store a = None) →
      ∃ s3, syscall_dispatch f2 s2 = Ret (Resume (set_rax k f2), s3) ∧
        (∀ a, umem s3 a = match vget data (off + (a - rsi f2)) with
                          | Some b => if bool_decide (rsi f2 ≤ a < rsi f2 + k) then b else umem s2 a
                          | None => umem s2 a
                          end) ∧
        kw s3 = kw s2 ∧ mounts s3 = mounts s2 ∧
        get_file (rdi f2) (fds s3) = Some (mkFile n (off + k)) ∧
        ∀ fd', fd' ≠ rdi f2 → get_file fd' (fds s3) = get_file fd' (fds s2).
Proof.
  intros Hr Hp Hmp Hl Hu Hres Hc Hd Hv (k0 & Hk0 & Hfree).
  pose proof (install_spec (mkFile n 0) (fds s) Hv) as Hi.
  unfold syscall_dispatch at 1. rewrite Hr. cbn [nr Z.eqb Pos.eqb].
  unfold sys_open, read_user_cstr. rewrite (cstr_loop_eq _ path) by (done || (unfold vlen in Hl; lia)).
  cbn [app mbind outcome_bind]. unfold from_utf8. rewrite Hu. unfold open. rewrite Hres. cbn [Ok]. unfold install_inode.
  destruct (install (mkFile n 0) (fds s)) as [[fd|] t]; [|by destruct Hi as [_ Hi]; destruct (Hi k0 Hk0)].
  destruct Hi as (Hfd & Hn & _ & Hk & _). exists fd. eexists.
  cbn [mbind outcome_bind resume_with to_rax Ok]. rewrite wrap_small by (unfold fits, MAX_FDS in *; lia).
  split; [reflexivity|]. split_and!; [lia|lia|done|done|done|done|done|].
  intros f2 s2 off Hr2 Hx Ho Hg Hp2 Ht. by apply sys_read_contents.
Qed.

(** ** Sockets and descriptors *)

Definition live (t : list (option Net.Socket)) : nat := length (filter is_Some t).

Lemma live_vset i x t : vget t i = Some None → live (vset t i (Some x)) = S (live t).
Proof.
  intros Hi. pose proof (vget_lt _ _ _ Hi) as Hlt. apply vget_Some in Hi as [Hp Hi].
  unfold vset. rewrite bool_decide_true by done. rewrite insert_take_drop by (unfold vlen in Hlt; lia).
  rewrite <- (take_drop_middle t _ _ Hi) at 3. unfold live.
  rewrite !filter_app, filter_cons_True, filter_cons_False by (done || by intros []).
  rewrite !length_app. simpl. lia.
Qed.

Lemma live_snoc x t : live (t ++ [Some x]) = S (live t).
Proof. unfold live. rewrite filter_app, length_app, filter_cons_True by done. simpl. lia. Qed.

(** One [socket] call and the [close] of what it returned. *)
Definition socket_close_round s : outcome SY :=
  r ← sys_socket PROTO_UDP s; let '(fd, s1) := r in Ret (snd (sys_close fd s1)).

Lemma socket_close_round_eq s :
  vlen (fds s) ≤ MAX_FDS → (∃ k, 0 ≤ k < MAX_FDS ∧ get_file k (fds s) = None) →
  ∃ s', socket_close_round s = Ret s' ∧ live (sockets (net (kw s'))) = S (live (sockets (net (kw s)))) ∧
    vlen (fds s') ≤ MAX_FDS ∧ ∀ k, get_file k (fds s') = get_file k (fds s).
Proof.
  intros Hv (k0 & Hk0 & Hfree). unfold socket_close_round, sys_socket, on_net, socket_new.
  assert (∀ i n', ∃ s', (let '(res, t) := install_inode (SocketInode i) (fds s) in
      Ret (snd (sys_close (to_rax res) (mkSys (set_net n' (kw s)) (mounts s) t (umem s))))) = Ret s' ∧
      net (kw s') = n' ∧ vlen (fds s') ≤ MAX_FDS ∧ ∀ k, get_file k (fds s') = get_file k (fds s)) as Hfd.
  { intros i n'. pose proof (install_spec (mkFile (SocketInode i) 0) (fds s) Hv) as Hi. unfold install_inode.
    destruct (install _ (fds s)) as [[fd|] t]; [|by destruct Hi as [_ Hi]; destruct (Hi k0 Hk0)].
    destruct Hi as (Hfd & Hn & _ & Hk & Hvt). cbn [to_rax Ok].
    rewrite wrap_small by (unfold fits, MAX_FDS in *; lia). eexists. split; [reflexivity|].
    unfold sys_close. cbn [fds]. pose proof (close_spec fd t) as Hc.
    destruct (close fd t) as [[u|e] t']; cbn [snd kw fds set_net net].
    - destruct Hc as (_ & Hk' & Hv'). split_and!; [done|lia|]. intros k. rewrite Hk', Hk.
      case_bool_decide; by subst.
    - destruct Hc as (_ & _ & Hno). rewrite Hk, bool_decide_true in Hno by done. done. }
  destruct (position sock_is_none (sockets (net (kw s)))) as [i|] eqn:E; cbn [mbind outcome_bind].
  - apply position_Some in E as [([x|] & Hx & ?) _]; [done|].
    destruct (Hfd i (set_sockets (vset (sockets (net (kw s))) i (Some (mkSocket (wrap 8 PROTO_UDP) 0 None [])))
      (net (kw s)))) as (s' & Es & En & ? & ?).
    destruct (install_inode (SocketInode i) (fds s)) as [res t]. cbn [mbind outcome_bind].
    rewrite Es. exists s'. split_and!; [done| |done|done]. rewrite En. by apply live_vset.
  - set (i := vlen _ - 1). destruct (Hfd i (set_sockets (sockets (net (kw s)) ++
      [Some (mkSocket (wrap 8 PROTO_UDP) 0 None [])]) (net (kw s)))) as (s' & Es & En & ? & ?).
    destruct (install_inode (SocketInode i) (fds s)) as [res t]. cbn [mbind outcome_bind].
    rewrite Es. exists s'. split_and!; [done| |done|done]. rewrite En. apply live_snoc.
Qed.

(** Closing the descriptor of a socket does not free the socket: after any number of
    rounds of [socket] followed by [close] of the descriptor it returned, the descriptor
    table is as it was, but that many more sockets occupy the socket table, which
    no descriptor names any more. *)
Theorem closed_sockets_leak rounds s :
  vlen (fds s) ≤ MAX_FDS → (∃ k, 0 ≤ k < MAX_FDS ∧ get_file k (fds s) = None) →
  ∃ s', for_each (replicate rounds tt) (λ _, socket_close_round) s = Ret s' ∧
    live (sockets (net (kw s'))) = (live (sockets (net (kw s))) + rounds)%nat ∧
    ∀ k, get_file k (fds s') = get_file k (fds s).
Proof.
  revert s. induction rounds as [|r IH]; intros s Hv Hf; cbn [replicate for_each].
  - exists s. split_and!; [done|lia|done].
  - destruct (socket_close_round_eq s Hv Hf) as (s1 & -> & Hl & Hv1 & Hk). cbn [mbind outcome_bind].
    destruct (IH s1) as (s' & -> & Hl' & Hk'); [done| |].
    { destruct Hf as (k & ? & ?). exists k. by rewrite Hk. }
    exists s'. split_and!; [done|lia|]. intros k. by rewrite Hk', Hk.
Qed.
End io.

(** ** Witnesses: a booted kernel with one file, and a program *)

Definition toy_root : initrd.InodeNode :=
  initrd.Node (str "/") Dir [] [initrd.file (str "motd.txt") (str "hi")].

Definition toy_umem : Z → Z := e1000.write_bytes 0x400000 (str "/initrd/motd.txt") (λ _, 0).

Definition toy_sys : Sys unit (Z → Z) unit :=
  mkSys (mkKworld (mkKbd tt []) [] net0 pmm.new tt 0) (boot_mounts toy_root) boot_fds toy_umem.

Definition call (n a b d : Z) : SyscallFrame := mkFrame n 7 8 d b a 9 10 11 12 13 14 15 16 17.

(** One page of text at 0x400000, one of data at 0x500000. *)
Definition toy_pages : UserPages :=
  {| can a p := (p / 4096 =? 0x500) || match a with Load => p / 4096 =? 0x400 | Store => false end |}.

Lemma toy_text a : 0x400000 ≤ a < 0x400020 → @access_fault toy_pages Load a = None.
Proof.
  intros Ha. unfold access_fault, canonical. cbn [can toy_pages]. assert (a / 4096 = 0x400) as -> by (symmetry; apply Z.div_unique with (a - 0x400000); lia).
  rewrite (proj2 (Z.leb_le 0 a)), (proj2 (Z.ltb_lt a (2 ^ 47))) by lia. done.
Qed.

Lemma toy_data a : 0x500000 ≤ a < 0x500020 → @access_fault toy_pages Store a = None.
Proof.
  intros Ha. unfold access_fault, canonical. cbn [can toy_pages]. assert (a / 4096 = 0x500) as -> by (symmetry; apply Z.div_unique with (a - 0x500000); lia).
  rewrite (proj2 (Z.leb_le 0 a)), (proj2 (Z.ltb_lt a (2 ^ 47))), (proj2 (Z.leb_gt (2 ^ 47) a)) by lia. done.
Qed.

Lemma toy_umem_byte a : is_byte (toy_umem a).
Proof.
  unfold toy_umem. apply (write_bytes_ok 0x400000 (str "/initrd/motd.txt") (λ _, 0) a); [apply str_bytes|].
  intros x. split; lia.
Qed.

Lemma toy_sys_inv : @sys_inv unit (Z → Z) unit 0 toy_sys.
Proof.
  split.
  - split; [constructor| |by vm_compute].
    intros i x E. pose proof (sock_get_lt _ _ _ E) as Hi. change (vlen (sockets (net (kw toy_sys)))) with 1 in Hi.
    assert (i = 0) as -> by lia. injection E as <-. by split.
  - intros m [-> |[-> | ->]]%boot_mount_cases; [done|done|].
    exact (conj (List.Forall_nil _) (conj (conj (str_bytes "hi") I) I)).
  - by vm_compute.
  - intros fd f E. pose proof (get_file_lt _ _ _ E) as Hfd. change (vlen (fds toy_sys)) with 3 in Hfd.
    assert (fd = 0 ∨ fd = 1 ∨ fd = 2) as [-> |[-> | ->]] by lia; injection E as <-; (split; [done|cbn [offset]; lia]).
  - exact toy_umem_byte.
Qed.

(** [open], [read], an unknown call and [exit]; and a [write] from an address that is not mapped. *)
Definition toy_calls : list (SyscallFrame * (Z → Z)) :=
  [(call 3 0x400000 0 0, toy_umem); (call 4 3 0x500000 16, toy_umem); (call 99 0 0 0, toy_umem); (call 2 0 0 0, toy_umem)].

Definition bad_call : SyscallFrame * (Z → Z) := (call 1 1 0x600000 4, toy_umem).

Definition returns {R} (o : outcome R) : bool := match o with Ret _ => true | Panic _ => false end.

Lemma toy_calls_return : returns (@run_calls unit (Z → Z) unit dev plain_Hw toy_Heap toy_pages toy_calls toy_sys) = true.
Proof. vm_compute. reflexivity. Qed.

Lemma bad_call_faults : @run_calls unit (Z → Z) unit dev plain_Hw toy_Heap toy_pages [bad_call] toy_sys = Panic PFault.
Proof. vm_compute. reflexivity. Qed.


Lemma write_reaches_serial_witness :
  ∃ s', @syscall_dispatch unit (Z → Z) unit dev plain_Hw toy_Heap toy_pages (call 1 1 0x400000 7) toy_sys =
      Ret (Resume (set_rax 7 (call 1 1 0x400000 7)), s') ∧
    serial (kw s') = str "/initrd".
Proof.
  destruct (@write_reaches_serial unit (Z → Z) unit dev plain_Hw toy_Heap toy_pages (call 1 1 0x400000 7) toy_sys 0)
    as (s' & E & Hk & _); [reflexivity|reflexivity|lia|lia|cbn; lia|discriminate| |].
  { intros a Ha. cbn in Ha. apply toy_text. lia. }
  exists s'. split; [exact E|]. rewrite Hk. by vm_compute.
Defined.

Lemma file_syscalls_witness :
  ∃ fd s1, @syscall_dispatch unit (Z → Z) unit dev plain_Hw toy_Heap toy_pages (call 3 0x400000 0 0) toy_sys =
      Ret (Resume (set_rax fd (call 3 0x400000 0 0)), s1) ∧
    ∃ s2, @syscall_dispatch unit (Z → Z) unit dev plain_Hw toy_Heap toy_pages (call 4 fd 0x500000 16) s1 =
      Ret (Resume (set_rax 2 (call 4 fd 0x500000 16)), s2) ∧
      umem s2 <$> seqZ 0x500000 3 = str "hi" ++ [0].
Proof.
  destruct (@file_syscalls unit (Z → Z) unit dev plain_Hw toy_Heap toy_pages (call 3 0x400000 0 0) toy_sys
    (str "/initrd/motd.txt") (Ram (initrd.file (str "motd.txt") (str "hi"))) (str "hi"))
    as (fd & s1 & E & _ & _ & Hg & _ & Hm & _ & Hread).
  - reflexivity.
  - split; [|by vm_compute]. intros i b Hb. pose proof (vget_lt _ _ _ Hb) as Hi.
    split.
    + cbn [umem toy_sys call rdi]. unfold toy_umem, e1000.write_bytes.
      replace (0x400000 + i - 0x400000) with i by lia. by rewrite Hb.
    + apply vget_elem_of in Hb. intros ->. revert Hb. apply (bool_decide_unpack (0 ∉ _)). by vm_compute.
  - intros i Hi. change (vlen (str "/initrd/motd.txt")) with 16 in Hi. apply toy_text. cbn [call rdi]. lia.
  - by vm_compute.
  - by vm_compute.
  - by vm_compute.
  - exact (ram_has_contents (initrd.file (str "motd.txt") (str "hi"))).
  - by vm_compute.
  - by vm_compute.
  - exists 3. split; [unfold MAX_FDS; lia|reflexivity].
  - exists fd, s1. split; [exact E|].
    destruct (Hread (call 4 fd 0x500000 16) s1 0) as (s2 & E2 & Hm2 & _).
    + reflexivity.
    + cbn; lia.
    + change (vlen (str "hi")) with 2. lia.
    + cbn [call rdi]. rewrite Hg. by rewrite bool_decide_true.
    + discriminate.
    + intros a Ha. change (vlen (str "hi")) with 2 in Ha. cbn [call rsi rdx] in Ha. apply toy_data. lia.
    + exists s2. split; [exact E2|]. change (seqZ 0x500000 3) with [0x500000; 0x500001; 0x500002].
      cbn [fmap list_fmap]. rewrite !Hm2, Hm. by vm_compute.
Defined.

Lemma closed_sockets_leak_witness :
  ∃ s', for_each (replicate 5 tt)
      (λ _, @socket_close_round unit (Z → Z) unit) toy_sys = Ret s' ∧
    live (sockets (net (kw s'))) = 6%nat ∧ get_file 3 (fds s') = None.
Proof.
  destruct (@closed_sockets_leak unit (Z → Z) unit 5 toy_sys) as (s' & E & Hl & Hk).
  - by vm_compute.
  - exists 3. split; [unfold MAX_FDS; lia|reflexivity].
  - exists s'. split; [exact E|]. split; [exact Hl|]. rewrite Hk. reflexivity.
Defined.
