(* ===== verification/SyscallErrors.v ===== *)
(** * SyscallErrors: what a failed system call leaves behind

    A call that answers with an error number has changed nothing: not the files, not the
    devices, not the network, not the caller's memory. The exception is [socket] with a
    full descriptor table, which has already taken a socket. Then, which arguments are
    errors, and with which number. *)

From S2P Require Import Prelude Pmm Bytes E1000 Vfs Net NetProps Initrd Devices Syscall SyscallProps.
Import vfs fs keyboard syscall.

(** An error number, as the caller finds it in rax. *)
Definition failed (v : Z) : Prop := 2 ^ 64 - 4096 ≤ v.

Lemma to_rax_failed r : (∀ k, r = inl k → 0 ≤ k ≤ 4096) → failed (to_rax r) → ∃ e, r = inr e.
Proof.
  destruct r as [k|e]; [|by exists e]. intros Hk. specialize (Hk k eq_refl). unfold failed. cbn [to_rax].
  rewrite wrap_small by (unfold fits; lia). lia.
Qed.

Section errors.
Context {K D A : Type} `{Profile} `{e1000.Hw D} `{Heap A} `{UserPages}.
Abbreviation SY := (Sys K D A).
Abbreviation KW := (Kworld K D A).
Implicit Types (s : SY) (w : KW) (c : Z).

Definition unchanged s s' : Prop :=
  mounts s' = mounts s ∧ fds s' = fds s ∧ kw s' = kw s ∧ ∀ a, umem s' a = umem s a.

(** ** Files *)

(** Without a card nothing is sent, and with one the sending succeeds. *)
Lemma udp_send_err c sport dst dport data (n n' : Net D) :
  bytes dst → length dst = 4%nat → bytes data → vlen data ≤ 4096 → c + 1 < 2 ^ 64 → card_inv c n →
  udp_send sport dst dport data n = Ret (false, n') → n' = n.
Proof.
  intros Hb Hl Hd Hlen Hc Hi E. destruct (udp_datagram_eq sport dst dport data Hb Hl Hd) as (u & Eu & _); [lia|].
  destruct (ip_send_eq dst PROTO_UDP (udp_bytes sport dport u data) n) as (k & _ & _ & E2);
    [done|done|done|by eapply card_inv_ok|].
  unfold udp_send in E. rewrite (bind_lift _ _ _ _ Eu), E2 in E. unfold has_nic, sent, e1000.send in E.
  destruct (e1000.nic (world n)); [discriminate|]. injection E as <-. by destruct n.
Qed.

Lemma Node_write_err c n off data w e w' : kw_ok c w → bytes data → vlen data ≤ 4096 → c + 1 < 2 ^ 64 →
  Node_write n off data w = Ret (inr e, w') → w' = w.
Proof.
  intros [_ Hs Hc] Hd Hl Hlt. destruct n as [| | | | | |g|r|i]; cbn [Node_write]; try (intros [= _ <-]; done); try discriminate.
  assert (∀ n', n' = net w → set_net n' w = w) as Hid by (intros n' ->; by destruct w).
  unfold on_net, SocketInode_write, sendto, gets, mbind, outcome_bind, M_bind.
  destruct (sock_get i (sockets (net w))) as [x|] eqn:Ex; cbn [option_bind];
    [|intros [= _ <-]; by apply Hid].
  destruct (Hs _ _ Ex) as [Hp _]. destruct (peer x) as [[ip port]|]; [|intros [= _ <-]; by apply Hid].
  destruct Hp as [Hb H4]. rewrite Ex. destruct (negb _); [intros [= _ <-]; by apply Hid|].
  destruct (udp_send (local_port x) ip port data (net w)) as [[[|] n']|] eqn:E; try discriminate.
  unfold mret, M_ret. intros [= _ <-]. apply Hid. exact (udp_send_err c _ _ _ _ _ _ Hb H4 Hd Hl Hlt Hc E).
Qed.

(** ** The calls *)

(** What a call that came back did before it looked at the descriptor. *)
Lemma raw_slice_inv {R} p (o : outcome R) x : (_ ← raw_slice p; o) = Ret x → o = Ret x.
Proof. intros ([] & _ & E)%bind_Ret. exact E. Qed.

Lemma touch_inv {R} a p n (o : outcome R) x : (_ ← touch a p n; o) = Ret x → o = Ret x.
Proof. intros ([] & _ & E)%bind_Ret. exact E. Qed.

Lemma sys_read_err c fd buf len s v s' : 0 ≤ c < 2 ^ 40 → sys_inv c s →
  sys_read fd buf len s = Ret (v, s') → failed v → unchanged s s'.
Proof.
  intros Hc [Hw Hm Hl Hf Ha] E Hv. apply raw_slice_inv in E. unfold read in E.
  set (dst := e1000.read_bytes buf (Z.min len 4096) (umem s)) in E.
  destruct (get_file fd (fds s)) as [f|] eqn:Ef.
  2:{ cbn [mbind outcome_bind] in E. apply touch_inv in E. injection E as _ <-. split_and!; [done..|]. intros a. apply write_back. }
  destruct (Hf _ _ Ef) as [Hn Ho]. assert (vlen dst ≤ 4096) as Hd by (unfold dst; rewrite vlen_read_bytes_max; lia).
  destruct (Node_read_ok c (inode f) (offset f) dst (kw s)) as (r & dst' & w' & Er & _ & _ & _ & Hr);
    [done|done|by apply read_bytes_ok|lia|].
  change (i_read (inode f) (offset f) dst (kw s)) with (Node_read (inode f) (offset f) dst (kw s)) in E.
  rewrite Er in E. cbn [mbind outcome_bind] in E. destruct r as [k|e].
  - exfalso. specialize (Hr k eq_refl). rewrite checked_fits in E by (unfold fits; lia). cbn [mbind outcome_bind] in E.
    apply touch_inv in E. injection E as <- _. destruct (to_rax_failed (Ok k)) as [e [=]]; [|done]. intros j [= <-]. lia.
  - cbn [mbind outcome_bind] in E. apply touch_inv in E. injection E as _ <-.
    destruct (Node_read_err _ _ _ _ _ _ _ Er) as [-> ->]. split_and!; [done..|]. intros a. apply write_back.
Qed.

Lemma sys_write_err c fd buf len s v s' : 0 ≤ c < 2 ^ 40 → sys_inv c s →
  sys_write fd buf len s = Ret (v, s') → failed v → unchanged s s'.
Proof.
  intros Hc [Hw Hm Hl Hf Ha] E Hv. apply raw_slice_inv, touch_inv in E. unfold write in E.
  set (src := e1000.read_bytes buf (Z.min len 4096) (umem s)) in E.
  destruct (get_file fd (fds s)) as [f|] eqn:Ef; [|by cbn in E; injection E as _ <-].
  destruct (Hf _ _ Ef) as [Hn Ho]. assert (vlen src ≤ 4096) as Hd by (unfold src; rewrite vlen_read_bytes_max; lia).
  assert (bytes src) as Hb by by apply read_bytes_ok.
  destruct (Node_write_ok c (inode f) (offset f) src (kw s)) as (r & w' & Er & _ & Hr); [done|done|done|lia|].
  change (i_write (inode f) (offset f) src (kw s)) with (Node_write (inode f) (offset f) src (kw s)) in E.
  rewrite Er in E. cbn [mbind outcome_bind] in E. destruct r as [k|e].
  - exfalso. rewrite (Hr k eq_refl) in E. pose proof (vlen_nonneg src). rewrite checked_fits in E by (unfold fits; lia).
    cbn [mbind outcome_bind] in E. injection E as <- _. destruct (to_rax_failed (Ok (vlen src))) as [e [=]]; [|done].
    intros j [= <-]. lia.
  - injection E as _ <-. rewrite (Node_write_err c _ _ _ _ _ _ Hw Hb Hd ltac:(lia) Er). by split_and!.
Qed.

Lemma install_inode_err n t : vlen t ≤ MAX_FDS → failed (to_rax (fst (install_inode (N := Node) n t))) →
  snd (install_inode n t) = t.
Proof.
  intros Hl Hv. pose proof (install_spec (mkFile n 0) t Hl) as Hi. unfold install_inode in *.
  destruct (install (mkFile n 0) t) as [[fd|] t']; cbn [fst snd] in *; [|by destruct Hi].
  destruct Hi as [Hfd _]. destruct (to_rax_failed (Ok fd)) as [e [=]]; [|done]. intros k [= <-]. unfold MAX_FDS in Hfd. lia.
Qed.

Lemma sys_open_err p s v s' : vlen (fds s) ≤ MAX_FDS → sys_open p s = Ret (v, s') → failed v → unchanged s s'.
Proof.
  intros Hl E Hv. apply bind_Ret in E as ([path|] & _ & E); [|by injection E as _ <-].
  unfold open in E. destruct (resolve (W := KW) path (mounts s)) as [n|e]; [|by injection E as _ <-].
  pose proof (install_inode_err n (fds s) Hl) as Hi. destruct (install_inode n (fds s)) as [r t].
  injection E as <- <-. cbn [fst snd] in Hi. rewrite Hi by done. by split_and!.
Qed.

Lemma sys_close_err fd s v s' : sys_close fd s = (v, s') → failed v → unchanged s s'.
Proof.
  intros E Hv. unfold sys_close in E. pose proof (close_spec fd (fds s)) as Hc. destruct (close fd (fds s)) as [[u|e] t].
  - injection E as <- _. unfold failed in Hv. lia.
  - injection E as _ <-. destruct Hc as (_ & -> & _). by split_and!.
Qed.

(** [bind] and [connect] fail before they touch the socket. *)
Lemma sock_update_err i f s v s' :
  (r ← on_net (sock_update i f) (kw s);
   let '(ok, w) := r in
   Ret (if (ok : bool) then 0 else wrap 64 (errno InvalidArg), mkSys w (mounts s) (fds s) (umem s))) = Ret (v, s') →
  failed v → unchanged s s'.
Proof.
  unfold on_net, sock_update. destruct (sock_get i (sockets (net (kw s)))) as [x|]; cbn [mbind outcome_bind].
  - intros [= <- <-] Hv. unfold failed in Hv. lia.
  - intros [= _ <-] _. split_and!; try done. cbn [kw]. by destruct (kw s).
Qed.

(** [socket] with no descriptor left has taken a socket. *)
Lemma sys_socket_err p s v s' : vlen (fds s) ≤ MAX_FDS → sys_socket p s = Ret (v, s') → failed v →
  mounts s' = mounts s ∧ fds s' = fds s ∧ umem s' = umem s ∧ kw s' = set_net (net (kw s')) (kw s) ∧
  world (net (kw s')) = world (net (kw s)) ∧ live (sockets (net (kw s'))) = S (live (sockets (net (kw s)))).
Proof.
  intros Hl E Hv. unfold sys_socket, on_net, socket_new in E.
  destruct (position sock_is_none (sockets (net (kw s)))) as [i|] eqn:Ep; cbn [mbind outcome_bind] in E.
  - pose proof (install_inode_err (SocketInode i) (fds s) Hl) as Hi. destruct (install_inode _ (fds s)) as [r t].
    injection E as <- <-. cbn [fst snd] in Hi. rewrite Hi by done. split_and!; try done. cbn [kw set_net net set_sockets sockets].
    apply position_Some in Ep as [([x|] & Hx & Hn) _]; [done|]. by apply live_vset.
  - pose proof (install_inode_err (SocketInode (vlen (sockets (net (kw s)) ++ [Some (mkSocket (wrap 8 p) 0 None [])]) - 1)) (fds s) Hl) as Hi.
    destruct (install_inode _ (fds s)) as [r t]. injection E as <- <-. cbn [fst snd] in Hi. rewrite Hi by done.
    split_and!; try done. cbn [kw set_net net set_sockets sockets]. apply live_snoc.
Qed.

Lemma resume_with_inv f (r : outcome (Z * SY)) v s' :
  r ≫= resume_with f = Ret (Resume (set_rax v f), s') → r = Ret (v, s').
Proof. destruct r as [[v' s1]|]; [|done]. cbn. intros [= <- <-]. done. Qed.

(** C10. A system call that fails has no effect. Whatever a program asks for, if the call
    answers with an error number then the mounted filesystems, the open files with their
    offsets, the devices, the network and every byte of memory are as they were before. The
    exception is [socket] when all 64 descriptors are in use: then one more entry
    of the socket table stays taken, which no descriptor names. *)
Theorem failed_call_leaves c f s v s' :
  0 ≤ c < 2 ^ 40 → sys_inv c s → syscall_dispatch f s = Ret (Resume (set_rax v f), s') → failed v →
  mounts s' = mounts s ∧ fds s' = fds s ∧ (∀ a, umem s' a = umem s a) ∧
  (rax f ≠ nr Socket → kw s' = kw s) ∧
  (rax f = nr Socket → kw s' = set_net (net (kw s')) (kw s) ∧ world (net (kw s')) = world (net (kw s)) ∧
     live (sockets (net (kw s'))) = S (live (sockets (net (kw s))))).
Proof.
  intros Hc Hs E Hv. pose proof (inv_len _ _ Hs) as Hl.
  assert (rax f ≠ nr Socket → unchanged s s' → mounts s' = mounts s ∧ fds s' = fds s ∧ (∀ a, umem s' a = umem s a) ∧
    (rax f ≠ nr Socket → kw s' = kw s) ∧ (rax f = nr Socket → kw s' = set_net (net (kw s')) (kw s) ∧
      world (net (kw s')) = world (net (kw s)) ∧ live (sockets (net (kw s'))) = S (live (sockets (net (kw s)))))) as Hu
    by (intros Hn (? & ? & ? & ?); by split_and!).
  unfold syscall_dispatch in E.
  destruct (Z.eqb_spec (rax f) (nr Write)) as [Er|_].
  { apply Hu; [by rewrite Er|]. apply resume_with_inv in E. by eapply (sys_write_err c). }
  destruct (Z.eqb_spec (rax f) (nr Read)) as [Er|_].
  { apply Hu; [by rewrite Er|]. apply resume_with_inv in E. by eapply (sys_read_err c). }
  destruct (Z.eqb_spec (rax f) (nr Open)) as [Er|_].
  { apply Hu; [by rewrite Er|]. apply resume_with_inv in E. by eapply sys_open_err. }
  destruct (Z.eqb_spec (rax f) (nr Close)) as [Er|_].
  { apply Hu; [by rewrite Er|]. apply (resume_with_inv f (Ret _)) in E. injection E as E. by eapply sys_close_err. }
  destruct (Z.eqb_spec (rax f) (nr Socket)) as [Er|Ns].
  { apply resume_with_inv in E. destruct (sys_socket_err _ _ _ _ Hl E Hv) as (? & ? & Em & ? & ? & ?).
    split_and!; [done|done|intros a; by rewrite Em|done|done]. }
  apply Hu; [done|].
  destruct (rax f =? nr Bind).
  { apply resume_with_inv in E. unfold sys_bind in E. destruct (sock_index _ _); [by eapply sock_update_err|by injection E as _ <-]. }
  destruct (rax f =? nr Connect).
  { apply resume_with_inv in E. unfold sys_connect in E. destruct (sock_index _ _); [by eapply sock_update_err|by injection E as _ <-]. }
  destruct (rax f =? nr Exit); [done|]. apply (resume_with_inv f (Ret _)) in E. by injection E as _ <-.
Qed.

(** Which error: a descriptor that is not open, a path that does not resolve or cannot be
    read, a full table, an unknown call. *)
Theorem call_errors f s :
  (get_file (rdi f) (fds s) = None → rax f ∈ [nr Read; nr Write; nr Close; nr Bind; nr Connect] → rsi f ≠ 0 →
     ∃ s', syscall_dispatch f s = Ret (Resume (set_rax (2 ^ 64 - 22) f), s')) ∧
  (rax f = nr Open → read_user_cstr (rdi f) (umem s) = Ret None →
     syscall_dispatch f s = Ret (Resume (set_rax (2 ^ 64 - 22) f), s)) ∧
  (∀ path e, rax f = nr Open → read_user_cstr (rdi f) (umem s) = Ret (Some path) → resolve (W := KW) path (mounts s) = inr e →
     ∃ s', syscall_dispatch f s = Ret (Resume (set_rax (wrap 64 (errno e)) f), s')) ∧
  (∀ path n, rax f = nr Open → read_user_cstr (rdi f) (umem s) = Ret (Some path) → resolve (W := KW) path (mounts s) = inl n →
     vlen (fds s) ≤ MAX_FDS → (∀ k, 0 ≤ k < MAX_FDS → get_file k (fds s) ≠ None) →
     ∃ s', syscall_dispatch f s = Ret (Resume (set_rax (2 ^ 64 - 28) f), s')) ∧
  ((∀ n, rax f ≠ nr n) → syscall_dispatch f s = Ret (Resume (set_rax (2 ^ 64 - 3) f), s)).
Proof.
  split_and!.
  - intros Hn Hr Hp. unfold syscall_dispatch.
    assert (sock_index (W := KW) (rdi f) (fds s) = None) as Hi by (unfold sock_index; by rewrite Hn).
    rewrite !elem_of_cons, elem_of_nil in Hr. destruct Hr as [-> |[-> |[-> |[-> |[-> |[]]]]]]; cbn [nr Z.eqb Pos.eqb].
    + unfold sys_read, read. rewrite Hn, raw_slice_ok by done. by eexists.
    + unfold sys_write, write, fd_loads. rewrite Hn, raw_slice_ok by done. by eexists.
    + unfold sys_close. pose proof (close_spec (rdi f) (fds s)) as Hc.
      destruct (close (rdi f) (fds s)) as [[u|e] t]; [by destruct Hc|]. destruct Hc as (-> & _). by eexists.
    + unfold sys_bind. rewrite Hi. by eexists.
    + unfold sys_connect. rewrite Hi. by eexists.
  - intros Hr Hp. unfold syscall_dispatch. rewrite Hr. cbn [nr Z.eqb Pos.eqb]. unfold sys_open. by rewrite Hp.
  - intros path e Hr Hp He. unfold syscall_dispatch. rewrite Hr. cbn [nr Z.eqb Pos.eqb]. unfold sys_open, open.
    rewrite Hp. cbn [mbind outcome_bind]. rewrite He. by eexists.
  - intros path n Hr Hp He Hl Hk. unfold syscall_dispatch. rewrite Hr. cbn [nr Z.eqb Pos.eqb]. unfold sys_open, open, install_inode.
    rewrite Hp. cbn [mbind outcome_bind]. rewrite He. pose proof (install_spec (mkFile n 0) (fds s) Hl) as Hi.
    destruct (install (mkFile n 0) (fds s)) as [[fd|] t]; [|by eexists]. destruct Hi as (Hfd & Hno & _). by destruct (Hk fd Hfd).
  - intros Hr. unfold syscall_dispatch.
    pose proof (Hr Write); pose proof (Hr Read); pose proof (Hr Open); pose proof (Hr Close).
    pose proof (Hr Socket); pose proof (Hr Bind); pose proof (Hr Connect); pose proof (Hr Exit).
    by rewrite !(proj2 (Z.eqb_neq _ _)).
Qed.
End errors.

(** Reading descriptor 9, which is not open. *)
Lemma failed_call_leaves_witness :
  ∃ s', @syscall_dispatch unit (Z → Z) unit dev plain_Hw toy_Heap toy_pages (call 4 9 0x400000 16) toy_sys =
      Ret (Resume (set_rax (2 ^ 64 - 22) (call 4 9 0x400000 16)), s') ∧
    fds s' = fds toy_sys ∧ (∀ a, umem s' a = umem toy_sys a) ∧ kw s' = kw toy_sys.
Proof.
  assert (∃ s', @syscall_dispatch unit (Z → Z) unit dev plain_Hw toy_Heap toy_pages (call 4 9 0x400000 16) toy_sys =
      Ret (Resume (set_rax (2 ^ 64 - 22) (call 4 9 0x400000 16)), s')) as (s' & E) by (eexists; reflexivity).
  destruct (@failed_call_leaves unit (Z → Z) unit dev plain_Hw toy_Heap toy_pages 0 (call 4 9 0x400000 16) toy_sys (2 ^ 64 - 22) s')
    as (_ & Hf & Hm & Hk & _); [lia|exact toy_sys_inv|exact E|unfold failed; lia|].
  exists s'. split_and!; [exact E|exact Hf|exact Hm|apply Hk; discriminate].
Defined.
