(* ===== verification/Gdt.v ===== *)
(** * Gdt: segments and the task-state segment (kernel/src/gdt.rs)

    The descriptor table belongs to the [x86_64] crate: it is the class [GdtTable], with the
    documented behaviour of [append] (the descriptor goes to the next free entry, whose selector
    carries its privilege level). [init] loads the table and the registers; the processor raises
    a general protection fault when the entry a register is loaded with is not of its kind. *)

From S2P Require Import Prelude Bytes Memory E1000.

Module gdt.

Definition DOUBLE_FAULT_IST_INDEX : Z := 0.
Definition STACK_SIZE : Z := 4096 * 5.
Definition PRIV_STACK_SIZE : Z := 4096 * 4.

(** The entries the kernel sets: RSP0 and the stack of the double-fault handler. *)
Record TaskStateSegment := mkTss {
  privilege_stack_table : list Z;
  interrupt_stack_table : list Z;
}.

Inductive Descriptor :=
  | kernel_code_segment | kernel_data_segment | user_data_segment | user_code_segment
  | tss_segment (tss : TaskStateSegment).

Definition dpl (d : Descriptor) : Z :=
  match d with user_data_segment | user_code_segment => 3 | _ => 0 end.
(** A system descriptor takes two entries. *)
Definition entries (d : Descriptor) : Z := match d with tss_segment _ => 2 | _ => 1 end.

Class GdtTable (G : Type) := {
  gdt_new : G;
  gdt_append : Descriptor → G → outcome (Z * G);
  gdt_len : G → Z;
  gdt_entry : G → Z → option Descriptor;         (* the descriptor at an index, as the processor finds it *)
  gdt_new_len : gdt_len gdt_new = 1;
  gdt_append_ok d g : gdt_len g + entries d ≤ 8 →
    ∃ g', gdt_append d g = Ret (Z.lor (Z.shiftl (gdt_len g) 3) (dpl d), g') ∧
      gdt_len g' = gdt_len g + entries d ∧ gdt_entry g' (gdt_len g) = Some d ∧
      ∀ i, i < gdt_len g → gdt_entry g' i = gdt_entry g i;
}.

Record Selectors := mkSel { code : Z; data : Z; user_data : Z; user_code : Z; tss : Z }.

Section tables.
Context `{X86Addr} {G : Type} `{GdtTable G}.

(** The arguments are the addresses of [DOUBLE_FAULT_STACK] and [SYSCALL_STACK]. *)
Definition TSS (double_fault_stack syscall_stack : Z) : outcome TaskStateSegment :=
  df ← vadd double_fault_stack STACK_SIZE;
  ist ← store (replicate 7 0) DOUBLE_FAULT_IST_INDEX df;
  sc ← vadd syscall_stack PRIV_STACK_SIZE;
  pst ← store (replicate 3 0) 0 sc;
  Ret (mkTss pst ist).

Definition GDT (t : TaskStateSegment) : outcome (G * Selectors) :=
  r ← gdt_append kernel_code_segment gdt_new;
  let '(c, g) := r in
  r ← gdt_append kernel_data_segment g;
  let '(d, g) := r in
  r ← gdt_append user_data_segment g;
  let '(ud, g) := r in
  r ← gdt_append user_code_segment g;
  let '(uc, g) := r in
  r ← gdt_append (tss_segment t) g;
  let '(ts, g) := r in
  Ret (g, mkSel c d ud uc ts).

(** The registers [init] loads, on a processor in ring 0. *)
Record SegRegs := mkSegRegs { cs : Z; ss : Z; tr : Z }.

Definition GENERAL_PROTECTION : Z := 13.
Definition set_cs (g : G) (s : Z) : outcome Z :=
  match gdt_entry g (Z.shiftr s 3) with Some kernel_code_segment => Ret s | _ => Panic (PTrap GENERAL_PROTECTION) end.
Definition set_ss (g : G) (s : Z) : outcome Z :=
  match gdt_entry g (Z.shiftr s 3) with Some kernel_data_segment => Ret s | _ => Panic (PTrap GENERAL_PROTECTION) end.
Definition load_tss (g : G) (s : Z) : outcome Z :=
  match gdt_entry g (Z.shiftr s 3) with Some (tss_segment _) => Ret s | _ => Panic (PTrap GENERAL_PROTECTION) end.

Definition init (gs : G * Selectors) : outcome SegRegs :=
  let '(g, sel) := gs in
  c ← set_cs g (code sel);
  s ← set_ss g (data sel);
  t ← load_tss g (tss sel);
  Ret (mkSegRegs c s t).
End tables.

Definition user_code_selector (s : Selectors) : Z := Z.lor (user_code s) 0x3.
Definition user_data_selector (s : Selectors) : Z := Z.lor (user_data s) 0x3.
Definition kernel_code_selector (s : Selectors) : Z := code s.
End gdt.
Import gdt.

(** ** What the tables hold *)

Section held.
Context `{X86Addr} {G : Type} `{GdtTable G}.

(** A stack in the kernel's half of the address space. *)
Definition stack_at (a size : Z) : Prop := 2 ^ 64 - 2 ^ 47 ≤ a ∧ a + size < 2 ^ 64.

Lemma TSS_eq df sc : stack_at df STACK_SIZE → stack_at sc PRIV_STACK_SIZE →
  TSS df sc = Ret (mkTss [sc + PRIV_STACK_SIZE; 0; 0] [df + STACK_SIZE; 0; 0; 0; 0; 0; 0]).
Proof.
  unfold stack_at, STACK_SIZE, PRIV_STACK_SIZE. intros [? ?] [? ?]. unfold TSS.
  rewrite !vadd_ok by (unfold STACK_SIZE, PRIV_STACK_SIZE; lia). done.
Qed.

(** The table, entry by entry: every selector names the descriptor it was appended for. *)
Lemma GDT_eq t : ∃ g, GDT t = Ret (g, mkSel 0x08 0x10 0x1b 0x23 0x28) ∧
  gdt_entry g 1 = Some kernel_code_segment ∧ gdt_entry g 2 = Some kernel_data_segment ∧
  gdt_entry g 3 = Some user_data_segment ∧ gdt_entry g 4 = Some user_code_segment ∧
  gdt_entry g 5 = Some (tss_segment t).
Proof.
  unfold GDT. pose proof gdt_new_len as L0.
  destruct (gdt_append_ok kernel_code_segment gdt_new) as (g1 & -> & L1 & E1 & _); [cbn; lia|]. cbn [mbind outcome_bind].
  rewrite L0 in *. destruct (gdt_append_ok kernel_data_segment g1) as (g2 & -> & L2 & E2 & K2); [cbn in *; lia|].
  cbn [mbind outcome_bind]. rewrite L1 in *.
  destruct (gdt_append_ok user_data_segment g2) as (g3 & -> & L3 & E3 & K3); [cbn in *; lia|]. cbn [mbind outcome_bind].
  rewrite L2 in *. destruct (gdt_append_ok user_code_segment g3) as (g4 & -> & L4 & E4 & K4); [cbn in *; lia|].
  cbn [mbind outcome_bind]. rewrite L3 in *.
  destruct (gdt_append_ok (tss_segment t) g4) as (g5 & -> & L5 & E5 & K5); [cbn in *; lia|]. cbn [mbind outcome_bind].
  rewrite L4 in *. exists g5. split; [done|].
  change (gdt_entry g2 2 = Some kernel_data_segment) in E2. change (gdt_entry g3 3 = Some user_data_segment) in E3.
  change (gdt_entry g4 4 = Some user_code_segment) in E4. change (gdt_entry g5 5 = Some (tss_segment t)) in E5.
  cbn in K2, K3, K4, K5. split_and!.
  - by rewrite K5, K4, K3, K2, E1 by lia.
  - by rewrite K5, K4, K3, E2 by lia.
  - by rewrite K5, K4, E3 by lia.
  - by rewrite K5, E4 by lia.
  - done.
Qed.

(** Loading the registers does not fault. *)
Lemma init_eq t : ∃ g, GDT t = Ret (g, mkSel 0x08 0x10 0x1b 0x23 0x28) ∧
  init (g, mkSel 0x08 0x10 0x1b 0x23 0x28) = Ret (mkSegRegs 0x08 0x10 0x28).
Proof.
  destruct (GDT_eq t) as (g & E & E1 & E2 & _ & _ & E5). exists g. split; [done|]. unfold init, set_cs, set_ss, load_tss.
  cbn [code data tss]. change (Z.shiftr 0x08 3) with 1. change (Z.shiftr 0x10 3) with 2. change (Z.shiftr 0x28 3) with 5.
  by rewrite E1, E2, E5.
Qed.
End held.
