(* ===== verification/Interrupts.v ===== *)
(** * Interrupts: the vectors, the handlers and the interrupt controller
    (kernel/src/interrupts.rs)

    [IDT] is the table of gates and [exception], [user_int] what a fault and an [int] of a
    user program lead to. The rest is the machine under the scheduler: the state of [Scheduler], the
    keyboard, the in-service bit of IRQ0 in the 8259 (set when the interrupt is delivered, cleared by
    the end-of-interrupt command; while it is set, neither IRQ0 nor a lower-priority line,
    such as the keyboard's IRQ1, is delivered), and how each task that is not running was
    suspended: in the middle of the timer handler, in a call of its own, or not
    started yet. The 8259 crate is the class [Pics]. *)

From S2P Require Import Prelude Bytes Task Scheduler SchedulerProps E1000 Vfs Net Initrd Devices Gdt.
Import asm context task scheduler keyboard.

Module interrupts.

Definition PIC_1_OFFSET : Z := 32.
Definition PIC_2_OFFSET : Z := 40.
Definition TIMER_INTERRUPT_INDEX : Z := PIC_1_OFFSET.
Definition KEYBOARD_INTERRUPT_INDEX : Z := PIC_1_OFFSET + 1.

(** ** The table *)

Inductive Handler :=
  | breakpoint_handler | double_fault_handler | general_protection_handler | page_fault_handler
  | timer_handler | keyboard_handler | syscall_entry.

Record Gate := mkGate { handler : Handler; stack_index : option Z; privilege : Z }.

Definition set_gate (v : Z) (g : Gate) (idt : Z → option Gate) : Z → option Gate :=
  λ w, if w =? v then Some g else idt w.

Definition set_handler_fn (v : Z) (h : Handler) : (Z → option Gate) → Z → option Gate := set_gate v (mkGate h None 0).

(** Vectors 3, 8, 14 and 13 are the architecture's. *)
Definition IDT : Z → option Gate :=
  let idt := λ _, None in
  let idt := set_handler_fn 3 breakpoint_handler idt in
  let idt := set_gate 8 (mkGate double_fault_handler (Some gdt.DOUBLE_FAULT_IST_INDEX) 0) idt in
  let idt := set_handler_fn 14 page_fault_handler idt in
  let idt := set_handler_fn 13 general_protection_handler idt in
  let idt := set_handler_fn TIMER_INTERRUPT_INDEX timer_handler idt in
  let idt := set_handler_fn KEYBOARD_INTERRUPT_INDEX keyboard_handler idt in
  set_gate 0x80 (mkGate syscall_entry None 3) idt.

(** An exception: [Ret] means that the handler returns to the interrupted code. An
    exception without a gate becomes a double fault. *)
Definition exception (v : Z) : outcome unit :=
  match handler <$> IDT v with
  | Some breakpoint_handler => Ret tt
  | Some general_protection_handler => Panic (PTrap 13)
  | Some page_fault_handler => Panic (PTrap 14)
  | _ => Panic (PTrap 8)
  end.

(** [int v] in ring 3: the gate must be open to it, or there is a general protection
    fault. *)
Definition user_int (v : Z) : outcome Handler :=
  match IDT v with
  | Some g => if privilege g =? 3 then Ret (handler g) else _ ← exception 13; Ret (handler g)
  | None => _ ← exception 13; Panic (PTrap 13)
  end.

(** ** The interrupt controller *)

(** [ChainedPics]: remapping keeps the masks. *)
Class Pics (P : Type) := {
  initialize : Z → Z → P → P;
  masks : P → Z * Z;
  write_masks : Z → Z → P → P;
  masks_initialize a b p : masks (initialize a b p) = masks p;
  masks_write m n p : masks (write_masks m n p) = (m, n);
}.

(** The controller and the interrupt flag. *)
Definition init `{Pics P} (p : P) (k : Kern) : P * Kern :=
  let p := initialize PIC_1_OFFSET PIC_2_OFFSET p in
  let '(m0, m1) := masks p in
  (write_masks (Z.land m0 (wrap 8 (Z.lnot 0x03))) m1 p, set_irq true k).

(** ** The machine *)

(** Where a task that does not run will continue. *)
Inductive susp :=
  | Fresh                        (* at [task_trampoline], never run *)
  | InCall (was_enabled : bool)  (* in [schedule], called by the task itself *)
  | InIsr.                       (* in [schedule], called by the timer handler *)

Record Machine (K : Type) := mkMachine {
  kern : Kern;
  in_service : bool;
  suspended : Z → susp;          (* by slot *)
  keys : KeyboardState K;
}.
Arguments mkMachine {K} _ _ _ _.
Arguments kern {K} _.
Arguments in_service {K} _.
Arguments suspended {K} _.
Arguments keys {K} _.

Section machine.
Context {K : Type} `{Decoder K} `{Profile}.
Implicit Types (m : Machine K).

Definition set_kern (k : Kern) m : Machine K := mkMachine k (in_service m) (suspended m) (keys m).

(** [notify_end_of_interrupt] for the timer. *)
Definition notify_end_of_interrupt m : Machine K := mkMachine (kern m) false (suspended m) (keys m).

(** The rest of the handler, after [process::tick] came back, and its [iretq], which
    restores the interrupt flag that was set when the interrupt was taken. *)
Definition timer_handler_end m : Machine K :=
  let m1 := notify_end_of_interrupt m in set_kern (set_irq true (kern m1)) m1.

(** A switch lands in slot [i], which is no longer suspended. *)
Definition resume (i : Z) m : Machine K :=
  let m1 := mkMachine (kern m) (in_service m) (λ j, if j =? i then Fresh else suspended m j) (keys m) in
  match suspended m i with
  | InIsr => timer_handler_end m1
  | InCall b => set_kern (schedule_resumed (mkSwitch BootCtx BootCtx b) (kern m1)) m1
  | Fresh => m1
  end.

Definition suspend (c : CtxPtr) (how : susp) m : Machine K :=
  match c with
  | BootCtx => m
  | SlotCtx i => mkMachine (kern m) (in_service m) (λ j, if j =? i then how else suspended m j) (keys m)
  end.

(** [__switch], with what the two sides were doing. *)
Definition do_switch (how : bool → susp) (sw : Switch) m : Machine K :=
  let m1 := suspend (sw_old sw) (how (sw_resume sw)) m in
  match sw_new sw with BootCtx => m1 | SlotCtx i => resume i m1 end.

(** A timer or keyboard interrupt is delivered when the flag is set and IRQ0, which has
    priority over both, is not in service. *)
Definition deliverable m : bool := irq (kern m) && negb (in_service m).

(** [timer_interrupt_handler]: the clock, the scheduler, then the end of interrupt, which a
    switch puts off until the task it suspended runs again. *)
Definition timer_interrupt_handler m : outcome (option Switch * Machine K) :=
  let m1 := mkMachine (set_irq false (kern m)) true (suspended m) (keys m) in
  r ← tick (timer.timer_tick (kern m1));
  let '(o, k) := r in
  match o with
  | None => Ret (None, timer_handler_end (set_kern k m1))
  | Some sw => Ret (Some sw, do_switch (λ _, InIsr) sw (set_kern k m1))
  end.

(** [keyboard_interrupt_handler]: it does not switch, so that its own in-service bit is set and
    cleared, and the interrupt flag cleared and restored, before anything else runs. *)
Definition keyboard_interrupt_handler (port60 : Z) m : Machine K :=
  mkMachine (kern m) (in_service m) (suspended m) (interrupt_handler port60 (keys m)).

(** An operation of the running task (or of the kernel before the first task). A task
    spawned into a slot starts afresh there. *)
Definition task_op (e : event) m : outcome (option Switch * Machine K) :=
  r ← step e (kern m);
  let '(o, k) := r in
  match o with
  | None =>
      Ret (None, mkMachine k (in_service m) (λ i,
        if bool_decide (slot (sched (kern m)) i = None) then Fresh else suspended m i) (keys m))
  | Some sw => Ret (Some sw, do_switch InCall sw (set_kern k m))
  end.

(** What the machine may do next. *)
Inductive input := Op (e : event) | Key (scancode : Z).

Definition is_irq (i : input) : bool := match i with Op ETimer | Key _ => true | _ => false end.

Definition mstep (i : input) m : outcome (option Switch * Machine K) :=
  match i with
  | Op ETimer => timer_interrupt_handler m
  | Op e => task_op e m
  | Key sc => Ret (None, keyboard_interrupt_handler sc m)
  end.

Definition mlegal (i : input) m : Prop :=
  match i with Op e => legal e (kern m) | Key _ => True end ∧ (is_irq i = true → deliverable m = true).

Inductive msteps : Machine K → list (input * option Switch) → Machine K → Prop :=
  | msteps_nil m : msteps m [] m
  | msteps_cons m i o m1 tr m2 :
      mlegal i m → mstep i m = Ret (o, m1) → msteps m1 tr m2 → msteps m ((i, o) :: tr) m2.
End machine.
End interrupts.
Import interrupts.

(** ** The table and the controller *)

(** The only gate a user program can go through is the system call's: any other [int] stops
    the kernel, and so does every exception but a breakpoint of the kernel itself. *)
Theorem user_gate v : user_int v = if v =? 0x80 then Ret syscall_entry else Panic (PTrap 13).
Proof.
  unfold user_int, IDT, set_handler_fn, set_gate, TIMER_INTERRUPT_INDEX, KEYBOARD_INTERRUPT_INDEX, PIC_1_OFFSET.
  case (Z.eqb_spec v 0x80); [done|intros _]. repeat match goal with |- context [v =? ?n] => case (v =? n) end; reflexivity.
Qed.

(** IRQ0 and IRQ1 are unmasked, the other lines as they were. *)
Theorem init_unmasks `{Pics P} (p : P) k n : 0 ≤ n < 8 →
  let '(p', k') := init p k in
  irq k' = true ∧ snd (masks p') = snd (masks p) ∧
  Z.testbit (fst (masks p')) n = Z.testbit (fst (masks p)) n && negb (n <? 2).
Proof.
  intros Hn. unfold init. rewrite masks_initialize. destruct (masks p) as [m0 m1]. rewrite masks_write. cbn [fst snd].
  split; [done|]. split; [done|]. rewrite Z.land_spec. f_equal.
  assert (n = 0 ∨ n = 1 ∨ n = 2 ∨ n = 3 ∨ n = 4 ∨ n = 5 ∨ n = 6 ∨ n = 7) as Hc by lia.
  by destruct Hc as [->|[->|[->|[->|[->|[->|[->| ->]]]]]]].
Qed.

(** ** The end of interrupt follows the preempted task *)

Section eoi.
Context {K : Type} `{Decoder K} `{Profile}.
Implicit Types (m : Machine K).

(** The runnable task of slot [i] was suspended in the handler, and still owes the
    end of interrupt. *)
Record owes (i : Z) m : Prop := {
  ow_wf : sched_wf (sched (kern m));
  ow_wait : waiting (sched (kern m)) i;
  ow_service : in_service m = true;
  ow_susp : suspended m i = InIsr;
}.

Lemma switch_keeps (how : bool → susp) sw m i :
  sw_old sw ≠ SlotCtx i → (∀ j, sw_new sw = SlotCtx j → j ≠ i) →
  (∀ j, sw_new sw = SlotCtx j → suspended (suspend (sw_old sw) (how (sw_resume sw)) m) j ≠ InIsr) →
  suspended (do_switch how sw m) i = suspended m i ∧
  in_service (do_switch how sw m) = in_service m ∧
  sched (kern (do_switch how sw m)) = sched (kern m).
Proof.
  intros Hold Hnew Hisr. unfold do_switch. set (m1 := suspend _ _ m) in *.
  assert (suspended m1 i = suspended m i ∧ in_service m1 = in_service m ∧ kern m1 = kern m) as (E1 & E2 & E3).
  { unfold m1, suspend. destruct (sw_old sw) as [|c]; [done|]. cbn [suspended in_service kern].
    split; [|done]. rewrite (proj2 (Z.eqb_neq i c)); [done|congruence]. }
  destruct (sw_new sw) as [|j]; [by rewrite E3|]. unfold resume.
  assert ((i =? j) = false) as Hij by (apply Z.eqb_neq; intros ->; by apply (Hnew j)).
  destruct (suspended m1 j) as [|b|] eqn:Ej; [| |by destruct (Hisr j eq_refl)];
    cbn [suspended in_service kern set_kern]; rewrite Hij, E3; [done|]. split; [done|]. split; [done|]. by destruct b.
Qed.

(** The other tasks suspended in the handler are none: there is one debt at a time. *)
Definition one_debt (i : Z) m : Prop := ∀ j, suspended m j = InIsr → j = i.

Lemma switch_keys how sw m : keys (do_switch how sw m) = keys m.
Proof.
  unfold do_switch, resume, suspend. destruct (sw_old sw), (sw_new sw); try done; by destruct (suspended _ _).
Qed.

Lemma task_op_keys e m o m' : task_op e m = Ret (o, m') → keys m' = keys m.
Proof.
  unfold task_op. destruct (step e (kern m)) as [[[sw|] k]|]; [..|done]; intros [= <- <-]; [by rewrite switch_keys|done].
Qed.

(** A step of anybody that does not dispatch [i] leaves the debt where it is. *)
Lemma owes_task_op e o m m' i : owes i m → one_debt i m → legal e (kern m) → task_op e m = Ret (o, m') →
  (∀ sw, o = Some sw → sw_new sw ≠ SlotCtx i) → owes i m' ∧ one_debt i m'.
Proof.
  intros [Hw Hwait Hs Hi] Hone Hl E' Hno.
  destruct (step_good e (kern m) Hw Hl) as (o1 & k1 & E1 & [Hw1 Hsw Hmv _] & _).
  unfold task_op in E'. rewrite E1 in E'. cbn [mbind outcome_bind] in E'. specialize (Hmv i Hwait).
  destruct Hwait as (Hr & Hic & _). destruct o1 as [sw|]; injection E' as <- <-.
  - destruct (Hsw sw eq_refl) as (Hold & Hnew & _). specialize (Hno sw eq_refl). rewrite Hnew in Hno.
    assert (current (sched k1) ≠ i) as Hci by congruence.
    assert (sw_old sw ≠ SlotCtx i) as Holdi.
    { destruct Hold as [-> | ->]; [|done]. unfold ctx_ptr. destruct (_ =? _); congruence. }
    assert (∀ j, suspended (suspend (sw_old sw) (InCall (sw_resume sw)) (set_kern k1 m)) j = InIsr → j = i) as Hone1.
    { intros j. unfold suspend. destruct (sw_old sw) as [|c]; cbn [suspended set_kern]; [apply Hone|].
      destruct (j =? c); [done|apply Hone]. }
    destruct (switch_keeps InCall sw (set_kern k1 m) i) as (E1' & E2' & E3'); [done| | |].
    { intros j Hj. congruence. }
    { intros j Hj Hx. apply Hone1 in Hx. congruence. }
    cbn [suspended in_service kern set_kern] in E1', E2', E3'. split.
    + split; [by rewrite E3'| |by rewrite E2'|by rewrite E1']. rewrite E3'. destruct Hmv; [done|tauto].
    + intros j Hj. apply Hone1. revert Hj. unfold do_switch. rewrite Hnew. unfold resume.
      by destruct (suspended (suspend _ _ _) (current (sched k1))); cbn [suspended set_kern timer_handler_end notify_end_of_interrupt];
        destruct (j =? current (sched k1)).
  - destruct Hmv as [Hmv _]. split; [split|]; cbn [kern in_service suspended]; try done.
    + rewrite bool_decide_false; [done|]. destruct Hr as (t & Ht & _). rewrite Ht. done.
    + intros j. cbn [suspended]. case_bool_decide; [done|apply Hone].
Qed.

Lemma owes_step e o m m' i : owes i m → one_debt i m → mlegal e m → mstep e m = Ret (o, m') →
  (∀ sw, o = Some sw → sw_new sw ≠ SlotCtx i) → is_irq e = false ∧ owes i m' ∧ one_debt i m' ∧ keys m' = keys m.
Proof.
  intros Ho Hone [Hl Hd] E Hno. assert (is_irq e = false) as He.
  { destruct (is_irq e); [|done]. specialize (Hd eq_refl). unfold deliverable in Hd.
    by rewrite (ow_service _ _ Ho), andb_false_r in Hd. }
  split; [done|]. destruct e as [e|sc]; [|done].
  assert (task_op e m = Ret (o, m')) as E' by (by destruct e).
  destruct (owes_task_op e o m m' i) as [? ?]; [done..|]. split_and!; [done..|by eapply task_op_keys].
Qed.

Lemma owes_run i m tr m' : msteps m tr m' → owes i m → one_debt i m →
  (∀ e sw, (e, Some sw) ∈ tr → sw_new sw ≠ SlotCtx i) →
  owes i m' ∧ keys m' = keys m ∧ ∀ e o, (e, o) ∈ tr → is_irq e = false.
Proof.
  induction 1 as [m|m e o m1 tr m2 Hl E _ IH]; intros Ho H1' Hno.
  - split_and!; [done..|]. intros e o Hin. by apply not_elem_of_nil in Hin.
  - destruct (owes_step e o m m1 i Ho H1' Hl E) as (He & Ho1 & H11 & Hk).
    { intros sw ->. apply (Hno e sw). by left. }
    destruct (IH Ho1 H11) as (Ho2 & Hk2 & Ht).
    { intros e' sw Hin. apply (Hno e' sw). by right. }
    split_and!; [done|congruence|]. intros e' o' [[= -> ->]|Hin]%elem_of_cons; [done|by eapply Ht].
Qed.

(** Preempting: the running task [i] is ready again, [idx] runs. *)
Lemma preempted_waits g i t idx u :
  sched_wf g → current g = i → slot g i = Some t → state t = Running → idx ≠ i →
  let g1 := put i (set_slice DEFAULT_SLICE t) g in
  sched_wf g1 → slot (demoted g1) idx = Some u → waiting (dispatch idx u (demoted g1)) i.
Proof.
  intros Hw Hc Hg Hr Hidx g1 Hw1 Hu. split_and!; [|done|].
  - exists (demote (set_slice DEFAULT_SLICE t)). split.
    + change (slot (dispatch idx u (demoted g1)) i) with (slot (put idx (set_state Running u) (demoted g1)) i).
      rewrite (slot_put _ _ _ _ _ Hu), bool_decide_false by done.
      rewrite demoted_slot by done. unfold g1. rewrite (slot_put _ _ _ _ _ Hg). by rewrite bool_decide_true.
    + unfold demote. cbn [state set_slice]. by rewrite bool_decide_true.
  - exact (slot_not_NO_TASK (demoted g1) idx u (proj1 (demoted_wf g1 Hw1)) Hu).
Qed.

(** The handler's switch leaves the preempted task runnable, with the debt. *)
Lemma preempt_owes m i t sw m1 :
  sched_wf (sched (kern m)) → active (kern m) = true → i = current (sched (kern m)) →
  slot (sched (kern m)) i = Some t → state t = Running → (∀ j, j ≠ i → suspended m j ≠ InIsr) →
  timer_interrupt_handler m = Ret (Some sw, m1) → sw_new sw ≠ SlotCtx i →
  owes i m1 ∧ one_debt i m1 ∧ keys m1 = keys m.
Proof.
  intros Hw Ha Hi Ht Hr Hnone E Hne. unfold timer_interrupt_handler in E. cbn [kern] in E.
  set (k := timer.timer_tick (set_irq false (kern m))) in E.
  rewrite (tick_eq k) in E by done. set (g := woken (ticks k) (sched k)) in E.
  assert (sched_wf g) as Hwg by (by apply woken_wf). assert (current g = i) as Hcg by done.
  assert (slot g i = Some t) as Hg.
  { unfold g. rewrite woken_slot. change (sched k) with (sched (kern m)). rewrite Ht. simpl.
    unfold expired. rewrite Hr. done. }
  rewrite Hcg, Hg in E. destruct (task.slice t =? 0); [|done].
  set (g1 := put i (set_slice DEFAULT_SLICE t) g) in E. set (k1 := set_sched g1 k) in E.
  assert (sched_wf g1) as Hw1.
  { unfold g1. rewrite <- Hcg in *. eapply wf_put; [done|exact Hg|done| |by intros].
    apply set_slice_ok; [done|]. by eapply (sw_task g). }
  destruct (schedule_spec k1 Hw1) as [[Es _]|(idx & u & Es & Hu & Hur & _ & Hwd)]; rewrite Es in E; [done|].
  cbn [mbind outcome_bind] in E. injection E as <- <-. rewrite switch_keys. cbn [sw_new] in Hne.
  assert (idx ≠ i) as Hidx by congruence. change (sched k1) with g1 in *.
  assert (i ≠ NO_TASK) as HiN by exact (slot_not_NO_TASK _ _ _ Hwg Hg).
  assert (ctx_ptr i = SlotCtx i) as Hctx by (unfold ctx_ptr; by rewrite (proj2 (Z.eqb_neq _ _))).
  change (current g1) with (current (sched (kern m))). rewrite <- Hi, Hctx.
  set (ka := set_sched (dispatch idx u (demoted g1)) (set_irq false k1)).
  unfold do_switch. cbn [sw_old sw_new suspend]. unfold resume. cbn [suspended set_kern].
  rewrite (proj2 (Z.eqb_neq idx i)) by done.
  assert (waiting (sched ka) i) as Hwait by (by apply (preempted_waits g i t idx u)).
  assert (∀ j, (if j =? i then InIsr else suspended m j) = InIsr → j = i) as Hone.
  { intros j. case (Z.eqb_spec j i); [done|]. intros Hj Hx. by destruct (Hnone j). }
  assert (∀ j, (if j =? idx then Fresh else if j =? i then InIsr else suspended m j) = InIsr → j = i) as Hone'.
  { intros j. destruct (j =? idx); [done|apply Hone]. }
  assert ((if i =? idx then Fresh else if i =? i then InIsr else suspended m i) = InIsr) as Hii
    by (rewrite (proj2 (Z.eqb_neq i idx)), Z.eqb_refl by done; done).
  destruct (suspended m idx) as [|b|] eqn:Eidx; [| |by destruct (Hnone idx)];
    (split_and!; [split|exact Hone'|done]); cbn [kern in_service suspended set_kern]; try done; by destruct b.
Qed.

(** C38. A preemption stops the clock and the keyboard until the preempted task runs again. When the timer
    handler preempts the running task [i] while no other task is suspended in the handler (the others
    are new, or gave up the CPU by themselves), the
    end-of-interrupt command is not sent: whatever runs afterwards, as long as nobody
    switches back to [i], no timer or keyboard interrupt is delivered at all, so that a task
    that computes without yielding is never preempted, although [i] is runnable, and no key
    reaches the keyboard buffer. *)
Theorem preempt_holds_timer m i t sw m1 tr m2 :
  sched_wf (sched (kern m)) → active (kern m) = true → i = current (sched (kern m)) →
  slot (sched (kern m)) i = Some t → state t = Running → (∀ j, j ≠ i → suspended m j ≠ InIsr) →
  timer_interrupt_handler m = Ret (Some sw, m1) → sw_new sw ≠ SlotCtx i →
  msteps m1 tr m2 → (∀ e sw', (e, Some sw') ∈ tr → sw_new sw' ≠ SlotCtx i) →
  (∀ e o, (e, o) ∈ tr → is_irq e = false) ∧ deliverable m2 = false ∧ waiting (sched (kern m2)) i ∧ keys m2 = keys m.
Proof.
  intros Hw Ha Hi Ht Hr Hn E Hne Hrun Hno.
  destruct (preempt_owes m i t sw m1) as (Ho & Hd & Hk); [done..|].
  destruct (owes_run i m1 tr m2 Hrun Ho Hd Hno) as ([_ Hwt Hs _] & Hk2 & Htr).
  split; [done|]. split; [unfold deliverable; by rewrite Hs, andb_false_r|]. split; [done|congruence].
Qed.
End eoi.

(** A keyboard that decodes nothing. *)
Definition toy_keys : Decoder unit :=
  {| KeyEvent := unit; decoder_new := tt; add_byte _ d := (inl None, d); process_keyevent _ d := (None, d) |}.

(** Task 1 is preempted for task 2, which has never run; task 2 then starts its body: the
    timer stays silent. *)
Lemma preempt_holds_timer_witness :
  let m := mkMachine (demo (demo_task 1 Running BNone 0) (demo_task 2 Ready BNone 2) 1 7) false (λ _, Fresh) (mkKbd tt []) in
  ∃ sw m1 m2, @timer_interrupt_handler unit dev m = Ret (Some sw, m1) ∧ @msteps unit toy_keys dev m1 [(Op EBody, None)] m2 ∧
    deliverable m2 = false ∧ waiting (sched (kern m2)) 0 ∧ keys m2 = mkKbd tt [].
Proof.
  intros m. eexists _, _, _. split; [reflexivity|].
  match goal with |- msteps ?m1 _ ?m2 ∧ _ => assert (@msteps unit toy_keys dev m1 [(Op EBody, None)] m2) as Hs end.
  { eapply msteps_cons; [split; done|reflexivity|apply msteps_nil]. }
  split; [exact Hs|].
  refine (proj2 (@preempt_holds_timer unit toy_keys dev m 0 (demo_task 1 Running BNone 0) _ _ _ _ _ _ eq_refl eq_refl eq_refl _ _ _ Hs _)).
  - apply demo_wf; try done; split_and!; done.
  - reflexivity.
  - done.
  - reflexivity.
  - done.
  - intros e sw [= ?]%list_elem_of_singleton.
Defined.
