(* ===== verification/Entry.v ===== *)
(** * Entering and leaving ring 3

    The hand-written assembly of syscall/mod.rs ([enter_user_asm],
    [__syscall_entry], [syscall_return_to_kernel]) as instruction lists for a
    small machine with the general-purpose registers, the stack pointer, the
    words [int] and [iretq] move, and memory as 8-byte words. The two hardware
    operations are those of the 64-bit architecture: [int 0x80] through an
    interrupt gate loads RSP0 from the TSS (aligned to 16), pushes SS, RSP,
    RFLAGS, CS and RIP, and clears IF; [iretq] pops the five. *)

From S2P Require Import Prelude Bytes E1000 Vfs Net NetProps Initrd Devices Syscall.
Import syscall.

(** ** The machine *)
Module entry.

Inductive gpr :=
  | RAX | RBX | RCX | RDX | RSI | RDI | RBP | R8 | R9 | R10 | R11 | R12 | R13 | R14 | R15.

(** The number of a register. *)
Definition idx (r : gpr) : Z :=
  match r with
  | RAX => 0 | RCX => 1 | RDX => 2 | RBX => 3 | RBP => 5 | RSI => 6 | RDI => 7
  | R8 => 8 | R9 => 9 | R10 => 10 | R11 => 11 | R12 => 12 | R13 => 13 | R14 => 14 | R15 => 15
  end.

Record cpu := mkCpu {
  gprs : gpr → Z;
  rsp : Z;
  rip : Z;
  cs : Z;
  ss : Z;
  rflags : Z;
  mem : Z → Z;
}.

Definition upd (m : Z → Z) (a v : Z) : Z → Z := λ x, if bool_decide (x = a) then v else m x.

Definition set_gpr (r : gpr) (v : Z) (c : cpu) : cpu :=
  mkCpu (λ r', if idx r' =? idx r then v else gprs c r') (rsp c) (rip c) (cs c) (ss c) (rflags c) (mem c).
Definition push (v : Z) (c : cpu) : cpu :=
  mkCpu (gprs c) (rsp c - 8) (rip c) (cs c) (ss c) (rflags c) (upd (mem c) (rsp c - 8) v).
Definition set_rsp (v : Z) (c : cpu) : cpu :=
  mkCpu (gprs c) v (rip c) (cs c) (ss c) (rflags c) (mem c).
Definition store_word (a v : Z) (c : cpu) : cpu :=
  mkCpu (gprs c) (rsp c) (rip c) (cs c) (ss c) (rflags c) (upd (mem c) a v).

Inductive instr :=
  | Push (r : gpr) | Pop (r : gpr) | PushImm (v : Z)
  | MovFromRsp (r : gpr)                 (* mov r, rsp *)
  | Lea (r : gpr) (a : Z)                (* lea r, [rip + sym]; a is its address *)
  | StoreRsp (r : gpr)                   (* mov [r], rsp *)
  | LoadRsp (a : Z)                      (* mov rsp, [rip + sym] *)
  | Iretq | RetI.

Definition exec1 (i : instr) (c : cpu) : cpu :=
  match i with
  | Push r => push (gprs c r) c
  | Pop r => set_rsp (rsp c + 8) (set_gpr r (mem c (rsp c)) c)
  | PushImm v => push v c
  | MovFromRsp r => set_gpr r (rsp c) c
  | Lea r a => set_gpr r a c
  | StoreRsp r => store_word (gprs c r) (rsp c) c
  | LoadRsp a => set_rsp (mem c a) c
  | Iretq =>
      mkCpu (gprs c) (mem c (rsp c + 24)) (mem c (rsp c)) (mem c (rsp c + 8))
        (mem c (rsp c + 32)) (mem c (rsp c + 16)) (mem c)
  | RetI => mkCpu (gprs c) (rsp c + 8) (mem c (rsp c)) (cs c) (ss c) (rflags c) (mem c)
  end.

Definition exec (p : list instr) (c : cpu) : cpu := foldl (λ c i, exec1 i c) c p.

(** Bit 9 of RFLAGS. *)
Definition IF : Z := 9.
Definition kernel_cs : Z := 0x08.

(** [int 0x80] in ring 3; [handler] is the address in the gate. SS is loaded
    with the null selector on a change of privilege. *)
Definition int80 (rsp0 handler : Z) (c : cpu) : cpu :=
  let top := Z.land rsp0 (Z.lnot 15) in
  let c' := push (rip c) (push (cs c) (push (rflags c) (push (rsp c) (push (ss c) (set_rsp top c))))) in
  mkCpu (gprs c') (rsp c') handler kernel_cs 0 (Z.clearbit (rflags c) IF) (mem c').

(** ** The routines of syscall/mod.rs

    [K] is the address of USER_KERNEL_RSP. *)
Definition enter_user_asm (K : Z) : list instr :=
  [Lea R11 K; StoreRsp R11; Push RCX; Push RSI; PushImm 0x202; Push RDX; Push RDI; Iretq].

(** [__syscall_entry] up to its call of [syscall_dispatch], and after it. *)
Definition syscall_entry_save : list instr :=
  [Push R15; Push R14; Push R13; Push R12; Push R11; Push R10; Push R9; Push R8; Push RBP;
   Push RDI; Push RSI; Push RDX; Push RCX; Push RBX; Push RAX; MovFromRsp RDI].

Definition syscall_entry_restore : list instr :=
  [Pop RAX; Pop RBX; Pop RCX; Pop RDX; Pop RSI; Pop RDI; Pop RBP; Pop R8; Pop R9; Pop R10; Pop R11;
   Pop R12; Pop R13; Pop R14; Pop R15; Iretq].

Definition syscall_return_to_kernel (K : Z) : list instr := [LoadRsp K; RetI].
End entry.
Import entry.

(** ** Layout *)

(** The [SyscallFrame] at address [a], field by field at ascending addresses. *)
Definition frame_in (m : Z → Z) (a : Z) : SyscallFrame :=
  mkFrame (m a) (m (a + 8)) (m (a + 16)) (m (a + 24)) (m (a + 32)) (m (a + 40)) (m (a + 48)) (m (a + 56))
    (m (a + 64)) (m (a + 72)) (m (a + 80)) (m (a + 88)) (m (a + 96)) (m (a + 104)) (m (a + 112)).

Definition frame_of (g : gpr → Z) : SyscallFrame :=
  mkFrame (g RAX) (g RBX) (g RCX) (g RDX) (g RSI) (g RDI) (g RBP) (g R8) (g R9) (g R10) (g R11)
    (g R12) (g R13) (g R14) (g R15).

Definition top_of (rsp0 : Z) : Z := Z.land rsp0 (Z.lnot 15).

Lemma cell_upd_eq m a v : upd m a v a = v.
Proof. unfold upd. by rewrite bool_decide_true. Qed.

Lemma cell_upd_ne m a b v : b ≠ a → upd m a v b = m b.
Proof. intros. unfold upd. by rewrite bool_decide_false. Qed.

(** Read one word of memory after a list of stores. *)
Ltac read_word :=
  repeat first
    [ rewrite cell_upd_ne by lia
    | match goal with |- context [upd _ ?a _ ?b] => replace b with a by lia; rewrite cell_upd_eq end ].

Lemma save_layout c :
  let c' := exec syscall_entry_save c in
  frame_in (mem c') (rsp c') = frame_of (gprs c) ∧ rsp c' = rsp c - 120 ∧ gprs c' RDI = rsp c' ∧
  (∀ a, ¬ (rsp c - 120 ≤ a < rsp c) → mem c' a = mem c a) ∧
  (∀ r, r ≠ RDI → gprs c' r = gprs c r) ∧ rflags c' = rflags c.
Proof.
  intros c'. assert (rsp c' = rsp c - 120) as Hr by (cbn; lia).
  split_and!; [|done| | | |done].
  - rewrite Hr. unfold frame_in, frame_of. subst c'. cbn. f_equal; read_word; done.
  - subst c'. cbn. lia.
  - intros a Ha. subst c'. cbn. read_word. done.
  - intros r Hne. subst c'. by destruct r.
Qed.

Lemma restore_layout c :
  let c' := exec syscall_entry_restore c in
  frame_of (gprs c') = frame_in (mem c) (rsp c) ∧
  rip c' = mem c (rsp c + 120) ∧ cs c' = mem c (rsp c + 128) ∧ rflags c' = mem c (rsp c + 136) ∧
  rsp c' = mem c (rsp c + 144) ∧ ss c' = mem c (rsp c + 152) ∧ mem c' = mem c.
Proof.
  intros c'. assert (∀ x y, x = y → mem c x = mem c y) as Hm by (by intros ?? ->).
  split_and!; [|cbn; apply Hm; lia..|done].
  unfold frame_of, frame_in. cbn. f_equal; apply Hm; lia.
Qed.

(** The five words the hardware pushes. *)
Lemma int80_frame rsp0 handler c :
  let c' := int80 rsp0 handler c in let top := top_of rsp0 in
  rsp c' = top - 40 ∧ mem c' (top - 40) = rip c ∧ mem c' (top - 32) = cs c ∧
  mem c' (top - 24) = rflags c ∧ mem c' (top - 16) = rsp c ∧ mem c' (top - 8) = ss c.
Proof.
  intros c' top. subst c'. cbn [int80 rsp mem push set_rsp cs rip rflags ss]. fold (top_of rsp0). fold top.
  split_and!; [lia|read_word; done..].
Qed.

Lemma int80_other rsp0 handler c a :
  ¬ (top_of rsp0 - 40 ≤ a < top_of rsp0) → mem (int80 rsp0 handler c) a = mem c a.
Proof.
  intros Ha. cbn [int80 rsp mem push set_rsp cs rip rflags ss]. fold (top_of rsp0). read_word. done.
Qed.

Lemma top_aligned rsp0 : top_of rsp0 `mod` 16 = 0.
Proof.
  unfold top_of. rewrite <- Z.ldiff_land. change 15 with (Z.ones 4).
  rewrite Z.ldiff_ones_r by lia. rewrite Z.shiftl_mul_pow2 by lia. apply Z.mod_mul. lia.
Qed.

(** The dispatcher changed only the first word of the frame. *)
Lemma frame_in_ext m m' a : (∀ k, 1 ≤ k < 15 → m' (a + 8 * k) = m (a + 8 * k)) →
  frame_in m' a = set_rax (m' a) (frame_in m a).
Proof.
  intros Hk. unfold frame_in, set_rax. cbn.
  f_equal; match goal with |- m' (a + ?z) = _ =>
    let k := eval vm_compute in (z / 8) in exact (Hk k ltac:(lia)) end.
Qed.

(** ** A system call is transparent *)

Definition callee_saved : list gpr := [RBX; RBP; R12; R13; R14; R15].

(** [call syscall_dispatch] as the caller sees it: the System V calling convention keeps
    the callee-saved registers and the stack pointer, and the dispatcher
    leaves the words from the frame to the top of the kernel stack as they were, except
    the rax word, in which it puts [v]. *)
Record dispatched (v : Z) (c c' : cpu) : Prop := {
  d_saved : ∀ r, r ∈ callee_saved → gprs c' r = gprs c r;
  d_rsp : rsp c' = rsp c;
  d_rax : mem c' (rsp c) = v;
  d_frame : ∀ k, 1 ≤ k < 20 → mem c' (rsp c + 8 * k) = mem c (rsp c + 8 * k);
}.

(** C23. A system call changes nothing of its caller but rax. From [int 0x80] in ring 3,
    the entry stub builds on the kernel stack a [SyscallFrame] whose fields are exactly
    the caller's registers, passes its address in rdi with the stack 16-byte aligned as
    the ABI asks before a call, and, when the dispatcher has put [v] in the frame's
    rax, returns to the instruction after the [int] with rax = [v] and every other register,
    the stack pointer, the segments and the flags (interrupts included) as they were. *)
Theorem syscall_transparent rsp0 handler v c c2 :
  let c1 := exec syscall_entry_save (int80 rsp0 handler c) in
  dispatched v c1 c2 →
  frame_in (mem c1) (gprs c1 RDI) = frame_of (gprs c) ∧ rsp c1 = gprs c1 RDI ∧ rsp c1 `mod` 16 = 0 ∧
  let c3 := exec syscall_entry_restore c2 in
  frame_of (gprs c3) = set_rax v (frame_of (gprs c)) ∧
  rip c3 = rip c ∧ rsp c3 = rsp c ∧ cs c3 = cs c ∧ ss c3 = ss c ∧ rflags c3 = rflags c.
Proof.
  intros c1 [_ Hrsp Hrax Hfr]. destruct (save_layout (int80 rsp0 handler c)) as (HF & Hr & Hd & Hm & _ & _).
  fold c1 in HF, Hr, Hd, Hm. cbn [int80 gprs push set_rsp] in HF.
  destruct (int80_frame rsp0 handler c) as (H40 & Hrip & Hcs & Hfl & Hsp & Hss).
  rewrite H40 in Hr, Hm. set (top := top_of rsp0) in *.
  assert (∀ k, 15 ≤ k < 20 → mem c2 (rsp c1 + 8 * k) = mem (int80 rsp0 handler c) (top - 160 + 8 * k)) as Hhw.
  { intros k Hk. rewrite Hfr by lia. rewrite Hm by lia. f_equal. lia. }
  assert (∀ k a, 15 ≤ k < 20 → a = rsp c1 + 8 * k →
    mem c2 a = mem (int80 rsp0 handler c) (top - 160 + 8 * k)) as Hhw' by (intros k a Hk ->; auto).
  clearbody c1. split; [by rewrite Hd|]. split; [done|]. split.
  { rewrite Hr. pose proof (top_aligned rsp0). subst top. Z.div_mod_to_equations. lia. }
  intros c3. destruct (restore_layout c2) as (RF & Rrip & Rcs & Rfl & Rsp & Rss & _).
  fold c3 in RF, Rrip, Rcs, Rfl, Rsp, Rss. rewrite Hrsp in RF, Rrip, Rcs, Rfl, Rsp, Rss.
  clearbody c3. split_and!.
  - rewrite RF, <- HF, (frame_in_ext (mem c1) (mem c2) (rsp c1)) by (intros k Hk; apply Hfr; lia).
    by rewrite Hrax.
  - rewrite Rrip, <- Hrip, (Hhw' 15 (rsp c1 + 120)) by lia. f_equal. lia.
  - rewrite Rsp, <- Hsp, (Hhw' 18 (rsp c1 + 144)) by lia. f_equal. lia.
  - rewrite Rcs, <- Hcs, (Hhw' 16 (rsp c1 + 128)) by lia. f_equal. lia.
  - rewrite Rss, <- Hss, (Hhw' 19 (rsp c1 + 152)) by lia. f_equal. lia.
  - rewrite Rfl, <- Hfl, (Hhw' 17 (rsp c1 + 136)) by lia. f_equal. lia.
Qed.

(** ** Entering ring 3 and leaving it through exit *)

Lemma enter_effect K k : ¬ (rsp k - 40 ≤ K ≤ rsp k) →
  let c := exec (enter_user_asm K) k in
  rip c = gprs k RDI ∧ rsp c = gprs k RSI ∧ cs c = gprs k RDX ∧ ss c = gprs k RCX ∧ rflags c = 0x202 ∧
  mem c K = rsp k ∧ mem c (rsp k) = mem k (rsp k) ∧ ∀ r, r ≠ R11 → gprs c r = gprs k r.
Proof.
  intros HK c. subst c. cbn. split_and!; try (read_word; done). intros r Hr. by destruct r.
Qed.

(** C37. [exit] brings the kernel back to the caller of [enter_user_asm], on its own stack,
    with whatever registers there are. [enter_user_asm] enters ring 3 at the entry point
    with the stack, selectors and flags asked for, and saves no register. If the program, with any register
    contents, then makes the exit call, and the dispatcher, with any register contents,
    gets to [syscall_return_to_kernel] (neither having touched the saved
    stack pointer and the return address, nor the interrupt flag), that returns to the
    instruction after the call of [enter_user_asm] with the stack pointer where it was, interrupts
    disabled, and every register as the dispatcher left it: the six callee-saved registers, which the
    calling convention promises its caller to keep, are not restored. *)
Theorem exit_returns K rsp0 handler k c2 c4 :
  ¬ (rsp k - 40 ≤ K ≤ rsp k) →
  ¬ (top_of rsp0 - 160 ≤ K < top_of rsp0) → ¬ (top_of rsp0 - 160 ≤ rsp k < top_of rsp0) →
  let c1 := exec (enter_user_asm K) k in
  let c3 := exec syscall_entry_save (int80 rsp0 handler c2) in
  mem c2 K = mem c1 K → mem c2 (rsp k) = mem c1 (rsp k) →
  mem c4 K = mem c3 K → mem c4 (rsp k) = mem c3 (rsp k) → Z.testbit (rflags c4) IF = Z.testbit (rflags c3) IF →
  (rip c1 = gprs k RDI ∧ rsp c1 = gprs k RSI ∧ cs c1 = gprs k RDX ∧ ss c1 = gprs k RCX ∧ rflags c1 = 0x202) ∧
  let c5 := exec (syscall_return_to_kernel K) c4 in
  rip c5 = mem k (rsp k) ∧ rsp c5 = rsp k + 8 ∧ Z.testbit (rflags c5) IF = false ∧ ∀ r, gprs c5 r = gprs c4 r.
Proof.
  intros HK HK3 Hk3 c1 c3 M2K M2k M4K M4k Hif.
  destruct (enter_effect K k HK) as (A1 & A2 & A3 & A4 & A5 & E1 & E2 & _).
  fold c1 in A1, A2, A3, A4, A5, E1, E2.
  destruct (save_layout (int80 rsp0 handler c2)) as (_ & _ & _ & Hm & _ & Hf). fold c3 in Hm, Hf.
  destruct (int80_frame rsp0 handler c2) as (H40 & _). rewrite H40 in Hm.
  assert (∀ a, ¬ (top_of rsp0 - 160 ≤ a < top_of rsp0) → mem c3 a = mem c2 a) as Hm3.
  { intros a Ha. rewrite Hm by lia. apply int80_other. lia. }
  rewrite Hm3, M2K, E1 in M4K by done. rewrite Hm3, M2k, E2 in M4k by done.
  clearbody c3 c1. split; [done|]. cbn [exec foldl syscall_return_to_kernel exec1].
  cbn [rip rsp gprs rflags set_rsp mem]. rewrite M4K, M4k. split_and!; [done|done| |done].
  rewrite Hif, Hf. cbn [int80 rflags]. apply Z.clearbit_eq.
Qed.

(** ** Witnesses *)

Definition user_cpu (v : Z) : cpu := mkCpu (λ r, v + idx r) 0x4fff00 0x400100 0x23 0x1b 0x202 (λ _, 0).

(** A dispatcher that returns [v]. *)
Definition answering (v : Z) (c : cpu) : cpu :=
  mkCpu (gprs c) (rsp c) (rip c) (cs c) (ss c) (rflags c) (upd (mem c) (rsp c) v).

Lemma answering_dispatched v c : dispatched v c (answering v c).
Proof. split; [done|done|apply cell_upd_eq|]. intros k Hk. apply cell_upd_ne. lia. Qed.

Lemma syscall_transparent_witness :
  let c1 := exec syscall_entry_save (int80 0x9008 0x100 (user_cpu 500)) in
  dispatched 42 c1 (answering 42 c1) ∧
  frame_of (gprs (exec syscall_entry_restore (answering 42 c1))) = set_rax 42 (frame_of (gprs (user_cpu 500))).
Proof.
  intros c1. pose proof (answering_dispatched 42 c1) as Hd. split; [exact Hd|].
  destruct (syscall_transparent 0x9008 0x100 42 (user_cpu 500) (answering 42 c1) Hd) as (_ & _ & _ & E & _).
  exact E.
Defined.

(** The kernel calls [enter_user_asm] with 7 in rbx; the program leaves 1003 there, the dispatcher 2003. *)
Definition kernel_cpu : cpu :=
  mkCpu (λ r, match r with RDI => 0x400000 | RSI => 0x500000 | RDX => 0x23 | RCX => 0x1b | _ => 7 end)
    0x7ff8 0x200 0x8 0x10 0x202 (λ a, if a =? 0x7ff8 then 0x777 else 0).

Definition with_gprs (g : gpr → Z) (c : cpu) : cpu := mkCpu g (rsp c) (rip c) (cs c) (ss c) (rflags c) (mem c).

Lemma with_gprs_mem g c : mem (with_gprs g c) = mem c.
Proof. done. Qed.

Lemma with_gprs_flags g c : rflags (with_gprs g c) = rflags c.
Proof. done. Qed.

Lemma exit_returns_witness :
  let c1 := exec (enter_user_asm 0x6000) kernel_cpu in
  let c2 := mkCpu (λ r, 1000 + idx r) 0x4fff00 0x400100 0x23 0x1b 0x202 (mem c1) in
  let c3 := exec syscall_entry_save (int80 0x9000 0x100 c2) in
  let c4 := with_gprs (λ r, 2000 + idx r) c3 in
  let c5 := exec (syscall_return_to_kernel 0x6000) c4 in
  rip c5 = 0x777 ∧ rsp c5 = 0x8000 ∧ gprs kernel_cpu RBX = 7 ∧ gprs c5 RBX = 2003.
Proof.
  intros c1 c2 c3 c4 c5.
  destruct (exit_returns 0x6000 0x9000 0x100 kernel_cpu c2 c4) as (_ & Hrip & Hrsp & _ & Hs).
  - cbn; lia.
  - change (top_of 0x9000) with 0x9000. lia.
  - change (top_of 0x9000) with 0x9000. cbn; lia.
  - exact (eq_refl (mem c1 0x6000)).
  - exact (eq_refl (mem c1 (rsp kernel_cpu))).
  - unfold c4. rewrite with_gprs_mem. exact eq_refl.
  - unfold c4. rewrite with_gprs_mem. exact eq_refl.
  - unfold c4. rewrite with_gprs_flags. exact eq_refl.
  - split; [exact Hrip|]. split; [exact Hrsp|]. split; [reflexivity|exact (Hs RBX)].
Defined.
