(* ===== verification/NetDemo.v ===== *)
(** * NetDemo: the self-test of the network stack ([demo] of net/*.rs)

    [net::demo] feeds crafted packets to each layer and prints what came out; it runs at
    boot and as the shell's [net] command. Each demo is a computation on the state it
    touches that returns the values it prints. *)

From stdpp Require Import sorting.
From S2P Require Import Prelude Bytes E1000 Vfs Net NetProps Initrd Devices Syscall SyscallProps NetTypes.
Import vfs fs keyboard.

(** [str::from_utf8(..).unwrap_or(d)] *)
Definition text_or (d l : list Z) : list Z := default d (from_utf8 l).

Module demo.

(** The order of [[u8; 4]] keys in the [BTreeMap]. *)
Definition ip_num (ip : list Z) : Z := foldl (λ n b, n * 256 + b) 0 ip.
Definition ip_le (a b : list Z * list Z) : Prop := ip_num (fst a) ≤ ip_num (fst b).
#[global] Instance ip_le_dec a b : Decision (ip_le a b).
Proof. unfold ip_le. apply _. Defined.

Section demos.
Context {K D A : Type} `{Profile} `{e1000.Hw D} `{Heap A}.
Abbreviation KW := (Kworld K D A).
Abbreviation NetM := (M (Net D)).

(** [arp::table] *)
Definition arp_table (s : Net D) : list (list Z * list Z) := merge_sort ip_le (map_to_list (cache s)).

Definition GATEWAY_MAC : list Z := [0x52; 0x54; 0x00; 0x12; 0x34; 0x02].

(** [arp::demo]: the gateway's MAC and the size of the cache, if it is resolved. *)
Definition arp_demo : NetM (option (list Z * Z)) :=
  me ← our_mac;
  _ ← arp_handle (arp_payload OP_REPLY GATEWAY_MAC e1000.GATEWAY me e1000.IP);
  o ← arp_lookup e1000.GATEWAY;
  match o with
  | Some m =>
      t ← lift (mac_fmt m);
      n ← gets (λ s, vlen (arp_table s));
      mret (Some (text_or (str "?") t, n))
  | None => mret None
  end.

(** [ip::demo]: the MAC of the next hop to the gateway. *)
Definition ip_demo : NetM (list Z) :=
  mac ← next_hop_mac e1000.GATEWAY;
  t ← lift (mac_fmt mac);
  icmp_req ← lift (echo_request 0x1234 1 (str "simplelinux"));
  let total := wrap 16 (IP_HEADER_LEN + vlen icmp_req) in
  h ← lift (ip_header PROTO_ICMP [10; 0; 2; 2] e1000.IP total);
  _ ← ip_handle (h ++ icmp_req);
  mret (text_or (str "?") t).

(** [icmp::demo]: whether the request's checksum is right, the reply's type, and
    whether its checksum is. *)
Definition icmp_demo : NetM (bool * Z * bool) :=
  req ← lift (echo_request 7 1 (str "hi"));
  c1 ← lift (checksum req);
  reply ← lift (echo_reply req);
  ty ← lift (index reply 0);
  c2 ← lift (checksum reply);
  _ ← icmp_handle e1000.GATEWAY req;
  mret (c1 =? 0, ty, c2 =? 0).

(** [udp::demo]: the socket, and what it received: length, sender, port, text. *)
Definition udp_demo : NetM (Z * option (Z * list Z * Z * list Z)) :=
  sock ← socket_new PROTO_UDP;
  _ ← socket_bind sock 9999;
  let msg := str "hello over udp" in
  let seg := be16_bytes 7 ++ be16_bytes 9999 ++ be16_bytes (wrap 16 (UDP_HEADER_LEN + vlen msg)) ++
             be16_bytes 0 ++ msg in
  _ ← udp_handle e1000.GATEWAY seg;
  r ← recvfrom sock (replicate 64 0);
  let '(o, buf) := r in
  got ← match o with
        | Some (n, from, fport) => t ← lift (slice buf 0 n); mret (Some (n, from, fport, text_or (str "?") t))
        | None => mret None
        end;
  _ ← socket_close sock;
  mret (sock, got).

Definition tcp_demo : NetM unit :=
  let seg := be16_bytes 51000 ++ be16_bytes 80 ++ be32_bytes 777 ++ be32_bytes 0 ++
             be16_bytes (Z.lor (Z.shiftl (TCP_HEADER_LEN `div` 4) 12) SYN) ++ be16_bytes 536 ++
             be16_bytes 0 ++ be16_bytes 0 in
  tcp_handle e1000.GATEWAY seg.

(** [socket::demo]: the socket, its descriptor, and what was read from it. *)
Definition socket_demo (t : FdTable Node) (w : KW)
    : outcome (Z * FsResult Z * option (FsResult (Z * list Z)) * FdTable Node * KW) :=
  r ← on_net (socket_new PROTO_UDP) w;
  let '(idx, w) := r in
  r ← on_net (socket_bind idx 5555) w;
  let '(_, w) := r in
  let '(fd, t) := install_inode (SocketInode idx) t in
  r ← on_net (deliver 5555 e1000.GATEWAY 4242 (str "ping-pong")) w;
  let '(_, w) := r in
  match fd with
  | inl f =>
      r ← read f (replicate 32 0) t w;
      let '(res, buf, t, w) := r in
      got ← match res with
            | inl n => x ← slice buf 0 n; Ret (Ok (n, text_or (str "?") x))
            | inr e => Ret (Err e)
            end;
      let '(_, t) := close f t in
      Ret (idx, fd, Some got, t, w)
  | inr _ => Ret (idx, fd, None, t, w)
  end.

(** What [net::demo] prints. *)
Record report := mkReport {
  rep_mac : list Z;
  rep_arp : option (list Z * Z);
  rep_ip : list Z;
  rep_icmp : bool * Z * bool;
  rep_udp : Z * option (Z * list Z * Z * list Z);
  rep_sock : Z * FsResult Z * option (FsResult (Z * list Z));
}.

(** The demos that need the stack only, in order. *)
Definition layers_demo : NetM (list Z * option (list Z * Z) * list Z * (bool * Z * bool) *
                               (Z * option (Z * list Z * Z * list Z))) :=
  mac ← our_mac;
  a ← arp_demo;
  i ← ip_demo;
  c ← icmp_demo;
  u ← udp_demo;
  _ ← tcp_demo;
  mret (mac, a, i, c, u).

Definition net_demo (t : FdTable Node) (w : KW) : outcome (report * FdTable Node * KW) :=
  r ← on_net layers_demo w;
  let '((mac, a, i, c, u), w) := r in
  r ← socket_demo t w;
  let '(idx, fd, got, t, w) := r in
  Ret (mkReport mac a i c u (idx, fd, got), t, w).
End demos.
End demo.
Import demo.

(** ** Each layer *)

Section layers.
Context {D : Type} `{Profile} `{e1000.Hw D}.
Implicit Types (s : Net D).

Definition gateway_text : list Z := str "52:54:00:12:34:02".

Lemma gateway_mac_text : mac_fmt GATEWAY_MAC = Ret gateway_text ∧ text_or (str "?") gateway_text = gateway_text.
Proof. by vm_compute. Qed.

Lemma gateway_typed : ip4 e1000.GATEWAY.
Proof. split; [by apply (bool_decide_unpack (bytes _))|done]. Qed.

Lemma arp_demo_eq s : card_ok s → length (mac_of_net s) = 6%nat →
  let s1 := set_cache (<[e1000.GATEWAY := GATEWAY_MAC]> (cache s)) s in
  arp_demo s = Ret (Some (gateway_text, vlen (arp_table s1)), s1).
Proof.
  intros Hok Hm s1. unfold arp_demo. erewrite bind_run by reflexivity. fold (mac_of_net s).
  erewrite bind_run by (by apply arp_handle_payload). change ((OP_REPLY =? OP_REQUEST) && _) with false.
  cbv iota. fold s1. erewrite bind_run by reflexivity.
  unfold s1 at 1. cbn [cache set_cache]. rewrite lookup_insert_eq. destruct gateway_mac_text as [E1 E2].
  rewrite (bind_lift _ _ _ _ E1). erewrite bind_run by reflexivity. by rewrite E2.
Qed.

Lemma ip_demo_eq s : card_ok s → hop s e1000.GATEWAY = GATEWAY_MAC →
  ∃ frame, ip_demo s = Ret (gateway_text, sent frame s).
Proof.
  intros Hok Hh. unfold ip_demo. rewrite (bind_run _ _ _ _ _ (next_hop_eq _ _)), Hh.
  destruct gateway_mac_text as [E1 E2]. rewrite (bind_lift _ _ _ _ E1).
  assert (bytes (str "simplelinux")) as Hb by by apply (bool_decide_unpack (bytes _)).
  destruct (echo_request_eq 0x1234 1 (str "simplelinux")) as (c & Eq & _); [done|done|].
  rewrite (bind_lift _ _ _ _ Eq), vlen_echo. change (wrap 16 _) with (20 + vlen (echo_bytes ECHO_REQUEST c 0x1234 1 (str "simplelinux"))).
  destruct (ip_header_eq PROTO_ICMP [10; 0; 2; 2] e1000.IP (20 + vlen (echo_bytes ECHO_REQUEST c 0x1234 1 (str "simplelinux"))))
    as (ck & Eh & _); [done|apply gateway_typed|apply IP_typed|done|done|].
  rewrite (bind_lift _ _ _ _ Eh).
  destruct (icmp_handle_echo c 0x1234 1 (str "simplelinux") [10; 0; 2; 2] s) as (c' & ic & _ & _ & Ei);
    [done|done|apply gateway_typed|done|done|].
  erewrite bind_run by (rewrite ip_handle_packet by done; exact Ei). rewrite E2. by eexists.
Qed.

Lemma icmp_demo_eq s : card_ok s → ∃ frame, icmp_demo s = Ret ((true, ECHO_REPLY, true), sent frame s).
Proof.
  intros Hok. assert (bytes (str "hi")) as Hb by by apply (bool_decide_unpack (bytes _)). unfold icmp_demo.
  destruct (echo_request_eq 7 1 (str "hi")) as (c & Eq & Hq); [done|done|].
  destruct (echo_reply_eq ECHO_REQUEST c 7 1 (str "hi")) as (c' & Er & Hr); [done|done|].
  rewrite (bind_lift _ _ _ _ Eq), (bind_lift _ _ _ _ Hq), (bind_lift _ _ _ _ Er).
  erewrite bind_lift by (by rewrite index_lookup). rewrite (bind_lift _ _ _ _ Hr).
  destruct (icmp_handle_echo c 7 1 (str "hi") e1000.GATEWAY s) as (c2 & ic & _ & _ & Ei);
    [done|done|apply gateway_typed|done|done|].
  rewrite (bind_run _ _ _ _ _ Ei). by eexists.
Qed.

Lemma tcp_demo_eq s : card_ok s → ∃ frame, tcp_demo s = Ret (tt, sent frame s).
Proof.
  intros Hok. unfold tcp_demo. cbv zeta.
  match goal with |- ∃ _, tcp_handle _ ?l _ = _ => change l with (tcp_bytes 51000 80 777 0 SYN 0) end.
  rewrite tcp_handle_syn by done. erewrite bind_lift by (by apply checked_fits).
  destruct (tcp_segment_eq 80 51000 1000 (777 + 1) (Z.lor SYN ACK) e1000.GATEWAY) as (c & E & _);
    [apply gateway_typed|done|].
  destruct (ip_send_eq e1000.GATEWAY PROTO_TCP (tcp_bytes 80 51000 1000 (777 + 1) (Z.lor SYN ACK) c) s)
    as (ic & _ & _ & Ei); [done|apply gateway_typed|done|done|].
  rewrite (bind_lift _ _ _ _ E), (bind_run _ _ _ _ _ Ei). by eexists.
Qed.

(** Which slots of the socket table are taken. *)
Definition taken s (j : Z) : Prop := is_Some (sock_get j (sockets s)).

(** A socket opened, bound to a port and sent one datagram holds just that datagram; a socket
    elsewhere stays where it is. *)
Lemma fresh_socket_receives p src sport data s : ∃ i s1 s2 s',
  socket_new PROTO_UDP s = Ret (i, s1) ∧ socket_bind i p s1 = Ret (true, s2) ∧
  deliver p src sport data s2 = Ret (tt, s') ∧
  world s' = world s ∧ cache s' = cache s ∧ ¬ taken s i ∧ 0 ≤ i < vlen (sockets s') ∧
  sock_get i (sockets s') = Some (mkSocket PROTO_UDP p None [(src, sport, data)]) ∧
  ∀ j, j ≠ i → (taken s' j ↔ taken s j).
Proof.
  destruct (socket_new_eq PROTO_UDP s) as (i & s1 & E & Ew & Ec & Hi & Hn & Hg & _).
  eexists i, s1, _, _. split; [done|]. unfold socket_bind, sock_update.
  rewrite Hg, bool_decide_true by done. split; [done|]. split; [reflexivity|].
  cbn [set_sockets world cache sockets proto peer rx]. split_and!; try done.
  - unfold taken. rewrite Hn. by intros [? ?].
  - lia.
  - rewrite vlen_fmap, vlen_vset. lia.
  - rewrite sock_get_deliver, sock_get_vset, bool_decide_true by done. cbn. by rewrite Z.eqb_refl.
  - intros j Hj. unfold taken. cbn [sockets set_sockets]. rewrite sock_get_deliver, sock_get_vset, bool_decide_false by done.
    rewrite Hg, bool_decide_false by done. destruct (sock_get j (sockets s)) as [x|]; cbn; [|done].
    by destruct (_ && _).
Qed.
End layers.

Section whole.
Context {K D A : Type} `{Profile} `{e1000.Hw D} `{Heap A}.
Abbreviation KW := (Kworld K D A).
Implicit Types (s : Net D) (w : KW).

Definition udp_text : list Z := str "hello over udp".
Definition sock_text : list Z := str "ping-pong".

(** The first datagram of a queue. *)
Lemma recvfrom_head i s x src sport data q buf : sock_get i (sockets s) = Some x → rx x = (src, sport, data) :: q →
  let n := Z.min (vlen buf) (vlen data) in
  recvfrom i buf s = Ret ((Some (n, src, sport), blit buf 0 (take (Z.to_nat n) data)),
    set_sockets (vset (sockets s) i (Some (mkSocket (proto x) (local_port x) (peer x) q))) s).
Proof. intros Ex Eq n. unfold recvfrom. by rewrite Ex, Eq. Qed.

Lemma socket_close_eq i s : i < vlen (sockets s) →
  socket_close i s = Ret (tt, set_sockets (vset (sockets s) i None) s).
Proof. intros Hi. unfold socket_close, modify. by rewrite (proj2 (Z.ltb_lt _ _)). Qed.

Lemma udp_demo_eq s : ∃ i s', udp_demo s = Ret ((i, Some (14, e1000.GATEWAY, 7, udp_text)), s') ∧
  world s' = world s ∧ cache s' = cache s ∧ ∀ j, taken s' j ↔ taken s j.
Proof.
  destruct (fresh_socket_receives 9999 e1000.GATEWAY 7 udp_text s)
    as (i & s1 & s2 & s3 & E1 & E2 & E3 & Ew & Ec & Hn & Hi & Hg & Ht).
  unfold udp_demo. rewrite (bind_run _ _ _ _ _ E1), (bind_run _ _ _ _ _ E2). cbv zeta.
  match goal with |- context [udp_handle _ ?l] => change l with (udp_bytes 7 9999 0 udp_text) end.
  erewrite bind_run by (rewrite udp_handle_datagram by done; exact E3).
  rewrite (bind_run _ _ _ _ _ (recvfrom_head _ _ _ _ _ _ _ _ Hg eq_refl)). cbv zeta iota.
  match goal with |- context [slice ?b 0 ?n] => assert (slice b 0 n = Ret udp_text) as Es by by vm_compute end.
  erewrite bind_run by (rewrite (bind_lift _ _ _ _ Es); reflexivity).
  erewrite bind_run by (apply socket_close_eq; cbn [sockets set_sockets]; rewrite vlen_vset; lia).
  eexists i, _. split; [reflexivity|]. cbn [world cache set_sockets sockets]. split; [done|split; [done|]].
  intros j. unfold taken. cbn [sockets set_sockets]. rewrite !sock_get_vset by (rewrite ?vlen_vset; lia).
  case_bool_decide as Ej; [|by apply Ht]. subst. unfold taken in Hn. split; [by intros []|done].
Qed.

Lemma socket_demo_eq (t : FdTable Node) w : vlen t ≤ MAX_FDS → (∃ k, 0 ≤ k < MAX_FDS ∧ get_file k t = None) →
  ∃ i fd t' n, socket_demo t w = Ret (i, Ok fd, Some (Ok (9, sock_text)), t', set_net n w) ∧
    get_file fd t = None ∧ (∀ k, get_file k t' = get_file k t) ∧ ¬ taken (net w) i ∧
    ∀ j, taken n j ↔ j = i ∨ taken (net w) j.
Proof.
  intros Hv (k0 & Hk0 & Hfree).
  destruct (fresh_socket_receives 5555 e1000.GATEWAY 4242 sock_text (net w))
    as (i & s1 & s2 & s3 & E1 & E2 & E3 & _ & _ & Hn & Hi & Hg & Ht).
  unfold socket_demo, on_net. rewrite E1. cbn [mbind outcome_bind set_net net].
  rewrite E2. cbn [mbind outcome_bind set_net net].
  pose proof (install_spec (mkFile (SocketInode i) 0) t Hv) as Hin. unfold install_inode.
  destruct (install _ t) as [[fd|] t1]; [|by destruct Hin as [_ Hin]; destruct (Hin k0 Hk0)].
  destruct Hin as (Hfd & Hno & _ & Hk & _). fold sock_text. rewrite E3.
  cbn [mbind outcome_bind Ok]. unfold read. rewrite Hk, bool_decide_true by done.
  cbn [i_read Node_Inode Node_read inode offset]. unfold on_net. cbn [set_net net].
  unfold SocketInode_read. erewrite bind_run by exact (recvfrom_head _ _ _ _ _ _ _ _ Hg eq_refl).
  cbn [mret M_ret mbind outcome_bind Ok]. rewrite checked_fits by done. cbn [mbind outcome_bind Ok].
  match goal with |- context [slice ?b 0 ?n] => change (slice b 0 n) with (Ret sock_text) end.
  cbn [mbind outcome_bind]. change (text_or _ sock_text) with sock_text.
  match goal with |- context [close fd ?t2] => pose proof (close_spec fd t2) as Hc; destruct (close fd t2) as [[[]|e] t3] end.
  - destruct Hc as (_ & Hk' & _). eexists i, fd, t3, _. split; [reflexivity|]. split; [done|]. split; [|split; [done|]].
    + intros k. rewrite Hk'. case_bool_decide; [by subst|].
      unfold get_file. rewrite vget_vset_ne by done. fold (get_file k t1). rewrite Hk. by rewrite bool_decide_false.
    + intros j. unfold taken. cbn [sockets set_sockets]. rewrite sock_get_vset by done.
      case_bool_decide; [subst; split; [by left|by eexists]|]. fold (taken s3 j) (taken (net w) j).
      rewrite Ht by done. naive_solver.
  - destruct Hc as (_ & _ & Hno'). exfalso. rewrite get_file_vset in Hno'.
    + by rewrite bool_decide_true in Hno'.
    + assert (get_file fd t1 = Some (mkFile (SocketInode i) 0)) as Hf by by rewrite Hk, bool_decide_true.
      by apply get_file_lt in Hf.
Qed.

(** Without a free descriptor the socket stays all the same. *)
Lemma socket_demo_full (t : FdTable Node) w : vlen t ≤ MAX_FDS → (∀ k, 0 ≤ k < MAX_FDS → get_file k t ≠ None) →
  ∃ i e n, socket_demo t w = Ret (i, Err e, None, t, set_net n w).
Proof.
  intros Hv Hfull. destruct (fresh_socket_receives 5555 e1000.GATEWAY 4242 sock_text (net w))
    as (i & s1 & s2 & s3 & E1 & E2 & E3 & _).
  unfold socket_demo, on_net. rewrite E1. cbn [mbind outcome_bind set_net net].
  rewrite E2. cbn [mbind outcome_bind set_net net].
  pose proof (install_spec (mkFile (SocketInode i) 0) t Hv) as Hin. unfold install_inode.
  destruct (install _ t) as [[fd|] t1].
  - destruct Hin as (Hfd & Hno & _). by destruct (Hfull fd Hfd).
  - destruct Hin as [-> _]. fold sock_text. rewrite E3. cbn [mbind outcome_bind]. by eexists i, _, _.
Qed.

Lemma sent_cache frame s : cache (sent frame s) = cache s.
Proof. unfold sent. by destruct (e1000.send frame (world s)) as [[]|]. Qed.

Lemma sent_taken frame s j : taken (sent frame s) j ↔ taken s j.
Proof. unfold taken. by rewrite sent_sockets. Qed.

Lemma card_same c s s' : world s' = world s → card_inv c s → card_inv c s'.
Proof. unfold card_inv. by intros ->. Qed.

(** The self-test of the layers: three frames go out. *)
Lemma layers_demo_eq c s : c + 3 < 2 ^ 64 → card_inv c s →
  ∃ n i s', layers_demo s =
    Ret ((mac_of_net s, Some (gateway_text, n), gateway_text, (true, ECHO_REPLY, true),
          (i, Some (14, e1000.GATEWAY, 7, udp_text))), s') ∧
    card_inv (c + 3) s' ∧ cache s' = <[e1000.GATEWAY := GATEWAY_MAC]> (cache s) ∧ ∀ j, taken s' j ↔ taken s j.
Proof.
  intros Hc Hi. pose proof (card_mac _ _ Hi) as Hm. unfold layers_demo. erewrite bind_run by reflexivity. fold (mac_of_net s).
  rewrite (bind_run _ _ _ _ _ (arp_demo_eq s ltac:(eapply card_inv_ok; [|done]; lia) Hm)).
  set (s1 := set_cache _ s). assert (card_inv c s1) as Hi1 by by apply (card_same _ s).
  destruct (ip_demo_eq s1) as [f1 E1]; [eapply card_inv_ok; [|done]; lia|unfold hop, s1; cbn [cache set_cache]; by rewrite lookup_insert_eq|].
  rewrite (bind_run _ _ _ _ _ E1). assert (card_inv (c + 1) (sent f1 s1)) as Hi2 by (apply sent_card; [lia|done]).
  destruct (icmp_demo_eq (sent f1 s1)) as [f2 E2]; [eapply card_inv_ok; [|done]; lia|].
  rewrite (bind_run _ _ _ _ _ E2). assert (card_inv (c + 2) (sent f2 (sent f1 s1))) as Hi3.
  { replace (c + 2) with (c + 1 + 1) by lia. apply sent_card; [lia|done]. }
  destruct (udp_demo_eq (sent f2 (sent f1 s1))) as (i & s3 & E3 & Ew & Ec & Ht). rewrite (bind_run _ _ _ _ _ E3).
  assert (card_inv (c + 2) s3) as Hi4 by by eapply card_same.
  destruct (tcp_demo_eq s3) as [f3 E4]; [eapply card_inv_ok; [|done]; lia|]. rewrite (bind_run _ _ _ _ _ E4).
  eexists _, i, _. split; [reflexivity|]. split; [|split].
  - replace (c + 3) with (c + 2 + 1) by lia. apply sent_card; [lia|done].
  - by rewrite sent_cache, Ec, !sent_cache.
  - intros j. by rewrite sent_taken, Ht, !sent_taken.
Qed.

(** The network self-test passes, and leaves a socket behind. With or without a card,
    whatever the cache and the socket table hold, as long as a descriptor is free,
    [net::demo] does not panic; it reports the gateway resolved to the fabricated MAC (also as
    the next hop), both ICMP checksums right and an echo reply built, the UDP text received
    in full from the gateway's port 7, and the nine bytes read back through the
    descriptor. Afterwards the cache has gained just the gateway, every descriptor is as before,
    and every socket slot too, but for one: the socket of the last test, whose
    descriptor was closed, stays in the table. *)
Theorem net_demo_passes c (t : FdTable Node) w :
  c + 3 < 2 ^ 64 → card_inv c (net w) →
  vlen t ≤ MAX_FDS → (∃ k, 0 ≤ k < MAX_FDS ∧ get_file k t = None) →
  ∃ r t' w' n i j fd, net_demo t w = Ret (r, t', w') ∧
    r = mkReport (mac_of_net (net w)) (Some (gateway_text, n)) gateway_text (true, ECHO_REPLY, true)
          (i, Some (14, e1000.GATEWAY, 7, udp_text)) (j, Ok fd, Some (Ok (9, sock_text))) ∧
    (∀ k, get_file k t' = get_file k t) ∧ get_file fd t = None ∧
    ¬ taken (net w) j ∧ ∀ k, taken (net w') k ↔ k = j ∨ taken (net w) k.
Proof.
  intros Hc Hi Hv Hfree. unfold net_demo, on_net.
  destruct (layers_demo_eq c (net w) Hc Hi) as (n & i & s' & E & _ & _ & Ht). rewrite E.
  cbn [mbind outcome_bind].
  destruct (socket_demo_eq t (set_net s' w) Hv Hfree) as (j & fd & t' & n' & E' & Hn & Hk & Hj & Ht').
  rewrite E'. cbn [mbind outcome_bind set_net net] in *. eexists _, t', _, n, i, j, fd.
  split; [reflexivity|]. split; [done|]. split; [done|]. split; [done|].
  split; [by rewrite <- Ht|]. intros k. by rewrite Ht', Ht.
Qed.
End whole.

(** ** A concrete run: the card and the socket of [net0], the descriptors of boot *)

Lemma net_demo_passes_witness :
  let w := syscall.kw toy_sys in
  ∃ r t' w', @net_demo unit (Z → Z) unit dev plain_Hw toy_Heap boot_fds w = Ret (r, t', w') ∧
    rep_ip r = gateway_text ∧ rep_icmp r = (true, 0, true) ∧ get_file 3 t' = None.
Proof.
  destruct (@net_demo_passes unit (Z → Z) unit dev plain_Hw toy_Heap 0 boot_fds (syscall.kw toy_sys))
    as (r & t' & w' & n & i & j & fd & E & -> & Hk & _);
    [done|apply (kw_card _ _ (inv_kw _ _ toy_sys_inv))|done|exists 3; by vm_compute|].
  eexists _, t', w'. split; [exact E|]. split; [done|]. split; [done|]. by rewrite Hk.
Defined.
