(* ===== verification/Shell.v ===== *)
(** * Shell: the interactive shell (kernel/src/shell.rs)

    The shell is a task: it reads keys from /dev/kbd through the VFS, 32 at a time, edits
    a line and evaluates it, until [exit] or 201 reads in a row find nothing. What it
    prints is kept as messages that carry the arguments of the format strings. While it
    sleeps, the rest of the system runs: what that does to the shared state is the class
    [Others].

    [run] and [cat] loop for as long as there is input, so a computation of the shell takes
    fuel: [None] means that the fuel given was not enough. *)

From S2P Require Import Prelude Pmm Task Scheduler Bytes E1000 Vfs Net NetProps Initrd Devices NetDemo.
Import vfs fs keyboard demo.

(** ** Strings *)

Definition is_space (b : Z) : bool := (b =? 32) || ((9 <=? b) && (b <=? 13)).

(** [str::split(c)] *)
Fixpoint split_on (c : Z) (l acc : list Z) : list (list Z) :=
  match l with
  | [] => [acc]
  | b :: l' => if b =? c then acc :: split_on c l' [] else split_on c l' (acc ++ [b])
  end.

(** [str::split_whitespace], on ASCII text. *)
Fixpoint split_ws (l acc : list Z) : list (list Z) :=
  match l with
  | [] => match acc with [] => [] | _ => [acc] end
  | b :: l' =>
      if is_space b then match acc with [] => split_ws l' [] | _ => acc :: split_ws l' [] end
      else split_ws l' (acc ++ [b])
  end.
Definition split_whitespace (l : list Z) : list (list Z) := split_ws l [].

(** [args.join(" ")] *)
Fixpoint join_with (sep : list Z) (l : list (list Z)) : list Z :=
  match l with
  | [] => []
  | [x] => x
  | x :: l' => x ++ sep ++ join_with sep l'
  end.

(** [str::parse::<u8>]: an optional plus sign, then digits, with a value of at most 255. *)
Fixpoint digits_u8 (l : list Z) (acc : Z) : option Z :=
  match l with
  | [] => Some acc
  | d :: l' =>
      if (48 <=? d) && (d <=? 57) then
        let v := acc * 10 + (d - 48) in
        if v <=? 255 then digits_u8 l' v else None
      else None
  end.
Definition parse_u8 (l : list Z) : option Z :=
  match l with
  | [] => None
  | 43 :: [] => None
  | 43 :: l' => digits_u8 l' 0
  | _ => digits_u8 l 0
  end.

Module shell.

(** [parse_ip] *)
Definition parse_ip (s : list Z) : option (list Z) :=
  let parts := split_on 46 s [] in
  if negb (vlen parts =? 4) then None
  else foldl (λ out i, o ← out; p ← vget parts i; b ← parse_u8 p; Some (o ++ [b])) (Some []) (seqZ 0 4).

(** [ip::fmt], and the arguments [{}.{}.{}.{}] of many messages. *)
Definition ip_fmt (ip : list Z) : list Z := join_with (str ".") (dec <$> ip).

(** What the shell prints: one constructor per format string, with its arguments. *)
Inductive msg :=
  | Banner | CannotOpen (e : FsError) | InputIdle | Prompt
  | Help | Echo (text : list Z)
  | LsNames (path : list Z) (names : list (list Z)) | LsError (path : list Z) (e : FsError)
  | CatMissing | CatError (path : list Z) (e : FsError) | CatText (text : list Z)
  | PsHeader | PsRow (id : Z) (st : string)
  | FreeRow (used free frames mib : Z)
  | IfconfigRow (ip gw mac : list Z)
  | ArpEmpty | ArpRow (ip mac : list Z)
  | NetstatHeader | NetstatRow (name : list Z) (idx port : Z) (peer : list Z) (queue : Z)
  | PingUsage
  | NetReport (r : report)
  | NotFoundCmd (cmd : list Z).

(** What other tasks and interrupt handlers do to the shared state, the clock and the
    scheduler's table while a task sleeps for [n] ticks; [E] is their own state. *)
Class Others (K D A E : Type) := {
  during_sleep : Z → E → Kworld K D A → scheduler.Kern → E * Kworld K D A * scheduler.Kern
}.

Record Sh (K D A E : Type) := mkSh {
  kw : Kworld K D A;
  mounts : Mounts Node;
  fds : FdTable Node;
  kern : scheduler.Kern;          (* SCHEDULER, for [ps] *)
  others : E;
  said : list msg;
}.
Arguments mkSh {K D A E} _ _ _ _ _ _.
Arguments kw {K D A E} _.
Arguments mounts {K D A E} _.
Arguments fds {K D A E} _.
Arguments kern {K D A E} _.
Arguments others {K D A E} _.
Arguments said {K D A E} _.

Section shell.
Context {K D A E : Type} `{Profile} `{e1000.Hw D} `{Heap A} `{!Others K D A E}.
Abbreviation KW := (Kworld K D A).
Abbreviation SH := (Sh K D A E).
Abbreviation ShM := (T SH).

Definition set_kw (w : KW) (s : SH) : SH := mkSh w (mounts s) (fds s) (kern s) (others s) (said s).
Definition set_fds (t : FdTable Node) (s : SH) : SH := mkSh (kw s) (mounts s) t (kern s) (others s) (said s).

(** [println!] *)
Definition say (m : msg) : ShM unit :=
  fin (modify (λ s, mkSh (kw s) (mounts s) (fds s) (kern s) (others s) (said s ++ [m]))).

(** [process::sleep] *)
Definition sleep (n : Z) : ShM unit :=
  fin (modify (λ s, let '(e, w, k) := during_sleep n (others s) (kw s) (kern s) in
                    mkSh w (mounts s) (fds s) k e (said s))).

Definition sh_open (path : list Z) : ShM (FsResult Z) :=
  fin (λ s, let '(r, t) := open (W := KW) path (mounts s) (fds s) in Ret (r, set_fds t s)).

Definition sh_read (fd : Z) (buf : list Z) : ShM (FsResult Z * list Z) :=
  fin (λ s, r ← read fd buf (fds s) (kw s);
            let '(res, buf', t, w) := r in Ret ((res, buf'), set_kw w (set_fds t s))).

Definition sh_close (fd : Z) : ShM unit :=
  fin (λ s, let '(_, t) := close fd (fds s) in Ret (tt, set_fds t s)).

Definition sh_net {R} (m : M (Net D) R) : ShM R :=
  fin (λ s, r ← on_net m (kw s); let '(x, w) := r in Ret (x, set_kw w s)).

(** ** The commands *)

Definition cmd_help : ShM unit := say Help.

Definition cmd_ls (args : list (list Z)) : ShM unit :=
  let path := default (str "/") (head args) in
  r ← fin (gets (λ s, list_dir (W := KW) path (mounts s)));
  match r with
  | inl names => say (LsNames path names)
  | inr e => say (LsError path e)
  end.

(** [while let Ok(n) = fs::read(fd, &mut buf)] *)
Fixpoint cat_file (fuel : nat) (fd : Z) (buf out : list Z) : ShM (list Z) :=
  match fuel with
  | O => out_of_fuel
  | S k =>
      r ← sh_read fd buf;
      let '(res, buf) := r in
      match res with
      | inl n =>
          if n =? 0 then mret out
          else
            x ← fin (lift (slice buf 0 n));
            cat_file k fd buf (out ++ text_or (str "<binary>") x)
      | inr _ => mret out
      end
  end.

Definition cmd_cat (fuel : nat) (args : list (list Z)) : ShM unit :=
  match head args with
  | None => say CatMissing
  | Some path =>
      r ← sh_open path;
      match r with
      | inr e => say (CatError path e)
      | inl fd =>
          out ← cat_file fuel fd (replicate 256 0) [];
          _ ← sh_close fd;
          say (CatText out)
      end
  end.

(** [for x in l { f(x) }] *)
Fixpoint each {B} (l : list B) (f : B → ShM unit) : ShM unit :=
  match l with
  | [] => mret tt
  | x :: l' => _ ← f x; each l' f
  end.

Definition cmd_ps : ShM unit :=
  _ ← say PsHeader;
  rows ← fin (gets (λ s, scheduler.snapshot (kern s)));
  each rows (λ r, say (PsRow (fst r) (snd r))).

Definition cmd_free : ShM unit :=
  m ← fin (gets (λ s, let frames := pmm.free_count (frames (kw s)) in
              FreeRow (used_bytes (heap (kw s)) `div` 1024) (free_bytes (heap (kw s)) `div` 1024)
                frames ((frames * 4) `div` 1024)));
  say m.

Definition cmd_ifconfig : ShM unit :=
  mac ← sh_net our_mac;
  t ← fin (lift (mac_fmt mac));
  say (IfconfigRow (ip_fmt e1000.IP) (ip_fmt e1000.GATEWAY) (text_or (str "?") t)).

Definition cmd_arp : ShM unit :=
  t ← sh_net (gets arp_table);
  match t with
  | [] => say ArpEmpty
  | _ => each t (λ r, x ← fin (lift (mac_fmt (snd r))); say (ArpRow (ip_fmt (fst r)) (text_or (str "?") x)))
  end.

Definition netstat_row (r : Z * Z * Z * option (list Z * Z) * Z) : msg :=
  let '(idx, proto, port, peer, q) := r in
  let name := if proto =? PROTO_UDP then str "udp" else str "tcp" in
  let peer_s := match peer with Some (ip, p) => ip_fmt ip ++ str ":" ++ dec p | None => str "-" end in
  NetstatRow name idx port peer_s q.

Definition cmd_netstat : ShM unit :=
  _ ← say NetstatHeader;
  rows ← sh_net (gets socket_info);
  each rows (λ r, say (netstat_row r)).

Definition cmd_ping (args : list (list Z)) : ShM unit :=
  match head args ≫= parse_ip with
  | None => say PingUsage
  | Some dst =>
      o ← sh_net (arp_lookup dst);
      _ ← match o with None => sh_net (arp_request e1000.GATEWAY) | Some _ => mret tt end;
      each [1; 2; 3] (λ seq,
        _ ← sh_net (ping dst seq);
        _ ← sleep 5;
        _ ← sh_net pump;
        mret tt)
  end.

Definition cmd_net : ShM unit :=
  r ← fin (λ s, r ← net_demo (fds s) (kw s);
                let '(rep, t, w) := r in Ret (rep, set_kw w (set_fds t s)));
  say (NetReport r).

(** ** eval and run *)

(** Whether the shell should quit. *)
Definition eval (fuel : nat) (line : list Z) : ShM bool :=
  let text := text_or [] line in
  match split_whitespace text with
  | [] => mret false
  | cmd :: args =>
      if bool_decide (cmd = str "help") then _ ← cmd_help; mret false
      else if bool_decide (cmd = str "echo") then _ ← say (Echo (join_with (str " ") args)); mret false
      else if bool_decide (cmd = str "ls") then _ ← cmd_ls args; mret false
      else if bool_decide (cmd = str "cat") then _ ← cmd_cat fuel args; mret false
      else if bool_decide (cmd = str "ps") then _ ← cmd_ps; mret false
      else if bool_decide (cmd = str "free") then _ ← cmd_free; mret false
      else if bool_decide (cmd = str "ifconfig") then _ ← cmd_ifconfig; mret false
      else if bool_decide (cmd = str "arp") then _ ← cmd_arp; mret false
      else if bool_decide (cmd = str "netstat") then _ ← cmd_netstat; mret false
      else if bool_decide (cmd = str "ping") then _ ← cmd_ping args; mret false
      else if bool_decide (cmd = str "net") then _ ← cmd_net; mret false
      else if bool_decide (cmd = str "exit") || bool_decide (cmd = str "quit") then mret true
      else _ ← say (NotFoundCmd cmd); mret false
  end.

(** The keys of one read; [None] when a command said to quit, else the line so far. *)
Fixpoint feed (fuel : nat) (keys line : list Z) : ShM (option (list Z)) :=
  match keys with
  | [] => mret (Some line)
  | b :: ks =>
      if (b =? 10) || (b =? 13) then
        _ ← say Prompt;
        done ← eval fuel line;
        if (done : bool) then mret None else feed fuel ks []
      else if b =? 8 then feed fuel ks (removelast line)
      else if (0x20 <=? b) && (b <? 0x7f) then feed fuel ks (line ++ [b])
      else feed fuel ks line
  end.

Fixpoint run_loop (fuel : nat) (fd : Z) (line : list Z) (idle : Z) : ShM unit :=
  match fuel with
  | O => out_of_fuel
  | S k =>
      r ← sh_read fd (replicate 32 0);
      let '(res, buf) := r in
      let n := match res with inl n => n | inr _ => 0 end in
      if n =? 0 then
        idle ← fin (lift (checked 64 (idle + 1)));
        _ ← sleep 2;
        if 200 <? idle then _ ← say InputIdle; sh_close fd
        else run_loop k fd line idle
      else
        keys ← fin (lift (slice buf 0 n));
        r ← feed k keys line;
        match r with
        | None => sh_close fd
        | Some line => run_loop k fd line 0
        end
  end.

Definition run (fuel : nat) : ShM unit :=
  _ ← say Banner;
  r ← sh_open (str "/dev/kbd");
  match r with
  | inr e => say (CannotOpen e)
  | inl fd => run_loop fuel fd [] 0
  end.
End shell.
End shell.
