(* ===== verification/ShellProps.v ===== *)
(** * ShellProps: what the shell does

    That dotted addresses read back as printed; that [cat] shows a file, and never ends on
    one without end. *)

From S2P Require Import Prelude Pmm Task Scheduler Bytes E1000 Vfs Net NetProps Initrd Devices Syscall SyscallProps NetTypes NetDemo Shell.
Import vfs fs keyboard demo shell.

(** ** Addresses *)

Lemma split_on_piece c p rest acc : c ∉ p → split_on c (p ++ c :: rest) acc = (acc ++ p) :: split_on c rest [].
Proof.
  revert acc. induction p as [|b p IH]; intros acc Hp; cbn [app split_on].
  - by rewrite Z.eqb_refl, app_nil_r.
  - apply not_elem_of_cons in Hp as [Hb Hp]. rewrite (proj2 (Z.eqb_neq b c)) by done.
    rewrite IH by done. by rewrite <- app_assoc.
Qed.

Lemma split_on_last c p acc : c ∉ p → split_on c p acc = [acc ++ p].
Proof.
  revert acc. induction p as [|b p IH]; intros acc Hp; cbn [split_on]; [by rewrite app_nil_r|].
  apply not_elem_of_cons in Hp as [Hb Hp]. rewrite (proj2 (Z.eqb_neq b c)) by done.
  rewrite IH by done. by rewrite <- app_assoc.
Qed.

Lemma split_on_join c p ps : Forall (λ p, c ∉ p) (p :: ps) → split_on c (join_with [c] (p :: ps)) [] = p :: ps.
Proof.
  revert p. induction ps as [|q ps IH]; intros p [Hp Hps]%Forall_cons.
  - cbn [join_with]. by rewrite split_on_last.
  - change (join_with [c] (p :: q :: ps)) with (p ++ c :: join_with [c] (q :: ps)).
    by rewrite split_on_piece, IH.
Qed.

Definition reads_back (z : Z) : bool :=
  bool_decide (parse_u8 (dec z) = Some z) && bool_decide (46 ∉ dec z).

Lemma dec_reads_back z : is_byte z → parse_u8 (dec z) = Some z ∧ 46 ∉ dec z.
Proof.
  intros Hz. assert (forallb reads_back (seqZ 0 256) = true) as Hall by by vm_compute.
  assert (reads_back z = true) as Hr.
  { rewrite forallb_forall in Hall. apply Hall, list_elem_of_In, elem_of_seqZ. unfold is_byte, fits in Hz. lia. }
  apply andb_true_iff in Hr as [?%bool_decide_eq_true ?%bool_decide_eq_true]. split; assumption.
Qed.

Lemma digits_u8_byte l acc b : is_byte acc → digits_u8 l acc = Some b → is_byte b.
Proof.
  revert acc. induction l as [|d l IH]; intros acc Ha; cbn [digits_u8]; [by intros [= <-]|].
  destruct ((48 <=? d) && (d <=? 57)) eqn:Ed; [|done]. apply andb_true_iff in Ed as [?%Z.leb_le ?%Z.leb_le].
  destruct (Z.leb_spec (acc * 10 + (d - 48)) 255); [|done]. apply IH. unfold is_byte, fits in *. lia.
Qed.

Lemma parse_u8_byte l b : parse_u8 l = Some b → is_byte b.
Proof.
  assert (is_byte 0) as H0 by by unfold is_byte, fits. unfold parse_u8.
  repeat case_match; try done; intros; simplify_eq; by eapply digits_u8_byte.
Qed.

(** The four parts, each parsed. *)
Lemma parse_ip_eq s : parse_ip s =
  match split_on 46 s [] with
  | [p1; p2; p3; p4] =>
      a ← parse_u8 p1; b ← parse_u8 p2; c ← parse_u8 p3; d ← parse_u8 p4; Some [a; b; c; d]
  | _ => None
  end.
Proof.
  unfold parse_ip. destruct (split_on 46 s []) as [|p1 [|p2 [|p3 [|p4 [|p5 ps]]]]]; try done.
  - set (ps := [p1; p2; p3; p4]). change (negb (vlen ps =? 4)) with false.
    change (seqZ 0 4) with [0; 1; 2; 3]. cbn [foldl mbind option_bind].
    change (vget ps 0) with (Some p1). change (vget ps 1) with (Some p2).
    change (vget ps 2) with (Some p3). change (vget ps 3) with (Some p4). cbn [mbind option_bind].
    destruct (parse_u8 p1), (parse_u8 p2), (parse_u8 p3), (parse_u8 p4); done.
  - rewrite (proj2 (Z.eqb_neq _ 4)); [done|]. rewrite !vlen_cons. pose proof (vlen_nonneg ps). lia.
Qed.

(** Addresses read back as printed. Every IPv4 address, formatted as a dotted quad as
    the kernel does, is parsed by [parse_ip] to the same address; and whatever [parse_ip]
    accepts has exactly four dot-separated parts and gives four bytes. *)
Theorem parse_ip_roundtrip :
  (∀ ip, ip4 ip → parse_ip (ip_fmt ip) = Some ip) ∧
  ∀ s ip, parse_ip s = Some ip → ip4 ip ∧ length (split_on 46 s []) = 4%nat.
Proof.
  split.
  - intros ip [Hb Hl]. destruct (list4 ip Hl) as (a & b & c & d & ->).
    unfold bytes in Hb. rewrite !Forall_cons in Hb. destruct Hb as (Ha & Hb & Hc & Hd & _).
    destruct (dec_reads_back a Ha), (dec_reads_back b Hb), (dec_reads_back c Hc), (dec_reads_back d Hd).
    unfold ip_fmt. rewrite parse_ip_eq, !fmap_cons, fmap_nil. change (str ".") with [46].
    rewrite split_on_join by (rewrite !Forall_cons; auto using Forall_nil_2). by simplify_option_eq.
  - intros s ip. rewrite parse_ip_eq. destruct (split_on 46 s []) as [|p1 [|p2 [|p3 [|p4 [|p5 ps]]]]]; try done.
    intros E. destruct (parse_u8 p1) eqn:E1, (parse_u8 p2) eqn:E2, (parse_u8 p3) eqn:E3, (parse_u8 p4) eqn:E4;
      try done. injection E as <-. split; [|done].
    split; [|done]. repeat apply bytes_cons; [by eapply parse_u8_byte..|apply bytes_nil].
Qed.

(** ** cat *)

Lemma utf8_ascii l : Forall (λ b, b < 128) l → utf8_valid l = true.
Proof.
  unfold utf8_valid. generalize (length l) as fuel. intros fuel. revert l.
  induction fuel as [|k IH]; intros l Hl; cbn [utf8_valid_loop]; [done|].
  destruct Hl as [|b l Hb Hl]; [done|]. cbn [utf8_step]. rewrite (proj2 (Z.ltb_lt _ _)) by done.
  cbn [andb drop]. by apply IH.
Qed.

Lemma text_or_ascii d l : Forall (λ b, b < 128) l → text_or d l = l.
Proof. intros Hl. unfold text_or, from_utf8. by rewrite utf8_ascii. Qed.

Section cat.
Context {K D A E : Type} `{Profile} `{e1000.Hw D} `{Heap A} `{!Others K D A E}.
Abbreviation KW := (Kworld K D A).
Abbreviation SH := (Sh K D A E).
Implicit Types (s : SH).

Lemma sh_read_eq fd buf s n off k buf' w' :
  get_file fd (fds s) = Some (mkFile n off) → i_read n off buf (kw s) = Ret (Ok k, buf', w') → fits 64 (off + k) →
  sh_read fd buf s = Some (Ret ((Ok k, buf'), set_kw w' (set_fds (vset (fds s) fd (Some (mkFile n (off + k)))) s))).
Proof.
  intros Hf Hr Hk. unfold sh_read, fin, read. rewrite Hf. cbn [inode offset]. rewrite Hr.
  cbn [mbind outcome_bind Ok]. by rewrite checked_fits.
Qed.

(** The loop on a file with contents [data], from offset [off]. *)
Lemma cat_file_contents fd n data fuel : ∀ off buf out s,
  reads_as (W := KW) n data (kw s) → Forall (λ b, b < 128) data → vlen data < 2 ^ 64 → 0 < vlen buf →
  get_file fd (fds s) = Some (mkFile n off) → 0 ≤ off ≤ vlen data → vlen data - off < Z.of_nat fuel →
  ∃ t, cat_file fuel fd buf out s = Some (Ret (out ++ drop (Z.to_nat off) data, set_fds t s)) ∧ vlen t = vlen (fds s) ∧
    ∀ k, get_file k t = if bool_decide (k = fd) then Some (mkFile n (vlen data)) else get_file k (fds s).
Proof.
  induction fuel as [|fuel IH]; intros off buf out s Hc Ha Hd Hb Hf Ho Hfu; [lia|]. cbn [cat_file].
  pose proof (Hc off buf (proj1 Ho)) as Hr. unfold contents_read in Hr.
  pose proof (get_file_lt _ _ _ Hf) as Hfd.
  case (Z.leb_spec (vlen data) off) as [He|He]; cbn [fst snd] in Hr.
  - assert (off = vlen data) as -> by lia.
    erewrite bind_some by (apply (sh_read_eq _ _ _ _ _ _ _ _ Hf Hr); unfold fits; lia). cbn [Ok Z.eqb].
    rewrite drop_ge, app_nil_r, Z.add_0_r by (unfold vlen; lia).
    exists (vset (fds s) fd (Some (mkFile n (vlen data)))). split; [by destruct s|]. split; [apply vlen_vset|]. intros k. by rewrite get_file_vset.
  - set (k := Z.min (vlen buf) (vlen data - off)) in *. assert (0 < k) as Hk by lia.
    erewrite bind_some by (apply (sh_read_eq _ _ _ _ _ _ _ _ Hf Hr); unfold fits; lia). cbn [Ok].
    rewrite (proj2 (Z.eqb_neq k 0)) by lia.
    set (chunk := take (Z.to_nat k) (drop (Z.to_nat off) data)).
    assert (vlen chunk = k) as Hch.
    { unfold chunk, vlen in *. rewrite length_take, length_drop. lia. }
    erewrite bind_fin.
    2:{ unfold lift. erewrite slice_ok by (rewrite ?vlen_app; unfold vlen in *; rewrite ?length_drop; lia). reflexivity. }
    rewrite Z.sub_0_r. change (Z.to_nat 0) with 0%nat. rewrite drop_0.
    rewrite take_app_length' by (unfold vlen in Hch; lia).
    rewrite text_or_ascii by (by apply Forall_take, Forall_drop).
    destruct (IH (off + k) (chunk ++ drop (Z.to_nat k) buf) (out ++ chunk)
      (set_kw (kw s) (set_fds (vset (fds s) fd (Some (mkFile n (off + k)))) s))) as (t & Et & Hlt & Ht); try done; try lia.
    { rewrite vlen_app. pose proof (vlen_nonneg (drop (Z.to_nat k) buf)). lia. }
    { cbn [set_kw set_fds fds]. by rewrite get_file_vset, bool_decide_true. }
    exists t. rewrite Et. split; [|split; [by rewrite Hlt; cbn [set_kw set_fds fds]; rewrite vlen_vset|]].
    + rewrite <- app_assoc. unfold chunk. rewrite <- (take_drop (Z.to_nat k) (drop (Z.to_nat off) data)) at 2.
      rewrite drop_drop. replace (Z.to_nat off + Z.to_nat k)%nat with (Z.to_nat (off + k)) by lia. by destruct s.
    + intros j. rewrite Ht. cbn [set_kw set_fds fds]. rewrite get_file_vset by done. by case_bool_decide.
Qed.

(** A path that resolves, with room in the table, is opened on a descriptor that was free. *)
Lemma sh_open_eq path n s : resolve (W := KW) path (mounts s) = Ok n → vlen (fds s) ≤ MAX_FDS →
  (∃ k, 0 ≤ k < MAX_FDS ∧ get_file k (fds s) = None) →
  ∃ fd t, sh_open path s = Some (Ret (Ok fd, set_fds t s)) ∧ get_file fd (fds s) = None ∧ 0 ≤ fd ∧ vlen t ≤ MAX_FDS ∧
    install_inode n (fds s) = (Ok fd, t) ∧
    ∀ k, get_file k t = if bool_decide (k = fd) then Some (mkFile n 0) else get_file k (fds s).
Proof.
  intros Hr Hv (k0 & Hk0 & Hfree). unfold sh_open, fin, open. rewrite Hr. cbn [Ok]. unfold install_inode.
  pose proof (install_spec (mkFile n 0) (fds s) Hv) as Hi.
  destruct (install (mkFile n 0) (fds s)) as [[fd|] t]; [|by destruct Hi as [_ Hi]; destruct (Hi k0 Hk0)].
  destruct Hi as ([? _] & Hn & _ & Hk & ?). by exists fd, t.
Qed.

Lemma sh_close_eq fd s : sh_close fd s = Some (Ret (tt, set_fds (close fd (fds s)).2 s)).
Proof. unfold sh_close, fin. by destruct (close fd (fds s)). Qed.

(** What [cat] shows of a node: its contents, or nothing if it cannot be read. *)
Definition shows (n : Node) (data : list Z) (w : KW) : Prop :=
  reads_as (W := KW) n data w ∨ data = [] ∧ ∀ off buf, ∃ e, i_read n off buf w = Ret (Err e, buf, w).

Lemma cat_loop fd n data fuel s : shows n data (kw s) → Forall (λ b, b < 128) data → vlen data < 2 ^ 64 →
  get_file fd (fds s) = Some (mkFile n 0) → vlen data < Z.of_nat fuel →
  ∃ t, cat_file fuel fd (replicate 256 0) [] s = Some (Ret (data, set_fds t s)) ∧ vlen t = vlen (fds s) ∧
    get_file fd t ≠ None ∧ ∀ k, k ≠ fd → get_file k t = get_file k (fds s).
Proof.
  intros [Hc|[-> He]] Ha Hd Hf Hfu.
  - destruct (cat_file_contents fd n data fuel 0 (replicate 256 0) [] s) as (t & Et & Hl & Ht); try done; try lia.
    { pose proof (vlen_nonneg data). lia. }
    exists t. split; [exact Et|]. split; [done|]. split; [by rewrite Ht, bool_decide_true|].
    intros k Hk. by rewrite Ht, bool_decide_false.
  - destruct fuel as [|fuel]; [done|]. cbn [cat_file]. destruct (He 0 (replicate 256 0)) as [e Ee].
    assert (sh_read fd (replicate 256 0) s = Some (Ret ((Err e, replicate 256 0), set_kw (kw s) (set_fds (fds s) s)))) as Er.
    { unfold sh_read, fin, read. rewrite Hf. cbn [inode offset]. by rewrite Ee. }
    rewrite (bind_some _ _ _ _ _ Er). exists (fds s). split; [by destruct s|]. by rewrite Hf.
Qed.

(** [cat] prints the file. For a path that resolves to a node that shows as ASCII
    text of any length, with a free descriptor, the [cat] command returns after fewer reads
    than the file has bytes (and one), having printed exactly the contents; descriptors and
    devices are as before. *)
Lemma cat_shows fuel path n data s :
  resolve (W := KW) path (mounts s) = Ok n → shows n data (kw s) → Forall (λ b, b < 128) data →
  vlen data < 2 ^ 64 → vlen (fds s) ≤ MAX_FDS → (∃ k, 0 ≤ k < MAX_FDS ∧ get_file k (fds s) = None) →
  vlen data < Z.of_nat fuel →
  ∃ t, cmd_cat fuel [path] s = Some (Ret (tt, mkSh (kw s) (mounts s) t (kern s) (others s) (said s ++ [CatText data]))) ∧
    vlen t ≤ MAX_FDS ∧ ∀ k, get_file k t = get_file k (fds s).
Proof.
  intros Hr Hc Ha Hd Hv Hfree Hfu. unfold cmd_cat. cbn [head].
  destruct (sh_open_eq path n s Hr Hv Hfree) as (fd & t & E1 & Hn & _ & Hvt & Hi & Ht). rewrite (bind_some _ _ _ _ _ E1). cbn [Ok].
  destruct (cat_loop fd n data fuel (set_fds t s)) as (t1 & E2 & Hl1 & Hf1 & Ht1); try done.
  { cbn [set_fds fds]. by rewrite Ht, bool_decide_true. }
  rewrite (bind_some _ _ _ _ _ E2), (bind_some _ _ _ _ _ (sh_close_eq _ _)).
  eexists. split; [reflexivity|]. cbn [set_fds fds] in *.
  pose proof (close_spec fd t1) as Hcl. destruct (close fd t1) as [[u|e] t2]; cbn [snd].
  - destruct Hcl as (_ & Hk & Hl2). split; [lia|]. intros k. rewrite Hk. case_bool_decide; [by subst|].
    by rewrite Ht1, Ht, bool_decide_false.
  - by destruct Hcl as (_ & _ & Hno).
Qed.

Lemma cat_zero_loop fd fuel : ∀ off out s, get_file fd (fds s) = Some (mkFile Zero off) →
  0 ≤ off → off + 256 * Z.of_nat fuel < 2 ^ 64 → cat_file fuel fd (replicate 256 0) out s = None.
Proof.
  induction fuel as [|fuel IH]; intros off out s Hf Ho Hl; [done|]. cbn [cat_file].
  erewrite bind_some by (apply (sh_read_eq _ _ _ _ _ _ _ _ Hf eq_refl); unfold fits; rewrite vlen_replicate; lia).
  rewrite vlen_replicate. cbn [Ok]. change (Z.of_nat 256 =? 0) with false. cbv iota.
  change ((λ _ : Z, 0) <$> replicate 256 0) with (replicate 256 0).
  erewrite bind_fin by (unfold lift; rewrite slice_ok by (rewrite ?vlen_replicate; lia); reflexivity).
  apply (IH (off + Z.of_nat 256)); [|lia|lia].
  cbn [set_kw set_fds fds]. rewrite get_file_vset by (by eapply get_file_lt). by rewrite bool_decide_true.
Qed.

(** [cat] of a file without end does not return: on a path that resolves to the zero device,
    such as /dev/zero, the command has not finished after any number of reads (up to
    2^55, when the offset comes near the end of its type), while its output grows. *)
Theorem cat_zero_hangs fuel path s :
  resolve (W := KW) path (mounts s) = Ok Zero → vlen (fds s) ≤ MAX_FDS →
  (∃ k, 0 ≤ k < MAX_FDS ∧ get_file k (fds s) = None) → Z.of_nat fuel ≤ 2 ^ 55 →
  cmd_cat fuel [path] s = None.
Proof.
  intros Hr Hv Hfree Hfu. unfold cmd_cat. cbn [head].
  destruct (sh_open_eq path Zero s Hr Hv Hfree) as (fd & t & E1 & Hn & _ & _ & _ & Ht). rewrite (bind_some _ _ _ _ _ E1). cbn [Ok].
  apply bind_none. apply (cat_zero_loop fd fuel 0); [|lia|lia].
  cbn [set_fds fds]. by rewrite Ht, bool_decide_true.
Qed.
End cat.

(** ** Concrete runs *)

(** [n] ticks of the clock. *)
Definition elapse {K D A : Type} (n : Z) (w : Kworld K D A) : Kworld K D A :=
  mkKworld (kbd w) (serial w) (net w) (frames w) (heap w) (ticks w + n).
Definition elapse_kern (n : Z) (k : scheduler.Kern) : scheduler.Kern :=
  scheduler.mkKern (scheduler.sched k) (scheduler.active k) (scheduler.ticks k + n) (scheduler.irq k) (scheduler.kmem k).

(** A machine on which only the clock runs. *)
#[global] Instance clock_Others {K D A : Type} : Others K D A unit := {|
  during_sleep n e w k := (e, elapse n w, elapse_kern n k)
|}.

Definition still_sh : Sh unit (Z → Z) unit unit :=
  mkSh (syscall.kw toy_sys) (boot_mounts toy_root) boot_fds
    (scheduler.mkKern scheduler.new false 0 true (λ _, 0)) tt [].

Lemma cat_zero_hangs_witness :
  @cmd_cat unit (Z → Z) unit unit dev plain_Hw toy_Heap 1000 [str "/dev/zero"] still_sh = None.
Proof.
  apply (@cat_zero_hangs unit (Z → Z) unit unit dev plain_Hw toy_Heap 1000 (str "/dev/zero") still_sh).
  - by vm_compute.
  - by vm_compute.
  - exists 3. by vm_compute.
  - by vm_compute.
Defined.
