(* ===== verification/ShellSession.v ===== *)
(** * ShellSession: the shell and its typist

    The shell reads keys in pieces, sleeps when there are none and gives up after 201
    empty reads. While it sleeps the rest of the machine runs: somebody types, by a script of
    pauses and texts ([typist]), and the clock, the other tasks and the handlers change the
    kernel as they like ([Background]), but do not touch the keyboard's buffer.

    [run_loop_ensures] is the rule for the main loop: an invariant indexed by the lines still
    to come, which every command keeps, holds until the end, and the loop ends. Its first use
    is that the shell ends; ShellAnswers has the second. *)

From S2P Require Import Prelude Pmm Task Scheduler Bytes E1000 Vfs Net NetProps Initrd Devices Syscall SyscallProps NetTypes NetDemo Shell ShellProps.
Import vfs fs keyboard demo shell.

(** ** Operations on the descriptor table leave the other entries *)

Section fds.
Implicit Types (t : FdTable Node) (f y : File Node) (n : Node).

Lemma install_keeps f t i y : get_file i t = Some y →
  get_file i (install f t).2 = Some y ∧ (install f t).1 ≠ Some i.
Proof.
  intros Hi. pose proof (get_file_lt _ _ _ Hi) as Hl. apply get_file_Some in Hi. unfold install.
  destruct (position slot_is_none t) as [j|] eqn:E; cbn [fst snd].
  - apply position_Some in E as [([z|] & Hj & Hz) _]; [done|]. assert (i ≠ j) by congruence.
    split; [|congruence]. apply get_file_Some. by rewrite vget_vset_ne.
  - destruct (_ <? _); cbn [fst snd]; [|by apply get_file_Some in Hi].
    split; [|intros [= ?]; lia]. apply get_file_Some. by rewrite vget_app_l by lia.
Qed.

Lemma install_at n t fd t' : install_inode n t = (Ok fd, t') → get_file fd t' = Some (mkFile n 0).
Proof.
  unfold install_inode, install. destruct (position slot_is_none t) as [j|] eqn:E.
  - intros [= <- <-]. apply position_Some in E as [(z & Hj & _) _]. apply get_file_Some, vget_vset_eq. by apply vget_lt in Hj.
  - destruct (_ <? _); [|done]. intros [= <- <-]. apply get_file_Some, vget_snoc.
Qed.

Lemma close_keeps fd t i y : fd ≠ i → get_file i t = Some y → get_file i (close fd t).2 = Some y.
Proof.
  intros Hne Hi. pose proof (close_spec fd t) as Hc. destruct (close fd t) as [[u|e] t'].
  - destruct Hc as (_ & -> & _). by rewrite bool_decide_false.
  - by destruct Hc as (_ & -> & _).
Qed.
End fds.

(** ** Operations on the devices leave the keyboard *)

Section devices.
Context {K D A : Type} `{Profile} `{e1000.Hw D} `{Heap A}.
Abbreviation KW := (Kworld K D A).
Implicit Types (w : KW) (t : FdTable Node).

Lemma on_net_kbd {R} (m : M (Net D) R) w r w' : on_net m w = Ret (r, w') → kbd w' = kbd w.
Proof. unfold on_net. destruct (m (net w)) as [[r' n']|]; [|done]. by intros [= <- <-]. Qed.

(** Reading a socket through another descriptor. *)
Lemma read_socket_keeps fd idx off buf t w i y r t' w' : fd ≠ i → get_file i t = Some y →
  get_file fd t = Some (mkFile (SocketInode idx) off) → read fd buf t w = Ret (r, t', w') →
  get_file i t' = Some y ∧ kbd w' = kbd w.
Proof.
  intros Hne Hi Hf. pose proof (get_file_lt _ _ _ Hf) as Hl. unfold read. rewrite Hf. cbn [inode offset i_read Node_Inode Node_read].
  destruct (on_net _ w) as [[[res buf'] w1]|] eqn:E; cbn [mbind outcome_bind]; [|done].
  apply on_net_kbd in E. destruct res as [k|e]; [|by intros [= <- <- <-]].
  destruct (checked 64 (off + k)) as [o|]; cbn [mbind outcome_bind]; [|done]. intros [= <- <- <-].
  split; [|done]. rewrite get_file_vset by done. by rewrite bool_decide_false.
Qed.

Lemma net_demo_keeps t w i y r t' w' : get_file i t = Some y → net_demo t w = Ret (r, t', w') →
  get_file i t' = Some y ∧ kbd w' = kbd w.
Proof.
  intros Hi. unfold net_demo. destruct (on_net layers_demo w) as [[[[[[mac a] ip] c] u] w1]|] eqn:E1; cbn [mbind outcome_bind]; [|done].
  apply on_net_kbd in E1. unfold socket_demo.
  destruct (on_net (socket_new PROTO_UDP) w1) as [[idx w2]|] eqn:E2; cbn [mbind outcome_bind]; [|done].
  apply on_net_kbd in E2. destruct (on_net (socket_bind idx 5555) w2) as [[b w3]|] eqn:E3; cbn [mbind outcome_bind]; [|done].
  apply on_net_kbd in E3. unfold install_inode. destruct (install_keeps (mkFile (SocketInode idx) 0) t i y Hi) as [Hi1 Hne].
  pose proof (install_at (SocketInode idx) t) as Hat. unfold install_inode in Hat.
  destruct (install (mkFile (SocketInode idx) 0) t) as [o t1]. cbn [fst snd] in Hi1, Hne |- *.
  set (m := deliver _ _ _ _). destruct (on_net m w3) as [[z w4]|] eqn:E4; cbn [mbind outcome_bind]; [|done].
  apply on_net_kbd in E4. clear m. destruct o as [fd|]; cbn [Ok Err]; [|intros [= <- <- <-]; split; [done|congruence]].
  assert (fd ≠ i) as Hfi by congruence. specialize (Hat fd t1 eq_refl).
  destruct (read fd (replicate 32 0) t1 w4) as [[[[res buf] t2] w5]|] eqn:E5; cbn [mbind outcome_bind]; [|done].
  destruct (read_socket_keeps _ _ _ _ _ _ _ _ _ _ _ Hfi Hi1 Hat E5) as [Hi2 Hk5].
  set (got := match res with inl _ => _ | inr _ => _ end). destruct got as [g|]; cbn [mbind outcome_bind]; [|done].
  pose proof (close_keeps fd t2 i y Hfi Hi2) as Hi3. destruct (close fd t2) as [r1 t3]. cbn [snd] in Hi3.
  intros [= <- <- <-]. split; [done|congruence].
Qed.
End devices.

(** ** What goes on while the shell sleeps *)

(** Somebody at the keyboard: a script of (pause, text) pairs; a text is typed while the
    shell sleeps for the last time of its pause. *)
Definition typist : Type := list (nat * list Z).

(** The characters of a text that are keys for the shell. *)
Definition heard (cs : list Z) : list Z := mjoin (ascii <$> cs).

(** No pause is 200 sleeps or longer, and every text has a key. *)
Definition calm (e : typist) : Prop := Forall (λ p, (p.1 < 200)%nat ∧ heard p.2 ≠ []) e.

Definition script (e : typist) : list Z := mjoin ((λ p, heard p.2) <$> e).

(** The clock, the other tasks and the handlers, with a state [X] of their own: what they do
    to the kernel in [n] ticks. They leave the keyboard alone. *)
Class Background (K D A X : Type) := {
  passes : Z → X → Kworld K D A → scheduler.Kern → X * Kworld K D A * scheduler.Kern;
  passes_kbd n x w k : kbd (passes n x w k).1.2 = kbd w;
}.

#[global] Instance typist_Others {K D A X : Type} `{Decoder K} `{!Background K D A X} : Others K D A (typist * X) := {|
  during_sleep n e w k :=
    let '(x, w, k) := passes n e.2 w k in
    match e.1 with
    | [] => (([], x), w, k)
    | (O, cs) :: e' => ((e', x), set_kbd (inject_str cs (kbd w)) w, k)
    | (S g, cs) :: e' => (((g, cs) :: e', x), w, k)
    end
|}.

(** The lines the keys make, with the line so far. *)
Fixpoint typed_lines (keys line : list Z) : list (list Z) :=
  match keys with
  | [] => []
  | b :: ks =>
      if (b =? 10) || (b =? 13) then line :: typed_lines ks []
      else if b =? 8 then typed_lines ks (removelast line)
      else if (0x20 <=? b) && (b <? 0x7f) then typed_lines ks (line ++ [b])
      else typed_lines ks line
  end.

Section session.
Context {K D A X : Type} `{Decoder K} `{Profile} `{e1000.Hw D} `{Heap A} `{!Background K D A X}.
Abbreviation KW := (Kworld K D A).
Abbreviation SH := (Sh K D A (typist * X)).
Abbreviation ShM := (T SH).
Implicit Types (s : SH).

(** The keys to come: those in the buffer, then those of the script. *)
Definition pending s : list Z := buffer (kbd (kw s)) ++ script (others s).1.

(** The computation ends; if it returns, [Q] holds; it may panic if [pk]. *)
Definition ensures {B} (pk : Prop) (m : ShM B) s (Q : B → SH → Prop) : Prop :=
  match m s with
  | Some (Ret (b, s')) => Q b s'
  | Some (Panic _) => pk
  | None => False
  end.

Lemma ensures_bind {B C} pk (m : ShM B) (f : B → ShM C) s P Q :
  ensures pk m s P → (∀ b s', P b s' → ensures pk (f b) s' Q) → ensures pk (m ≫= f) s Q.
Proof.
  unfold ensures, mbind, T_bind. intros Hm Hf. destruct (m s) as [[[b s']|p]|]; [by apply Hf|done|done].
Qed.

Lemma ensures_mono {B} pk (m : ShM B) s (P Q : B → SH → Prop) :
  (∀ b s', P b s' → Q b s') → ensures pk m s P → ensures pk m s Q.
Proof. unfold ensures. intros HPQ. destruct (m s) as [[[b s']|p]|]; auto. Qed.

(** A sleep: the others, then perhaps the next text. *)
Lemma sleep_eq n s : let r := passes n (others s).2 (kw s) (kern s) in
  sleep n s = Some (Ret (tt,
    match (others s).1 with
    | [] => mkSh r.1.2 (mounts s) (fds s) r.2 ([], r.1.1) (said s)
    | (O, cs) :: e => mkSh (set_kbd (inject_str cs (kbd r.1.2)) r.1.2) (mounts s) (fds s) r.2 (e, r.1.1) (said s)
    | (S g, cs) :: e => mkSh r.1.2 (mounts s) (fds s) r.2 ((g, cs) :: e, r.1.1) (said s)
    end)).
Proof.
  destruct s as [w ms t k [e x0] sd]. unfold sleep, fin, modify. cbn [during_sleep typist_Others kw kern others mounts fds said fst snd].
  destruct (passes n x0 w k) as [[x w'] k']. by destruct e as [|[[|g] cs] e].
Qed.

Section shell.
Context (fd : Z).

(** The shell's descriptor [fd] is at offset [o] of the keyboard, [q] is still to come. *)
Record waiting (q : list Z) (o : Z) s : Prop := {
  wt_fd : get_file fd (fds s) = Some (mkFile Kbd o);
  wt_pending : pending s = q;
  wt_calm : calm (others s).1;
}.

(** Typing moves keys from the script to the buffer. *)
Lemma sleep_waiting n q o s : waiting q o s → ∃ s', sleep n s = Some (Ret (tt, s')) ∧ waiting q o s' ∧
  match (others s).1 with
  | [] => (others s').1 = [] ∧ buffer (kbd (kw s')) = buffer (kbd (kw s))
  | (O, _) :: _ => buffer (kbd (kw s')) ≠ []
  | (S g, cs) :: e => (others s').1 = (g, cs) :: e ∧ buffer (kbd (kw s')) = buffer (kbd (kw s))
  end.
Proof.
  intros [Hf Hp Hc]. rewrite sleep_eq. unfold pending in Hp. pose proof (passes_kbd n (others s).2 (kw s) (kern s)) as Hk.
  destruct (passes n (others s).2 (kw s) (kern s)) as [[x w] k]. cbn [fst snd] in Hk.
  destruct (others s) as [[|[[|g] cs] e] x0]; cbn [fst snd] in *; (eexists; split; [reflexivity|]); cbn [others kw kbd set_kbd fst snd].
  - rewrite Hk. split; [|done]. split; [done| |done]. unfold pending. cbn. by rewrite Hk.
  - apply Forall_cons in Hc as [[_ Hh] Hc]. rewrite inject_str_eq, Hk. cbn [buffer]. split; [|by intros [_ E]%app_nil].
    split; [done| |done]. unfold pending. cbn. rewrite <- app_assoc. exact Hp.
  - rewrite Hk. split; [|done]. apply Forall_cons in Hc as [[Hg Hh] Hc]. cbn [fst snd] in *.
    split; [done| |apply Forall_cons; split; [split; [cbn; lia|done]|done]]. unfold pending. cbn. by rewrite Hk.
Qed.

(** One read by the shell takes up to 32 keys off what is pending. *)
Lemma read_waiting q o s : waiting q o s → 0 ≤ o → o + vlen q < 2 ^ 64 →
  let b := buffer (kbd (kw s)) in let k := Z.min 32 (vlen b) in
  ∃ buf kb, let s' := set_kw (set_kbd kb (kw s)) (set_fds (vset (fds s) fd (Some (mkFile Kbd (o + k)))) s) in
    sh_read fd (replicate 32 0) s = Some (Ret ((Ok k, buf), s')) ∧
    slice buf 0 k = Ret (take (Z.to_nat k) b) ∧ waiting (drop (Z.to_nat k) q) (o + k) s' ∧
    buffer (kbd (kw s')) = drop (Z.to_nat k) b.
Proof.
  intros [Hf Hp Hca] Ho Hl b k. pose proof (vlen_nonneg b) as Hb.
  assert (vlen b ≤ vlen q) as Hbq.
  { rewrite <- Hp. unfold pending. rewrite vlen_app. pose proof (vlen_nonneg (script (others s).1)). fold b. lia. }
  pose proof (Kbd_read_eq (replicate 32 0) (kw s)) as Hr. rewrite vlen_replicate in Hr. change (Z.of_nat 32) with 32 in Hr.
  fold b k in Hr. eexists _, _. cbv zeta. split.
  { apply (sh_read_eq fd (replicate 32 0) s Kbd o k); [done|exact Hr|unfold fits; lia]. }
  assert (length (take (Z.to_nat k) b) = Z.to_nat k) as Hlk by (rewrite length_take; unfold vlen in *; lia).
  split; [|split; [|done]].
  - rewrite slice_ok; [|lia|rewrite vlen_blit; rewrite ?vlen_replicate; unfold vlen in *; lia].
    unfold blit. change (Z.to_nat 0) with 0%nat. rewrite drop_0, take_0, Z.sub_0_r. cbn [app]. by rewrite take_app_length'.
  - split; [| |done].
    + cbn [set_kw set_fds fds]. rewrite get_file_vset by (by eapply get_file_lt). by rewrite bool_decide_true.
    + rewrite <- Hp. unfold pending. cbn. rewrite drop_app_le; [done|]. fold b. unfold vlen in *. lia.
Qed.

(** The pause before the next key is short enough, given [idle] empty reads so far. *)
Definition soon (idle : Z) s : Prop :=
  buffer (kbd (kw s)) = [] → match (others s).1 with (g, _) :: _ => idle + Z.of_nat g < 200 | [] => True end.

Lemma calm_soon s : calm (others s).1 → soon 0 s.
Proof.
  intros Hc _. destruct (others s).1 as [|[g cs] e]; [done|]. apply Forall_cons in Hc as [[Hg _] _]. cbn [fst] in Hg. lia.
Qed.

(** ** The rule for the loop

    [J ls] holds when the lines [ls] are still to come; a command keeps it or quits, with
    [Fin]; [Post] holds at the end. The commands get fuel [f] or more. *)
Section loop.
Context (pk : Prop) (f : nat) (J : list (list Z) → SH → Prop) (Fin Post : SH → Prop).
Context (J_read : ∀ ls s kb o, J ls s → get_file fd (fds s) ≠ None →
  J ls (set_kw (set_kbd kb (kw s)) (set_fds (vset (fds s) fd (Some (mkFile Kbd o))) s))).
Context (J_sleep : ∀ ls s s', J ls s → sleep 2 s = Some (Ret (tt, s')) → J ls s').
Context (J_line : ∀ k l ls q o s, (f ≤ k)%nat → J (l :: ls) s → waiting q o s →
  ensures pk (_ ← say Prompt; eval k l) s (λ b s', if b : bool then Fin s' else J ls s' ∧ waiting q o s')).
Context (J_idle : ∀ q o s, J [] s → waiting q o s → ensures pk (_ ← say InputIdle; sh_close fd) s (λ _, Post)).
Context (J_quit : ∀ s, Fin s → ensures pk (sh_close fd) s (λ _, Post)).

Lemma feed_ensures k keys rest o : (f ≤ k)%nat → ∀ line s,
  J (typed_lines (keys ++ rest) line) s → waiting rest o s →
  ensures pk (feed k keys line) s (λ r s', match r with
    | None => Fin s'
    | Some line' => J (typed_lines rest line') s' ∧ waiting rest o s'
    end).
Proof.
  intros Hk. induction keys as [|b ks IH]; intros line s HJ Hw; cbn [feed typed_lines app] in *; [done|].
  destruct (_ || _); [|destruct (b =? 8); [by apply IH|]; destruct (_ && _); by apply IH].
  pose proof (J_line k line _ rest o s Hk HJ Hw) as Hl. unfold ensures, mbind, T_bind in Hl |- *.
  destruct (say Prompt s) as [[[[] s1]|p]|]; [|done|done]. destruct (eval k line s1) as [[[[|] s2]|p]|]; [done| |done|done].
  destruct Hl as [HJ2 Hw2]. by apply IH.
Qed.

Lemma run_loop_ensures N : ∀ fuel q o line idle s,
  J (typed_lines q line) s → waiting q o s → 0 ≤ o → o + vlen q < 2 ^ 64 → 0 ≤ idle ≤ 200 → soon idle s →
  (202 * length q + Z.to_nat (201 - idle) ≤ N)%nat → (f + N < fuel)%nat →
  ensures pk (run_loop fuel fd line idle) s (λ _, Post).
Proof.
  induction N as [|N IH]; intros [|k] q o line idle s HJ Hw Ho Hl Hi Hsoon HN Hk; try lia.
  cbn [run_loop]. destruct (read_waiting q o s Hw Ho Hl) as (buf & kb & E1 & Esl & Hw' & Hb').
  pose proof (wt_pending _ _ _ Hw) as Hp. unfold pending in Hp.
  set (b := buffer (kbd (kw s))) in *. set (n := Z.min 32 (vlen b)) in *. pose proof (vlen_nonneg b).
  set (s1 := set_kw _ _) in *. assert (J (typed_lines q line) s1) as HJ1.
  { apply J_read; [done|]. by rewrite (wt_fd _ _ _ Hw). }
  unfold ensures. rewrite (bind_some _ _ _ _ _ E1). cbn [Ok]. destruct (Z.eqb_spec n 0) as [En|En].
  - (* nothing typed *)
    assert (b = []) as Eb by (apply nil_length_inv; unfold n, vlen in *; lia).
    rewrite En, Z.add_0_r in Hw'. change (Z.to_nat 0) with 0%nat in Hw'. rewrite drop_0 in Hw'.
    erewrite bind_fin by (unfold lift; rewrite checked_fits by (unfold fits; lia); reflexivity).
    destruct (sleep_waiting 2 q o s1 Hw') as (s2 & E2 & Hw2 & Hty). rewrite (bind_some _ _ _ _ _ E2).
    pose proof (J_sleep _ _ _ HJ1 E2) as HJ2. specialize (Hsoon Eb). change (others s1) with (others s) in Hty.
    destruct (others s).1 as [|[g cs] e] eqn:Eo.
    + destruct Hty as [Ho2 _]. assert (q = []) as -> by by rewrite <- Hp, Eb.
      destruct (Z.ltb_spec 200 (idle + 1)) as [Hbig|Hsmall]; [by apply (J_idle [] o)|].
      apply (IH k [] o line (idle + 1)); try done; try lia. intros _. by rewrite Ho2.
    + rewrite (proj2 (Z.ltb_ge 200 (idle + 1))) by lia. apply (IH k q o line (idle + 1)); try done; try lia.
      intros Eb2. destruct g as [|g]; [done|]. destruct Hty as [-> _]. lia.
  - (* some keys *)
    erewrite bind_fin by (unfold lift; rewrite Esl; reflexivity).
    set (keys := take (Z.to_nat n) b) in *. set (rest := drop (Z.to_nat n) q) in *.
    assert (q = keys ++ rest) as Eq.
    { unfold keys, rest. rewrite <- Hp, drop_app_le by (unfold vlen in *; lia). rewrite app_assoc. by rewrite take_drop. }
    assert (vlen keys = n) as Hlk by (unfold keys, n, vlen in *; rewrite length_take; lia).
    assert (length q = length keys + length rest)%nat as Hlq by (by rewrite Eq at 1; rewrite length_app).
    rewrite Eq in HJ1. eapply ensures_bind; [apply (feed_ensures k keys rest (o + n)); [lia|done|done]|].
    intros [line'|] s2 HJ2; [|by apply J_quit]. destruct HJ2 as [HJ2 Hw2].
    apply (IH k rest (o + n) line' 0); try done; try (unfold vlen in *; lia). apply calm_soon, Hw2.
Qed.
End loop.
End shell.

(** Enough for [n] keys: each resets the patience of 201 empty reads. *)
Definition enough (n : nat) : nat := (202 * n + 202)%nat.

(** The whole of [run]: the descriptor it gets is open on the keyboard, or there is none. *)
Lemma run_ensures pk f (Q : SH → Prop) s : let s0 := mkSh (kw s) (mounts s) (fds s) (kern s) (others s) (said s ++ [Banner]) in
  resolve (W := KW) (str "/dev/kbd") (mounts s) = Ok Kbd →
  (∀ fd t, install_inode Kbd (fds s) = (Ok fd, t) →
    ensures pk (run_loop (f + enough (length (pending s))) fd [] 0) (set_fds t s0) (λ _, Q)) →
  (∀ e t, install_inode Kbd (fds s) = (Err e, t) → ensures pk (say (CannotOpen e)) (set_fds t s0) (λ _, Q)) →
  ensures pk (run (f + enough (length (pending s)))) s (λ _, Q).
Proof.
  intros s0 Hk Hok Herr. unfold ensures, run. rewrite (bind_some (say Banner) _ s tt s0 eq_refl).
  destruct (install_inode Kbd (fds s)) as [x t] eqn:Ei.
  assert (sh_open (str "/dev/kbd") s0 = Some (Ret (x, set_fds t s0))) as Eo.
  { unfold sh_open, fin, open. cbn [mounts fds s0]. rewrite Hk. cbn [Ok]. by rewrite Ei. }
  rewrite (bind_some _ _ _ _ _ Eo). destruct x as [fd|e]; [by apply Hok|by apply Herr].
Qed.

(** ** Termination *)

Section tame.
Context (fd : Z).

(** The computation ends and leaves the shell's descriptor and its keys. *)
Definition tame {B} (m : ShM B) : Prop := ∀ q o s, waiting fd q o s → ensures True m s (λ _, waiting fd q o).

Lemma tame_bind {B C} (m : ShM B) (f : B → ShM C) : tame m → (∀ b, tame (f b)) → tame (m ≫= f).
Proof. intros Hm Hf q o s Hs. eapply ensures_bind; [by apply Hm|]. intros b s'. apply Hf. Qed.

Lemma tame_ret {B} (b : B) : tame (mret b).
Proof. by intros q o s Hs. Qed.

Lemma tame_lift {B} (x : outcome B) : tame (fin (lift x)).
Proof. intros q o s Hs. unfold ensures, fin, lift. by destruct x. Qed.

Lemma tame_gets {B} (f : SH → B) : tame (fin (gets f)).
Proof. by intros q o s Hs. Qed.

Lemma tame_say m : tame (say m).
Proof. by intros q o s []. Qed.

Lemma tame_sleep n : tame (sleep n).
Proof. intros q o s Hs. destruct (sleep_waiting fd n q o s Hs) as (s' & E & Hs' & _). unfold ensures. by rewrite E. Qed.

(** Another state of the devices, with the keyboard as it was. *)
Lemma waiting_kw q o s w : kbd w = kbd (kw s) → waiting fd q o s → waiting fd q o (set_kw w s).
Proof. intros Hk [Hf Hp Hc]. split; [done| |done]. unfold pending in *. cbn [kw set_kw others]. by rewrite Hk. Qed.

Lemma tame_net {B} (m : M (Net D) B) : tame (sh_net m).
Proof.
  intros q o s Hs. unfold ensures, sh_net, fin. destruct (on_net m (kw s)) as [[r w]|] eqn:E; cbn [mbind outcome_bind]; [|done].
  apply on_net_kbd in E. by apply waiting_kw.
Qed.

Lemma tame_each {B} (l : list B) (f : B → ShM unit) : (∀ x, tame (f x)) → tame (each l f).
Proof. intros Hf. induction l as [|x l IH]; cbn [each]; [apply tame_ret|]. by apply tame_bind. Qed.

Lemma tame_net_demo : tame cmd_net.
Proof.
  apply tame_bind; [|intros; apply tame_say]. intros q o s Hs. unfold ensures, fin.
  destruct (net_demo (fds s) (kw s)) as [[[r t] w]|] eqn:E; cbn [mbind outcome_bind]; [|done].
  destruct (net_demo_keeps _ _ _ _ _ _ _ (wt_fd _ _ _ _ Hs) E) as [Hf Hk]. apply waiting_kw; [done|]. by destruct Hs.
Qed.

Create HintDb tame.
#[local] Hint Resolve tame_ret tame_lift tame_gets tame_say tame_sleep tame_net tame_each tame_net_demo : tame.
#[local] Hint Extern 1 (tame (_ ≫= _)) => apply tame_bind; [|intros] : tame.
#[local] Hint Extern 1 (tame (match ?x with _ => _ end)) => destruct x : tame.

Lemma tame_ping args : tame (cmd_ping args).
Proof. unfold cmd_ping. auto 20 with tame. Qed.

(** A line whose command is [cat]. *)
Definition cats (line : list Z) : Prop := head (split_whitespace (text_or [] line)) = Some (str "cat").

Lemma tame_eval fuel line : ¬ cats line → tame (eval fuel line).
Proof.
  intros Hl. unfold eval, cats in *. destruct (split_whitespace (text_or [] line)) as [|cmd args]; [auto with tame|].
  repeat case_bool_decide; unfold cmd_help, cmd_ls, cmd_ps, cmd_free, cmd_ifconfig, cmd_arp, cmd_netstat, cmd_ping;
    cbn [orb]; try solve [auto 20 with tame]. subst. by destruct Hl.
Qed.
End tame.

(** C25. The shell ends. Whatever is typed and whatever the clock, the other tasks and the handlers do
    meanwhile, if no line is a [cat] (whose file may have no end), no pause is 200 sleeps or
    longer and the typist stops some time, [run] returns (or a command panics) within 202
    rounds of its loop per key and 202 more. *)
Theorem shell_terminates s :
  resolve (W := KW) (str "/dev/kbd") (mounts s) = Ok Kbd → calm (others s).1 → vlen (pending s) < 2 ^ 64 →
  Forall (λ l, ¬ cats l) (typed_lines (pending s) []) →
  run (enough (length (pending s))) s ≠ None.
Proof.
  intros Hk Hc Hl Hq. pose proof (run_ensures True 0 (λ _, True) s Hk) as Hr. cbn [Nat.add] in Hr.
  assert (ensures True (run (enough (length (pending s)))) s (λ _ _, True)) as He; [|unfold ensures in He; by destruct (run _ s)].
  apply Hr; [|done]. intros fd t Ei. apply install_at in Ei.
  apply (run_loop_ensures fd True 0 (λ ls _, Forall (λ l, ¬ cats l) ls) (λ _, True) (λ _, True))
    with (N := (202 * length (pending s) + 201)%nat) (q := pending s) (o := 0); try done; try (unfold enough; lia).
  - intros k l ls q o s' _ [Hl1 Hls]%Forall_cons Hw.
    assert (tame fd (_ ← say Prompt; eval k l)) as Ht by (apply tame_bind; [apply tame_say|intros; by apply tame_eval]).
    eapply ensures_mono; [|by apply Ht]. by intros [|] s2 Hw2.
  - intros q o s' _ _. unfold ensures. by rewrite (bind_some _ _ _ _ _ eq_refl), sh_close_eq.
  - intros s' _. unfold ensures. by rewrite sh_close_eq.
  - by apply calm_soon.
Qed.
End session.

(** ** A concrete session, on a machine whose clock runs *)

#[global] Instance unit_Decoder : Decoder unit := {|
  KeyEvent := unit;
  decoder_new := tt;
  add_byte _ k := (inl None, k);
  process_keyevent _ k := (None, k);
|}.

#[global] Instance clock_Background {K D A : Type} : Background K D A unit := {|
  passes n x w k := (x, elapse n w, elapse_kern n k);
  passes_kbd n x w k := eq_refl;
|}.

Definition toy_kern : scheduler.Kern :=
  scheduler.mkKern scheduler.new false 0 true (λ _, 0).

Definition toy_sh (e : typist) : Sh unit (Z → Z) unit (typist * unit) :=
  mkSh (syscall.kw toy_sys) (boot_mounts toy_root) boot_fds toy_kern (e, tt) [].

Lemma shell_terminates_witness :
  @run unit (Z → Z) unit (typist * unit) dev plain_Hw toy_Heap typist_Others
    (enough 9) (toy_sh [(199%nat, str "free" ++ [10]); (0%nat, str "ls" ++ [10] ++ str "x")]) ≠ None.
Proof.
  apply (@shell_terminates unit (Z → Z) unit unit _ dev plain_Hw toy_Heap _
    (toy_sh [(199%nat, str "free" ++ [10]); (0%nat, str "ls" ++ [10] ++ str "x")])).
  - by vm_compute.
  - unfold calm. by apply (bool_decide_unpack (Forall _ _)).
  - by vm_compute.
  - unfold cats. by apply (bool_decide_unpack (Forall _ _)).
Defined.
