(* ===== verification/Boot.v ===== *)
(** * Boot: [kernel_main] and its phases (kernel/src/main.rs, [run_user] of syscall/mod.rs)

    The kernel as a whole: [Machine] holds every static the components work on, and the
    phases of [kernel_main] run them one after the other, with what they print as a
    [BootReport]. What boot sets up once and nothing modelled changes later (the segment registers, the
    interrupt controller, the timer chip, CR4) is the [Board]. The user programs are code of their own, the class [UserCode]: what the
    kernel sees of one is the registers and the memory at each [int 0x80]. A program may
    run for ever, so [run_user] takes fuel, one unit per system call. Interrupts are taken
    between phases, when they are enabled. The page of the physical map that the card uses
    ([bus]) and physical memory seen by the loader ([phys]) are separate functions: they
    hold different frames. *)

From S2P Require Import Prelude Pmm Memory Task Scheduler Tasks Bytes Elf E1000 Vfs Net NetProps Initrd Devices Syscall SyscallProps Gdt Interrupts NetDemo Shell.
Import vfs fs keyboard syscall demo elf.

Module boot.

(** Interrupts during boot: the timer, and the keyboard with the scancode in its port. *)
Inductive interrupt := Irq0 | Irq1 (scancode : Z).

(** A user program: from its entry, the registers and the memory it has at its next
    [int 0x80]; how it goes on with the frame and the memory it finds on return. *)
Class UserCode (U : Type) := {
  user_enter : Z → Z → Z → Z → (Z → Z) → U;      (* rip, rsp, cs, ss, memory *)
  user_call : U → SyscallFrame * (Z → Z);
  user_resume : U → SyscallFrame → (Z → Z) → U;
}.

(** The state of the heap crate while the two vectors of [memory_self_test] live, and once
    they are dropped. *)
Class HeapVecs (A : Type) := { vecs_live : A → A; vecs_dropped : A → A }.

Abbreviation Alloc := pmm.BitmapFrameAllocator.

Record Board (P : Type) := mkBoard {
  pics : P;
  cr4 : Z;
  pit : list (Z * Z);                            (* the port writes to the timer chip *)
  segs : gdt.SegRegs;                            (* CS, SS and the task register *)
}.
Arguments mkBoard {P} _ _ _ _.
Arguments pics {P} _.
Arguments cr4 {P} _.
Arguments pit {P} _.
Arguments segs {P} _.

(** SERIAL, KEYBOARD, NIC/CACHE/SOCKETS, ALLOCATOR, MOUNTS, FD_TABLE, SCHEDULER and TICKS,
    the memory with FRAME_ALLOCATOR, and the board. *)
Record Machine (K D A PT P : Type) := mkMachine {
  space : @Space Alloc PT;
  kbd_st : KeyboardState K;
  serial_out : list Z;
  net_st : Net D;
  heap_st : A;
  mnts : Mounts Node;
  files : FdTable Node;
  kern : scheduler.Kern;
  board : Board P;
}.
Arguments mkMachine {K D A PT P} _ _ _ _ _ _ _ _ _.
Arguments space {K D A PT P} _.
Arguments kbd_st {K D A PT P} _.
Arguments serial_out {K D A PT P} _.
Arguments net_st {K D A PT P} _.
Arguments heap_st {K D A PT P} _.
Arguments mnts {K D A PT P} _.
Arguments files {K D A PT P} _.
Arguments kern {K D A PT P} _.
Arguments board {K D A PT P} _.

(** What the self-tests print. *)
Record BootReport := mkBootReport {
  rep_frames : Z * Z * Z;                        (* memory_self_test: the frames *)
  rep_heap : Z * Z * Z * Z;                      (* the heap: KiB used and free, data[4095], v[99] *)
  rep_ls : FsResult (list (list Z)) * FsResult (list (list Z));   (* /initrd, /dev *)
  rep_cats : list (FsResult (list Z));           (* fs_cat of the four paths *)
  rep_kbd : FsResult (list Z);                   (* phase7_demo *)
  rep_net : report;                              (* net::demo *)
}.

Section boot.
Context {K D A PT U P : Type} `{Profile} `{Decoder K} `{e1000.Hw D} `{Heap A} `{Mapper Alloc PT}.
Context `{X86Addr} `{VirtAddrNew} `{UserCode U} `{HeapVecs A} `{interrupts.Pics P} {G : Type} `{gdt.GdtTable G}.
Abbreviation MA := (Machine K D A PT P).
Abbreviation KW := (Kworld K D A).
Abbreviation Boot := (T MA).

(** The state behind the files, and putting it back. *)
Definition kworld (m : MA) : KW :=
  mkKworld (kbd_st m) (serial_out m) (net_st m) (falloc (vm (space m))) (heap_st m) (scheduler.ticks (kern m)).

Definition set_vm (v : Mem Alloc PT) (m : MA) : MA :=
  mkMachine (mkSpace v (phys (space m)) (wr (space m))) (kbd_st m) (serial_out m) (net_st m) (heap_st m)
    (mnts m) (files m) (kern m) (board m).
Definition set_space (s : @Space Alloc PT) (m : MA) : MA :=
  mkMachine s (kbd_st m) (serial_out m) (net_st m) (heap_st m) (mnts m) (files m) (kern m) (board m).
Definition set_kern (k : scheduler.Kern) (m : MA) : MA :=
  mkMachine (space m) (kbd_st m) (serial_out m) (net_st m) (heap_st m) (mnts m) (files m) k (board m).
Definition set_kbd_st (k : KeyboardState K) (m : MA) : MA :=
  mkMachine (space m) k (serial_out m) (net_st m) (heap_st m) (mnts m) (files m) (kern m) (board m).
Definition set_net_st (n : Net D) (m : MA) : MA :=
  mkMachine (space m) (kbd_st m) (serial_out m) n (heap_st m) (mnts m) (files m) (kern m) (board m).
Definition set_files (t : FdTable Node) (m : MA) : MA :=
  mkMachine (space m) (kbd_st m) (serial_out m) (net_st m) (heap_st m) (mnts m) t (kern m) (board m).
Definition set_heap_st (h : A) (m : MA) : MA :=
  mkMachine (space m) (kbd_st m) (serial_out m) (net_st m) h (mnts m) (files m) (kern m) (board m).
Definition set_board (b : Board P) (m : MA) : MA :=
  mkMachine (space m) (kbd_st m) (serial_out m) (net_st m) (heap_st m) (mnts m) (files m) (kern m) b.

(** File operations read TICKS and FRAME_ALLOCATOR only. *)
Definition put_kworld (w : KW) (m : MA) : MA :=
  mkMachine (space m) (kbd w) (serial w) (net w) (heap w) (mnts m) (files m) (kern m) (board m).

(** ** Interrupts *)

(** A key that is queued needs the heap ([push_back] allocates), which is there after
    [memory::init] only. *)
Definition take_interrupt (i : interrupt) (m : MA) : outcome MA :=
  match i with
  | Irq0 =>
      r ← scheduler.tick (timer.timer_tick (kern m));
      Ret (set_kern (snd r) m)
  | Irq1 sc =>
      let k := interrupt_handler sc (kbd_st m) in
      if bool_decide (heap_region (vm (space m)) = None) && (vlen (buffer (kbd_st m)) <? vlen (buffer k))
      then Panic PAlloc
      else Ret (set_kbd_st k m)
  end.

Definition interrupts (l : list interrupt) : Boot unit :=
  fin (λ m, if scheduler.irq (kern m) then m' ← for_each l take_interrupt m; Ret (tt, m') else Ret (tt, m)).

(** ** Phase 3: memory *)

Definition phase3 (b : BootInfo) : Boot (Z * Z * Z) :=
  fin (λ m,
    v ← memory_init b (vm (space m));
    r ← frame_self_test 1000 (falloc v);
    let '(before, during, after, a) := r in
    Ret ((before, during, after), set_vm (set_falloc a v) m)).

(** The heap half of [memory_self_test]. *)
Definition heap_self_test : Boot (Z * Z * Z * Z) :=
  fin (λ m,
    let data := replicate 4096 0 in
    _ ← index data 4095;
    let data := vset data 4095 0xab in
    v ← for_each (seqZ 0 100) (λ i v, x ← checked 32 (i * i); Ret (v ++ [x])) [];
    let h := vecs_live (heap_st m) in
    d ← index data 4095;
    x ← index v 99;
    Ret ((used_bytes h `div` 1024, free_bytes h `div` 1024, d, x), set_heap_st (vecs_dropped h) m)).

(** ** Phases 5 and 6: files and user programs *)

Definition init_files (tar : list Z) : Boot unit :=
  fin (λ m,
    r ← fs_init (K := K) (D := D) (A := A) tar (mnts m) (files m);
    let '(ms, t) := r in
    Ret (tt, mkMachine (space m) (kbd_st m) (serial_out m) (net_st m) (heap_st m) ms t (kern m) (board m))).

Definition boot_cat (path : list Z) (scratch : list Z) : Boot (FsResult (list Z) * list Z) :=
  fin (λ m,
    r ← fs_cat path (mnts m) scratch (files m) (kworld m);
    let '(res, scratch, t, w) := r in
    Ret ((res, scratch), set_files t (put_kworld w m))).

Definition phase6_self_test
    : Boot (FsResult (list (list Z)) * FsResult (list (list Z)) * list (FsResult (list Z))) :=
  l1 ← fin (gets (λ m, list_dir (W := KW) (str "/initrd") (mnts m)));
  l2 ← fin (gets (λ m, list_dir (W := KW) (str "/dev") (mnts m)));
  r ← boot_cat (str "/initrd/motd.txt") (replicate 256 0);
  let '(c1, scratch) := r in
  r ← boot_cat (str "/proc/uptime") scratch;
  let '(c2, scratch) := r in
  r ← boot_cat (str "/proc/meminfo") scratch;
  let '(c3, scratch) := r in
  r ← boot_cat (str "/nope") scratch;
  let '(c4, scratch) := r in
  mret (l1, l2, [c1; c2; c3; c4]).

(** The program's system calls, until it leaves through [exit]. *)
Fixpoint user_loop (pages : UserPages) (fuel : nat) (u : U) (s : Sys K D A) : option (outcome (Sys K D A)) :=
  match fuel with
  | O => None
  | S k =>
      let '(f, um) := user_call u in
      match syscall_dispatch f (mkSys (kw s) (mounts s) (fds s) um) with
      | Panic p => Some (Panic p)
      | Ret (Resume f', s') => user_loop pages k (user_resume u f' (umem s')) s'
      | Ret (ReturnToKernel _, s') => Some (Ret s')
      end
  end.

(** The bytes of the lower half as the program left them, in physical memory. *)
Definition user_bytes (um : Z → Z) (s : @Space Alloc PT) : @Space Alloc PT :=
  mkSpace (vm s) (λ p,
    match find (λ i, bool_decide (translate_addr (tables (vm s)) (i * 4096) = Some (page_of p))) (seqZ 0 (2 ^ 35)) with
    | Some i => um (i * 4096 + p `mod` 4096)
    | None => phys s p
    end) (wr s).

(** What the page tables allow the kernel: any mapped page can be read; one that is not writable
    can be written when CR0.WP is clear. *)
Definition mapped_pages (wp : bool) (s : @Space Alloc PT) : UserPages :=
  {| can a v := bool_decide (is_Some (translate_addr (tables (vm s)) v)) &&
       match a with Load => true | Store => negb wp || wr s (page_of v) end |}.

(** [enter_user_asm] and what follows up to its return, with interrupts off. *)
Definition user_mode (wp : bool) (fuel : nat) (img : LoadedImage) (sel : gdt.Selectors) : Boot unit :=
  λ m,
    let um v := default 0 (phys (space m) <$> translate_addr (tables (vm (space m))) v) in
    let u := user_enter (entry img) (stack_top img) (gdt.user_code_selector sel) (gdt.user_data_selector sel) um in
    match user_loop (mapped_pages wp (space m)) fuel u (mkSys (kworld m) (mnts m) (files m) um) with
    | None => None
    | Some (Panic p) => Some (Panic p)
    | Some (Ret s) =>
        let m' := mkMachine (user_bytes (umem s) (space m)) (kbd (kw s)) (serial (kw s)) (net (kw s)) (heap (kw s))
                    (mounts s) (fds s) (scheduler.set_irq false (kern m)) (board m) in
        Some (Ret (tt, m'))
    end.

Definition run_user (wp : bool) (fuel : nat) (sel : gdt.Selectors) (file : list Z) : Boot unit :=
  r ← fin (λ m, r ← load wp file (space m); let '(res, s) := r in Ret (res, set_space s m));
  match r with
  | inr _ => mret tt
  | inl img => user_mode wp fuel img sel
  end.

(** ** Phases 7 and 8: devices and network *)

Definition phase7_setup : Boot unit :=
  fin (λ m,
    r ← e1000.init (Z.to_nat 100000) (world (net_st m)) (vm (space m));
    let '(w, v) := r in
    Ret (tt, set_vm v (set_net_st (Net.set_world w (net_st m)) m))).

Definition phase7_demo : Boot (FsResult (list Z)) :=
  fin (λ m,
    let m := set_kbd_st (inject [0x23; 0x12; 0x26; 0x26; 0x18] (kbd_st m)) m in
    let '(o, t) := open (W := KW) (str "/dev/kbd") (mnts m) (files m) in
    match o with
    | inr e => Ret (Err e, set_files t m)
    | inl fd =>
        r ← read fd (replicate 16 0) t (kworld m);
        let '(res, buf, t, w) := r in
        let n := match res with inl n => n | inr _ => 0 end in
        text ← slice buf 0 n;
        let '(_, t) := close fd t in
        Ret (Ok (text_or (str "<non-utf8>") text), set_files t (put_kworld w m))
    end).

Definition script : list Z :=
  str "help" ++ [10] ++ str "ifconfig" ++ [10] ++ str "arp -a" ++ [10] ++ str "netstat" ++ [10] ++
  str "ping 10.0.2.2" ++ [10] ++ str "free" ++ [10] ++ str "ps" ++ [10] ++ str "ls /initrd" ++ [10] ++
  str "cat /initrd/motd.txt" ++ [10] ++ str "exit" ++ [10].

Definition phase8_setup : Boot report :=
  fin (λ m,
    r ← net_init (net_st m);
    let m := set_net_st (snd r) m in
    r ← net_demo (files m) (kworld m);
    let '(rep, t, w) := r in
    let m := set_files t (put_kworld w m) in
    Ret (rep, set_kbd_st (inject_str script (kbd_st m)) m)).

(** ** The tasks *)

(** Four tasks; [stacks] are the buffers the heap gives for their stacks. *)
Definition start_tasks (trampoline : Z) (stacks : Z * Z * Z * Z) : Boot (option scheduler.Switch) :=
  fin (λ m,
    r ← tasks.phase4_demo trampoline stacks (kern m);
    let '(sw, k) := r in
    Ret (sw, set_kern k m)).

(** ** kernel_main *)

(** What the bootloader, the linker and the heap provide, and when interrupts come. *)
Record Env := mkEnv {
  boot_info : BootInfo;
  initrd_tar : list Z;
  user_elf : list Z;
  vfs_elf : list Z;
  cr0_wp : bool;
  double_fault_stack : Z;
  syscall_stack : Z;
  task_trampoline : Z;
  task_stacks : Z * Z * Z * Z;
  coming : Z → list interrupt;
}.

(** [interrupts::init] *)
Definition init_interrupts : Boot unit :=
  fin (modify (λ m,
    let '(p, k) := interrupts.init (pics (board m)) (kern m) in
    set_board (mkBoard p (cr4 (board m)) (pit (board m)) (segs (board m))) (set_kern k m))).

(** The [int3] of [kernel_main]. *)
Definition int3 : Boot unit := fin (lift (interrupts.exception 3)).

(** [timer::init] *)
Definition init_timer : Boot unit :=
  fin (modify (λ m,
    set_board (mkBoard (pics (board m)) (cr4 (board m)) (pit (board m) ++ timer.timer_init) (segs (board m))) m)).

(** [syscall::init]: clear the bit that keeps the kernel out of user pages. *)
Definition SUPERVISOR_MODE_ACCESS_PREVENTION : Z := Z.shiftl 1 21.
Definition syscall_init : Boot unit :=
  fin (modify (λ m,
    set_board (mkBoard (pics (board m)) (Z.land (cr4 (board m)) (Z.lnot SUPERVISOR_MODE_ACCESS_PREVENTION))
      (pit (board m)) (segs (board m))) m)).

(** [process::init] *)
Definition arm_scheduler : Boot unit := fin (modify (λ m, set_kern (scheduler.init (kern m)) m)).

(** [gdt::init], with the selectors of the table it loads. *)
Definition init_gdt (e : Env) : Boot gdt.Selectors :=
  fin (λ m,
    t ← gdt.TSS (double_fault_stack e) (syscall_stack e);
    g ← gdt.GDT (G := G) t;
    r ← gdt.init g;
    Ret (snd g, set_board (mkBoard (pics (board m)) (cr4 (board m)) (pit (board m)) r) m)).

(** From [interrupts::init] to [fs::init]. *)
Definition bring_up (e : Env) : Boot (Z * Z * Z * (Z * Z * Z * Z)) :=
  _ ← init_interrupts;
  _ ← interrupts (coming e 0);
  fr ← phase3 (boot_info e);
  hp ← heap_self_test;
  _ ← int3;
  _ ← interrupts (coming e 1);
  _ ← arm_scheduler;
  _ ← init_timer;
  _ ← interrupts (coming e 2);
  _ ← syscall_init;
  _ ← init_files (initrd_tar e);
  mret (fr, hp).

(** The two programs. *)
Definition run_programs (fuel : nat) (e : Env) (sel : gdt.Selectors) : Boot unit :=
  _ ← interrupts (coming e 3);
  _ ← run_user (cr0_wp e) fuel sel (user_elf e);
  _ ← interrupts (coming e 4);
  _ ← run_user (cr0_wp e) fuel sel (vfs_elf e);
  interrupts (coming e 5).

(** Phases 7 and 8, and the tasks. *)
Definition start_system (e : Env) : Boot (FsResult (list Z) * report * option scheduler.Switch) :=
  _ ← phase7_setup;
  kb ← phase7_demo;
  _ ← interrupts (coming e 6);
  rn ← phase8_setup;
  sw ← start_tasks (task_trampoline e) (task_stacks e);
  mret (kb, rn, sw).

Definition kernel_main (fuel : nat) (e : Env) : Boot (BootReport * option scheduler.Switch) :=
  sel ← init_gdt e;
  fr ← bring_up e;
  t6 ← phase6_self_test;
  _ ← run_programs fuel e sel;
  r ← start_system e;
  let '(kb, rn, sw) := r in
  mret (mkBootReport (fst fr) (snd fr) (fst t6) (snd t6) kb rn, sw).
End boot.
End boot.
