(* ===== verification/BootProps.v ===== *)
(** * BootProps: the kernel boots

    Each phase of [kernel_main] does not panic and leaves what the next one needs: first
    the memory ([booting]), then the files ([running]). The last theorem puts the
    phases together. *)

From S2P Require Import Prelude Pmm Memory Task Scheduler SchedulerProps Tasks TasksProps Bytes Elf E1000 Vfs Net NetProps Initrd Devices Syscall SyscallProps Gdt Interrupts NetDemo Shell ShellProps Boot.
Import vfs fs keyboard syscall demo elf boot.

(** ** What file operations and system calls leave alone *)

Section kept.
Context {K D A : Type} `{Profile} `{e1000.Hw D} `{Heap A} `{UserPages}.
Abbreviation KW := (Kworld K D A).

(** The frame allocator, the heap and the clock. *)
Definition same_rest (w w' : KW) : Prop := frames w' = frames w ∧ heap w' = heap w ∧ ticks w' = ticks w.

Lemma on_net_rest {R} (f : M (Net D) R) (w w' : KW) x : on_net f w = Ret (x, w') → same_rest w w'.
Proof. unfold on_net. intros ([y n] & _ & [= <- <-])%bind_Ret. done. Qed.

Lemma Node_read_rest n off buf (w w' : KW) r b : Node_read n off buf w = Ret (r, b, w') → same_rest w w'.
Proof.
  destruct n; cbn [Node_read]; try (by intros [= <- <- <-]).
  - unfold Kbd_read. intros ([[k b'] kb] & _ & [= <- <- <-])%bind_Ret. done.
  - unfold ProcFile_read. case_match; [by intros [= <- <- <-]|].
    intros (? & _ & (? & _ & [= <- <- <-])%bind_Ret)%bind_Ret. done.
  - apply on_net_rest.
Qed.

Lemma Node_write_rest n off data (w w' : KW) r : Node_write n off data w = Ret (r, w') → same_rest w w'.
Proof.
  destruct n; cbn [Node_write]; try (by intros [= <- <-]).
  - unfold Console_write. rewrite serial_write_bytes_eq. by intros [= <- <-].
  - apply on_net_rest.
Qed.

Lemma read_rest fd buf t t' (w w' : KW) r b : read fd buf t w = Ret (r, b, t', w') → same_rest w w'.
Proof.
  unfold read. destruct (get_file fd t); [|by intros [= <- <- <- <-]].
  intros ([[r0 b0] w0] & E%Node_read_rest & E')%bind_Ret. destruct r0; [|by simplify_eq].
  apply bind_Ret in E' as (? & _ & ?). by simplify_eq.
Qed.

Lemma write_rest fd data t t' (w w' : KW) r : write fd data t w = Ret (r, t', w') → same_rest w w'.
Proof.
  unfold write. destruct (get_file fd t) as [f|]; [|by intros [= <- <- <-]].
  intros ([r0 w0] & E & E')%bind_Ret. apply (Node_write_rest (inode f) (offset f) data) in E.
  destruct r0; [|by simplify_eq].
  apply bind_Ret in E' as (? & _ & ?). by simplify_eq.
Qed.

(** A system call changes neither these nor the mounts. *)
Definition call_keeps (s s' : Sys K D A) : Prop := same_rest (kw s) (kw s') ∧ mounts s' = mounts s.

Lemma resume_keeps f (o : outcome (Z * Sys K D A)) a s s' :
  (∀ v s', o = Ret (v, s') → call_keeps s s') → o ≫= resume_with f = Ret (a, s') → call_keeps s s'.
Proof. intros Ho ([v s1] & E & [= <- <-])%bind_Ret. by eapply Ho. Qed.

Lemma sock_call_keeps {R} fd (s s' : Sys K D A) (g : Z → M (Net D) R) (h : R → Z) v :
  match sock_index (W := KW) fd (fds s) with
  | None => Ret (wrap 64 (errno InvalidArg), s)
  | Some idx => r ← on_net (g idx) (kw s);
      let '(ok, w) := r in Ret (h ok, mkSys w (mounts s) (fds s) (umem s))
  end = Ret (v, s') → call_keeps s s'.
Proof.
  destruct (sock_index fd (fds s)); [|by intros [= <- <-]].
  intros ([ok w] & E%on_net_rest & [= <- <-])%bind_Ret. by split.
Qed.

Lemma dispatch_keeps f a (s s' : Sys K D A) : syscall_dispatch f s = Ret (a, s') → call_keeps s s'.
Proof.
  unfold syscall_dispatch.
  repeat match goal with |- context [if ?b then _ else _] => destruct b end;
    try (apply resume_keeps; intros v s1).
  - unfold sys_write. intros ([] & _ & ([] & _ & ([[res t] w] & E%write_rest & [= <- <-])%bind_Ret)%bind_Ret)%bind_Ret. by split.
  - unfold sys_read. intros ([] & _ & ([[[res b] t] w] & E%read_rest & ([] & _ & [= <- <-])%bind_Ret)%bind_Ret)%bind_Ret. by split.
  - unfold sys_open. intros ([p|] & _ & E)%bind_Ret; [|by injection E as _ <-]. destruct (open _ _ _). by injection E as _ <-.
  - unfold sys_close. destruct (close _ _). by intros [= <- <-].
  - unfold sys_socket. intros ([idx w] & E%on_net_rest & E')%bind_Ret. destruct (install_inode _ _). by simplify_eq.
  - apply sock_call_keeps.
  - apply sock_call_keeps.
  - by intros [= <- <-].
  - by intros [= <- <-].
Qed.
End kept.

Section phases.
Context {K D A PT U P : Type} `{Profile} `{Decoder K} `{e1000.Hw D} `{Heap A}.
Context `{!Mapper Alloc PT} `{!MapperOk Alloc PT} `{X86Addr} `{VirtAddrNew} `{UserCode U} `{HeapVecs A} `{!interrupts.Pics P} {G : Type} `{gdt.GdtTable G} (wp : bool) (bd : Board P).
Abbreviation MA := (Machine K D A PT P).
Abbreviation KW := (Kworld K D A).
Implicit Types (m : MA).

(** ** Interrupts *)

(** What an interrupt during boot leaves alone. *)
Record quiet m m' : Prop := {
  q_space : space m' = space m;
  q_serial : serial_out m' = serial_out m;
  q_net : net_st m' = net_st m;
  q_heap : heap_st m' = heap_st m;
  q_mnts : mnts m' = mnts m;
  q_files : files m' = files m;
  q_irq : scheduler.irq (kern m') = scheduler.irq (kern m);
  q_sched : scheduler.sched (kern m') = scheduler.sched (kern m);
  q_kbd : bytes (buffer (kbd_st m)) → bytes (buffer (kbd_st m'));
  q_board : board m' = board m;
  q_active : scheduler.active (kern m') = scheduler.active (kern m);
}.

(** At most [n] ticks go by; the counter wraps. *)
Definition clocked (n : Z) m m' : Prop :=
  0 ≤ scheduler.ticks (kern m) → 0 ≤ scheduler.ticks (kern m') ≤ scheduler.ticks (kern m) + n.

#[global] Instance quiet_preorder : PreOrder quiet.
Proof.
  split; [intros m; by constructor|]. intros m1 m2 m3 [] []. constructor; try congruence; auto.
Qed.

Lemma push_bytes b cp : bytes b → bytes (keyboard.push b cp).
Proof.
  intros Hb. unfold keyboard.push. destruct (cp <? 0x80); [|done].
  apply Forall_app_2; [done|]. apply Forall_singleton. by apply wrap_fits.
Qed.

Lemma handle_scancode_bytes sc (kb : KeyboardState K) : bytes (buffer kb) → bytes (buffer (handle_scancode sc kb)).
Proof.
  intros Hb. unfold handle_scancode. destruct (add_byte sc (decoder kb)) as [[[ev|]|] d]; [|done|done].
  destruct (process_keyevent ev d) as [[[|]|] d']; [done|by apply push_bytes|done].
Qed.

(** A key may come once there is a heap. *)
Definition keys_allowed (l : list interrupt) m : Prop :=
  is_Some (heap_region (vm (space m))) ∨ ∀ sc, Irq1 sc ∉ l.

Lemma take_interrupt_quiet i m : scheduler.sched (kern m) = scheduler.new → keys_allowed [i] m →
  ∃ m', take_interrupt i m = Ret m' ∧ quiet m m' ∧ clocked 1 m m'.
Proof.
  intros Hs Ha. destruct i as [|sc]; cbn [take_interrupt].
  - unfold scheduler.tick, timer.timer_tick. cbn [scheduler.active scheduler.sched]. rewrite Hs.
    assert (∀ z, 0 ≤ z → 0 ≤ wrap 64 (z + 1) ≤ z + 1) as Hw.
    { intros z Hz. split; [by apply (wrap_fits 64)|]. apply Z.mod_le; lia. }
    destruct (scheduler.active (kern m)) eqn:Ea; cbn; (eexists; split; [reflexivity|]);
      (split; [constructor; cbn; by rewrite ?Hs|]); unfold clocked; cbn; auto.
  - destruct Ha as [[r Hr]|Ha]; [|by destruct (Ha sc); left]. rewrite Hr.
    eexists. split; [reflexivity|]. split; [constructor; cbn; try done; apply handle_scancode_bytes|]. unfold clocked. cbn. lia.
Qed.

Lemma interrupts_quiet l m : scheduler.sched (kern m) = scheduler.new → keys_allowed l m →
  ∃ m', interrupts l m = Some (Ret (tt, m')) ∧ quiet m m' ∧ clocked (vlen l) m m'.
Proof.
  intros Hs Ha. unfold interrupts, fin. destruct (scheduler.irq (kern m)).
  2:{ exists m. split_and!; [done..|]. unfold clocked. pose proof (vlen_nonneg l). lia. }
  destruct (for_each_inv (λ pre m', quiet m m' ∧ clocked (vlen pre) m m') take_interrupt l m) as (m' & -> & Hq).
  - split; [done|]. unfold clocked. change (vlen []) with 0. lia.
  - intros pre x m1 Hx [Hq Hc]. destruct (take_interrupt_quiet x m1) as (m2 & E & Hq2 & Hc2); [by rewrite (q_sched _ _ Hq)| |].
    { destruct Ha as [Ha|Ha]; [left; by rewrite (q_space _ _ Hq)|right]. intros sc <-%list_elem_of_singleton. by apply (Ha sc). }
    exists m2. split; [done|]. split; [by transitivity m1|]. unfold clocked in *.
    rewrite vlen_app. change (vlen [x]) with 1. lia.
  - by exists m'.
Qed.

(** ** Memory *)

Abbreviation free m := (fa_free (falloc (vm (space m)))).

(** The timer and the keyboard are unmasked (the other lines are as they were on [bd]), the kernel
    may touch user pages, the timer chip runs at 100 Hz, the kernel's segments and the TSS are loaded. *)
Definition board_ready (b : Board P) : Prop :=
  (∀ n, 0 ≤ n < 8 → Z.testbit (fst (interrupts.masks (pics b))) n =
     Z.testbit (fst (interrupts.masks (pics bd))) n && negb (n <? 2)) ∧
  (∀ n, 0 ≤ n → Z.testbit (cr4 b) n = Z.testbit (cr4 bd) n && negb (n =? 21)) ∧
  pit b = pit bd ++ [(0x43, 0x36); (0x40, 0x9b); (0x40, 0x2e)] ∧ segs b = gdt.mkSegRegs 0x08 0x10 0x28.

Lemma board_ready_set k : board_ready (mkBoard (fst (interrupts.init (pics bd) k))
  (Z.land (cr4 bd) (Z.lnot SUPERVISOR_MODE_ACCESS_PREVENTION)) (pit bd ++ timer.timer_init)
  (gdt.mkSegRegs 0x08 0x10 0x28)).
Proof.
  split_and!; cbn [pics cr4 pit].
  - intros n Hn. pose proof (init_unmasks (pics bd) k n Hn) as Hi. destruct (interrupts.init (pics bd) k). apply Hi.
  - intros n Hn. rewrite Z.land_spec, Z.lnot_spec by done. unfold SUPERVISOR_MODE_ACCESS_PREVENTION.
    rewrite Z.shiftl_1_l, Z.pow2_bits_eqb by done. by rewrite (Z.eqb_sym 21).
  - reflexivity.
  - reflexivity.
Qed.

Record booting (off : Z) (need : nat) m : Prop := {
  bt_space : space_ok wp (space m);
  bt_off : phys_off (vm (space m)) = Some off;
  bt_heap : is_Some (heap_region (vm (space m)));
  bt_free : (need ≤ size (free m))%nat;
  bt_kbd : bytes (buffer (kbd_st m));
  bt_sched : scheduler.sched (kern m) = scheduler.new;
  bt_board : board_ready (board m);
  bt_armed : scheduler.active (kern m) = true;
}.

Lemma booting_quiet off need m m' : quiet m m' → booting off need m → booting off need m'.
Proof.
  intros [Es _ _ _ _ _ _ Ek Hk Eb Ea] [? ? ? ? ? ? ? ?]. constructor; rewrite ?Es, ?Ek, ?Eb, ?Ea; auto.
Qed.

(** New tables that agree on the lower half, and fewer free frames. *)
Lemma space_ok_vm s v : space_ok wp s → fa_wf (falloc v) → phys_off v = phys_off (vm s) →
  (∀ x, low x → translate_addr (tables v) x = translate_addr (tables (vm s)) x) →
  fa_free (falloc v) ⊆ fa_free (falloc (vm s)) → space_ok (PT := PT) wp (mkSpace v (phys s) (wr s)).
Proof.
  intros [? Ho Hi Hu Hwh Hwr] Hw Eo Et Hsub. unfold tr in *.
  assert (∀ x, low x → low (page_of x)) as Hp.
  { intros x. unfold low, page_of. pose proof (Z.mod_pos_bound x 4096). intros [? ?].
    pose proof (Z.mod_le x 4096). lia. }
  constructor; unfold tr; cbn [vm phys wr]; try done.
  - by rewrite Eo.
  - intros v1 v2 p L1 L2. rewrite !Et by done. by apply Hi.
  - intros x p L E. rewrite Et in E by done. intros Hin. exact (Hu x p L E (Hsub _ Hin)).
  - intros x L. rewrite !Et by auto. by apply Hwh.
  - intros x p L. rewrite Et by done. by apply Hwr.
Qed.

Record bootable (b : BootInfo) (off : Z) (a : Alloc) (need : nat) (s : @Space Alloc PT) : Prop := {
  ba_off : physical_memory_offset b = Some off;
  ba_regions : Forall (λ r, 0 ≤ start r) (memory_regions b);
  ba_kernel : 0 ≤ kernel_addr b ∧ fits 64 (kernel_addr b + kernel_len b);
  ba_static : falloc (vm s) = pmm.new;
  ba_seeded : seed_frames b pmm.new = Ret a;
  ba_enough : Z.of_nat (need + 1024) ≤ pmm.free_count a;
  ba_heap i : 0 ≤ i < 256 → translate_addr (tables (vm s)) (heap_page i) = None;
  ba_space : space_ok wp (mkSpace (set_falloc a (set_phys_offset off (vm s))) (phys s) (wr s));
}.

Lemma phase3_ok b off a need m : offset_ok off → bootable b off a need (space m) → (1000 ≤ need)%nat →
  ∃ n v, phase3 b m = Some (Ret ((n, n - 1000, n), set_vm v m)) ∧ n = pmm.free_count (falloc v) ∧
    heap_region v = Some (HEAP_START, HEAP_SIZE) ∧
    phys_off v = Some off ∧ (need ≤ size (fa_free (falloc v)))%nat ∧ space_ok wp (mkSpace v (phys (space m)) (wr (space m))).
Proof.
  intros Hok [Ho Hr [Hk Hf] Hst Hseed Hn Hh Hsp] H1000. unfold phase3, fin, memory_init. rewrite Ho. cbn [expect mbind outcome_bind].
  rewrite vaddr_new_ok by (unfold offset_ok in Hok; lia). cbn [mbind outcome_bind].
  cbn [set_phys_offset falloc]. rewrite Hst, Hseed. cbn [mbind outcome_bind].
  destruct (seed_frames_bits b pmm.new wf_new Hr Hk Hf) as (a' & E & Hw & _).
  assert (a' = a) as -> by congruence. clear E. set (v0 := set_falloc a _).
  pose proof (size_free_addrs a Hw) as Hsz.
  destruct (heap_init_ok v0 off) as (v1 & frs & -> & Hl & [Hw1 Ho1 _ Hsub _ _ Hout] & Hreg & Hc);
    [done|done|done|change (1024 ≤ size (free_addrs a))%nat; lia|]. cbn [mbind outcome_bind].
  change (fa_free (falloc v0)) with (free_addrs a) in Hc, Hsub.
  change (fa_free (falloc v1)) with (free_addrs (falloc v1)) in *.
  pose proof (size_free_addrs (falloc v1) Hw1) as Hsz1.
  destruct (frame_self_test_restores 1000 (falloc v1) Hw1) as (a2 & -> & Hw2 & Ef2); [lia|].
  pose proof (size_free_addrs a2 Hw2) as Hsz2. rewrite Ef2 in Hsz2.
  cbn [mbind outcome_bind]. exists (pmm.free_count (falloc v1)), (set_falloc a2 v1).
  split; [done|]. cbn [set_falloc falloc tables phys_off heap_region]. split; [lia|]. split; [done|]. split; [by rewrite Ho1|].
  change (fa_free a2) with (free_addrs a2). rewrite Ef2. split; [lia|].
  refine (space_ok_vm _ (set_falloc a2 v1) Hsp Hw2 _ _ _); cbn [vm set_falloc tables phys_off falloc].
  - by rewrite Ho1.
  - intros x Hx. apply (Hout x). rewrite Hl. unfold low, in_page, heap_page, HEAP_START in *. lia.
  - change (fa_free a2) with (free_addrs a2). rewrite Ef2. exact Hsub.
Qed.

(** ** Files *)

Record running (root : initrd.InodeNode) (c : Z) m : Prop := {
  rn_mnts : mnts m = boot_mounts root;
  rn_sys : sys_inv c (mkSys (kworld m) (mnts m) (files m) (λ _, 0));
}.

Lemma running_quiet root c m m' : quiet m m' → bytes (buffer (kbd_st m)) → running root c m → running root c m'.
Proof.
  intros [Es Er En Eh Em Ef Ei Ek Hk _] Hb [Hm [[Hw1 Hw2 Hw3] ? ? ? ?]].
  constructor; [by rewrite Em|]. cbn in *. constructor; cbn; rewrite ?Em, ?Ef; try done.
  constructor; cbn; rewrite ?En; auto.
Qed.

(** Descriptors 0 to 2 are open, no other is. *)
Definition std_only (t : FdTable Node) : Prop :=
  vlen t ≤ MAX_FDS ∧ ∀ k, get_file k t = get_file k boot_fds.

Lemma std_only_free t : std_only t → ∃ k, 0 ≤ k < MAX_FDS ∧ get_file k t = None.
Proof. intros [_ Hk]. exists 3. rewrite Hk. by vm_compute. Qed.

Lemma init_files_ok tar root m : initrd.from_tar tar = Ret root → mnts m = [] → files m = [] →
  init_files tar m = Some (Ret (tt, mkMachine (space m) (kbd_st m) (serial_out m) (net_st m) (heap_st m)
    (boot_mounts root) boot_fds (kern m) (board m))).
Proof. intros E Em Ef. unfold init_files, fin. by rewrite Em, Ef, (fs_init_eq tar root E). Qed.

Lemma boot_cat_ok path n data scratch m :
  resolve (W := KW) path (mnts m) = Ok n → reads_as (W := KW) n data (kworld m) → std_only (files m) →
  vlen data < 2 ^ 64 → vlen scratch = 256 →
  ∃ t scratch', boot_cat path scratch m = Some (Ret ((Ok (take 256 data), scratch'), set_files t m)) ∧
    vlen scratch' = 256 ∧ std_only t.
Proof.
  intros Hr Hn Hs Hd Hl. destruct (cat_reads_contents path (mnts m) n data scratch (files m) (kworld m))
    as (t & scr & E & Hv & Ht & Hk); [done|done|apply Hs|by apply std_only_free|done|lia|].
  exists t, scr. assert (length scratch = 256%nat) as Hls by (unfold vlen in Hl; lia). rewrite Hls in E.
  unfold boot_cat, fin. rewrite E. split; [by destruct m|]. split; [lia|]. split; [done|].
  intros k. rewrite Hk. apply Hs.
Qed.

Lemma boot_cat_missing path e scratch m : resolve (W := KW) path (mnts m) = Err e →
  boot_cat path scratch m = Some (Ret ((Err e, scratch), m)).
Proof. intros Hr. unfold boot_cat, fin, fs_cat, open. rewrite Hr. by destruct m as [[] ? ? ? ? ? ? ? ?]. Qed.

Lemma proc_reads_as g (w : KW) : reads_as (W := KW) (ProcFile g) (gen_text g w) w.
Proof. intros off buf Hoff. by apply procfile_read_eq. Qed.

Lemma dec_short z : vlen (dec z) ≤ 20.
Proof.
  assert (∀ fuel z acc, vlen (dec_loop fuel z acc) ≤ vlen acc + Z.of_nat fuel) as Hg.
  { induction fuel as [|k IH]; intros z' acc; cbn [dec_loop]; [lia|].
    destruct (z' <? 10); [rewrite vlen_cons; lia|]. etransitivity; [apply IH|]. rewrite vlen_cons. lia. }
  unfold dec. etransitivity; [apply Hg|]. rewrite vlen_nil. lia.
Qed.

Lemma gen_text_short g (w : KW) : vlen (gen_text g w) < 256.
Proof.
  destruct g; cbn [gen_text]; unfold meminfo, uptime; rewrite !vlen_app.
  - pose proof (dec_short (total_bytes (heap w) `div` 1024)). pose proof (dec_short (used_bytes (heap w) `div` 1024)).
    pose proof (dec_short (free_bytes (heap w) `div` 1024)). pose proof (dec_short (pmm.free_count (frames w))).
    repeat match goal with |- context [vlen (str ?x)] => let k := eval vm_compute in (vlen (str x)) in change (vlen (str x)) with k end.
    change (vlen [10]) with 1. lia.
  - pose proof (dec_short (ticks w `div` timer.HZ)). change (vlen [10]) with 1.
    repeat match goal with |- context [vlen (str ?x)] => let k := eval vm_compute in (vlen (str x)) in change (vlen (str x)) with k end.
    lia.
Qed.

(** What [cat] of a path of the archive shows. *)
Definition shown (root : initrd.InodeNode) (comps : list (list Z)) : FsResult (list Z) :=
  match tree_walk comps root with Some n => Ok (take 256 (initrd.node_data n)) | None => Err NotFound end.

Lemma no_slash_str x : forallb (λ b, negb (b =? SLASH)) (str x) = true → str x ≠ [] → no_slash (str x).
Proof.
  intros Hf Hne. split; [done|]. intros Hin. rewrite forallb_forall in Hf.
  specialize (Hf SLASH). rewrite Z.eqb_refl in Hf. by discriminate Hf; apply list_elem_of_In.
Qed.

Lemma resolve_initrd root comps : Forall no_slash comps →
  resolve (W := KW) (str "/initrd" ++ join comps) (boot_mounts root) =
    match tree_walk comps root with Some n => Ok (Ram n) | None => Err NotFound end.
Proof.
  intros Hc. rewrite <- (walk_ram (K := K) (D := D) (A := A)). refine (resolve_boot root _ (Initrd root) comps _ Hc).
  by right; right; left.
Qed.

Lemma motd_cat root scratch m : mnts m = boot_mounts root → std_only (files m) → vlen scratch = 256 →
  (∀ n, tree_walk [str "motd.txt"] root = Some n → vlen (initrd.node_data n) < 2 ^ 64) →
  ∃ t scratch', boot_cat (str "/initrd/motd.txt") scratch m =
      Some (Ret ((shown root [str "motd.txt"], scratch'), set_files t m)) ∧
    vlen scratch' = 256 ∧ std_only t.
Proof.
  intros Hm Hs Hl Hd.
  pose proof (resolve_initrd root [str "motd.txt"]) as Hr. change (str "/initrd" ++ join _) with (str "/initrd/motd.txt") in Hr.
  rewrite <- Hm in Hr. unfold shown. destruct (tree_walk _ root) as [n|].
  - apply (boot_cat_ok _ (Ram n)); [apply Hr; apply Forall_singleton; by apply no_slash_str| |done|by apply Hd|done].
    intros off buf. apply ram_has_contents.
  - exists (files m), scratch. rewrite (boot_cat_missing _ NotFound) by (apply Hr; apply Forall_singleton; by apply no_slash_str).
    split; [by destruct m|done].
Qed.

Lemma phase6_ok root m : mnts m = boot_mounts root → std_only (files m) →
  (∀ n, tree_walk [str "motd.txt"] root = Some n → vlen (initrd.node_data n) < 2 ^ 64) →
  ∃ t, phase6_self_test m = Some (Ret ((initrd.node_list_dir root, DevDir_list_dir,
      [shown root [str "motd.txt"]; Ok (uptime (kworld m)); Ok (meminfo (kworld m)); Err NotFound]), set_files t m)) ∧
    std_only t.
Proof.
  intros Hm Hs Hd. unfold phase6_self_test.
  erewrite bind_fin by reflexivity. erewrite bind_fin by reflexivity. rewrite Hm.
  change (list_dir (str "/initrd") _) with (initrd.node_list_dir root).
  change (list_dir (str "/dev") _) with (DevDir_list_dir).
  destruct (motd_cat root (replicate 256 0) m) as (t1 & x1 & E1 & L1 & S1); [done..|].
  rewrite (bind_some _ _ _ _ _ E1). clear E1. cbv beta iota.
  destruct (boot_cat_ok (str "/proc/uptime") (ProcFile Guptime) (uptime (kworld m)) x1 (set_files t1 m))
    as (t2 & x2 & E2 & L2 & S2); [cbn [mnts set_files]; by rewrite Hm|apply proc_reads_as|done|
      pose proof (gen_text_short Guptime (kworld m)); cbn in *; lia|done|].
  rewrite (bind_some _ _ _ _ _ E2). clear E2. cbv beta iota.
  destruct (boot_cat_ok (str "/proc/meminfo") (ProcFile Gmeminfo) (meminfo (kworld m)) x2 (set_files t2 (set_files t1 m)))
    as (t3 & x3 & E3 & L3 & S3); [cbn [mnts set_files]; by rewrite Hm|apply proc_reads_as|done|
      pose proof (gen_text_short Gmeminfo (kworld m)); cbn in *; lia|done|].
  rewrite (bind_some _ _ _ _ _ E3). clear E3. cbv beta iota.
  erewrite bind_some by (apply (boot_cat_missing _ NotFound); cbn [mnts set_files]; by rewrite Hm).
  exists t3. split; [|done]. cbv beta iota. unfold mret, T_ret.
  pose proof (gen_text_short Guptime (kworld m)). pose proof (gen_text_short Gmeminfo (kworld m)).
  cbn [gen_text] in *. by rewrite !take_ge by (unfold vlen in *; lia).
Qed.
(** ** User programs *)

(** The program's memory holds bytes, it passes buffers it may use and, whatever of what a call can
    answer the kernel answers, it calls [exit] within [n] system calls. *)
Fixpoint leaves (pages : UserPages) (n : nat) (u : U) : Prop :=
  match n with
  | O => False
  | S k =>
      let '(f, m) := user_call u in
      (∀ a, is_byte (m a)) ∧ buffers_ok f m ∧
      (rax f = nr Exit ∨ ∀ v um, reply f v m um → leaves pages k (user_resume u (set_rax v f) um))
  end.

Lemma dispatch_exit `{UserPages} f (s : Sys K D A) : rax f = nr Exit → syscall_dispatch f s = Ret (ReturnToKernel (rdi f), s).
Proof. intros E. unfold syscall_dispatch. by rewrite E. Qed.

Lemma user_loop_ok pages n : ∀ fuel u c (s : Sys K D A), (n ≤ fuel)%nat → leaves pages n u → 0 ≤ c → c + Z.of_nat n ≤ 2 ^ 40 →
  sys_inv c s →
  ∃ s', user_loop pages fuel u s = Some (Ret s') ∧ sys_inv (c + Z.of_nat n) s' ∧ call_keeps s s'.
Proof.
  induction n as [|n IH]; intros fuel u c s Hf Hu Hc Hb Hs; [done|]. destruct fuel as [|fuel]; [lia|].
  cbn [leaves user_loop] in *. destruct (user_call u) as [f um]. destruct Hu as (Hm & Hok & Hu).
  set (s0 := mkSys _ _ _ um). assert (sys_inv c s0) as Hs0 by (destruct Hs; by split).
  destruct Hu as [He|Hu].
  - rewrite dispatch_exit by done. exists s0. split; [done|]. split; [|done].
    eapply sys_inv_le; [|done]. lia.
  - destruct (dispatch_reply c f s0) as (a & s1 & E & Hs1 & Ha); [lia|done|done|].
    pose proof (dispatch_keeps _ _ _ _ E) as [[K1 [K2 K3]] K4]. rewrite E. destruct a as [f'|code].
    + destruct (Ha f' eq_refl) as (v & -> & Hr).
      destruct (IH fuel (user_resume u (set_rax v f) (umem s1)) (c + 1) s1) as (s2 & E2 & Hs2 & [[J1 [J2 J3]] J4]); [lia|by apply Hu|lia|lia|done|].
      exists s2. split; [done|]. replace (c + Z.of_nat (S n)) with (c + 1 + Z.of_nat n) by lia. split; [done|].
      repeat split; cbn in *; congruence.
    + exists s1. split; [done|]. split; [|done].
      eapply sys_inv_le; [|done]. lia.
Qed.
(** The memory in the state is only written: a program comes with its own. *)
Lemma user_loop_mem pages fuel u (s : Sys K D A) um :
  user_loop pages fuel u s = user_loop pages fuel u (mkSys (kw s) (mounts s) (fds s) um).
Proof. by destruct fuel. Qed.

(** A file [load] accepts, and what it costs. *)
Record image_ok (file : list Z) : Prop := {
  im_bytes : bytes file;
  im_len : 64 ≤ vlen file < 2 ^ 63;
  im_magic : sub file 0 4 = ELF_MAGIC;
  im_class : vget file 4 = Some 2;
  im_headers i : 0 ≤ i < e_phnum file → hdr_pos (e_phoff file) (e_phentsize file) i + 48 ≤ vlen file;
  im_segs h : h ∈ load_headers file → seg_ok wp file h;
}.
Definition image_frames (file : list Z) : nat := 4 * (all_pages (load_headers file) + 4).

(** The program is in memory: the bytes of a segment that no other one covers. *)
Definition holds_image (file : list Z) (um : Z → Z) : Prop :=
  ∀ h i, h ∈ load_headers file → 0 ≤ i < p_memsz h →
    (∀ h', h' ∈ load_headers file → h' ≠ h → ¬ covers_byte h' (p_vaddr h + i)) →
    Some (um (p_vaddr h + i)) = if decide (i < p_filesz h) then vget file (p_offset h + i) else Some 0.

(** Its segments and its stack can be read and written. *)
Definition maps_image (file : list Z) (pages : UserPages) : Prop :=
  ∀ v a, (∃ h, h ∈ load_headers file ∧ covers_byte h v) ∨ USER_STACK_TOP - 4 * 4096 ≤ v < USER_STACK_TOP →
    access_fault a v = None.

(** Once started on its memory, the program calls [exit] within [n] calls. *)
Definition program_leaves (n : nat) (sel : gdt.Selectors) (file : list Z) : Prop :=
  ∀ um pages, holds_image file um → maps_image file pages →
    leaves pages n (user_enter (e_entry file) USER_STACK_TOP (gdt.user_code_selector sel) (gdt.user_data_selector sel) um).

Lemma load_holds_image file s s' : image_ok file → (∀ v, low v → view s' v = loaded_view file (view s) v) →
  holds_image file (λ v, default 0 (view (PT := PT) s' v)).
Proof.
  intros Him Hv h i Hh Hi Hother. destruct (im_segs _ Him h Hh) as [? ? ? ? ? _].
  pose proof (image_view_seg wp file _ (view s) h i (im_segs _ Him) Hh Hi Hother) as E.
  rewrite Hv, loaded_view_some, E; [| |unfold low; lia].
  - case_decide; [|done]. by destruct (vget_in file (p_offset h + i)) as [b ->]; [lia|].
  - rewrite E. case_decide; [apply vget_in; lia|by eexists].
Qed.

Lemma load_maps_image file s s' : image_ok file → space_ok (PT := PT) wp s' → (∀ v, low v → view s' v = loaded_view file (view s) v) →
  maps_image file (mapped_pages wp s').
Proof.
  intros Him Hsp Hv v a Hor.
  assert (low v ∧ is_Some (view s' v)) as [Hlow Hsome].
  { destruct Hor as [(h & Hh & Hc)|Hst].
    - destruct (im_segs _ Him h Hh) as [? ? ? ? ? _]. assert (low v) by (unfold low, covers_byte in *; lia).
      split; [done|]. rewrite Hv by done.
      destruct (image_view_covered wp file _ (view s) v (im_segs _ Him)) as [b Eb]; [by exists h|].
      rewrite loaded_view_some; rewrite Eb; by eexists.
    - assert (low v) by (unfold low, USER_STACK_TOP in *; lia). split; [done|]. rewrite Hv by done. by apply loaded_view_stack. }
  unfold view, tr in Hsome. destruct (translate_addr (tables (vm s')) v) as [p|] eqn:Et; [|by destruct Hsome].
  unfold access_fault, canonical. cbn [can mapped_pages]. rewrite Et, (bool_decide_true (is_Some (Some p))) by by eexists.
  unfold low in Hlow. rewrite (proj2 (Z.leb_le 0 v)), (proj2 (Z.ltb_lt v (2 ^ 47))), (proj2 (Z.leb_gt (2 ^ 47) v)) by lia.
  cbn [andb orb negb]. destruct a; [done|]. destruct (so_wr _ _ Hsp v p Hlow Et) as [-> | ->]; [done|]. by rewrite orb_true_r.
Qed.

Lemma run_user_ok off need root c n fuel sel file m :
  image_ok file → booting off (image_frames file + need) m → running root c m → program_leaves n sel file →
  (n ≤ fuel)%nat → 0 ≤ c → c + Z.of_nat n ≤ 2 ^ 40 →
  ∃ m', run_user wp fuel sel file m = Some (Ret (tt, m')) ∧ booting off need m' ∧
    running root (c + Z.of_nat n) m' ∧ scheduler.irq (kern m') = false ∧
    scheduler.ticks (kern m') = scheduler.ticks (kern m).
Proof.
  intros Him [Hsp Hoff Hhp Hfr Hk Hsc Hbd Hcl] [Hm Hs] Hp Hn Hc Hb. destruct Him as [? ? ? ? ? ?] eqn:Eim.
  destruct (load_view wp file (space m)) as (s' & E & Hsp' & Hcost & Hv); try done; [unfold image_frames in Hfr; lia|].
  unfold run_user. erewrite bind_fin by (rewrite E; reflexivity). cbv beta iota.
  pose proof (load_off _ _ _ _ _ E) as [= Ho Hh]. unfold user_mode.
  set (um := λ v, default 0 (phys (space (set_space s' m)) <$> translate_addr (tables (vm (space (set_space s' m)))) v)).
  assert (holds_image file um) as Hum by exact (load_holds_image file (space m) s' Him Hv).
  pose proof (load_maps_image file (space m) s' Him Hsp' Hv) as Hpg.
  rewrite (user_loop_mem _ _ _ _ (λ _, 0)). cbn [kw mounts fds].
  destruct (user_loop_ok (mapped_pages wp s') n fuel (user_enter (e_entry file) USER_STACK_TOP (gdt.user_code_selector sel)
      (gdt.user_data_selector sel) um) c (mkSys (kworld (set_space s' m)) (mnts m) (files m) (λ _, 0)))
    as (s2 & E2 & Hs2 & [_ Km]); [done|by apply Hp|done|done| |].
  { destruct Hs as [[] ? ? ? ?]. constructor; cbn in *; [by constructor|done..]. }
  change (space (set_space s' m)) with s'. cbn [entry stack_top mnts files set_space] in *. rewrite E2. eexists. split; [reflexivity|].
  destruct Hs2 as [[Hkb Hso Hca] Hmo Hfl Hfd _]. split; [|split; [|split; done]].
  - constructor; cbn [space vm user_bytes kbd_st kern kbd scheduler.sched scheduler.set_irq];
      [|exact (eq_trans Ho Hoff)|rewrite Hh; exact Hhp|change (need ≤ size (fa_free (falloc (vm s'))))%nat; unfold image_frames in Hfr; lia|done|done|done|done].
    destruct Hsp'. by constructor.
  - constructor; cbn in *; [congruence|]. constructor; cbn; [by constructor|done..].
Qed.
(** ** Devices and network *)

Lemma phase7_setup_ok off root c m : offset_ok off → booting off 59 m → running root c m → 0 ≤ c →
  ∃ w v, phase7_setup m = Some (Ret (tt, set_vm v (set_net_st (Net.set_world w (net_st m)) m))) ∧
    running root c (set_vm v (set_net_st (Net.set_world w (net_st m)) m)).
Proof.
  intros Hoff [Hsp Ho _ Hfr _ _ _ _] [Hm [[Hk Hs Hc] ? ? ? ?]] Hc0.
  destruct (init_ok (Z.to_nat 100000) off (world (net_st m)) (vm (space m))) as (w & v & E & _ & Hn);
    [done|apply Hsp|done|done|].
  exists w, v. unfold phase7_setup, fin. rewrite E. split; [done|]. constructor; [done|]. cbn in *.
  constructor; cbn; [|done..]. constructor; cbn; [done|done|]. unfold card_inv in *. cbn.
  destruct Hn as [->|(n & -> & ? & ? & ->)]; [done|]. split_and!; [done|lia|lia|done].
Qed.

(** The keyboard after the injected scancodes. *)
Definition typed_hello m : KeyboardState K := inject [0x23; 0x12; 0x26; 0x26; 0x18] (kbd_st m).

Lemma phase7_demo_ok root c m : running root c m → 0 ≤ c →
  ∃ r q t, phase7_demo m = Some (Ret (r, set_files t (set_kbd_st (mkKbd (decoder (typed_hello m)) q) m))) ∧
    (r = Ok (text_or (str "<non-utf8>") (take 16 (buffer (typed_hello m)))) ∧ q = drop 16 (buffer (typed_hello m)) ∨
     r = Err NoSpace ∧ q = buffer (typed_hello m) ∧ ∀ k, 0 ≤ k < MAX_FDS → get_file k (files m) ≠ None) ∧
    vlen t ≤ MAX_FDS ∧ ∀ k, get_file k t = get_file k (files m).
Proof.
  intros [Hm [_ _ Hl _ _]] Hc. cbn in Hl. unfold phase7_demo, fin. fold (typed_hello m).
  set (kb := typed_hello m). cbn [mnts files set_kbd_st]. unfold open. rewrite Hm.
  change (resolve (str "/dev/kbd") (boot_mounts root)) with (Ok Kbd : FsResult Node). cbn [Ok]. unfold install_inode.
  pose proof (install_spec (mkFile Kbd 0) (files m) Hl) as Hi.
  destruct (install (mkFile Kbd 0) (files m)) as [[fd|] t1].
  2:{ destruct Hi as [-> Hfull]. cbn [Err]. exists (Err NoSpace), (buffer kb), (files m). split; [by destruct kb|].
      split; [by right|done]. }
  destruct Hi as (_ & Hfree & _ & Hk1 & Hl1). cbn [Ok].
  assert (get_file fd t1 = Some (mkFile Kbd 0)) as Hf by (rewrite Hk1; by rewrite bool_decide_true).
  unfold read. rewrite Hf. cbn [inode offset].
  change (i_read Kbd 0 ?b ?w) with (Kbd_read b w). rewrite Kbd_read_eq. cbn [kworld kbd kbd_st set_kbd_st].
  change (vlen (replicate 16 0)) with 16. set (n := Z.min 16 (vlen (buffer kb))). pose proof (vlen_nonneg (buffer kb)).
  cbn [mbind outcome_bind Ok]. rewrite checked_fits by (unfold fits; lia). cbn [mbind outcome_bind Ok].
  assert (take (Z.to_nat n) (buffer kb) = take 16 (buffer kb) ∧ drop (Z.to_nat n) (buffer kb) = drop 16 (buffer kb)) as [-> ->].
  { unfold n, vlen. destruct (decide (length (buffer kb) ≤ 16)%nat).
    - rewrite Z.min_r, Nat2Z.id, !take_ge, !drop_ge by lia. done.
    - by rewrite Z.min_l by lia. }
  assert (slice (blit (replicate 16 0) 0 (take 16 (buffer kb))) 0 n = Ret (take 16 (buffer kb))) as ->.
  { apply (slice_mid []); [done|]. unfold n, vlen. rewrite length_take. cbn [length]. lia. }
  cbn [mbind outcome_bind]. match goal with |- context [close fd ?t2] => set (t2' := t2); pose proof (close_spec fd t2') as Hcl end.
  assert (∀ k, get_file k t2' = if bool_decide (k = fd) then Some (mkFile Kbd (0 + n)) else get_file k t1) as Hk2.
  { intros k. unfold t2'. by rewrite get_file_vset by (by eapply get_file_lt). }
  destruct (close fd t2') as [[[]|e] t3].
  - destruct Hcl as (_ & Hk3 & Hl3). eexists _, _, t3. split; [reflexivity|]. split; [by left|]. split.
    + rewrite Hl3. unfold t2'. by rewrite vlen_vset.
    + intros k. rewrite Hk3, Hk2, Hk1. by repeat case_bool_decide; subst.
  - destruct Hcl as (_ & _ & Hno). rewrite Hk2, bool_decide_true in Hno by done. done.
Qed.

(** [net::demo] with whatever descriptors are left. *)
Definition net_passed (t : FdTable Node) (n : Net D) (r : report) : Prop :=
  rep_mac r = mac_of_net n ∧ (∃ k, rep_arp r = Some (gateway_text, k)) ∧ rep_ip r = gateway_text ∧
  rep_icmp r = (true, ECHO_REPLY, true) ∧ (∃ i, rep_udp r = (i, Some (14, e1000.GATEWAY, 7, udp_text))) ∧
  ((∃ k, 0 ≤ k < MAX_FDS ∧ get_file k t = None) → ∃ i fd, rep_sock r = (i, Ok fd, Some (Ok (9, sock_text)))).

Lemma net_demo_total c (t : FdTable Node) (w : KW) : c + 3 < 2 ^ 64 → card_inv c (net w) → vlen t ≤ MAX_FDS →
  ∃ r t' n, net_demo t w = Ret (r, t', set_net n w) ∧ net_passed t (net w) r ∧ ∀ k, get_file k t' = get_file k t.
Proof.
  intros Hc Hi Hv. unfold net_demo. unfold on_net at 1.
  destruct (layers_demo_eq c (net w) Hc Hi) as (k & i & s' & E & _ & _ & _). rewrite E. cbn [mbind outcome_bind].
  destruct (decide (Exists (λ k, get_file k t = None) (seqZ 0 MAX_FDS))) as [(k0 & Hk0%elem_of_seqZ & Hn)%Exists_exists|Hno].
  - destruct (socket_demo_eq t (set_net s' w) Hv) as (j & fd & t' & n & E' & _ & Hk & _); [exists k0; split; [lia|done]|].
    rewrite E'. cbn [mbind outcome_bind]. eexists _, t', n. split; [reflexivity|]. repeat split; cbn; eauto.
  - destruct (socket_demo_full t (set_net s' w) Hv) as (j & e & n & E').
    { intros k' Hk' Hn. apply Hno, Exists_exists. exists k'. split; [apply elem_of_seqZ; lia|done]. }
    rewrite E'. cbn [mbind outcome_bind]. eexists _, t, n. split; [reflexivity|].
    repeat split; cbn; eauto. intros (k' & Hk' & Hn). exfalso. apply Hno, Exists_exists. exists k'.
    split; [apply elem_of_seqZ; lia|done].
Qed.

Lemma phase8_ok c m : card_inv c (net_st m) → vlen (files m) ≤ MAX_FDS → c + 3 < 2 ^ 64 →
  ∃ r t n, phase8_setup m = Some (Ret (r, set_kbd_st (mkKbd (decoder (kbd_st m)) (buffer (kbd_st m) ++ script))
      (set_files t (set_net_st n m)))) ∧ net_passed (files m) (net_st m) r ∧ ∀ k, get_file k t = get_file k (files m).
Proof.
  intros Hca Hl Hc. unfold phase8_setup, fin.
  assert (net_init (net_st m) = Ret (tt, mkNet (world (net_st m)) ∅ [])) as -> by done. cbn [mbind outcome_bind snd].
  destruct (net_demo_total c (files m) (kworld (set_net_st (mkNet (world (net_st m)) ∅ []) m)) Hc) as (r & t & n & E & Hp);
    [done|done|]. cbn [files set_net_st]. rewrite E. cbn [mbind outcome_bind]. exists r, t, n. split; [|done].
  rewrite inject_str_eq. change (mjoin (ascii <$> script)) with script. reflexivity.
Qed.

Lemma phase4_ok tr s1 s2 s3 s4 m : scheduler.sched (kern m) = scheduler.new →
  Forall stack_ok [s1; s2; s3; s4] →
  ∃ k', start_tasks tr (s1, s2, s3, s4) m =
      Some (Ret (Some (scheduler.mkSwitch scheduler.BootCtx (scheduler.SlotCtx 0) true), set_kern k' m)) ∧
    tasks.phase4_demo tr (s1, s2, s3, s4) (kern m) =
      Ret (Some (scheduler.mkSwitch scheduler.BootCtx (scheduler.SlotCtx 0) true), k') ∧
    sched_wf (scheduler.sched k') ∧ scheduler.current (scheduler.sched k') = 0 ∧
    scheduler.snapshot k' = [(1, "running"); (2, "ready"); (3, "ready"); (4, "ready")]%string ∧
    ∀ i t, slot (scheduler.sched k') i = Some t → task.func t = vget task_names i.
Proof.
  intros Hs Hst. destruct (phase4_spec tr s1 s2 s3 s4 (kern m) Hs Hst) as (k' & ts & E & Hw & Ek & _ & _ & Hts).
  exists k'. unfold start_tasks, fin. rewrite E. cbn [mbind outcome_bind]. split; [done|]. split; [done|]. split; [done|]. rewrite Ek. split; [done|].
  destruct ts as [|t1 [|t2 [|t3 [|t4 [|]]]]]; try done. cbn in Hts. injection Hts as A1 A2 A3 B1 B2 B3 C1 C2 C3 D1 D2 D3. split.
  - unfold scheduler.snapshot. rewrite Ek. cbn. rewrite A1, A2, B1, B2, C1, C2, D1, D2. done.
  - intros i t Hi. pose proof (slot_lt _ _ _ Hi) as Hlt. cbn in Hlt. unfold vlen in Hlt. cbn in Hlt.
    assert (i = 0 ∨ i = 1 ∨ i = 2 ∨ i = 3) as [-> |[-> |[-> | ->]]] by lia;
      apply slot_Some in Hi; injection Hi as <-; assumption.
Qed.

(** ** The whole boot *)

(** The machine as the bootloader leaves it: the statics have their initial values. *)
Definition power_on (s : @Space Alloc PT) (hp : A) (cd : D) (b : Z → Z) (km : asm.memory) : MA :=
  mkMachine s kbd_new [] (mkNet (e1000.mkWorld None b cd) ∅ []) hp [] [] (scheduler.mkKern scheduler.new false 0 false km) bd.

(** After [gdt::init]. *)
Definition segments_loaded (s : @Space Alloc PT) (hp : A) (cd : D) (b : Z → Z) (km : asm.memory) : MA :=
  set_board (mkBoard (pics bd) (cr4 bd) (pit bd) (gdt.mkSegRegs 0x08 0x10 0x28)) (power_on s hp cd b km).

Definition sel : gdt.Selectors := gdt.mkSel 0x08 0x10 0x1b 0x23 0x28.

(** What boot relies on: a memory map with enough memory, an archive and two programs that
    are well formed, programs that end, and statics where a kernel has them. *)
Record env_ok (e : Env) (off : Z) (a : Alloc) (root : initrd.InodeNode) (n1 n2 : nat) (s : @Space Alloc PT) : Prop := {
  eo_wp : cr0_wp e = wp;
  eo_memory : bootable (boot_info e) off a (1000 + image_frames (user_elf e) + image_frames (vfs_elf e)) s;
  eo_off : offset_ok off;
  eo_stacks : stack_at (double_fault_stack e) gdt.STACK_SIZE ∧ stack_at (syscall_stack e) gdt.PRIV_STACK_SIZE;
  eo_tar : initrd.from_tar (initrd_tar e) = Ret root;
  eo_tree : tree_bytes root;
  eo_motd x : tree_walk [str "motd.txt"] root = Some x → vlen (initrd.node_data x) < 2 ^ 64;
  eo_user : image_ok (user_elf e) ∧ program_leaves n1 sel (user_elf e);
  eo_vfs : image_ok (vfs_elf e) ∧ program_leaves n2 sel (vfs_elf e);
  eo_calls : Z.of_nat (n1 + n2) ≤ 2 ^ 40;
  eo_early sc : Irq1 sc ∉ coming e 0;
  eo_tasks : let '(s1, s2, s3, s4) := task_stacks e in Forall stack_ok [s1; s2; s3; s4];
}.

Lemma running_boot root m w : mnts m = boot_mounts root → files m = boot_fds → net_st m = mkNet w ∅ [] →
  e1000.nic w = None → bytes (buffer (kbd_st m)) → tree_bytes root → running root 0 m.
Proof.
  intros Em Ef En Ew Hk Ht. constructor; [done|]. rewrite Em, Ef. constructor; cbn [kw mounts fds umem].
  - constructor; cbn [kworld kbd net]; [done| |].
    + rewrite En. intros i x E. apply sock_get_lt in E. unfold vlen in E. cbn in E. lia.
    + unfold card_inv. rewrite En. cbn [world]. by rewrite Ew.
  - intros x Hx. by apply boot_mount_cases in Hx as [-> |[-> | ->]].
  - by vm_compute.
  - intros fd f E. apply get_file_Some, vget_elem_of, elem_of_replicate in E as [[= ->] _]. by split.
  - intros x. by vm_compute.
Qed.

Lemma heap_self_test_ok m : heap_self_test m =
  Some (Ret ((heap_used (vecs_live (heap_st m)) `div` 1024, heap_free (vecs_live (heap_st m)) `div` 1024, 0xab, 9801),
    set_heap_st (vecs_dropped (vecs_live (heap_st m))) m)).
Proof.
  unfold heap_self_test, fin. assert (for_each (seqZ 0 100) (λ i v, x ← checked 32 (i * i); Ret (v ++ [x])) [] =
    Ret ((λ i, i * i) <$> seqZ 0 100)) as ->.
  { destruct (for_each_inv (λ l v, v = (λ i, i * i) <$> l) (λ i v, x ← checked 32 (i * i); Ret (v ++ [x]))
      (seqZ 0 100) []) as (v & -> & ->); [done| |done].
    intros pre i v Hi%elem_of_seqZ ->. rewrite checked_fits by (unfold fits; nia).
    eexists. split; [reflexivity|]. by rewrite fmap_app. }
  reflexivity.
Qed.

Lemma init_interrupts_ok m : init_interrupts m = Some (Ret (tt,
  set_board (mkBoard (fst (interrupts.init (pics (board m)) (kern m))) (cr4 (board m)) (pit (board m)) (segs (board m)))
    (set_kern (scheduler.set_irq true (kern m)) m))).
Proof.
  unfold init_interrupts, fin, modify, interrupts.init.
  by destruct (interrupts.masks (interrupts.initialize _ _ (pics (board m)))).
Qed.

(** Memory, the armed scheduler, the file system. *)
Lemma bring_up_ok e off a root n1 n2 s hp cd b km :
  env_ok e off a root n1 n2 s →
  let hp' := vecs_live hp in
  ∃ n m, bring_up e (segments_loaded s hp cd b km) =
      Some (Ret ((n, n - 1000, n), (heap_used hp' `div` 1024, heap_free hp' `div` 1024, 0xab, 9801), m)) ∧
   n = pmm.free_count (falloc (vm (space m))) ∧ heap_st m = vecs_dropped hp' ∧ files m = boot_fds ∧
   booting off (1000 + image_frames (user_elf e) + image_frames (vfs_elf e)) m ∧ running root 0 m ∧
   0 ≤ scheduler.ticks (kern m) ≤ vlen (coming e 0) + vlen (coming e 1) + vlen (coming e 2).
Proof.
  intros [? Hmem Hoff _ Htar Htree _ _ _ _ Hearly _] hp'. unfold bring_up.
  set (m0 := segments_loaded s hp cd b km). pose proof (board_ready_set (kern m0)) as Hbd.
  rewrite (bind_some _ _ _ _ _ (init_interrupts_ok m0)). set (m1 := set_board _ _).
  destruct (interrupts_quiet (coming e 0) m1) as (m2 & E2 & Q2 & T2); [done|by right|]. rewrite (bind_some _ _ _ _ _ E2).
  destruct (phase3_ok (boot_info e) off a (1000 + image_frames (user_elf e) + image_frames (vfs_elf e)) m2)
    as (n & v & E3 & Hn & Hreg & Ho & Hfr & Hsp); [done|by rewrite (q_space _ _ Q2)|lia|].
  rewrite (bind_some _ _ _ _ _ E3). rewrite (bind_some _ _ _ _ _ (heap_self_test_ok _)).
  set (m3 := set_heap_st _ _). rewrite (bind_some int3 _ m3 tt m3) by reflexivity.
  destruct (interrupts_quiet (coming e 1) m3) as (m4 & E4 & Q4 & T4); [exact (q_sched _ _ Q2)|left; by exists (HEAP_START, HEAP_SIZE)|].
  rewrite (bind_some _ _ _ _ _ E4). rewrite (bind_some arm_scheduler _ m4 tt (set_kern (scheduler.init (kern m4)) m4)) by reflexivity.
  rewrite (bind_some init_timer _ _ tt _ eq_refl). set (m5 := set_board _ _).
  destruct (interrupts_quiet (coming e 2) m5) as (m6 & E6 & Q6 & T6).
  2:{ left. change (space m5) with (space m4). rewrite (q_space _ _ Q4). by exists (HEAP_START, HEAP_SIZE). }
  { change (scheduler.sched (kern m4) = scheduler.new). rewrite (q_sched _ _ Q4). exact (q_sched _ _ Q2). }
  rewrite (bind_some _ _ _ _ _ E6). rewrite (bind_some syscall_init _ _ tt _ eq_refl). set (m7 := set_board _ m6).
  assert (mnts m7 = [] ∧ files m7 = []) as [Em Ef].
  { split; [trans (mnts m6); [done|]; rewrite (q_mnts _ _ Q6); trans (mnts m4); [done|]; rewrite (q_mnts _ _ Q4); exact (q_mnts _ _ Q2)|].
    trans (files m6); [done|]. rewrite (q_files _ _ Q6). trans (files m4); [done|]. rewrite (q_files _ _ Q4). exact (q_files _ _ Q2). }
  rewrite (bind_some _ _ _ _ _ (init_files_ok _ root m7 Htar Em Ef)).
  eexists n, _. split.
  { unfold mret, T_ret, hp'. change (heap_st (set_vm v m2)) with (heap_st m2). rewrite (q_heap _ _ Q2). reflexivity. }
  destruct Q2 as [A1 A2 A3 A4 A5 A6 A7 A8 A9 A10 A11], Q4 as [B1 B2 B3 B4 B5 B6 B7 B8 B9 B10 B11],
    Q6 as [C1 C2 C3 C4 C5 C6 C7 C8 C9 C10 C11].
  assert (space m7 = mkSpace v (phys s) (wr s)) as Es.
  { trans (space m6); [done|]. rewrite C1. trans (space m4); [done|]. rewrite B1. cbn. by rewrite A1. }
  assert (bytes (buffer (kbd_st m7))) as Hkb by (apply C9, B9, A9; constructor).
  assert (heap_st m7 = vecs_dropped hp') as Eh.
  { trans (heap_st m6); [done|]. rewrite C4. trans (heap_st m4); [done|]. rewrite B4. unfold hp'. cbn. by rewrite A4. }
  assert (net_st m7 = mkNet (e1000.mkWorld None b cd) ∅ []) as En.
  { trans (net_st m6); [done|]. rewrite C3. trans (net_st m4); [done|]. rewrite B3. exact A3. }
  assert (board_ready (board m7)) as Hb7.
  { unfold m7. cbn [board set_board]. rewrite C10. unfold m5. cbn [board set_board set_kern pics cr4 pit segs].
    rewrite B10. cbn [board set_heap_st set_vm m3]. rewrite A10. exact Hbd. }
  assert (scheduler.sched (kern m7) = scheduler.new) as Ek.
  { trans (scheduler.sched (kern m6)); [done|]. rewrite C8. trans (scheduler.sched (kern m4)); [done|]. rewrite B8. exact A8. }
  assert (scheduler.active (kern m7) = true) as Hcl by (trans (scheduler.active (kern m6)); [done|]; by rewrite C11).
  assert (0 ≤ scheduler.ticks (kern m7) ≤ vlen (coming e 0) + vlen (coming e 1) + vlen (coming e 2)) as Ht7.
  { change (scheduler.ticks (kern m7)) with (scheduler.ticks (kern m6)). unfold clocked in *.
    change (scheduler.ticks (kern m5)) with (scheduler.ticks (kern m4)) in T6.
    change (scheduler.ticks (kern m3)) with (scheduler.ticks (kern m2)) in T4.
    change (scheduler.ticks (kern m1)) with 0 in T2. lia. }
  clearbody m7. cbn [space heap_st files]. rewrite Es. split; [done|]. split; [done|]. split; [done|]. split; [|split].
  - constructor; cbn [space kbd_st kern board]; rewrite ?Es; try done; try (by rewrite A1 in Hsp); by exists (HEAP_START, HEAP_SIZE).
  - by apply (running_boot root _ (e1000.mkWorld None b cd)).
  - exact Ht7.
Qed.

Lemma run_programs_ok fuel e off a root n1 n2 s m :
  env_ok e off a root n1 n2 s → (n1 ≤ fuel)%nat → (n2 ≤ fuel)%nat →
  booting off (1000 + image_frames (user_elf e) + image_frames (vfs_elf e)) m → running root 0 m →
  ∃ m', run_programs fuel e sel m = Some (Ret (tt, m')) ∧ booting off 59 m' ∧ running root (Z.of_nat (n1 + n2)) m' ∧
    scheduler.irq (kern m') = false ∧
    (0 ≤ scheduler.ticks (kern m) → 0 ≤ scheduler.ticks (kern m') ≤ scheduler.ticks (kern m) + vlen (coming e 3) + vlen (coming e 4)).
Proof.
  intros [Ewp _ _ _ _ _ _ [Hu1 Hl1] [Hu2 Hl2] Hn _ _] Hf1 Hf2 Hb Hr. unfold run_programs. rewrite Ewp.
  destruct (interrupts_quiet (coming e 3) m) as (m1 & E1 & Q1 & T1); [apply Hb|left; apply Hb|]. rewrite (bind_some _ _ _ _ _ E1).
  pose proof (running_quiet _ _ _ _ Q1 (bt_kbd _ _ _ Hb) Hr) as Hr1. apply (booting_quiet _ _ _ _ Q1) in Hb.
  destruct (run_user_ok off (59 + image_frames (vfs_elf e)) root 0 n1 fuel sel (user_elf e) m1)
    as (m2 & E2 & Hb2 & Hr2 & _ & Et2); [done| |done..|lia|lia|].
  { destruct Hb. constructor; try done. lia. }
  rewrite (bind_some _ _ _ _ _ E2). destruct (interrupts_quiet (coming e 4) m2) as (m3 & E3 & Q3 & T3); [apply Hb2|left; apply Hb2|].
  rewrite (bind_some _ _ _ _ _ E3).
  pose proof (running_quiet _ _ _ _ Q3 (bt_kbd _ _ _ Hb2) Hr2) as Hr3. apply (booting_quiet _ _ _ _ Q3) in Hb2.
  destruct (run_user_ok off 59 root (0 + Z.of_nat n1) n2 fuel sel (vfs_elf e) m3)
    as (m4 & E4 & Hb4 & Hr4 & Hi4 & Et4); [done|by rewrite Nat.add_comm|done..|lia|lia|].
  rewrite (bind_some _ _ _ _ _ E4). exists m4. unfold interrupts, fin. rewrite Hi4. split; [done|].
  split; [done|]. split; [|split; [done|unfold clocked in *; lia]]. by replace (Z.of_nat (n1 + n2)) with (0 + Z.of_nat n1 + Z.of_nat n2) by lia.
Qed.
Lemma running_files root m t : running root 0 m → std_only t → running root 0 (set_files t m).
Proof.
  intros [Hm [Hw Hmo _ _ Hum]] [Hl Hk]. constructor; [done|]. constructor; cbn [mounts fds umem kw]; try done.
  intros fd f E. cbn [files set_files] in E. rewrite Hk in E.
  apply get_file_Some, vget_elem_of, elem_of_replicate in E as [[= ->] _]. by split.
Qed.

(** The self-tests of memory and files: the counts and the texts are those of a state [w] of the
    kernel with the heap it was given. *)
Definition files_passed (root : initrd.InodeNode) (hp : A) (r : BootReport) : Prop :=
  let h := vecs_live hp in
  rep_heap r = (heap_used h `div` 1024, heap_free h `div` 1024, 0xab, 99 * 99) ∧
  ∃ w : KW, let n := pmm.free_count (frames w) in heap w = vecs_dropped h ∧ rep_frames r = (n, n - 1000, n) ∧
    rep_ls r = (initrd.node_list_dir root, DevDir_list_dir) ∧
    rep_cats r = [shown root [str "motd.txt"]; Ok (uptime w); Ok (meminfo w); Err NotFound].

(** The keyboard: the test reads the first 16 keys (if a descriptor is free), the others
    and the script are left for the shell. *)
Definition keys_passed (r : BootReport) m : Prop :=
  ∃ kb : KeyboardState K, let q := buffer (inject [0x23; 0x12; 0x26; 0x26; 0x18] kb) in
    rep_kbd r = Ok (text_or (str "<non-utf8>") (take 16 q)) ∧ buffer (kbd_st m) = drop 16 q ++ script ∨
    rep_kbd r = Err NoSpace ∧ buffer (kbd_st m) = q ++ script ∧ ∀ k, 0 ≤ k < MAX_FDS → get_file k (files m) ≠ None.

(** The four tasks are there, the first one is running. *)
Definition tasks_started m : Prop :=
  let g := scheduler.sched (kern m) in
  sched_wf g ∧ scheduler.current g = 0 ∧
  scheduler.snapshot (kern m) = [(1, "running"); (2, "ready"); (3, "ready"); (4, "ready")]%string ∧
  ∀ i t, slot g i = Some t → task.func t = vget task_names i.

(** They were started by [phase4_demo], with the scheduler armed, no task before them and the
    clock at most at [n]. *)
Definition launched (n : Z) (e : Env) m : Prop :=
  ∃ k sw, scheduler.sched k = scheduler.new ∧ scheduler.active k = true ∧ 0 ≤ scheduler.ticks k ≤ n ∧
    tasks.phase4_demo (task_trampoline e) (task_stacks e) k = Ret (sw, kern m).

(** Devices, network and tasks. *)
Lemma start_system_ok e off root c m : offset_ok off → booting off 59 m → running root c m → 0 ≤ c ≤ 2 ^ 40 →
  scheduler.irq (kern m) = false → 0 ≤ scheduler.ticks (kern m) →
  (let '(s1, s2, s3, s4) := task_stacks e in Forall stack_ok [s1; s2; s3; s4]) →
  ∃ kb rn m' n, start_system e m =
    Some (Ret ((kb, rn, Some (scheduler.mkSwitch scheduler.BootCtx (scheduler.SlotCtx 0) true)), m')) ∧
  mnts m' = boot_mounts root ∧ net_passed (files m') n rn ∧ tasks_started m' ∧ launched (scheduler.ticks (kern m)) e m' ∧ board_ready (board m') ∧
  ∀ fr h ls cats, keys_passed (mkBootReport fr h ls cats kb rn) m'.
Proof.
  intros Hoff Hb Hr Hc Hi Ht0 Hst. unfold start_system.
  destruct (phase7_setup_ok off root c m) as (w & v & E1 & Hr1); [done..|lia|]. rewrite (bind_some _ _ _ _ _ E1).
  set (m1 := set_vm v _) in *. destruct (phase7_demo_ok root c m1 Hr1) as (kb & q & t & E2 & Hkb & Ht & Hk); [lia|].
  rewrite (bind_some _ _ _ _ _ E2). set (m2 := set_files t _) in *.
  assert (interrupts (coming e 6) m2 = Some (Ret (tt, m2))) as E3.
  { unfold interrupts, fin. change (scheduler.irq (kern m2)) with (scheduler.irq (kern m)). by rewrite Hi. }
  rewrite (bind_some _ _ _ _ _ E3).
  destruct (phase8_ok c m2) as (rn & t' & n & E4 & Hn & Hk'); [apply (kw_card _ _ (inv_kw _ _ (rn_sys _ _ _ Hr1)))|done|lia|].
  rewrite (bind_some _ _ _ _ _ E4). set (m3 := set_kbd_st _ _).
  unfold launched. destruct (task_stacks e) as [[[s1 s2] s3] s4].
  destruct (phase4_ok (task_trampoline e) s1 s2 s3 s4 m3) as (k' & E5 & Ed & Ht5); [exact (bt_sched _ _ _ Hb)|done|].
  rewrite (bind_some _ _ _ _ _ E5). exists kb, rn, (set_kern k' m3), (net_st m2). split; [reflexivity|].
  split; [exact (rn_mnts _ _ _ Hr1)|]. split; [|split; [exact Ht5|split; [|split; [exact (bt_board _ _ _ Hb)|]]]].
  - destruct Hn as (? & ? & ? & ? & ? & Hsock). split_and!; try done. intros (k & Hk0 & Hfree). apply Hsock.
    exists k. split; [done|]. by rewrite <- Hk'.
  - exists (kern m), (Some (scheduler.mkSwitch scheduler.BootCtx (scheduler.SlotCtx 0) true)).
    split_and!; [exact (bt_sched _ _ _ Hb)|exact (bt_armed _ _ _ Hb)|done|done|exact Ed].
  - intros fr h ls cats. exists (kbd_st m1). cbn [rep_kbd]. destruct Hkb as [[-> Hq]|(-> & Hq & Hfull)]; [left|right].
    + split; [done|]. cbn. by rewrite Hq.
    + split; [done|]. split; [cbn; by rewrite Hq|]. intros k Hk0. cbn. rewrite Hk'. cbn. rewrite Hk. by apply Hfull.
Qed.

(** The most the clock can be at when the tasks start. *)
Definition boot_ticks (e : Env) : Z :=
  vlen (coming e 0) + vlen (coming e 1) + vlen (coming e 2) + vlen (coming e 3) + vlen (coming e 4).

(** [kernel_main], phase by phase. *)
Lemma kernel_main_ok fuel e off a root n1 n2 s hp cd b km :
  env_ok e off a root n1 n2 s → (n1 ≤ fuel)%nat → (n2 ≤ fuel)%nat →
  ∃ r m, kernel_main (G := G) fuel e (power_on s hp cd b km) =
      Some (Ret ((r, Some (scheduler.mkSwitch scheduler.BootCtx (scheduler.SlotCtx 0) true)), m)) ∧
    (mnts m = boot_mounts root ∧ files_passed root hp r ∧ keys_passed r m ∧
     (∃ n, net_passed (files m) n (rep_net r)) ∧ tasks_started m ∧ board_ready (board m)) ∧ launched (boot_ticks e) e m.
Proof.
  intros He Hf1 Hf2. unfold kernel_main.
  assert (init_gdt (G := G) e (power_on s hp cd b km) = Some (Ret (sel, segments_loaded s hp cd b km))) as E0.
  { destruct (eo_stacks _ _ _ _ _ _ _ He) as [Hd Hs]. unfold init_gdt, fin. rewrite (TSS_eq _ _ Hd Hs).
    cbn [mbind outcome_bind]. match goal with |- context [gdt.GDT ?t] => destruct (init_eq (G := G) t) as (g & -> & Ei) end.
    cbn [mbind outcome_bind]. rewrite Ei. done. }
  rewrite (bind_some _ _ _ _ _ E0).
  destruct (bring_up_ok e off a root n1 n2 s hp cd b km He) as (n & m1 & E1 & Hn & Hh & Hf & Hb & Hr & T1).
  rewrite (bind_some _ _ _ _ _ E1). destruct (phase6_ok root m1) as (t & E2 & Ht);
    [apply Hr|by rewrite Hf|apply He|]. rewrite (bind_some _ _ _ _ _ E2).
  destruct (run_programs_ok fuel e off a root n1 n2 s (set_files t m1)) as (m3 & E3 & Hb3 & Hr3 & Hi3 & T3);
    [done..|by destruct Hb|by apply running_files|]. rewrite (bind_some _ _ _ _ _ E3).
  destruct (start_system_ok e off root (Z.of_nat (n1 + n2)) m3) as (kb & rn & m4 & x & E4 & Hm4 & Hn4 & Ht4 & Hl4 & Hb4 & Hk4);
    [apply He|done|done|pose proof (eo_calls _ _ _ _ _ _ _ He); lia|done|exact (proj1 (T3 (proj1 T1)))|apply He|].
  rewrite (bind_some _ _ _ _ _ E4). eexists _, m4. split; [reflexivity|]. split.
  2:{ destruct Hl4 as (k & sw & ? & ? & ? & ?). exists k, sw. split_and!; try done; [lia|].
      change (kern (set_files t m1)) with (kern m1) in T3. unfold boot_ticks. lia. }
  split; [done|].
  split; [|split; [apply Hk4|split; [by exists x|done]]].
  split; [reflexivity|]. exists (kworld m1). cbn [frames kworld heap rep_frames rep_ls rep_cats fst snd]. by rewrite <- Hn.
Qed.

(** C5. The kernel boots. With a memory map that leaves enough usable frames, a well-formed
    archive and two user programs that call exit after finitely many system calls with buffers
    they may use, and
    whatever timer interrupts come while they are enabled, and keys once memory is set up (one
    before that would need the heap), [kernel_main] gets to [start] without
    a panic. Its self-tests report what they should: the frame allocator gives and takes back
    1000 frames, the heap keeps what is written to it, the directories list the archive's files and the four devices, [cat] shows
    the first 256 bytes of the file in the archive, the uptime, the memory counts of the
    allocator, and refuses an unmounted path; every layer of the network stack passes. The
    namespace is the boot one; the segments and the TSS are loaded, IRQ0 and IRQ1 unmasked, SMAP is off and the timer chip programmed;
    the scripted session waits in the keyboard buffer behind the
    keys that were not read, and the scheduler switches from the boot stack to the first of
    four well-formed tasks. *)
Theorem kernel_boots fuel e off a root n1 n2 s hp cd b km :
  env_ok e off a root n1 n2 s → (n1 ≤ fuel)%nat → (n2 ≤ fuel)%nat →
  ∃ r m, kernel_main (G := G) fuel e (power_on s hp cd b km) =
      Some (Ret ((r, Some (scheduler.mkSwitch scheduler.BootCtx (scheduler.SlotCtx 0) true)), m)) ∧
    mnts m = boot_mounts root ∧ files_passed root hp r ∧ keys_passed r m ∧
    (∃ n, net_passed (files m) n (rep_net r)) ∧ tasks_started m ∧ board_ready (board m).
Proof.
  intros He Hf1 Hf2. destruct (kernel_main_ok fuel e off a root n1 n2 s hp cd b km He Hf1 Hf2) as (r & m & E & Hr & _).
  exists r, m. split; [exact E|exact Hr].
Qed.
End phases.

(** ** A concrete machine: 10 MiB, a card, two programs that exit at once *)

Definition silent_Decoder : Decoder unit :=
  {| KeyEvent := unit; decoder_new := tt; add_byte _ _ := (inl None, tt); process_keyevent _ k := (None, k) |}.

Definition exit_frame : SyscallFrame := mkFrame 2 0 0 0 0 0 0 0 0 0 0 0 0 0 0.
Definition exit_UserCode : UserCode unit :=
  {| user_enter _ _ _ _ _ := tt; user_call _ := (exit_frame, λ _, 0); user_resume _ _ _ := tt |}.

(** A table as the list of its entries; a system descriptor is followed by an empty one. *)
Definition list_Gdt : gdt.GdtTable (list (option gdt.Descriptor)).
Proof.
  refine {| gdt.gdt_new := [None]; gdt.gdt_len := vlen; gdt.gdt_entry g i := default None (vget g i);
            gdt.gdt_append d g := if vlen g + gdt.entries d <=? 8
              then Ret (Z.lor (Z.shiftl (vlen g) 3) (gdt.dpl d),
                        g ++ Some d :: match d with gdt.tss_segment _ => [None] | _ => [] end)
              else Panic PUnwrap |}; [done|].
  intros d g Hd. rewrite (proj2 (Z.leb_le _ _)) by done. eexists. split; [reflexivity|].
  rewrite vlen_app, vlen_cons. split_and!.
  - destruct d; unfold vlen; cbn; lia.
  - unfold vget. rewrite vlen_app, vlen_cons. pose proof (vlen_nonneg g).
    rewrite bool_decide_true by (destruct d; unfold vlen in *; cbn; lia). unfold vlen. rewrite Nat2Z.id, lookup_app_r by done.
    by rewrite Nat.sub_diag.
  - intros i Hi. by rewrite vget_app_l.
Defined.

Definition toy_Vecs : HeapVecs unit := {| vecs_live _ := tt; vecs_dropped _ := tt |}.

(** The two mask registers. *)
Definition toy_Pics : interrupts.Pics (Z * Z).
Proof. by refine {| interrupts.initialize _ _ p := p; interrupts.masks p := p; interrupts.write_masks m n _ := (m, n) |}. Defined.

Definition toy_board : Board (Z * Z) := mkBoard (0xff, 0xff) 0x300020 [] (gdt.mkSegRegs 0 0 0).

Definition toy_boot_info : BootInfo :=
  mkBootInfo (Some 0x100000000) 0x200000 0x10000
    [mkRegion 0 0xa0000 Usable; mkRegion 0xa0000 0x100000 NotUsable; mkRegion 0x100000 0xa00000 Usable].

Definition allocator_or_new (o : outcome Alloc) : Alloc := match o with Ret a => a | Panic _ => pmm.new end.

Definition toy_seeded : Alloc := allocator_or_new (@seed_frames dev toy_boot_info pmm.new).

Definition toy_env : Env :=
  mkEnv toy_boot_info toy_tar toy_elf toy_elf true 0xffffff8000100000 0xffffff8000200000 0x1000
    (0x10000, 0x20000, 0x30000, 0x40000) (λ i, if i =? 0 then [Irq0] else [Irq0; Irq1 0x1c]).

Definition toy_power_space : @Space Alloc (gmap Z Z) := mkSpace (mkMem pmm.new ∅ None None) (λ _, 0) (λ _, false).

Definition toy_root : initrd.InodeNode := initrd.Node (str "/") Dir [] [initrd.file (str "motd.txt") (str "hi")].

(** An 82540EM in slot 3. *)
Definition toy_card : Z → Z := λ x,
  if x =? e1000.pci_address 0 3 0 0 then 0x100e8086 else if x =? e1000.pci_address 0 3 0 0x10 then 0xfeb80000 else 0.

Lemma toy_seeded_count : pmm.free_count toy_seeded = 2447.
Proof. vm_compute. reflexivity. Qed.

Lemma toy_seeds : @seed_frames dev toy_boot_info pmm.new = Ret toy_seeded ∧ wf toy_seeded.
Proof.
  destruct (@seed_frames_bits dev toy_boot_info pmm.new wf_new) as (a & E & Hw & _);
    [by repeat constructor|done|done|]. unfold toy_seeded. rewrite E. exact (conj eq_refl Hw).
Qed.

Lemma toy_image_ok : image_ok true toy_elf.
Proof.
  constructor; [exact toy_bytes| |vm_compute; reflexivity|vm_compute; reflexivity|exact toy_headers_in|exact toy_seg_ok].
  change (vlen toy_elf) with 128. lia.
Qed.

Lemma toy_bootable : @bootable _ dev toy_Mapper true toy_boot_info 0x100000000 toy_seeded
  (1000 + image_frames toy_elf + image_frames toy_elf) toy_power_space.
Proof.
  constructor.
  - reflexivity.
  - repeat constructor; done.
  - done.
  - reflexivity.
  - exact (proj1 toy_seeds).
  - rewrite toy_seeded_count. unfold image_frames. rewrite toy_headers. change (all_pages [toy_phdr]) with 1%nat. lia.
  - intros i _. reflexivity.
  - apply empty_space_ok. exact (proj2 toy_seeds).
Qed.

Lemma toy_env_ok : @env_ok (gmap Z Z) unit dev toy_Mapper exit_UserCode true toy_env 0x100000000 toy_seeded
  toy_root 1 1 toy_power_space.
Proof.
  assert (@program_leaves unit dev exit_UserCode 1 sel toy_elf) as Hl.
  { intros um pages _ _. split; [intros a; by vm_compute|]. split; [|by left]. split_and!; discriminate. }
  constructor.
  - reflexivity.
  - exact toy_bootable.
  - split; [done|by left].
  - unfold stack_at. vm_compute. split; split; discriminate || reflexivity.
  - vm_compute. reflexivity.
  - split; [constructor|]. split; [|done]. split; [apply str_bytes|done].
  - assert (tree_walk [str "motd.txt"] toy_root = Some (initrd.file (str "motd.txt") (str "hi"))) as -> by (vm_compute; reflexivity).
    intros x [= <-]. vm_compute. reflexivity.
  - split; [exact toy_image_ok|exact Hl].
  - split; [exact toy_image_ok|exact Hl].
  - done.
  - intros sc. cbn [coming toy_env Z.eqb]. by intros [=]%list_elem_of_singleton.
  - cbn [task_stacks toy_env]. rewrite !Forall_cons, Forall_nil. unfold stack_ok, task.KERNEL_STACK_SIZE. lia.
Qed.

Lemma kernel_boots_witness :
  ∃ r m, @kernel_main unit (Z → Z) unit (gmap Z Z) unit (Z * Z) dev silent_Decoder plain_Hw toy_Heap toy_Mapper plain_X86Addr
      plain_VirtAddrNew exit_UserCode toy_Vecs toy_Pics _ list_Gdt 1 toy_env
      (@power_on unit (Z → Z) unit (gmap Z Z) (Z * Z) silent_Decoder toy_board toy_power_space tt toy_card (λ _, 0) (λ _, 0)) =
    Some (Ret ((r, Some (scheduler.mkSwitch scheduler.BootCtx (scheduler.SlotCtx 0) true)), m)) ∧
    head (rep_cats r) = Some (Ok (str "hi")) ∧ rep_ip (rep_net r) = gateway_text ∧
    Z.testbit (fst (pics (board m))) 0 = false.
Proof.
  destruct (@kernel_boots unit (Z → Z) unit (gmap Z Z) unit (Z * Z) dev silent_Decoder plain_Hw toy_Heap toy_Mapper toy_MapperOk
    plain_X86Addr plain_VirtAddrNew exit_UserCode toy_Vecs toy_Pics _ list_Gdt true toy_board 1 toy_env 0x100000000 toy_seeded
    toy_root 1 1 toy_power_space tt toy_card (λ _, 0) (λ _, 0) toy_env_ok (le_n 1) (le_n 1))
    as (r & m & E & _ & (_ & w & _ & _ & _ & Hc) & _ & (n & Hn) & _ & (Hi & _)).
  exists r, m. split; [exact E|]. split; [rewrite Hc; vm_compute; reflexivity|]. split; [apply Hn|].
  exact (Hi 0 (conj (Z.le_refl 0) eq_refl)).
Defined.
