(* ===== verification/BootRun.v ===== *)
(** * BootRun: from power-on to running tasks

    The state in which [kernel_main] calls [start] is one from which the theorems about running
    tasks apply: those of [PreemptProps], with the timer interrupting at any instruction, and
    those of [TasksProps], with the bodies of the boot tasks. *)

From S2P Require Import Prelude Pmm Memory Task Scheduler SchedulerProps Preempt PreemptProps Tasks TasksProps Elf E1000 Vfs Initrd Devices Syscall SyscallProps Gdt Interrupts NetDemo Shell ShellProps Boot BootProps.
Import boot.

Section run.
Context {K D A PT P : Type} `{Profile}.

Lemma start_irq k sw k' : scheduler.start k = Ret (Some sw, k') → scheduler.irq k' = false.
Proof.
  unfold scheduler.start. intros ([idx|] & _ & E)%bind_Ret; [|done].
  apply bind_Ret in E as ([[old nw] g] & _ & [= _ <-]). done.
Qed.

Lemma phase4_irq tr st k sw k' : tasks.phase4_demo tr st k = Ret (Some sw, k') → scheduler.irq k' = false.
Proof.
  unfold tasks.phase4_demo. destruct st as [[[s1 s2] s3] s4].
  intros E. do 4 (apply bind_Ret in E as (? & _ & E)). by eapply start_irq.
Qed.

Context (e : Env) (stacks_ok : let '(s1, s2, s3, s4) := task_stacks e in Forall stack_ok [s1; s2; s3; s4]).
Abbreviation MA := (Machine K D A PT P).
Implicit Types (m : MA).

(** What [launched] says of the kernel's state. *)
Lemma launched_kern n m : launched n e m →
  ∃ ts, sched_wf (scheduler.sched (kern m)) ∧ scheduler.active (kern m) = true ∧ scheduler.irq (kern m) = false ∧
    0 ≤ scheduler.ticks (kern m) ≤ n ∧ scheduler.sched (kern m) = scheduler.mkSched (Some <$> ts) 0 5 1 ∧
    (λ t, (task.id t, task.state t, task.func t)) <$> ts =
      imap (λ i f, (Z.of_nat i + 1, if bool_decide (i = 0%nat) then task.Running else task.Ready, Some f)) task_names.
Proof.
  intros (k & sw & Hk & Ha & Ht & E). destruct (task_stacks e) as [[[s1 s2] s3] s4].
  destruct (phase4_spec (task_trampoline e) s1 s2 s3 s4 k Hk stacks_ok) as (k1 & ts & E1 & Hw & Ek & Ea & Et & Hts).
  rewrite E in E1. injection E1 as -> <-. pose proof (phase4_irq _ _ _ _ _ E) as Hi.
  exists ts. split_and!; [done|congruence|done|lia|lia|done|done].
Qed.

(** The first task is about to enter its body. *)
Lemma launched_preempt b n m : launched n e m → n + b < 2 ^ 62 → b + 5 < 2 ^ 32 →
  PreemptProps.inv b (preempt.started 0 (kern m)).
Proof.
  intros (ts & Hw & Ha & Hi & Ht & Ek & Hts)%launched_kern Hb1 Hb2.
  constructor; cbn [preempt.kern preempt.started preempt.code preempt.saved preempt.stack]; try done.
  - lia.
  - rewrite Ek. cbn. lia.
  - right. rewrite Ek. destruct ts as [|t ts]; [done|]. split; [by exists t|done].
Qed.

Lemma launched_tasks external b n m : launched n e m → n + b < 2 ^ 62 → b + 5 < 2 ^ 32 →
  TasksProps.inv external b (tasks.mkSystem (kern m) (λ _, None) []).
Proof.
  intros (ts & Hw & Ha & Hi & Ht & Ek & Hts)%launched_kern Hb1 Hb2.
  eapply inv_start; [done|done|lia|lia|lia|done|done].
Qed.
End run.

Section theorem.
Context {K D A PT U P : Type} `{Profile} `{keyboard.Decoder K} `{e1000.Hw D} `{Heap A}.
Context `{!Mapper Alloc PT} `{!MapperOk Alloc PT} `{X86Addr} `{VirtAddrNew} `{UserCode U} `{HeapVecs A} `{!interrupts.Pics P} {G : Type} `{gdt.GdtTable G} (wp : bool) (bd : Board P).

(** C6. From power-on to running tasks: under the conditions of a boot (enough memory, a well-formed
    archive, user programs that end, interrupts as they come, no key before memory is set up) [kernel_main] hands over to the
    scheduler, and the state it has then is one to run from, as long as the clock stays below 2^62. With
    the timer interrupting before any instruction, inside operations and critical sections
    too, nothing of the scheduler panics and the task table stays well formed whatever the tasks call; and with the bodies the
    boot gives its tasks, under every interleaving, the run gets to its end unless the ARP demo or
    the shell (parameters here) panics on its own, and the manager reports its workers joined only
    after all three have finished, unless the clock task ended before. *)
Theorem kernel_runs fuel e off a root n1 n2 s hp cd b km :
  env_ok wp e off a root n1 n2 s → (n1 ≤ fuel)%nat → (n2 ≤ fuel)%nat →
  ∃ r sw m, kernel_main (G := G) fuel e (power_on bd s hp cd b km) = Some (Ret ((r, Some sw), m)) ∧
    (∀ cs, Forall PreemptProps.ok_choice cs → boot_ticks e + vlen cs < 2 ^ 62 → vlen cs + 5 < 2 ^ 32 →
       ∃ c, preempt.run cs (preempt.started 0 (kern m)) = Ret c ∧ sched_wf (scheduler.sched (preempt.kern c))) ∧
    (∀ external cs, (∀ f, tame 0 (external f)) → Forall TasksProps.ok_choice cs →
       boot_ticks e + vlen cs < 2 ^ 62 → vlen cs + 5 < 2 ^ 32 →
       ∃ t, arrives external (task_trampoline e) cs (tasks.mkSystem (kern m) (λ _, None) []) t ∧
         ∀ pre n post, tasks.output t = pre ++ (MANAGER, tasks.Joined n) :: post → (CLOCK, tasks.ClockDone) ∉ pre →
           ∃ x y z, (x, tasks.WorkerFinished "t1") ∈ pre ∧ (y, tasks.WorkerFinished "t2") ∈ pre ∧
             (z, tasks.WorkerFinished "t3") ∈ pre).
Proof.
  intros He Hf1 Hf2. pose proof (eo_tasks _ _ _ _ _ _ _ _ He) as Hst.
  destruct (kernel_main_ok wp bd fuel e off a root n1 n2 s hp cd b km He Hf1 Hf2) as (r & m & E & _ & Hl).
  exists r, (scheduler.mkSwitch scheduler.BootCtx (scheduler.SlotCtx 0) true), m. split; [exact E|]. split.
  - intros cs Hcs Ht Hn. destruct (run_inv 0 cs (preempt.started 0 (kern m))) as (c & Er & [Hw _ _ _ _ _] & _);
      [done|rewrite Z.add_0_r; by eapply launched_preempt|done|]. by exists c.
  - intros external cs Hex Hcs Ht Hn.
    destruct (inv_run external (task_trampoline e) Hex cs (tasks.mkSystem (kern m) (λ _, None) [])) as (t & Er & Hi);
      [by eapply launched_tasks|done|]. exists t. split; [done|exact Hi].
Qed.
End theorem.

(** The concrete machine of [BootProps]: after its boot the first task enters its body, is
    interrupted there three times and preempted; and with its tasks twenty calls go by. *)
Definition boot_turns : list preempt.choice :=
  replicate 5 preempt.Go ++ mjoin (replicate 3 (preempt.Irq0 :: replicate 12 preempt.Go)).

Lemma kernel_runs_witness :
  ∃ r sw m, @kernel_main unit (Z → Z) unit (gmap Z Z) unit (Z * Z) dev silent_Decoder plain_Hw toy_Heap toy_Mapper plain_X86Addr
      plain_VirtAddrNew exit_UserCode toy_Vecs toy_Pics _ list_Gdt 1 toy_env
      (@power_on unit (Z → Z) unit (gmap Z Z) (Z * Z) silent_Decoder toy_board toy_power_space tt toy_card (λ _, 0) (λ _, 0)) =
    Some (Ret ((r, Some sw), m)) ∧
    (∃ c, @preempt.run dev boot_turns (preempt.started 0 (kern m)) = Ret c ∧ sched_wf (scheduler.sched (preempt.kern c))) ∧
    ∃ t, @arrives dev idle_bodies 0x1000 toy_turns (tasks.mkSystem (kern m) (λ _, None) []) t.
Proof.
  destruct (@kernel_runs unit (Z → Z) unit (gmap Z Z) unit (Z * Z) dev silent_Decoder plain_Hw toy_Heap toy_Mapper toy_MapperOk
    plain_X86Addr plain_VirtAddrNew exit_UserCode toy_Vecs toy_Pics _ list_Gdt true toy_board 1 toy_env 0x100000000 toy_seeded
    toy_root 1 1 toy_power_space tt toy_card (λ _, 0) (λ _, 0) toy_env_ok (le_n 1) (le_n 1)) as (r & sw & m & E & Hp & Ht).
  exists r, sw, m. split; [exact E|]. split.
  - apply Hp; [|vm_compute; reflexivity|vm_compute; reflexivity].
    unfold boot_turns. cbn. rewrite !Forall_cons. by split_and!.
  - destruct (Ht idle_bodies toy_turns idle_bodies_tame toy_turns_ok) as (t & Et & _);
      [vm_compute; reflexivity|vm_compute; reflexivity|by exists t].
Defined.
