(* ===== verification/ShellAnswers.v ===== *)
(** * ShellAnswers: what the shell answers

    A specification of the shell from the outside. [answer] says what a line is answered
    with, as a function of the state of the kernel at that time. [dialogue] says what a list of
    lines is answered with when the kernel changes meanwhile: before each line the rest of the machine may
    run ([later]), and the line is answered from the state it then finds. The theorem is that the
    shell holds such a dialogue with its typist, while the clock and the other tasks run and
    the card has nothing to receive. The lines [net] (a self-test) and [cat] of a device without
    end are excepted. *)

From stdpp Require Import sorting.
From S2P Require Import Prelude Pmm Task Scheduler Bytes E1000 Vfs Net NetProps Initrd Devices Syscall SyscallProps NetTypes NetDemo Shell ShellProps ShellSession Boot BootProps.
Import vfs fs keyboard demo shell.

(** ** Card addresses as text *)

Definition hex_digit (i : Z) : Z := default 0 (vget hex_digits i).
Definition hex_pair (b : Z) : list Z := [hex_digit (Z.shiftr b 4); hex_digit (Z.land b 0xf)].
Definition mac_text (m : list Z) : list Z := join_with (str ":") (hex_pair <$> m).

Lemma index_hex i : 0 ≤ i < 16 → index hex_digits i = Ret (hex_digit i).
Proof. intros Hi. unfold index, hex_digit. by destruct (vget_in hex_digits i Hi) as [x ->]. Qed.

Lemma hex_ascii i : hex_digit i < 128.
Proof.
  assert (Forall (λ b, b < 128) hex_digits) as Hh by by apply (bool_decide_unpack (Forall _ _)).
  unfold hex_digit. destruct (vget hex_digits i) eqn:E; [|done]. by eapply (proj1 (Forall_forall _ _) Hh), vget_elem_of.
Qed.

Lemma nibbles b : is_byte b → 0 ≤ Z.shiftr b 4 < 16 ∧ 0 ≤ Z.land b 0xf < 16.
Proof.
  unfold is_byte, fits. intros Hb. rewrite Z.shiftr_div_pow2 by done. change 0xf with (Z.ones 4).
  rewrite Z.land_ones by done. change (2 ^ 4) with 16. change (2 ^ 8) with 256 in Hb.
  split; [split; [apply Z.div_pos|apply Z.div_lt_upper_bound]; lia|by apply Z.mod_pos_bound].
Qed.

Lemma join_snoc sep l x : join_with sep (l ++ [x]) = match l with [] => x | _ => join_with sep l ++ sep ++ x end.
Proof.
  induction l as [|y [|z l] IH]; [done..|]. cbn [app] in IH |- *. cbn [join_with] in IH |- *.
  rewrite IH. by rewrite <- !app_assoc.
Qed.

Lemma mac_fmt_eq m : bytes m → mac_fmt m = Ret (mac_text m).
Proof.
  induction m as [|b m IH] using rev_ind; [done|]. intros [Hm Hb]%Forall_app. apply Forall_cons in Hb as [Hb _].
  specialize (IH Hm). unfold mac_fmt in *. rewrite imap_app, for_each_app, IH.
  destruct (nibbles b Hb). change (imap ?f [b]) with [f 0%nat b]. cbn [mbind outcome_bind for_each compose].
  rewrite !index_hex by done. cbn [mbind outcome_bind]. unfold mac_text. rewrite fmap_app, Nat.add_0_r.
  change (hex_pair <$> [b]) with [hex_pair b]. rewrite join_snoc. destruct m as [|c m]; [done|].
  rewrite (proj2 (Z.ltb_lt _ _)) by done. by rewrite <- app_assoc.
Qed.

Lemma join_ascii sep l : Forall (λ b, b < 128) sep → Forall (Forall (λ b, b < 128)) l →
  Forall (λ b, b < 128) (join_with sep l).
Proof.
  intros Hs. induction 1 as [|x [|y l] Hx Hl IH]; [done..|]. cbn [join_with] in *.
  by repeat apply Forall_app_2.
Qed.

Lemma mac_text_ascii m : Forall (λ b, b < 128) (mac_text m).
Proof.
  apply join_ascii; [by apply (bool_decide_unpack (Forall _ _))|]. apply Forall_fmap, Forall_true. intros b.
  repeat (apply Forall_cons; split; [apply hex_ascii|]). done.
Qed.

(** ** The commands *)

Inductive command :=
  | CHelp | CEcho | CLs | CCat | CPs | CFree | CIfconfig | CArp | CNetstat | CPing | CExit.

Definition commands : list (list Z * command) :=
  [(str "help", CHelp); (str "echo", CEcho); (str "ls", CLs); (str "cat", CCat); (str "ps", CPs); (str "free", CFree);
   (str "ifconfig", CIfconfig); (str "arp", CArp); (str "netstat", CNetstat); (str "ping", CPing);
   (str "exit", CExit); (str "quit", CExit)].

Fixpoint assoc {B} (l : list (list Z * B)) (key : list Z) : option B :=
  match l with [] => None | (x, b) :: l' => if bool_decide (key = x) then Some b else assoc l' key end.

Lemma dec_ascii z : Forall (λ b, b < 128) (dec z).
Proof.
  unfold dec. assert (Forall (λ b, b < 128) (@nil Z)) as Hn by done. revert z Hn. generalize (@nil Z) as acc.
  generalize 20%nat as fuel. induction fuel as [|k IH]; intros acc z Ha; cbn [dec_loop]; [done|].
  assert (Forall (λ b, b < 128) ((48 + z `mod` 10) :: acc)).
  { constructor; [|done]. pose proof (Z.mod_pos_bound z 10). lia. }
  destruct (z <? 10); auto.
Qed.

Lemma gen_text_ascii {K D A : Type} `{Profile} `{e1000.Hw D} `{Heap A} g (w : Kworld K D A) : Forall (λ b, b < 128) (gen_text g w).
Proof.
  destruct g; cbn [gen_text]; unfold meminfo, uptime; repeat apply Forall_app_2; try apply dec_ascii;
    by apply (bool_decide_unpack (Forall _ _)).
Qed.

Section answers.
Context {K D A X : Type} `{Decoder K} `{Profile} `{e1000.Hw D} `{Heap A} `{!Background K D A X}.
Abbreviation KW := (Kworld K D A).
Abbreviation SH := (Sh K D A (typist * X)).
Implicit Types (s : SH) (n : Net D) (w : KW).

(** ** The specification *)

(** What a node shows: [None] for one without end, or that changes when it is read. *)
Definition contents w (x : Node) : option (list Z) :=
  match x with
  | Ram r => Some (initrd.node_data r)
  | ProcFile g => Some (gen_text g w)
  | Console | Null | DevDir | ProcDir => Some []
  | Zero | Kbd | SocketInode _ => None
  end.

Definition ls_answer (ms : Mounts Node) (path : list Z) : msg :=
  match list_dir (W := KW) path ms with inl names => LsNames path names | inr e => LsError path e end.

Definition cat_answer (ms : Mounts Node) w (path : list Z) : msg :=
  match resolve (W := KW) path ms with inl x => CatText (default [] (contents w x)) | inr e => CatError path e end.

Definition arp_answer n : list msg :=
  match arp_table n with [] => [ArpEmpty] | t => (λ r, ArpRow (ip_fmt r.1) (mac_text r.2)) <$> t end.

(** What a command answers; [None] is to quit. *)
Definition respond s (args : list (list Z)) (c : command) : option (list msg) :=
  let w := kw s in
  match c with
  | CHelp => Some [Help]
  | CEcho => Some [Echo (join_with (str " ") args)]
  | CLs => Some [ls_answer (mounts s) (default (str "/") (head args))]
  | CCat => Some [match head args with Some p => cat_answer (mounts s) w p | None => CatMissing end]
  | CPs => Some (PsHeader :: ((λ r, PsRow r.1 r.2) <$> scheduler.snapshot (kern s)))
  | CFree => Some [FreeRow (heap_used (heap w) `div` 1024) (heap_free (heap w) `div` 1024)
      (pmm.free_count (frames w)) ((pmm.free_count (frames w) * 4) `div` 1024)]
  | CIfconfig => Some [IfconfigRow (ip_fmt e1000.IP) (ip_fmt e1000.GATEWAY) (mac_text (mac_of_net (net w)))]
  | CArp => Some (arp_answer (net w))
  | CNetstat => Some (NetstatHeader :: (netstat_row <$> socket_info (net w)))
  | CPing => Some (match head args ≫= parse_ip with Some _ => [] | None => [PingUsage] end)
  | CExit => None
  end.

Definition answer s (line : list Z) : option (list msg) :=
  match split_whitespace (text_or [] line) with
  | [] => Some []
  | cmd :: args =>
      match assoc commands cmd with Some c => respond s args c | None => Some [NotFoundCmd cmd] end
  end.

(** The lines it covers: not [net]; [cat] only of ASCII text shorter than the fuel (the files of
    /proc are shorter than 256 bytes). *)
Definition cat_covered (fuel : nat) (x : Node) : Prop :=
  match x with
  | Ram r => Forall (λ b, b < 128) (initrd.node_data r) ∧ vlen (initrd.node_data r) < Z.of_nat fuel ∧
             vlen (initrd.node_data r) < 2 ^ 64
  | ProcFile _ => (256 ≤ fuel)%nat
  | Console | Null | DevDir | ProcDir => (1 ≤ fuel)%nat
  | Zero | Kbd | SocketInode _ => False
  end.

Definition covered (fuel : nat) (ms : Mounts Node) (line : list Z) : Prop :=
  match split_whitespace (text_or [] line) with
  | cmd :: args => cmd ≠ str "net" ∧ (cmd = str "cat" → ∀ path x, head args = Some path →
      resolve (W := KW) path ms = Ok x → cat_covered fuel x)
  | [] => True
  end.

(** What happens around the shell: the others run for [z] ticks; the shell sends a frame; keys,
    descriptors and messages change, and nothing else. *)
Inductive around : SH → SH → Prop :=
  | around_pass (z : Z) s s' : 0 ≤ z → passes z (others s).2 (kw s) (kern s) = ((others s').2, kw s', kern s') →
      mounts s' = mounts s → around s s'
  | around_send frame s : around s (set_kw (set_net (sent frame (net (kw s))) (kw s)) s)
  | around_own s s' : kw s' = set_kbd (kbd (kw s')) (kw s) → kern s' = kern s → (others s').2 = (others s).2 →
      mounts s' = mounts s → around s s'.

Definition later : SH → SH → Prop := rtc around.

(** From [s], the lines are answered with the messages, up to one that quits, each from
    the state it finds; at the end the state is the last one. *)
Inductive dialogue : SH → list (list Z) → list msg → SH → Prop :=
  | dialogue_idle s s' : later s s' → dialogue s [] [InputIdle] s'
  | dialogue_quit s s1 s' l ls : later s s1 → answer s1 l = None → later s1 s' → dialogue s (l :: ls) [Prompt] s'
  | dialogue_line s s1 s' l ls ms rest : later s s1 → answer s1 l = Some ms → dialogue s1 ls rest s' →
      dialogue s (l :: ls) (Prompt :: ms ++ rest) s'.

Lemma dialogue_later s s1 ls ms s' : later s s1 → dialogue s1 ls ms s' → dialogue s ls ms s'.
Proof.
  intros Hs Hd. destruct Hd as [a b Hl|a b c l ls Hl Ha Hc|a b c l ls ms r Hl Ha Hd].
  - apply dialogue_idle. by eapply rtc_trans.
  - eapply (dialogue_quit s b); [by eapply rtc_trans|done|done].
  - eapply (dialogue_line s b); [by eapply rtc_trans|done|done].
Qed.

Lemma own_later s s' : kw s' = set_kbd (kbd (kw s')) (kw s) → kern s' = kern s → (others s').2 = (others s).2 →
  mounts s' = mounts s → later s s'.
Proof. intros. by apply rtc_once, around_own. Qed.

(** ** The card at rest *)

Definition at_rest n : Prop := e1000.poll_receive (world n) = Ret (None, world n).

Lemma sent_at_rest c frame n : c + 1 < 2 ^ 64 → card_inv c n → at_rest n → at_rest (sent frame n).
Proof.
  intros Hc Hi Hr. pose proof (card_inv_ok _ _ Hc Hi) as Hok. unfold at_rest, sent, card_ok in *.
  destruct (e1000.nic (world n)) as [k|] eqn:En.
  - rewrite (send_eq _ _ _ En Hok). cbn [world set_world]. unfold e1000.poll_receive in *. rewrite En in Hr.
    cbn [e1000.nic tx_pushed e1000.rx_cursor e1000.rx_ring].
    destruct (index (e1000.rx_ring k) _) as [d|]; [|done]. cbn [mbind outcome_bind] in *.
    destruct (_ || _); [done|]. destruct (index (e1000.rx_bufs k) _); [|done]. cbn [mbind outcome_bind] in Hr.
    destruct (store _ _ _); [|done]. cbn [mbind outcome_bind] in Hr. by destruct (checked _ _).
  - unfold e1000.send. by rewrite En.
Qed.

Lemma pump_at_rest n : at_rest n → pump n = Ret (0, n).
Proof.
  unfold at_rest, pump. change 16%nat with (S 15). cbn [pump_loop]. intros Hr.
  erewrite bind_run by (unfold on_card; by rewrite Hr). by destruct n.
Qed.

(** The others, as the theorem needs them: the clock goes on, and they neither transmit nor
    does a frame arrive; apart from that they may change the ARP cache, the sockets, the heap, the
    frames and the tasks as they like, within the types. *)
Class Quiet : Prop := {
  passes_clock z x (w : KW) k : ticks w + z ≤ ticks (passes z x w k).1.2;
  passes_typed z x (w : KW) k : net_typed (net w) → net_typed (net (passes z x w k).1.2);
  passes_card c z x (w : KW) k : card_inv c (net w) → card_inv c (net (passes z x w k).1.2);
  passes_rest z x (w : KW) k : at_rest (net w) → at_rest (net (passes z x w k).1.2);
}.

(** A state the shell may run in, with at most [c] frames sent: the others' descriptors, those
    but [fd], are [f0]. *)
Section session.
Context `{!Quiet} (fd : Z) (ms0 : Mounts Node) (f0 : Z → option (File Node)).

Record fit (c : Z) s : Prop := {
  ft_typed : net_typed (net (kw s));
  ft_card : card_inv c (net (kw s));
  ft_rest : at_rest (net (kw s));
  ft_mounts : mounts s = ms0;
  ft_len : vlen (fds s) ≤ MAX_FDS;
  ft_fds : ∀ k, k ≠ fd → get_file k (fds s) = f0 k;
}.

Lemma fit_mono c c' s : c ≤ c' → fit c s → fit c' s.
Proof. intros Hc []. split; try done. by eapply card_inv_weaken. Qed.

Lemma sleep_fit z c s s' : fit c s → sleep z s = Some (Ret (tt, s')) → fit c s'.
Proof.
  intros [] E. rewrite sleep_eq in E. pose proof (passes_typed z (others s).2 (kw s) (kern s) ft_typed0).
  pose proof (passes_card c z (others s).2 (kw s) (kern s) ft_card0). pose proof (passes_rest z (others s).2 (kw s) (kern s) ft_rest0).
  destruct (others s) as [[|[[|g] cs] e] x]; injection E as <-; by split.
Qed.

Lemma sleep_later z s s' : 0 ≤ z → sleep z s = Some (Ret (tt, s')) → later s s' ∧ said s' = said s.
Proof.
  intros Hz E. rewrite sleep_eq in E.
  set (r := passes z (others s).2 (kw s) (kern s)) in *. set (e := (others s).1) in *.
  set (s1 := mkSh r.1.2 (mounts s) (fds s) r.2 (e, r.1.1) (said s)).
  assert (around s s1) as Hb1. { apply (around_pass z); [done| |done]. fold r. by destruct r as [[? ?] ?]. }
  assert (later s1 s' ∧ said s' = said s) as [Hb2 Hs]; [|split; [by eapply rtc_l|done]].
  destruct e as [|[[|g] cs] e]; injection E as <-; (split; [apply own_later|]); try done; cbn; by destruct r.1.2.
Qed.

(** The computation returns, says [ms] and sends at most [k] frames, while the others run. *)
Definition acts {B} (k : Z) (m : T SH B) (ms : list msg) : Prop := ∀ c s, c + k < 2 ^ 64 → fit c s →
  ∃ b s', m s = Some (Ret (b, s')) ∧ fit (c + k) s' ∧ later s s' ∧ said s' = said s ++ ms.

Lemma acts_ret {B} (b : B) : acts 0 (mret b) [].
Proof.
  intros c s Hc Hs. exists b, s. split; [done|]. rewrite Z.add_0_r, app_nil_r. split; [done|]. by split; [apply rtc_refl|].
Qed.

Lemma acts_bind {B C} k1 k2 (m : T SH B) (f : B → T SH C) ms1 ms2 : 0 ≤ k1 → 0 ≤ k2 →
  acts k1 m ms1 → (∀ b, acts k2 (f b) ms2) → acts (k1 + k2) (m ≫= f) (ms1 ++ ms2).
Proof.
  intros Hk1 Hk2 Hm Hf c s Hc Hs. destruct (Hm c s) as (b & s1 & E1 & Hs1 & Hl1 & Ho1); [lia|done|].
  destruct (Hf b (c + k1) s1) as (x & s2 & E2 & Hs2 & Hl2 & Ho2); [lia|done|]. exists x, s2.
  rewrite (bind_some _ _ _ _ _ E1), Z.add_assoc, app_assoc, <- Ho1. split; [done|]. split; [done|]. split; [|done].
  by eapply rtc_trans.
Qed.

Lemma acts_more {B} k k' (m : T SH B) ms : k ≤ k' → acts k m ms → acts k' m ms.
Proof.
  intros Hk Hm c s Hc Hs. destruct (Hm c s) as (b & s' & E & Hs' & Hl & Ho); [lia|done|].
  exists b, s'. split; [done|]. split; [|done]. eapply fit_mono; [|exact Hs']. lia.
Qed.

Lemma acts_say m : acts 0 (say m) [m].
Proof.
  intros c s Hc []. eexists tt, _. rewrite Z.add_0_r. split; [reflexivity|]. split; [by split|]. split; [|done].
  apply own_later; try done. cbn. by destruct (kw s).
Qed.

Lemma acts_sleep z : 0 ≤ z → acts 0 (sleep z) [].
Proof.
  intros Hz c s Hc Hs. pose proof (sleep_eq z s) as E. cbv zeta in E. set (s' := match (others s).1 with [] => _ | _ => _ end) in E.
  destruct (sleep_later z s s' Hz E) as [Hl Ho]. exists tt, s'. rewrite Z.add_0_r, app_nil_r.
  split; [exact E|]. split; [by eapply sleep_fit|done].
Qed.

Lemma acts_look {B} (m : M (Net D) B) : (∀ n, at_rest n → ∃ b, m n = Ret (b, n)) → acts 0 (sh_net m) [].
Proof.
  intros Hm c s Hc []. destruct (Hm (net (kw s)) ft_rest0) as [b E]. exists b, s. rewrite Z.add_0_r, app_nil_r.
  split; [|by split; [|split; [apply rtc_refl|]]]. unfold sh_net, fin, on_net. rewrite E. cbn [mbind outcome_bind].
  by destruct s as [[] ? ? ? ? ?].
Qed.

(** An operation that sends one frame. *)
Lemma acts_send {B} (m : M (Net D) B) : keeps (λ _, True) m →
  (∀ n, card_ok n → ∃ b frame, m n = Ret (b, sent frame n)) → acts 1 (sh_net m) [].
Proof.
  intros Hk Hm c s Hc []. destruct (Hm (net (kw s))) as (b & frame & E); [by eapply card_inv_ok|].
  eexists b, _. split; [unfold sh_net, fin, on_net; by rewrite E|]. rewrite app_nil_r. split.
  - split; cbn; try done; [by eapply Hk|by apply sent_card|by eapply sent_at_rest].
  - split; [|done]. apply rtc_once, around_send.
Qed.

Lemma acts_arp_request target : ip4 target → acts 1 (sh_net (arp_request target)) [].
Proof.
  intros Ht. apply acts_send; [by apply keeps_arp_request|]. intros n Hn. unfold arp_request.
  erewrite bind_run by reflexivity. erewrite bind_run by (by apply transmit_eq). by eexists _, _.
Qed.

Lemma acts_ping dst seq : ip4 dst → acts 1 (sh_net (ping dst seq)) [].
Proof.
  intros Hd. apply acts_send; [by apply keeps_ping|]. intros n Hn. unfold ping. destruct Hd as [Hb Hl].
  assert (bytes (str "simplelinux-ping")) as Hs by by apply (bool_decide_unpack (bytes _)).
  destruct (echo_request_eq 0x5f seq (str "simplelinux-ping")) as (c1 & Eq & _); [done|done|].
  rewrite (bind_lift _ _ _ _ Eq).
  destruct (ip_send_eq dst PROTO_ICMP (echo_bytes ECHO_REQUEST c1 0x5f seq (str "simplelinux-ping")) n)
    as (c2 & _ & _ & Ei); [done..|].
  rewrite (bind_run _ _ _ _ _ Ei). by eexists _, _.
Qed.

(** One round of [ping]. *)
Lemma acts_ping_round dst seq : ip4 dst → acts 1 (
  _ ← sh_net (ping dst seq); _ ← sleep 5; _ ← sh_net pump; mret tt) [].
Proof.
  intros Hd. apply (acts_bind 1 0 _ _ [] []); [done..|by apply acts_ping|intros _].
  apply (acts_bind 0 0 _ _ [] []); [done..|by apply acts_sleep|intros _].
  apply (acts_bind 0 0 _ _ [] []); [done..| |intros _; apply acts_ret].
  apply acts_look. intros n Hn. exists 0. by apply pump_at_rest.
Qed.

Lemma acts_cmd_ping args : acts 4 (cmd_ping args) (match head args ≫= parse_ip with Some _ => [] | None => [PingUsage] end).
Proof.
  unfold cmd_ping. destruct (head args ≫= parse_ip) as [dst|] eqn:Ed; [|eapply acts_more, acts_say; lia].
  assert (ip4 dst) as Hd.
  { destruct args as [|a args]; [done|]. by apply (proj2 parse_ip_roundtrip a dst). }
  apply (acts_bind 0 4 _ _ [] []); [done..|apply acts_look; intros n _; by eexists|intros o].
  apply (acts_bind 1 3 _ _ [] []); [done..| |intros _].
  { destruct o; [eapply acts_more, acts_ret; lia|]. apply acts_arp_request. split; [by apply (bool_decide_unpack (bytes _))|done]. }
  cbn [each]. apply (acts_bind 1 2 _ _ [] []); [done..|by apply acts_ping_round|intros _].
  apply (acts_bind 1 1 _ _ [] []); [done..|by apply acts_ping_round|intros _].
  apply (acts_bind 1 0 _ _ [] []); [done..|by apply acts_ping_round|intros _; apply acts_ret].
Qed.

(** ** The commands that look only *)

Section look.
Context (s0 : SH).

(** The state as it was at [s0], but for the messages and the order of the free descriptors. *)
Record steady s : Prop := {
  sd_kw : kw s = kw s0;
  sd_mounts : mounts s = mounts s0;
  sd_kern : kern s = kern s0;
  sd_others : others s = others s0;
  sd_len : vlen (fds s) ≤ MAX_FDS;
  sd_fds : ∀ k, get_file k (fds s) = get_file k (fds s0);
}.

(** The computation gives [b] and says [ms]. *)
Definition says {B} (m : T SH B) (b : B) (ms : list msg) : Prop := ∀ s, steady s →
  ∃ s', m s = Some (Ret (b, s')) ∧ steady s' ∧ said s' = said s ++ ms.

Lemma says_ret {B} (b : B) : says (mret b) b [].
Proof. intros s Hs. exists s. by rewrite app_nil_r. Qed.

Lemma says_bind {B C} (m : T SH B) (f : B → T SH C) b x ms1 ms2 :
  says m b ms1 → says (f b) x ms2 → says (m ≫= f) x (ms1 ++ ms2).
Proof.
  intros Hm Hf s Hs. destruct (Hm s) as (s1 & E1 & Hs1 & Ho1); [done|].
  destruct (Hf s1) as (s2 & E2 & Hs2 & Ho2); [done|]. exists s2.
  rewrite (bind_some _ _ _ _ _ E1), app_assoc, <- Ho1. done.
Qed.

Lemma says_say m : says (say m) tt [m].
Proof. intros s []. eexists. split; [reflexivity|]. by split. Qed.

Lemma says_gets {B} (f : SH → B) b : (∀ s, steady s → f s = b) → says (fin (gets f)) b [].
Proof. intros Hf s Hs. exists s. rewrite app_nil_r. split; [|done]. unfold fin, gets. by rewrite Hf. Qed.

Lemma says_net {B} (m : M (Net D) B) b : m (net (kw s0)) = Ret (b, net (kw s0)) → says (sh_net m) b [].
Proof.
  intros Hm s Hs. exists s. rewrite app_nil_r. split; [|done]. unfold sh_net, fin, on_net. rewrite (sd_kw _ Hs), Hm.
  cbn [mbind outcome_bind]. destruct Hs as [<- _ _ _ _ _]. by destruct s as [[] ? ? ? ? ?].
Qed.

Lemma says_each {B} (l : list B) (f : B → T SH unit) (g : B → msg) : (∀ x, x ∈ l → says (f x) tt [g x]) →
  says (each l f) tt (g <$> l).
Proof.
  induction l as [|x l IH]; intros Hf; cbn [each]; [apply says_ret|].
  apply (says_bind _ _ tt tt [g x]); [apply Hf; by left|]. apply IH. intros y Hy. apply Hf. by right.
Qed.

Lemma says_ls args : says (cmd_ls args) tt [ls_answer (mounts s0) (default (str "/") (head args))].
Proof.
  unfold cmd_ls. eapply (says_bind _ _ _ _ []); [apply says_gets; intros s Hs; cbv beta; by rewrite (sd_mounts _ Hs)|].
  unfold ls_answer. destruct (list_dir _ _); apply says_say.
Qed.

Lemma says_ps : says cmd_ps tt (PsHeader :: ((λ r, PsRow r.1 r.2) <$> scheduler.snapshot (kern s0))).
Proof.
  unfold cmd_ps. apply (says_bind _ _ tt _ [PsHeader]); [apply says_say|].
  eapply (says_bind _ _ _ _ []); [apply says_gets; intros s Hs; cbv beta; by rewrite (sd_kern _ Hs)|].
  apply says_each. intros. apply says_say.
Qed.

Lemma says_free : says cmd_free tt [FreeRow (heap_used (heap (kw s0)) `div` 1024) (heap_free (heap (kw s0)) `div` 1024)
  (pmm.free_count (frames (kw s0))) ((pmm.free_count (frames (kw s0)) * 4) `div` 1024)].
Proof.
  unfold cmd_free. eapply (says_bind _ _ _ _ []); [|apply says_say].
  apply says_gets. intros s Hs. cbv beta. by rewrite (sd_kw _ Hs).
Qed.

Lemma says_netstat : says cmd_netstat tt (NetstatHeader :: (netstat_row <$> socket_info (net (kw s0)))).
Proof.
  unfold cmd_netstat. apply (says_bind _ _ tt _ [NetstatHeader]); [apply says_say|].
  eapply (says_bind _ _ _ _ []); [by apply says_net|apply says_each; intros; apply says_say].
Qed.

Context (typed : net_typed (net (kw s0))).

Lemma mac_typed : bytes (mac_of_net (net (kw s0))).
Proof.
  unfold mac_of_net, e1000.mac_address. destruct (e1000.nic (world (net (kw s0)))) as [n|] eqn:En; cbn.
  - apply (nt_mac _ (ty_nic _ typed n En)).
  - by apply (bool_decide_unpack (bytes _)).
Qed.

Lemma says_mac m g : bytes m → says (x ← fin (lift (mac_fmt m)); say (g (text_or (str "?") x))) tt [g (mac_text m)].
Proof.
  intros Hm. rewrite mac_fmt_eq by done. apply (says_bind _ _ (mac_text m) tt []); [apply says_ret|].
  rewrite text_or_ascii by apply mac_text_ascii. apply says_say.
Qed.

Lemma says_ifconfig : says cmd_ifconfig tt
  [IfconfigRow (ip_fmt e1000.IP) (ip_fmt e1000.GATEWAY) (mac_text (mac_of_net (net (kw s0))))].
Proof.
  unfold cmd_ifconfig. apply (says_bind _ _ (mac_of_net (net (kw s0))) tt []); [|apply (says_mac _ (IfconfigRow _ _)), mac_typed].
  by apply says_net.
Qed.

Lemma says_arp : says cmd_arp tt (arp_answer (net (kw s0))).
Proof.
  unfold cmd_arp. apply (says_bind _ _ (arp_table (net (kw s0))) tt []); [by apply says_net|].
  assert (∀ r, r ∈ arp_table (net (kw s0)) → bytes r.2) as Ht.
  { intros [ip m] Hr. unfold arp_table in Hr. rewrite merge_sort_Permutation in Hr. apply elem_of_map_to_list in Hr.
    apply (ty_cache _ typed ip m Hr). }
  unfold arp_answer. destruct (arp_table (net (kw s0))) as [|r t]; [apply says_say|].
  apply says_each. intros x Hx. apply (says_mac _ (ArpRow _)). by apply Ht.
Qed.

Context (room : ∃ k, 0 ≤ k < MAX_FDS ∧ get_file k (fds s0) = None).

Lemma contents_shows w x data : contents w x = Some data → shows x data w.
Proof.
  destruct x; cbn [contents]; intros [= <-].
  - right. split; [done|]. intros. by eexists.
  - left. intros off buf Ho. unfold contents_read. rewrite (proj2 (Z.leb_le _ _)) by done. done.
  - left. intros off buf Ho. unfold contents_read. rewrite (proj2 (Z.leb_le _ _)) by done. done.
  - right. split; [done|]. intros. by eexists.
  - left. intros off buf Ho. by apply procfile_read_eq.
  - left. intros off buf Ho. by apply ram_has_contents.
Qed.

Lemma covered_contents fuel w x : cat_covered fuel x →
  ∃ data, contents w x = Some data ∧ Forall (λ b, b < 128) data ∧ vlen data < Z.of_nat fuel ∧ vlen data < 2 ^ 64.
Proof.
  destruct x; cbn [cat_covered contents]; intros Hx; try done; eexists; (split; [reflexivity|]); try (split; [done|]); try done;
    try (rewrite vlen_nil; lia).
  split; [apply gen_text_ascii|]. pose proof (gen_text_short gen w). lia.
Qed.

Lemma says_cat fuel args : (∀ path x, head args = Some path → resolve (W := KW) path (mounts s0) = Ok x → cat_covered fuel x) →
  says (cmd_cat fuel args) tt [match head args with Some p => cat_answer (mounts s0) (kw s0) p | None => CatMissing end].
Proof.
  intros Hp. destruct args as [|path args]; [apply says_say|]. specialize (Hp path). cbn [head] in Hp |- *.
  change (cmd_cat fuel (path :: args)) with (cmd_cat (D := D) (K := K) (A := A) (E := typist * X) fuel [path]).
  unfold cat_answer. intros s Hs. pose proof (sd_mounts _ Hs) as Hm.
  destruct (resolve (W := KW) path (mounts s0)) as [x|e] eqn:Ex.
  - destruct (covered_contents fuel (kw s0) x (Hp x eq_refl eq_refl)) as (data & Ed & Ha & Hf & Hl). rewrite Ed. cbn [default].
    destruct (cat_shows fuel path x data s) as (t & E & Hv & Hk);
      [by rewrite Hm|rewrite (sd_kw _ Hs); by apply contents_shows|done|done|apply Hs| |done|].
    { destruct room as (k & ? & ?). exists k. by rewrite (sd_fds _ Hs). }
    eexists. split; [exact E|]. split; [|done]. destruct Hs. split; try done. intros k. cbn. by rewrite Hk.
  - unfold cmd_cat. cbn [head].
    assert (sh_open path s = Some (Ret (Err e, set_fds (fds s) s))) as Eo by (unfold sh_open, fin, open; by rewrite Hm, Ex).
    rewrite (bind_some _ _ _ _ _ Eo). cbn [Err].
    destruct (says_say (CatError path e) (set_fds (fds s) s)) as (s' & E & Hs' & Ho); [by destruct Hs|]. by exists s'.
Qed.

Lemma says_go (m : T SH unit) ms : says m tt ms → says (_ ← m; mret false) false ms.
Proof. intros Hm. rewrite <- (app_nil_r ms). apply (says_bind _ _ tt); [done|apply says_ret]. Qed.

(** A line that is no [ping]. *)
Lemma says_eval fuel line : covered fuel (mounts s0) line → head (split_whitespace (text_or [] line)) ≠ Some (str "ping") →
  match answer s0 line with
  | Some ms => says (eval fuel line) false ms
  | None => says (eval fuel line) true []
  end.
Proof.
  unfold covered, eval, answer. destruct (split_whitespace (text_or [] line)) as [|cmd args]; [intros _ _; apply says_ret|].
  intros [Hnet Hcat] Hping. unfold cmd_help. unfold commands. cbn [assoc].
  repeat case_bool_decide; cbn [respond orb]; try done; try (subst; by destruct Hping);
    try (apply says_go; by auto using says_say, says_ls, says_ps, says_free, says_ifconfig, says_arp, says_netstat);
    try apply says_ret.
  apply says_go. by apply says_cat, Hcat.
Qed.
End look.

Lemma steady_refl s : vlen (fds s) ≤ MAX_FDS → steady s s.
Proof. by intros. Qed.

Lemma steady_fit c s s' : fit c s → steady s s' → fit c s'.
Proof.
  intros [] []. split; rewrite ?sd_kw0; try done; [congruence|]. intros k Hk. rewrite sd_fds0. by apply ft_fds0.
Qed.

Lemma steady_waiting q o s s' : waiting fd q o s → steady s s' → waiting fd q o s'.
Proof. intros [] []. split; [by rewrite sd_fds0|unfold pending; by rewrite sd_kw0, sd_others0|by rewrite sd_others0]. Qed.

Lemma steady_later s s' : steady s s' → later s s'.
Proof. intros []. apply own_later; [rewrite sd_kw0; by destruct (kw s)|done|by rewrite sd_others0|done]. Qed.

(** ** A line *)

Lemma covered_mono f k line : (f ≤ k)%nat → covered f ms0 line → covered k ms0 line.
Proof.
  intros Hk. unfold covered. destruct (split_whitespace _) as [|cmd args]; [done|]. intros [Hn Hc]. split; [done|].
  intros Hcat path x Hp Hx. specialize (Hc Hcat path x Hp Hx). destruct x; cbn [cat_covered] in *; try done; [lia..|].
  destruct Hc as (? & ? & ?). split_and!; [done|lia|done].
Qed.

Context (room : ∃ k, k ≠ fd ∧ 0 ≤ k < MAX_FDS ∧ f0 k = None).

(** A line is answered from the state it finds; then the shell waits again. *)
Lemma eval_line k line c q o s : covered k ms0 line → c + 4 < 2 ^ 64 → fit c s → waiting fd q o s →
  ∃ b s', eval k line s = Some (Ret (b, s')) ∧ fit (c + 4) s' ∧ later s s' ∧ waiting fd q o s' ∧
    match answer s line with
    | Some ms => b = false ∧ said s' = said s ++ ms
    | None => b = true ∧ said s' = said s
    end.
Proof.
  intros Hcov Hc Hf Hw. destruct (decide (head (split_whitespace (text_or [] line)) = Some (str "ping"))) as [Hp|Hp].
  - assert (tame fd (eval k line)) as Ht by (apply tame_eval; unfold cats; rewrite Hp; discriminate).
    unfold eval, answer in *. destruct (split_whitespace (text_or [] line)) as [|cmd args]; [done|]. injection Hp as ->.
    change (assoc commands (str "ping")) with (Some CPing). cbn [respond].
    destruct (acts_cmd_ping args c s) as (u & s' & E & Hf' & Hl & Ho); [lia|done|].
    pose proof (bind_some _ (λ _, mret false) _ _ _ E) as E2. specialize (Ht q o s Hw). unfold ensures in Ht.
    match type of Ht with match ?m s with _ => _ end => change (m s) with ((cmd_ping args ≫= λ _, mret false) s) in Ht end.
    rewrite E2 in Ht. exists false, s'. split; [exact E2|]. done.
  - pose proof (says_eval s (ft_typed _ _ Hf)) as He.
    assert (∃ j, 0 ≤ j < MAX_FDS ∧ get_file j (fds s) = None) as Hroom.
    { destruct room as (j & Hj & ? & Ej). exists j. by rewrite (ft_fds _ _ Hf j Hj). }
    specialize (He Hroom k line). rewrite (ft_mounts _ _ Hf) in He. specialize (He Hcov Hp).
    assert (∀ b ms, says s (eval k line) b ms → ∃ s', eval k line s = Some (Ret (b, s')) ∧ fit (c + 4) s' ∧ later s s' ∧
      waiting fd q o s' ∧ said s' = said s ++ ms) as Hgo.
    { intros b ms Hm. destruct (Hm s) as (s' & E & Hs' & Ho); [by apply steady_refl, (ft_len _ _ Hf)|]. exists s'.
      split; [done|]. split; [apply (fit_mono c); [lia|]; by eapply steady_fit|]. split; [by apply steady_later|].
      split; [by eapply steady_waiting|done]. }
    destruct (answer s line) as [ms|]; apply Hgo in He as (s' & ? & ? & ? & ? & Ho); eexists _, s'; split_and!; try done.
    by rewrite Ho, app_nil_r.
Qed.

(** ** The session *)

Section talk.
Context (f : nat) (start : SH) (lines : list (list Z)) (base : list msg).

(** So far the lines before [ls] were answered with [pre]. *)
Definition so_far (ls : list (list Z)) s : Prop := ∃ c pre,
  c + 4 * vlen ls < 2 ^ 64 ∧ fit c s ∧ Forall (covered f ms0) ls ∧ said s = base ++ pre ∧
  ∀ ms s', dialogue s ls ms s' → dialogue start lines (pre ++ ms) s'.

(** A line quit. *)
Definition quits s : Prop := ∃ c ms, fit c s ∧ get_file fd (fds s) ≠ None ∧ said s = base ++ ms ∧
  ∀ s', later s s' → dialogue start lines ms s'.

(** The end: the shell's descriptor is closed again. *)
Definition over s : Prop := (∃ ms, said s = base ++ ms ∧ dialogue start lines ms s) ∧ mounts s = ms0 ∧
  ∀ k, get_file k (fds s) = if bool_decide (k = fd) then None else f0 k.

Lemma close_over c s ms : fit c s → get_file fd (fds s) ≠ None → said s = base ++ ms →
  (∀ s', later s s' → dialogue start lines ms s') → ensures False (sh_close fd) s (λ _, over).
Proof.
  intros [] Hfd Ho Hd. unfold ensures. rewrite sh_close_eq. pose proof (close_spec fd (fds s)) as Hcl.
  destruct (close fd (fds s)) as [[u|e] t]; [|by destruct Hcl as (_ & _ & ?)]. destruct Hcl as (_ & Hk & _). cbn [snd].
  split; [|split; [done|]].
  - exists ms. split; [done|]. apply Hd, own_later; try done. cbn. by destruct (kw s).
  - intros k. cbn [fds set_fds]. rewrite Hk. case_bool_decide; [done|by apply ft_fds0].
Qed.

Lemma so_far_read ls s kb o : so_far ls s → get_file fd (fds s) ≠ None →
  so_far ls (set_kw (set_kbd kb (kw s)) (set_fds (vset (fds s) fd (Some (mkFile Kbd o))) s)).
Proof.
  intros (c & pre & Hc & [] & Hl & Hsaid & Hd) Hfd. exists c, pre. split; [done|]. split; [|split; [done|split; [done|]]].
  - split; try done; cbn [set_kw set_fds fds]; [by rewrite vlen_vset|]. intros k Hk.
    destruct (get_file fd (fds s)) as [y|] eqn:E; [|done]. rewrite get_file_vset by (by eapply get_file_lt).
    rewrite bool_decide_false by done. by apply ft_fds0.
  - intros ms s2 Hd2. apply Hd. eapply dialogue_later; [|exact Hd2]. by apply own_later.
Qed.

Lemma so_far_sleep z ls s s' : 0 ≤ z → so_far ls s → sleep z s = Some (Ret (tt, s')) → so_far ls s'.
Proof.
  intros Hz (c & pre & Hc & Hf & Hl & Hsaid & Hd) E. destruct (sleep_later z s s' Hz E) as [Hla Ho].
  exists c, pre. split; [done|]. split; [by eapply sleep_fit|]. split; [done|]. split; [by rewrite Ho|].
  intros ms s2 Hd2. apply Hd. by eapply dialogue_later.
Qed.

Lemma so_far_line k l ls q o s : (f ≤ k)%nat → so_far (l :: ls) s → waiting fd q o s →
  ensures False (_ ← say Prompt; eval k l) s (λ b s', if b : bool then quits s' else so_far ls s' ∧ waiting fd q o s').
Proof.
  intros Hk (c & pre & Hc & Hf & [Hl Hls]%Forall_cons & Hsaid & Hd) Hw. rewrite vlen_cons in Hc. pose proof (vlen_nonneg ls).
  destruct (acts_say Prompt c s) as (u & s1 & E1 & Hf1 & Hl1 & Ho1); [lia|done|]. destruct u. rewrite Z.add_0_r in Hf1.
  pose proof (tame_say fd Prompt q o s Hw) as Hw1. unfold ensures in Hw1 |- *. rewrite E1 in Hw1.
  rewrite (bind_some _ _ _ _ _ E1).
  destruct (eval_line k l c q o s1) as (b & s2 & E2 & Hf2 & Hl2 & Hw2 & Hans); [by eapply covered_mono|lia|done|done|].
  rewrite E2. destruct (answer s1 l) as [ms|] eqn:Ea; destruct Hans as [-> Ho2].
  - split; [|done]. exists (c + 4), (pre ++ Prompt :: ms). split; [lia|]. split; [done|]. split; [done|].
    split; [by rewrite Ho2, Ho1, Hsaid, <- !app_assoc|]. intros ms2 s' Hd2. rewrite <- app_assoc. apply Hd.
    eapply dialogue_line; [exact Hl1|exact Ea|]. by eapply dialogue_later.
  - exists (c + 4), (pre ++ [Prompt]). split; [done|]. split; [by rewrite (wt_fd _ _ _ _ Hw2)|].
    split; [by rewrite Ho2, Ho1, Hsaid, <- app_assoc|]. intros s' Hs'. apply Hd.
    eapply dialogue_quit; [exact Hl1|exact Ea|]. by eapply rtc_trans.
Qed.

Lemma so_far_idle q o s : so_far [] s → waiting fd q o s → ensures False (_ ← say InputIdle; sh_close fd) s (λ _, over).
Proof.
  intros (c & pre & Hc & Hf & _ & Hsaid & Hd) Hw. change (vlen []) with 0 in Hc.
  destruct (acts_say InputIdle c s) as (u & s1 & E1 & Hf1 & Hl1 & Ho1); [lia|done|].
  pose proof (tame_say fd InputIdle q o s Hw) as Hw1. unfold ensures in Hw1. rewrite E1 in Hw1.
  unfold ensures. rewrite (bind_some _ _ _ _ _ E1). apply (close_over (c + 0) s1 (pre ++ [InputIdle])); [done| | |].
  - by rewrite (wt_fd _ _ _ _ Hw1).
  - by rewrite Ho1, Hsaid, <- app_assoc.
  - intros s' Hs'. apply Hd, dialogue_idle. by eapply rtc_trans.
Qed.
End talk.
End session.

Lemma dialogue_ends s ls ms s' : dialogue s ls ms s' → later s s'.
Proof. induction 1; [done|by eapply rtc_trans|by eapply rtc_trans]. Qed.

(** The clock never goes back. *)
Lemma later_ticks `{!Quiet} s s' : later s s' → ticks (kw s) ≤ ticks (kw s').
Proof.
  induction 1 as [|x y z Hxy _ IH]; [done|]. etransitivity; [|exact IH].
  destruct Hxy as [d a b Hd E _|frame a|a b E _ _ _]; [|done|by rewrite E].
  pose proof (passes_clock d (others a).2 (kw a) (kern a)) as Hc. rewrite E in Hc. cbn [fst snd] in Hc. lia.
Qed.

(** C24. The shell answers as specified. Let somebody type, with pauses shorter than 200 sleeps, lines
    that do not include the self-test [net] nor a [cat] of a device without end or of text that is not
    ASCII, while the rest of the machine runs: the clock goes on and the other tasks change the
    tasks, the heap, the frames, the ARP cache and the sockets, but nothing is transmitted by them or
    received, and they leave the keyboard, the mounts and the descriptors; two descriptors are free.
    Then the shell returns, having printed the
    banner and, for each line up to one that quits, a prompt and its [answer] in the state of
    the kernel at that time: the listing
    of the directory, the contents of the file, the uptime, the tasks and their states, the counts of heap
    and frames, the address of the card, the ARP cache and the sockets, or what is wrong with
    the command; then, if nothing quit, that it gives up waiting. From one line to the next the
    kernel changes only by what the others do and by the frames [ping] sends; mounts and descriptors are in the end as before,
    and the clock has not gone back. *)
Theorem shell_answers `{!Quiet} fuel c s : let lines := typed_lines (pending s) [] in
  resolve (W := KW) (str "/dev/kbd") (mounts s) = Ok Kbd → calm (others s).1 → vlen (pending s) < 2 ^ 64 →
  net_typed (net (kw s)) → card_inv c (net (kw s)) → at_rest (net (kw s)) → c + 4 * vlen lines < 2 ^ 64 →
  vlen (fds s) ≤ MAX_FDS → (∃ j k, j ≠ k ∧ 0 ≤ j < MAX_FDS ∧ 0 ≤ k < MAX_FDS ∧ get_file j (fds s) = None ∧ get_file k (fds s) = None) →
  Forall (covered fuel (mounts s)) lines →
  ∃ s' ms, run (fuel + enough (length (pending s))) s = Some (Ret (tt, s')) ∧
    said s' = said s ++ Banner :: ms ∧ dialogue s lines ms s' ∧
    mounts s' = mounts s ∧ (∀ k, get_file k (fds s') = get_file k (fds s)) ∧ ticks (kw s) ≤ ticks (kw s').
Proof.
  intros lines Hk Hca Hp Ht Hci Hr Hc Hv (j & k & Hjk & Hj & Hk0 & Ej & Ek) Hl.
  set (s0 := mkSh (kw s) (mounts s) (fds s) (kern s) (others s) (said s ++ [Banner])).
  destruct (sh_open_eq (str "/dev/kbd") Kbd s0 Hk Hv (ex_intro _ j (conj Hj Ej))) as (fd & t & _ & Hn & _ & Hvt & Hi & Hti).
  assert (ensures False (run (fuel + enough (length (pending s)))) s (λ _, over fd (mounts s) (λ k, get_file k (fds s)) s lines (said s ++ [Banner]))) as He.
  { apply run_ensures; [done| |intros e t' E; change (fds s0) with (fds s) in Hi; by rewrite Hi in E].
    intros fd' t' E. change (fds s0) with (fds s) in Hi. rewrite Hi in E. injection E as <- <-.
    assert (∃ i, i ≠ fd ∧ 0 ≤ i < MAX_FDS ∧ get_file i (fds s) = None) as Hroom
      by (destruct (decide (j = fd)) as [->|?]; [exists k|exists j]; done).
    assert (later s (set_fds t s0)) as Hs0 by (apply own_later; try done; cbn; by destruct (kw s)).
    apply (run_loop_ensures fd False fuel (so_far fd (mounts s) (λ k, get_file k (fds s)) fuel s lines (said s ++ [Banner]))
      (quits fd (mounts s) (λ k, get_file k (fds s)) s lines (said s ++ [Banner])))
      with (N := (202 * length (pending s) + 201)%nat) (q := pending s) (o := 0); try done; try (unfold enough; lia).
    - intros. by apply so_far_read.
    - intros ls a b Ha E. by apply (so_far_sleep _ _ _ _ _ _ _ 2 ls a).
    - intros. by eapply so_far_line.
    - intros. by eapply so_far_idle.
    - intros a (c' & ms & Hf & Hfd & Ho & Hd). by eapply close_over.
    - exists c, []. split; [done|]. split; [|split; [done|split; [by rewrite app_nil_r|]]].
      + split; try done. intros i Hi'. cbn [set_fds fds]. by rewrite Hti, bool_decide_false.
      + intros ms a Hd. by eapply dialogue_later.
    - split; [by cbn [set_fds fds]; rewrite Hti, bool_decide_true|done|done].
    - by apply calm_soon. }
  unfold ensures in He. destruct (run _ s) as [[[[] s']|p]|]; [|done..]. destruct He as ((ms & Ho & Hd) & Hm & Hf).
  exists s', ms. split; [done|]. split; [by rewrite Ho, <- app_assoc|]. split; [done|]. split; [done|]. split.
  - intros i. rewrite Hf. case_bool_decide as Ei; [by subst|done].
  - by eapply later_ticks, dialogue_ends.
Qed.
End answers.

(** ** A session

    On a machine with a card, an ARP cache and a socket as the self-tests leave them: the
    script that [phase8_setup] of main.rs puts in the keyboard buffer, but for its [exit]; then somebody asks for
    the uptime, twice, three seconds apart, and quits. *)

#[global] Instance clock_Quiet {K D A : Type} `{Profile} `{e1000.Hw D} : @Quiet K D A unit _ _ clock_Background.
Proof. by split. Qed.

Definition plain_line (line : list Z) : bool :=
  match split_whitespace (text_or [] line) with
  | cmd :: _ => negb (bool_decide (cmd = str "net")) && negb (bool_decide (cmd = str "cat"))
  | [] => true
  end.

Definition demo_net : Net (Z → Z) :=
  mkNet sample_world {[e1000.GATEWAY := GATEWAY_MAC]} [Some (mkSocket PROTO_UDP 5555 None [])].

Definition demo_buffer : list Z := take (length boot.script - 5) boot.script.

Definition uptime_line : list Z := str "cat /proc/uptime".

Definition demo_sh : Sh unit (Z → Z) unit (typist * unit) :=
  mkSh (mkKworld (mkKbd tt demo_buffer) [] demo_net pmm.new tt 250) (boot_mounts toy_root) boot_fds toy_kern
    ([(0%nat, uptime_line ++ [10]); (149%nat, uptime_line ++ [10] ++ str "exit" ++ [10])], tt) [].

Abbreviation covered_here := (@covered unit (Z → Z) unit dev plain_Hw toy_Heap 256 (boot_mounts toy_root)).

Lemma plain_covered line : plain_line line = true → covered_here line.
Proof.
  unfold plain_line, covered. destruct (split_whitespace _) as [|cmd args]; [done|].
  intros [H1%negb_true_iff H2%negb_true_iff]%andb_prop. apply bool_decide_eq_false in H1, H2. by split.
Qed.

Lemma demo_lines : typed_lines (pending demo_sh) [] =
  [str "help"; str "ifconfig"; str "arp -a"; str "netstat"; str "ping 10.0.2.2"; str "free"; str "ps"; str "ls /initrd";
   str "cat /initrd/motd.txt"; uptime_line; uptime_line; str "exit"].
Proof. vm_compute. reflexivity. Qed.

Lemma uptime_covered : covered_here uptime_line.
Proof.
  unfold covered. assert (split_whitespace (text_or [] uptime_line) = [str "cat"; str "/proc/uptime"]) as -> by (by vm_compute).
  split; [discriminate|]. intros _ path x [= <-].
  assert (resolve (W := Kworld unit (Z → Z) unit) (str "/proc/uptime") (boot_mounts toy_root) = Ok (ProcFile Guptime)) as ->
    by (by vm_compute).
  intros [= <-]. cbn [cat_covered]. lia.
Qed.

Lemma motd_covered : covered_here (str "cat /initrd/motd.txt").
Proof.
  unfold covered. assert (split_whitespace (text_or [] (str "cat /initrd/motd.txt")) = [str "cat"; str "/initrd/motd.txt"]) as ->
    by (by vm_compute).
  split; [discriminate|]. intros _ path x [= <-].
  assert (resolve (W := Kworld unit (Z → Z) unit) (str "/initrd/motd.txt") (boot_mounts toy_root) =
    Ok (Ram (initrd.file (str "motd.txt") (str "hi")))) as -> by (by vm_compute).
  intros [= <-]. cbn [cat_covered]. split_and!; [by apply (bool_decide_unpack (Forall _ _))|by vm_compute..].
Qed.

Lemma demo_covered : Forall covered_here (typed_lines (pending demo_sh) []).
Proof.
  rewrite demo_lines, !Forall_cons.
  split_and!; try (apply plain_covered; by vm_compute); [apply motd_covered|apply uptime_covered..|done].
Qed.

Lemma demo_typed : net_typed demo_net.
Proof.
  split.
  - intros n [= <-]. split; [split; [by apply (bool_decide_unpack (bytes _))|done]|..]; by apply (bool_decide_unpack (Forall _ _)).
  - done.
  - intros ip m. cbn [demo_net cache]. intros [<- <-]%lookup_singleton_Some.
    split; (split; [by apply (bool_decide_unpack (bytes _))|done]).
  - intros x Hx. apply list_elem_of_singleton in Hx as [= ->]. by split.
Qed.

Definition demo_messages : list msg :=
  [Banner; Prompt; Help;
   Prompt; IfconfigRow (str "10.0.2.15") (str "10.0.2.2") (str "52:54:00:12:34:56");
   Prompt; ArpRow (str "10.0.2.2") (str "52:54:00:12:34:02");
   Prompt; NetstatHeader; NetstatRow (str "udp") 0 5555 (str "-") 0;
   Prompt;
   Prompt; FreeRow 4 1020 0 0;
   Prompt; PsHeader;
   Prompt; LsNames (str "/initrd") [str "motd.txt"];
   Prompt; CatText (str "hi");
   Prompt; CatText (str "2 seconds since boot" ++ [10]);
   Prompt; CatText (str "5 seconds since boot" ++ [10]);
   Prompt].

Definition final {S A B : Type} (f : S → B) (r : option (outcome (A * S))) : option B :=
  match r with Some (Ret (_, s)) => Some (f s) | _ => None end.

Abbreviation demo_run := (@run unit (Z → Z) unit (typist * unit) dev plain_Hw toy_Heap typist_Others
  (256 + enough (length (pending demo_sh))) demo_sh).

Lemma demo_said : final said demo_run = Some demo_messages.
Proof. vm_compute. reflexivity. Qed.

Lemma shell_answers_witness : ∃ s' ms, demo_run = Some (Ret (tt, s')) ∧ Banner :: ms = demo_messages ∧
  @dialogue unit (Z → Z) unit unit dev plain_Hw toy_Heap _ demo_sh (typed_lines (pending demo_sh) []) ms s'.
Proof.
  destruct (@shell_answers unit (Z → Z) unit unit unit_Decoder dev plain_Hw toy_Heap _ _ 256 0 demo_sh) as (s' & ms & E & Ho & Hd & _).
  - by vm_compute.
  - unfold calm. by apply (bool_decide_unpack (Forall _ _)).
  - by vm_compute.
  - exact demo_typed.
  - by vm_compute.
  - by vm_compute.
  - by vm_compute.
  - by vm_compute.
  - exists 3, 4. by vm_compute.
  - exact demo_covered.
  - exists s', ms. split; [exact E|]. split; [|exact Hd]. pose proof demo_said as Hs. rewrite E in Hs. cbn [final] in Hs.
    injection Hs as Hs. rewrite <- Hs, Ho. done.
Defined.
