(* ===== verification/Locks.v ===== *)
(** * Locks: the spin locks of the kernel and the order they are taken in

    The statics of the kernel are behind [spin::Mutex]es, which do not disable interrupts. The
    other files run each function as if it had the machine to itself; this one says when that
    is justified. A function is reduced to its lock skeleton ([code]): which guards it holds,
    in which order and nesting, where it may give up the processor, and which part of it runs
    with interrupts disabled; branches and loops on data are free choices. The skeletons run on one
    processor with the timer and the keyboard interrupting.

    A heap operation ([Vec], [Box], [String], [Arc], the maps) takes the lock of the global
    allocator. The arguments of [println!] are evaluated before [_print] locks the port. The
    locks of the directories of the ramdisk, one in each, count as one lock. *)

From S2P Require Import Prelude.

Module locks.

(** The statics behind a lock; [ALLOCATOR] is the [LockedHeap] of the global allocator. *)
Inductive lock :=
  | FD_TABLE | MOUNTS | CHILDREN | SOCKETS | CACHE | NIC | KEYBOARD | FRAME_ALLOCATOR | SCHEDULER
  | SERIAL1 | ALLOCATOR | PIC.

#[global] Instance lock_eq_dec : EqDecision lock.
Proof. solve_decision. Defined.

Inductive code :=
  | Skip
  | Seq (a b : code)
  | Either (a b : code)
  | Many (a : code)              (* a loop *)
  | Guard (l : lock) (a : code)  (* [l.lock()], then [a], then the guard is dropped *)
  | Cli | Sti                    (* [interrupts::disable] and [enable] *)
  | NoIrq (a : code)             (* [are_enabled], [disable], [a], [enable] if it was *)
  | Switch.                      (* [__switch] *)

Definition block : list code → code := foldr Seq Skip.
Definition one_of : list code → code := foldr Either Skip.
Definition maybe (a : code) : code := Either a Skip.

(** ** The leaves: serial port, heap, frames, keyboard, card *)

Definition print_locks : code := Guard SERIAL1 Skip.
Definition write_bytes_locks : code := Guard SERIAL1 Skip.

(** One allocation, reallocation or release, and any number of them. *)
Definition alloc_locks : code := Guard ALLOCATOR Skip.
Definition heap : code := Many alloc_locks.
Definition used_bytes_locks : code := Guard ALLOCATOR Skip.
Definition free_bytes_locks : code := Guard ALLOCATOR Skip.
Definition total_bytes_locks : code := Guard ALLOCATOR Skip.

Definition free_count_locks : code := Guard FRAME_ALLOCATOR Skip.

Definition handle_scancode_locks : code := Guard KEYBOARD (maybe (maybe alloc_locks)).
Definition read_key_locks : code := Guard KEYBOARD Skip.

Definition e1000_send_locks : code := Guard NIC Skip.
Definition poll_receive_locks : code := Guard NIC (maybe heap).
Definition mac_address_locks : code := Guard NIC Skip.
Definition rx_debug_locks : code := Guard NIC (maybe (block [print_locks; print_locks])).

(** ** The network stack *)

Definition our_mac_locks : code := mac_address_locks.
Definition transmit_ethernet_locks : code := block [our_mac_locks; heap; e1000_send_locks; heap].

Definition arp_remember_locks : code := Guard CACHE heap.
Definition arp_lookup_locks : code := Guard CACHE Skip.
Definition arp_table_locks : code := Guard CACHE heap.
Definition arp_request_locks : code :=
  block [our_mac_locks; heap; transmit_ethernet_locks; print_locks; heap].
Definition arp_handle_locks : code :=
  maybe (block [
    arp_remember_locks; heap; print_locks; heap;
    maybe (block [our_mac_locks; heap; transmit_ethernet_locks; our_mac_locks; heap; print_locks; heap])]).

Definition next_hop_mac_locks : code := block [arp_lookup_locks; maybe arp_lookup_locks].
Definition ip_send_locks : code := block [heap; next_hop_mac_locks; transmit_ethernet_locks; heap].
Definition udp_send_locks : code := block [heap; ip_send_locks; heap].

Definition socket_locks : code := Guard SOCKETS heap.
Definition bind_locks : code := Guard SOCKETS Skip.
Definition connect_locks : code := Guard SOCKETS Skip.
Definition socket_close_locks : code := Guard SOCKETS heap.
Definition sendto_locks : code :=
  block [Guard SOCKETS Skip; maybe (block [Guard SOCKETS Skip; udp_send_locks])].
Definition recvfrom_locks : code := Guard SOCKETS heap.
Definition deliver_locks : code := Guard SOCKETS (block [heap; maybe print_locks]).
Definition socket_info_locks : code := Guard SOCKETS heap.
Definition socket_write_locks : code := block [Guard SOCKETS Skip; maybe sendto_locks].

Definition udp_handle_locks : code := maybe (block [print_locks; deliver_locks]).
Definition icmp_handle_locks : code :=
  one_of [block [print_locks; heap; ip_send_locks; heap]; print_locks].
Definition ping_locks : code := block [heap; print_locks; ip_send_locks; heap].
Definition tcp_handle_locks : code :=
  maybe (block [print_locks; maybe (block [heap; ip_send_locks; print_locks; heap])]).
Definition ip_handle_locks : code :=
  Either print_locks
    (block [heap; print_locks; heap;
            one_of [icmp_handle_locks; udp_handle_locks; tcp_handle_locks; print_locks]]).
Definition eth_handle_locks : code := one_of [arp_handle_locks; ip_handle_locks; print_locks].
Definition pump_locks : code := Many (block [poll_receive_locks; maybe (block [eth_handle_locks; heap])]).

(** ** Files *)

Definition find_child_locks : code := Guard CHILDREN Skip.
Definition longest_mount_locks : code := Guard MOUNTS Skip.
(** [Inode::lookup]: a device or proc file is allocated, a ramdisk node looked for. *)
Definition DevDir_lookup_locks : code := maybe alloc_locks.
Definition ProcDir_lookup_locks : code := maybe alloc_locks.
Definition node_lookup_locks : code := find_child_locks.
Definition lookup_locks : code := one_of [DevDir_lookup_locks; ProcDir_lookup_locks; node_lookup_locks].
(** [resolve], then [ok] with a node or [fail] without: only after a mount was found and all
    components were looked up is there a node. *)
Definition resolve_then (ok fail : code) : code :=
  Either fail (block [longest_mount_locks;
    Either fail (block [heap; Many (block [lookup_locks; heap]); Either ok fail])]).
Definition resolve_locks : code := resolve_then Skip Skip.

Definition meminfo_locks : code :=
  block [free_count_locks; total_bytes_locks; used_bytes_locks; free_bytes_locks; heap].
Definition uptime_locks : code := heap.
(** [Inode::read] of the keyboard, of a proc file, of a socket; the others take no lock. *)
Definition Kbd_read_locks : code := Many read_key_locks.
Definition ProcFile_read_locks : code := block [Either meminfo_locks uptime_locks; heap].
Definition inode_read_locks : code := one_of [Kbd_read_locks; ProcFile_read_locks; recvfrom_locks].
(** [Inode::write] of the console and of a socket. *)
Definition Console_write_locks : code := write_bytes_locks.
Definition inode_write_locks : code := one_of [Console_write_locks; socket_write_locks].
(** [Inode::list_dir]. *)
Definition node_list_dir_locks : code := Guard CHILDREN heap.
Definition inode_list_locks : code := one_of [heap; node_list_dir_locks].

Definition install_locks : code := Guard FD_TABLE heap.
(** [open], then [ok] with a descriptor or [fail] without. *)
Definition open_then (ok fail : code) : code := resolve_then (block [install_locks; heap; Either ok fail]) fail.
Definition fs_open_locks : code := open_then Skip Skip.
Definition fs_read_locks : code := Guard FD_TABLE (maybe inode_read_locks).
Definition fs_write_locks : code := Guard FD_TABLE (maybe inode_write_locks).
Definition fs_close_locks : code := Guard FD_TABLE heap.
Definition list_dir_locks : code := resolve_then (block [inode_list_locks; heap]) Skip.
Definition install_inode_locks : code := block [install_locks; heap].
Definition sock_index_locks : code := Guard FD_TABLE Skip.

(** ** The scheduler *)

Definition schedule_locks : code := NoIrq (block [Guard SCHEDULER Skip; maybe Switch]).
Definition spawn_locks : code := Guard SCHEDULER heap.
Definition yield_now_locks : code := maybe schedule_locks.
Definition sleep_locks : code := maybe (block [Guard SCHEDULER Skip; schedule_locks]).
Definition join_locks : code :=
  maybe (block [Guard SCHEDULER Skip; maybe (block [Guard SCHEDULER Skip; schedule_locks])]).
Definition idle_locks : code := Many Sti.
(** Clearing the slot drops the task, and with it the stack it runs on. *)
Definition exit_current_locks : code :=
  block [Cli; Guard SCHEDULER heap; Either Switch (block [Sti; idle_locks])].
(** A task is entered once, with its closure there to take. *)
Definition current_task_body_locks (f : code) : code :=
  block [Guard SCHEDULER Skip; Sti; f; heap; exit_current_locks].
Definition tick_locks : code := maybe (block [Guard SCHEDULER Skip; maybe schedule_locks]).
Definition task_count_locks : code := Guard SCHEDULER Skip.
Definition snapshot_locks : code := Guard SCHEDULER heap.

(** ** The interrupt handlers *)

Definition timer_interrupt_handler_locks : code := block [tick_locks; Guard PIC Skip].
Definition keyboard_interrupt_handler_locks : code := block [handle_scancode_locks; Guard PIC Skip].

(** ** The tasks *)

Definition worker_locks : code := block [Many (block [print_locks; sleep_locks]); print_locks].
Definition stress_task_locks : code := block [heap; yield_now_locks; heap].
Definition one_round_locks : code :=
  block [Many (block [spawn_locks; heap]); Many join_locks; heap; sleep_locks; free_count_locks; used_bytes_locks].
Definition stress_test_locks : code := block [one_round_locks; one_round_locks; print_locks].
Definition manager_task_locks : code :=
  block [spawn_locks; spawn_locks; spawn_locks; join_locks; join_locks; join_locks;
         task_count_locks; print_locks; stress_test_locks; print_locks].
Definition clock_locks : code :=
  block [Many (block [maybe print_locks; yield_now_locks]); print_locks].
Definition demo_arp_locks : code :=
  block [mac_address_locks;
    Either print_locks
      (block [heap; print_locks; e1000_send_locks;
        Either print_locks
          (block [Many (block [sleep_locks; Many (block [poll_receive_locks; maybe print_locks; heap])]);
                  maybe (block [print_locks; rx_debug_locks])]);
        heap])].

(** *** The self-test of the network stack, a command of the shell *)

Definition arp_demo_locks : code :=
  block [print_locks; our_mac_locks; heap; arp_handle_locks; arp_lookup_locks;
         Either (block [heap; arp_table_locks; heap; print_locks; heap]) print_locks; heap].
Definition ip_demo_locks : code :=
  block [print_locks; next_hop_mac_locks; heap; print_locks; heap; print_locks; ip_handle_locks; heap].
Definition icmp_demo_locks : code :=
  block [print_locks; heap; print_locks; heap; print_locks; print_locks; icmp_handle_locks; heap].
Definition udp_demo_locks : code :=
  block [print_locks; socket_locks; bind_locks; heap; udp_handle_locks; recvfrom_locks; print_locks;
         socket_close_locks; heap].
Definition tcp_demo_locks : code :=
  block [print_locks; heap; print_locks; tcp_handle_locks; print_locks; heap].
Definition socket_demo_locks : code :=
  block [print_locks; socket_locks; bind_locks; heap; install_inode_locks; print_locks; deliver_locks;
         maybe (block [fs_read_locks; print_locks; fs_close_locks])].
Definition net_demo_locks : code :=
  block [print_locks; our_mac_locks; print_locks; arp_demo_locks; ip_demo_locks; icmp_demo_locks;
         udp_demo_locks; tcp_demo_locks; socket_demo_locks; print_locks].

(** *** The shell *)

Definition cmd_ls_locks : code := block [list_dir_locks; print_locks; heap].
Definition cmd_cat_locks : code :=
  Either print_locks
    (open_then (block [Many (block [fs_read_locks; heap]); fs_close_locks; print_locks; heap]) print_locks).
Definition cmd_ps_locks : code := block [print_locks; snapshot_locks; Many print_locks; heap].
Definition cmd_free_locks : code := block [free_count_locks; used_bytes_locks; free_bytes_locks; print_locks].
Definition cmd_ifconfig_locks : code := block [our_mac_locks; heap; print_locks; heap].
Definition cmd_arp_locks : code :=
  block [arp_table_locks; Either print_locks (Many (block [heap; print_locks; heap])); heap].
Definition cmd_netstat_locks : code :=
  block [print_locks; socket_info_locks; Many (block [heap; print_locks; heap]); heap].
Definition cmd_ping_locks : code :=
  block [heap;
    Either print_locks
      (block [arp_lookup_locks; maybe arp_request_locks; Many (block [ping_locks; sleep_locks; pump_locks])])].
Definition eval_locks : code :=
  maybe (block [heap;
    one_of [print_locks; block [heap; print_locks; heap]; cmd_ls_locks; cmd_cat_locks; cmd_ps_locks;
            cmd_free_locks; cmd_ifconfig_locks; cmd_arp_locks; cmd_netstat_locks; cmd_ping_locks;
            net_demo_locks];
    heap]).
Definition shell_run_locks : code :=
  block [print_locks;
    open_then
      (block [
        Many (block [fs_read_locks;
          Either (block [sleep_locks; maybe print_locks])
                 (Many (one_of [block [print_locks; eval_locks]; heap]))]);
        fs_close_locks; heap])
      print_locks].

(** The bodies of the tasks [phase4_demo] starts and of those they start in turn. *)
Definition task_bodies : list code :=
  [clock_locks; manager_task_locks; demo_arp_locks; shell_run_locks; worker_locks; stress_task_locks].

(** ** One processor

    A task is the work left on its stack, and on top of it that of an interrupt handler if one
    is running; the guards still to be dropped are the locks it holds. An interrupt is taken
    when the current task has interrupts enabled and the interrupt controller has none in
    service, and runs with them disabled. Both handlers send the end of interrupt last, so that one is
    in service as long as any task, running or not, is inside a handler: that of a task
    preempted by the timer ends when the task runs again. Which task [Switch] goes to is a
    free choice. *)

Inductive item := Do (a : code) | Drop (l : lock) | SetIf (b : bool).
Inductive intr := Timer | Keyboard.

Record task := mkTask { ifl : bool; hnd : option (intr * list item); stk : list item }.
Record state := mkState { cur : nat; tasks : list task }.

Fixpoint drops (k : list item) : list lock :=
  match k with
  | Drop l :: k => l :: drops k
  | _ :: k => drops k
  | [] => []
  end.

Definition hnd_held (t : task) : list lock := match hnd t with Some (_, h) => drops h | None => [] end.
Definition held (t : task) : list lock := hnd_held t ++ drops (stk t).
Definition all_held (s : state) : list lock := mjoin (held <$> tasks s).
Definition locked (s : state) (l : lock) : Prop := l ∈ all_held s.
#[global] Instance locked_dec s l : Decision (locked s l).
Proof. unfold locked. apply _. Defined.

(** [Go b] is the next instruction, with [b] deciding a branch or a loop; [To j] is [__switch]
    to task [j]; [Intr i] is an interrupt. *)
Inductive choice := Go (b : bool) | To (j : nat) | Intr (i : intr).

Definition handler (i : intr) : code :=
  match i with Timer => timer_interrupt_handler_locks | Keyboard => keyboard_interrupt_handler_locks end.

(** One instruction of a stack: the interrupt flag and the stack it leaves. [None] is a
    [lock()] that spins. *)
Definition exec (s : state) (b : bool) (f : bool) (k : list item) : option (bool * list item) :=
  match k with
  | [] => None
  | Do Skip :: k | Do Switch :: k | Drop _ :: k => Some (f, k)
  | Do (Seq x y) :: k => Some (f, Do x :: Do y :: k)
  | Do (Either x y) :: k => Some (f, Do (if b then x else y) :: k)
  | Do (Many x) :: k => Some (f, if b then Do x :: Do (Many x) :: k else k)
  | Do (Guard l x) :: k => if decide (locked s l) then None else Some (f, Do x :: Drop l :: k)
  | Do Cli :: k => Some (false, k)
  | Do Sti :: k => Some (true, k)
  | Do (NoIrq x) :: k => Some (false, Do x :: SetIf f :: k)
  | SetIf f' :: k => Some (f', k)
  end.

Definition set_task (s : state) (t : task) : state := mkState (cur s) (<[cur s := t]> (tasks s)).

(** The stack that runs, and the task when that stack and the flag have changed. *)
Definition active (t : task) : list item := match hnd t with Some (_, h) => h | None => stk t end.
Definition set_active (t : task) (f : bool) (k : list item) : task :=
  match hnd t with Some (i, _) => mkTask f (Some (i, k)) (stk t) | None => mkTask f None k end.
Definition finished (t : task) : bool :=
  match hnd t, stk t with None, [] => true | _, _ => false end.

(** The in-service bit of the 8259. *)
Definition in_handler (t : task) : bool := match hnd t with Some _ => true | None => false end.
Definition in_service (s : state) : bool := existsb in_handler (tasks s).

Definition step (c : choice) (s : state) : option state :=
  t ← tasks s !! cur s;
  match c with
  | Intr i =>
      if ifl t && negb (in_service s)
      then Some (set_task s (mkTask false (Some (i, [Do (handler i)])) (stk t)))
      else None
  | To j =>
      match active t with
      | Do Switch :: k =>
          let s' := set_task s (set_active t (ifl t) k) in
          t' ← tasks s' !! j;
          if finished t' then None else Some (mkState j (tasks s'))
      | _ => None
      end
  | Go b =>
      match hnd t with
      | Some (_, []) => Some (set_task s (mkTask true None (stk t)))
      | _ => r ← exec s b (ifl t) (active t); Some (set_task s (set_active t (fst r) (snd r)))
      end
  end.

Fixpoint run (cs : list choice) (s : state) : option state :=
  match cs with [] => Some s | c :: cs => s' ← step c s; run cs s' end.

(** The tasks as [start] finds them: none has run, and it has disabled interrupts. *)
Definition started (bodies : list code) : state :=
  mkState 0 ((λ f, mkTask false None [Do (current_task_body_locks f)]) <$> bodies).
End locks.
