(* ===== verification/LocksProps.v ===== *)
(** * LocksProps: when the locks of [Locks] are safe

    Locks have a rank and are only taken in increasing rank, and never across a voluntary
    switch; with interrupts disabled only the locks of [quiet] are taken. Both are checked on the
    skeletons by computation ([check]). It follows that no task waits for ever, as long as no
    timer interrupt arrives while a lock is held and no key while one its handler needs is. If only the locks
    that the timer's handler and a later exit need are free ([calm]), the machine can stop in one way: a task
    waits for a lock of one that the timer has preempted. *)

From S2P Require Import Prelude Locks.
Import locks.

(** ** The order *)

Definition rank (l : lock) : nat :=
  match l with FD_TABLE => 0 | SERIAL1 | ALLOCATOR | PIC => 2 | _ => 1 end.

(** The locks taken with interrupts disabled: by a task or the timer, and by the keyboard. *)
Definition quiet (l : lock) : bool :=
  match l with SCHEDULER | ALLOCATOR | PIC => true | _ => false end.
Definition typing (l : lock) : bool :=
  match l with KEYBOARD | ALLOCATOR | PIC => true | _ => false end.

(** [check q n off c]: with locks of rank [n] and up still to be taken, and interrupts possibly
    disabled if [off], [c] keeps the discipline, and [Some off'] says the same of the flag after it. *)
Fixpoint check (q : lock → bool) (n : nat) (off : bool) (c : code) : option bool :=
  match c with
  | Skip => Some off
  | Seq a b => o ← check q n off a; check q n o b
  | Either a b => o ← check q n off a; o' ← check q n off b; Some (o || o')
  | Many a =>
      o ← check q n off a; o' ← check q n (off || o) a;
      if implb o' (off || o) then Some (off || o) else None
  | Guard l a =>
      if bool_decide (n ≤ rank l)%nat && (negb off || q l) then check q (S (rank l)) off a else None
  | Cli => Some true
  | Sti => Some false
  | NoIrq a => _ ← check q n true a; Some off
  | Switch => if bool_decide (n = 0%nat) then Some off else None
  end.

(** The least rank a stack may still take: above that of the guard it will drop first. *)
Definition floor (n : nat) (k : list item) : nat :=
  match drops k with [] => n | l :: _ => S (rank l) end.

Fixpoint good (q : lock → bool) (n : nat) (off : bool) (k : list item) : bool :=
  match k with
  | [] => true
  | Do c :: k => match check q (floor n k) off c with Some o => good q n o k | None => false end
  | Drop l :: k => bool_decide (floor n k ≤ rank l)%nat && good q n off k
  | SetIf b :: k => good q n (negb b) k
  end.

(** Code that leaves interrupts disabled, as a handler finds them. *)
Fixpoint no_sti (c : code) : bool :=
  match c with
  | Seq a b | Either a b => no_sti a && no_sti b
  | Many a | Guard _ a | NoIrq a => no_sti a
  | Sti => false
  | Skip | Cli | Switch => true
  end.
Definition masked : list item → bool :=
  forallb (λ x, match x with Do c => no_sti c | SetIf b => negb b | Drop _ => true end).

(** An interrupt at a moment when it is harmless. *)
Definition calm (i : intr) (s : state) : Prop :=
  match i with
  | Timer => ¬ locked s SCHEDULER ∧ ¬ locked s ALLOCATOR ∧ ¬ locked s PIC
  | Keyboard => ¬ locked s KEYBOARD ∧ ¬ locked s ALLOCATOR ∧ ¬ locked s PIC
  end.
#[global] Instance calm_dec i s : Decision (calm i s).
Proof. destruct i; apply _. Defined.

(** The timer only while no lock is held at all. *)
Definition serene (i : intr) (s : state) : Prop :=
  match i with Timer => all_held s = [] | Keyboard => calm Keyboard s end.
#[global] Instance serene_dec i s : Decision (serene i s).
Proof. destruct i; apply _. Defined.

Lemma serene_calm i s : serene i s → calm i s.
Proof. destruct i; [|done]. cbn. unfold locked. intros ->. split_and!; by apply not_elem_of_nil. Qed.

(** What the machine can get to when interrupts arrive at moments [ok]. *)
Inductive reach (ok : intr → state → Prop) (s : state) : state → Prop :=
  | reach_refl : reach ok s s
  | reach_step c s1 s2 : reach ok s s1 → step c s1 = Some s2 → (∀ i, c = Intr i → ok i s1) → reach ok s s2.

Lemma reach_weaken (P Q : intr → state → Prop) s s' : (∀ i s, P i s → Q i s) → reach P s s' → reach Q s s'.
Proof. intros HPQ. induction 1 as [|c s1 s2 _ IH E Hc]; [apply reach_refl|]. eapply reach_step; [done..|]. auto. Qed.

(** ** The discipline is kept by every instruction *)

Section discipline.
Context (q : lock → bool).

Lemma check_mono n c off o : check q n off c = Some o →
  ∃ o', check q n false c = Some o' ∧ implb o' o = true.
Proof.
  revert n off o. induction c as [|a IHa b IHb|a IHa b IHb|a IHa|l a IHa| | |a IHa|]; intros n off o E; cbn in *.
  - injection E as <-. exists false. done.
  - destruct (check q n off a) as [oa|] eqn:Ea; [|done]. cbn in E.
    destruct (IHa _ _ _ Ea) as (oa' & -> & Ha). cbn.
    destruct oa'; [|by eauto]. destruct oa; [|done]. exists o. by destruct o.
  - destruct (check q n off a) as [oa|] eqn:Ea; [|done]. cbn in E.
    destruct (check q n off b) as [ob|] eqn:Eb; [|done]. cbn in E. injection E as <-.
    destruct (IHa _ _ _ Ea) as (oa' & -> & Ha), (IHb _ _ _ Eb) as (ob' & -> & Hb). cbn.
    exists (oa' || ob'). by destruct oa, ob, oa', ob'.
  - destruct (check q n off a) as [oa|] eqn:Ea; [|done]. cbn in E.
    destruct (check q n (off || oa) a) as [oa2|] eqn:Ea2; [|done]. cbn in E.
    destruct (implb oa2 (off || oa)) eqn:Ei; [|done]. injection E as <-.
    destruct off; cbn in *.
    + destruct (IHa _ _ _ Ea) as (o1 & E1 & H1). rewrite E1. cbn.
      destruct o1; cbn; [rewrite Ea; cbn; exists true; by destruct oa|].
      rewrite E1. by exists false.
    + rewrite Ea. cbn. rewrite Ea2. cbn. rewrite Ei. exists oa. by destruct oa.
  - destruct (bool_decide _); cbn in *; [|done].
    destruct (negb off || q l) eqn:Eq; [|done]. by eapply IHa.
  - injection E as <-. by exists true.
  - injection E as <-. by exists false.
  - destruct (check q n true a); [|done]. cbn. exists false. done.
  - case_bool_decide; [|done]. injection E as <-. by exists false.
Qed.

Lemma good_mono n k off : good q n off k = true → good q n false k = true.
Proof.
  revert off. induction k as [|[c|l|b] k IH]; intros off E; cbn in *; [done| |  |done].
  - destruct (check q (floor n k) off c) as [o|] eqn:Ec; [|done].
    destruct (check_mono _ _ _ _ Ec) as (o' & -> & Ho). destruct o'; [by destruct o|by eapply IH].
  - apply andb_prop in E as [E1 E2]. rewrite E1. cbn. by eapply IH.
Qed.

Lemma good_le n k o o' : good q n o k = true → implb o' o = true → good q n o' k = true.
Proof. destruct o, o'; intros E ?; try done. by eapply good_mono. Qed.

(** A loop that goes round once more. *)
Lemma check_many n off a o : check q n off (Many a) = Some o →
  ∃ o1 o2, check q n off a = Some o1 ∧ check q n o1 (Many a) = Some o2 ∧ implb o2 o = true.
Proof.
  cbn. intros E. destruct (check q n off a) as [o1|] eqn:E1; [|done]. cbn in E.
  destruct (check q n (off || o1) a) as [o3|] eqn:E3; [|done]. cbn in E.
  destruct (implb o3 (off || o1)) eqn:Ei; [|done]. injection E as <-. exists o1.
  destruct off, o1; cbn in *.
  - rewrite E1. by exists true.
  - destruct (check_mono _ _ _ _ E1) as (o4 & E4 & H4). destruct o4; [done|].
    rewrite E4. cbn. rewrite E4. by exists false.
  - rewrite E3. cbn. replace (implb o3 true) with true by (by destruct o3). by exists true.
  - rewrite E1. cbn. rewrite E3. cbn. rewrite Ei. by exists false.
Qed.

Lemma exec_good s n b f k f' k' : exec s b f k = Some (f', k') →
  good q n (negb f) k = true → good q n (negb f') k' = true.
Proof.
  destruct k as [|[c|l|f0] k]; cbn; [done| | |].
  - destruct (check q (floor n k) (negb f) c) as [o|] eqn:Ec; [|done].
    destruct c as [|x y|x y|x|l x| | |x|]; cbn in Ec; intros E Hk.
    + by simplify_eq.
    + simplify_eq. cbn. unfold floor in *. cbn. destruct (check q _ (negb f') x); [|done]. cbn in Ec. by rewrite Ec.
    + destruct (check q _ (negb f) x) as [ox|] eqn:Ex; [|done]. cbn in Ec.
      destruct (check q _ (negb f) y) as [oy|] eqn:Ey; [|done]. cbn in Ec. simplify_eq. cbn.
      destruct b; [rewrite Ex|rewrite Ey]; eapply good_le; try done; by destruct ox, oy.
    + simplify_eq. destruct (check_many _ _ _ _ Ec) as (o1 & o2 & E1 & E2 & Ho).
      destruct b.
      * cbn [good]. change (floor n (Do (Many x) :: k)) with (floor n k). rewrite E1, E2. by eapply good_le.
      * eapply good_le; [done|]. destruct (check q _ (negb f') x) as [o3|]; [|done]. cbn in Ec.
        destruct (check q _ _ x); [|done]. cbn in Ec. destruct (implb _ _); [|done]. simplify_eq. by destruct f'.
    + destruct (decide (locked s l)); [done|]. simplify_eq. cbn.
      destruct (bool_decide (floor n k ≤ rank l)%nat) eqn:Er; cbn in Ec; [|done].
      destruct (negb (negb f') || q l); [|done].
      change (floor n (Drop l :: k)) with (S (rank l)). by rewrite Ec.
    + by simplify_eq.
    + by simplify_eq.
    + destruct (check q _ true x) as [ox|] eqn:Ex; [|done]. cbn in Ec. simplify_eq. cbn.
      change (floor n (SetIf f :: k)) with (floor n k). by rewrite Ex.
    + case_bool_decide; [|done]. by simplify_eq.
  - intros E [_ Hk]%andb_prop. by simplify_eq.
  - intros E Hk. by simplify_eq.
Qed.

Lemma good_floor n off k l : good q n off k = true → l ∈ drops k → (rank l < floor n k)%nat.
Proof.
  revert off. induction k as [|[c|l'|b] k IH]; intros off E Hl; cbn in *; [by apply elem_of_nil in Hl| | |].
  - destruct (check _ _ _ _); [|done]. by eapply IH.
  - apply andb_prop in E as [E1 E2]. apply bool_decide_eq_true in E1.
    change (floor n (Drop l' :: k)) with (S (rank l')).
    apply elem_of_cons in Hl as [->|Hl]; [lia|]. specialize (IH _ E2 Hl). lia.
  - by eapply IH.
Qed.

(** What the discipline says of a lock about to be taken, and of a switch. *)
Lemma good_guard n off l a k : good q n off (Do (Guard l a) :: k) = true →
  (∀ l', l' ∈ drops k → (rank l' < rank l)%nat) ∧ (off = true → q l = true).
Proof.
  cbn. case_bool_decide as Hr; cbn; [|done]. destruct (negb off || q l) eqn:Eq; [|done].
  destruct (check q (S (rank l)) off a) as [o|] eqn:Ea; [|done]. intros Hk. split.
  - intros l' Hl'. pose proof (good_floor _ _ _ _ Hk Hl'). lia.
  - intros ->. done.
Qed.

Lemma good_switch n off k : good q n off (Do Switch :: k) = true → n = 0%nat ∧ drops k = [].
Proof. cbn. case_bool_decide as Hf; [|done]. intros _. unfold floor in Hf. by destruct (drops k). Qed.
End discipline.

Lemma exec_masked s b k f' k' : exec s b false k = Some (f', k') → masked k = true →
  f' = false ∧ masked k' = true.
Proof.
  destruct k as [|[[|x y|x y|x|l x| | |x|]|l|f0] k]; cbn; try (intros; by simplify_eq).
  - intros E [[H1 H2]%andb_prop H3]%andb_prop. simplify_eq. cbn. by rewrite H1, H2.
  - intros E [[H1 H2]%andb_prop H3]%andb_prop. simplify_eq. cbn. by destruct b; rewrite ?H1, ?H2.
  - intros E [H1 H3]%andb_prop. simplify_eq. destruct b; [cbn; by rewrite H1|done].
  - destruct (decide (locked s l)); [done|]. intros E [H1 H3]%andb_prop. simplify_eq. cbn. by rewrite H1.
  - intros E [H1 H3]%andb_prop. simplify_eq. by destruct f'.
Qed.

(** ** Which locks are held *)

Lemma exec_drops s b f k f' k' : exec s b f k = Some (f', k') →
  drops k' = drops k ∨ (∃ l, ¬ locked s l ∧ drops k' = l :: drops k) ∨ (∃ l, drops k = l :: drops k').
Proof.
  destruct k as [|[[|x y|x y|x|l x| | |x|]|l|f0] k]; cbn; try (intros; simplify_eq; by left).
  - intros. simplify_eq. left. by destruct b.
  - destruct (decide (locked s l)); [done|]. intros. simplify_eq. right. left. by exists l.
  - intros. simplify_eq. right. right. by exists l.
Qed.

(** The locks held after the current task goes from [t] to [t']. *)
Lemma all_held_split s t : tasks s !! cur s = Some t →
  ∃ rest, all_held s ≡ₚ held t ++ rest ∧ ∀ t', all_held (set_task s t') ≡ₚ held t' ++ rest.
Proof.
  intros Ht. unfold all_held, set_task. cbn [tasks cur].
  destruct (list_elem_of_split_length _ _ _ Ht) as (l1 & l2 & E & Hl).
  exists (mjoin (held <$> l1) ++ mjoin (held <$> l2)). split.
  - rewrite E, fmap_app, join_app, fmap_cons. cbn [mjoin list_join].
    rewrite !(assoc (++)). apply Permutation_app_tail, Permutation_app_comm.
  - intros t'. rewrite E, Hl, insert_app_r_alt, Nat.sub_diag by done. cbn [insert list_insert].
    rewrite fmap_app, join_app, fmap_cons. cbn [mjoin list_join].
    rewrite !(assoc (++)). apply Permutation_app_tail, Permutation_app_comm.
Qed.

Lemma locked_task s j t l : tasks s !! j = Some t → l ∈ held t → locked s l.
Proof.
  intros Hj Hl. apply list_elem_of_join. exists (held t). split; [done|].
  apply list_elem_of_fmap. exists t. split; [done|]. by eapply list_elem_of_lookup_2.
Qed.

Lemma locked_inv s l : locked s l → ∃ j t, tasks s !! j = Some t ∧ l ∈ held t.
Proof.
  intros (k & Hl & (t & -> & [j Hj]%list_elem_of_lookup)%list_elem_of_fmap)%list_elem_of_join. by exists j, t.
Qed.

(** No lock is held twice. *)
Lemma held_apart s j j' t t' l : NoDup (all_held s) →
  tasks s !! j = Some t → tasks s !! j' = Some t' → l ∈ held t → l ∈ held t' → j = j'.
Proof.
  unfold all_held. revert j j'. induction (tasks s) as [|t0 ts IH]; intros [|j] [|j'] Hn Hj Hj' Hl Hl'; cbn in *; simplify_eq; try done.
  all: apply NoDup_app in Hn as (Hn0 & Hx & Hn).
  - destruct (Hx l Hl). apply list_elem_of_join. exists (held t'). split; [done|].
    apply list_elem_of_fmap. exists t'. split; [done|]. by eapply list_elem_of_lookup_2.
  - destruct (Hx l Hl'). apply list_elem_of_join. exists (held t). split; [done|].
    apply list_elem_of_fmap. exists t. split; [done|]. by eapply list_elem_of_lookup_2.
  - f_equal. by eapply IH.
Qed.

Lemma active_held t f k :
  held (set_active t f k) ≡ₚ drops k ++ match hnd t with Some _ => drops (stk t) | None => [] end.
Proof. unfold held, set_active, hnd_held. destruct (hnd t) as [[i h]|]; cbn; [done|]. by rewrite app_nil_r. Qed.

Lemma exec_nodup s t b f k f' k' : tasks s !! cur s = Some t → k = active t → NoDup (all_held s) →
  exec s b f k = Some (f', k') → NoDup (all_held (set_task s (set_active t f' k'))).
Proof.
  intros Ht -> Hn E. destruct (all_held_split s t Ht) as (rest & H1 & H2). rewrite H2, active_held.
  assert (held t ≡ₚ drops (active t) ++ match hnd t with Some _ => drops (stk t) | None => [] end) as H3.
  { unfold held, active, hnd_held. destruct (hnd t) as [[i h]|]; cbn; [done|]. by rewrite app_nil_r. }
  rewrite H1, H3 in Hn. destruct (exec_drops _ _ _ _ _ _ E) as [->|[(l & Hl & ->)|(l & El)]]; [done| |].
  - cbn. apply NoDup_cons. split; [|done]. unfold locked in Hl. by rewrite H1, H3 in Hl.
  - rewrite El in Hn. cbn in Hn. by apply NoDup_cons in Hn as [_ ?].
Qed.

(** ** The invariant *)

(** The locks a handler takes, and the floor it starts from: the keyboard's never switches. *)
Definition needs (i : intr) : lock → bool := match i with Timer => quiet | Keyboard => typing end.
Definition base (i : intr) : nat := match i with Timer => 0 | Keyboard => 1 end.

Lemma calm_needs i s l : calm i s → needs i l = true → ¬ locked s l.
Proof. destruct i, l; cbn; try done; tauto. Qed.

Definition task_ok (t : task) : Prop :=
  match hnd t with
  | None => good quiet 0 (negb (ifl t)) (stk t) = true
  | Some (i, h) =>
      ifl t = false ∧ masked h = true ∧ good (needs i) (base i) true h = true ∧
      good quiet 0 false (stk t) = true ∧ ∀ l, needs i l = true → l ∉ drops (stk t)
  end.

(** A task that is not running was switched away from: by its own call, holding no lock, or in
    the timer's handler, which interrupted it while it held none of [quiet]. *)
Definition parked (t : task) : Prop :=
  (∀ l, quiet l = true → l ∉ held t) ∧ hnd_held t = [] ∧
  match hnd t with None => drops (stk t) = [] | Some (i, _) => i = Timer end.

Record locks_wf (s : state) : Prop := {
  wf_cur : is_Some (tasks s !! cur s);
  wf_task j t : tasks s !! j = Some t → task_ok t;
  wf_parked j t : tasks s !! j = Some t → j ≠ cur s → parked t;
  wf_typing t h : tasks s !! cur s = Some t → hnd t = Some (Keyboard, h) →
    ∀ j t' l, tasks s !! j = Some t' → j ≠ cur s → typing l = true → l ∉ held t';
  wf_nodup : NoDup (all_held s);
}.

Lemma set_task_lookup s t t' j : tasks s !! cur s = Some t →
  tasks (set_task s t') !! j = if decide (j = cur s) then Some t' else tasks s !! j.
Proof.
  intros Ht. cbn. case_decide as E; [subst; apply list_lookup_insert_eq; by eapply lookup_lt_Some|].
  by apply list_lookup_insert_ne.
Qed.

(** The current task changes, the others are as they were. *)
Lemma set_task_wf s t t' : locks_wf s → tasks s !! cur s = Some t → task_ok t' →
  NoDup (all_held (set_task s t')) →
  (∀ h, hnd t' = Some (Keyboard, h) → ∀ j u l, tasks s !! j = Some u → j ≠ cur s → typing l = true → l ∉ held u) →
  locks_wf (set_task s t').
Proof.
  intros W Ht Hok Hn Hk. pose proof (λ j, set_task_lookup s t t' j Ht) as L. split.
  - rewrite L. cbn. case_decide; [by eexists|done].
  - intros j u. rewrite L. case_decide; [by intros [= <-]|]. apply (wf_task s W).
  - intros j u. rewrite L. cbn. case_decide; [done|]. by apply (wf_parked s W).
  - intros u h. rewrite L. cbn. case_decide; [|done]. intros [= <-] Hh j v l. rewrite L. case_decide; [done|].
    intros. by eapply Hk.
  - done.
Qed.

Lemma exec_wf s t b f' k' : locks_wf s → tasks s !! cur s = Some t →
  exec s b (ifl t) (active t) = Some (f', k') → locks_wf (set_task s (set_active t f' k')).
Proof.
  intros W Ht E. pose proof (wf_task s W _ _ Ht) as Hok. eapply set_task_wf; [done..| | |].
  - unfold task_ok, set_active, active in *. destruct (hnd t) as [[i h]|]; cbn in *; [|by eapply exec_good].
    destruct Hok as (Hf & Hm & Hg & Hk & Hd). rewrite Hf in E. destruct (exec_masked _ _ _ _ _ E Hm) as [-> ?].
    split_and!; try done. by apply (exec_good _ _ _ _ _ _ _ _ E).
  - by eapply exec_nodup; [| |apply (wf_nodup s W)|].
  - unfold set_active. destruct (hnd t) as [[i h]|] eqn:Eh; [|done]. cbn. intros h' [= -> <-]. by eapply (wf_typing s W).
Qed.

Lemma intr_wf s t i : locks_wf s → tasks s !! cur s = Some t → hnd t = None → ifl t = true → calm i s →
  locks_wf (set_task s (mkTask false (Some (i, [Do (handler i)])) (stk t))).
Proof.
  intros W Ht Eh Ef Hc. pose proof (wf_task s W _ _ Ht) as Hok. unfold task_ok in Hok. rewrite Eh, Ef in Hok. cbn in Hok.
  eapply set_task_wf; [done..| | |].
  - cbn. split_and!; [done|by destruct i|by destruct i|done|]. intros l Hl Hd. eapply calm_needs; [done..|].
    eapply locked_task; [done|]. unfold held. apply elem_of_app. by right.
  - destruct (all_held_split s t Ht) as (rest & H1 & ->). pose proof (wf_nodup s W) as Hn. rewrite H1 in Hn.
    unfold held, hnd_held in *. by rewrite Eh in Hn.
  - intros h [= -> <-] j u l Hj _ Hl Hu. eapply (calm_needs Keyboard); [done..|]. by eapply locked_task.
Qed.

Lemma switch_wf s t j t' k : locks_wf s → tasks s !! cur s = Some t → active t = Do Switch :: k →
  tasks (set_task s (set_active t (ifl t) k)) !! j = Some t' →
  locks_wf (mkState j (tasks (set_task s (set_active t (ifl t) k)))).
Proof.
  intros W Ht Ea Hj. assert (exec s true (ifl t) (active t) = Some (ifl t, k)) as E by (by rewrite Ea).
  pose proof (exec_wf _ _ _ _ _ W Ht E) as W'. pose proof (wf_task s W _ _ Ht) as Hok.
  pose proof (λ j, set_task_lookup s t (set_active t (ifl t) k) j Ht) as L.
  assert (parked (set_active t (ifl t) k)) as Hp.
  { unfold task_ok, parked, set_active, active, held, hnd_held in *. destruct (hnd t) as [[i h]|]; cbn in *; subst.
    - destruct Hok as (_ & _ & Hg & _ & Hd). destruct (good_switch _ _ _ _ Hg) as [Hb ->]. destruct i; [|done].
      cbn. split_and!; done.
    - rewrite Ea in Hok. destruct (good_switch _ _ _ _ Hok) as [_ ->]. cbn. split_and!; [|done..]. intros ? _. by apply not_elem_of_nil. }
  split.
  - by exists t'.
  - apply (wf_task _ W').
  - intros i u Hi Hne. cbn in Hne. cbn [tasks] in Hi. destruct (decide (i = cur s)) as [->|Hi'].
    + rewrite L, decide_True in Hi by done. by injection Hi as <-.
    + by apply (wf_parked _ W' i).
  - cbn [cur tasks]. intros u h Hu Hh. rewrite Hj in Hu. injection Hu as <-. exfalso.
    destruct (decide (j = cur s)) as [->|Hne].
    + rewrite L, decide_True in Hj by done. injection Hj as <-. destruct Hp as (_ & _ & Hp). by rewrite Hh in Hp.
    + destruct (wf_parked _ W' j t' Hj Hne) as (_ & _ & Hp'). by rewrite Hh in Hp'.
  - apply (wf_nodup _ W').
Qed.

Lemma not_in_service s j t : in_service s = false → tasks s !! j = Some t → hnd t = None.
Proof.
  intros Hs Hj. unfold in_service in Hs. rewrite <- not_true_iff_false, existsb_exists in Hs.
  destruct (hnd t) eqn:Eh; [|done]. destruct Hs. exists t. split; [by apply list_elem_of_In; eapply list_elem_of_lookup_2|].
  unfold in_handler. by rewrite Eh.
Qed.

Lemma step_wf c s s' : locks_wf s → step c s = Some s' → (∀ i, c = Intr i → calm i s) → locks_wf s'.
Proof.
  intros W E Hc. unfold step in E. destruct (wf_cur s W) as [t Ht]. rewrite Ht in E. cbn in E. destruct c as [b|j|i].
  - assert (exec s b (ifl t) (active t) ≫= (λ r, Some (set_task s (set_active t (fst r) (snd r)))) = Some s' →
      locks_wf s') as Hx.
    { intros E'. destruct (exec _ _ _ _) as [[f' k']|] eqn:Ex; [|done]. injection E' as <-. by eapply exec_wf. }
    destruct (hnd t) as [[i [|x h]]|] eqn:Eh; [|by apply Hx..]. injection E as <-.
    pose proof (wf_task s W _ _ Ht) as Hok. unfold task_ok in Hok. rewrite Eh in Hok.
    eapply set_task_wf; [done..|by apply Hok| |done].
    destruct (all_held_split s t Ht) as (rest & H1 & ->). pose proof (wf_nodup s W) as Hn. rewrite H1 in Hn.
    unfold held, hnd_held in *. by rewrite Eh in Hn.
  - destruct (active t) as [|[[]| |] k] eqn:Ea; try done.
    destruct (_ !! j) as [t'|] eqn:Hj in E; [|done]. cbn in E. destruct (finished t'); [done|]. injection E as <-.
    by eapply switch_wf.
  - destruct (ifl t) eqn:Ef; [|done]. destruct (in_service s) eqn:Es; [done|]. injection E as <-.
    apply intr_wf; auto. by eapply not_in_service.
Qed.

Lemma reach_wf s s' : locks_wf s → reach calm s s' → locks_wf s'.
Proof. intros W. induction 1; [done|]. by eapply step_wf. Qed.

(** ** Waiting *)

(** A [lock()] that spins. *)
Lemma exec_stuck s f k : exec s true f k = None → k = [] ∨ ∃ l a k', k = Do (Guard l a) :: k' ∧ locked s l.
Proof.
  destruct k as [|[[| | | |l a| | | |]|l|f0] k]; cbn; try done; [by left|].
  destruct (decide (locked s l)); [|done]. right. by exists l, a, k.
Qed.

Lemma not_own q n off l a k : good q n off (Do (Guard l a) :: k) = true → l ∉ drops k.
Proof. intros Hg Hl. destruct (good_guard _ _ _ _ _ _ Hg) as [Hr _]. specialize (Hr _ Hl). lia. Qed.

(** A handler never spins. *)
Lemma handler_free s t i l a k : locks_wf s → tasks s !! cur s = Some t →
  hnd t = Some (i, Do (Guard l a) :: k) → ¬ locked s l.
Proof.
  intros W Ht Eh (j & u & Hj & Hl)%locked_inv. pose proof (wf_task s W _ _ Ht) as Hok.
  unfold task_ok in Hok. rewrite Eh in Hok. destruct Hok as (_ & _ & Hg & _ & Hd).
  pose proof (proj2 (good_guard _ _ _ _ _ _ Hg) eq_refl) as Hq. destruct (decide (j = cur s)) as [->|Hne].
  - rewrite Ht in Hj. injection Hj as <-. unfold held, hnd_held in Hl. rewrite Eh in Hl.
    apply elem_of_app in Hl as [Hl|Hl]; [by eapply not_own|by eapply Hd].
  - destruct i; [by eapply (wf_parked s W)|]. by eapply (wf_typing s W).
Qed.

(** A task spins only with interrupts enabled, on a lock of another task. *)
Lemma task_free s t l a k : locks_wf s → tasks s !! cur s = Some t → hnd t = None →
  stk t = Do (Guard l a) :: k → locked s l → ifl t = true.
Proof.
  intros W Ht Eh Ek (j & u & Hj & Hl)%locked_inv. pose proof (wf_task s W _ _ Ht) as Hok.
  unfold task_ok in Hok. rewrite Eh, Ek in Hok. destruct (ifl t); [done|]. exfalso.
  pose proof (proj2 (good_guard _ _ _ _ _ _ Hok) eq_refl) as Hq. destruct (decide (j = cur s)) as [->|Hne].
  - rewrite Ht in Hj. injection Hj as <-. unfold held, hnd_held in Hl. rewrite Eh, Ek in Hl. by eapply not_own.
  - by eapply (wf_parked s W).
Qed.

Lemma bodies_ok : forallb (λ f, good quiet 0 true [Do (current_task_body_locks f)]) task_bodies = true.
Proof. vm_compute. reflexivity. Qed.

Lemma started_wf bodies : bodies ≠ [] → (∀ f, f ∈ bodies → f ∈ task_bodies) → locks_wf (started bodies).
Proof.
  intros Hne Hin. assert (∀ j t, tasks (started bodies) !! j = Some t →
    ∃ f, f ∈ task_bodies ∧ t = mkTask false None [Do (current_task_body_locks f)]) as Hb.
  { cbn. intros j t. rewrite list_lookup_fmap. intros (f & Hf & ->)%fmap_Some. exists f. split; [|done]. apply Hin. by eapply list_elem_of_lookup_2. }
  split.
  - cbn. destruct bodies as [|f fs]; [done|]. by eexists.
  - intros j t (f & Hf & ->)%Hb. unfold task_ok. cbn [hnd ifl stk negb].
    apply (proj1 (forallb_forall _ _) bodies_ok), list_elem_of_In, Hf.
  - intros j t (f & Hf & ->)%Hb _. split_and!; [|done..]. intros l _. apply not_elem_of_nil.
  - intros t h (f & Hf & ->)%Hb. done.
  - unfold started, all_held. cbn [tasks]. clear. induction bodies as [|f fs IH]; cbn; [by apply NoDup_nil|done].
Qed.

(** The current task has finished, can go on, or spins with interrupts enabled on a lock of a task that the
    timer preempted. *)
Lemma wf_progress s : locks_wf s → ∃ t, tasks s !! cur s = Some t ∧
  (finished t = true ∨ is_Some (step (Go true) s) ∨
   ∃ l a k j u h, hnd t = None ∧ ifl t = true ∧ stk t = Do (Guard l a) :: k ∧ j ≠ cur s ∧ tasks s !! j = Some u ∧
     hnd u = Some (Timer, h) ∧ l ∈ drops (stk u)).
Proof.
  intros W. destruct (wf_cur s W) as [t Ht]. exists t. split; [done|]. unfold step. rewrite Ht. cbn.
  destruct (exec s true (ifl t) (active t)) as [r|] eqn:E; cbn.
  { right. left. destruct (hnd t) as [[i [|x h]]|]; by eexists. }
  unfold active in E. destruct (hnd t) as [[i h]|] eqn:Eh.
  - destruct (exec_stuck _ _ _ E) as [->|(l & a & k & -> & Hl)]; [right; left; by eexists|].
    by destruct (handler_free s t i l a k W Ht Eh).
  - unfold finished. rewrite Eh. destruct (exec_stuck _ _ _ E) as [->|(l & a & k & Ek & Hl)]; [by left|].
    right. right. pose proof (task_free s t l a k W Ht Eh Ek Hl) as Hf.
    destruct (locked_inv _ _ Hl) as (j & u & Hj & Hu). assert (j ≠ cur s) as Hne.
    { intros ->. rewrite Ht in Hj. injection Hj as <-. pose proof (wf_task s W _ _ Ht) as Hok.
      unfold task_ok in Hok. unfold held, hnd_held in Hu. rewrite Eh, Ek in *. cbn in Hu. by eapply not_own. }
    destruct (wf_parked s W j u Hj Hne) as (_ & E1 & E2). unfold held in Hu. rewrite E1 in Hu. cbn in Hu.
    destruct (hnd u) as [[i h]|] eqn:Ehu; [subst i|rewrite E2 in Hu; by apply elem_of_nil in Hu].
    by exists l, a, k, j, u, h.
Qed.

(** Once a task waits for a lock that one in a handler holds, nothing happens any more. *)
Lemma waits_for_handler s t l a k j u : tasks s !! cur s = Some t → hnd t = None → stk t = Do (Guard l a) :: k →
  tasks s !! j = Some u → hnd u ≠ None → l ∈ drops (stk u) → ∀ c, step c s = None.
Proof.
  intros Ht Eh Ek Hj Hu Hl c. assert (locked s l) as Hlk.
  { eapply locked_task; [done|]. unfold held. apply elem_of_app. by right. }
  unfold step. rewrite Ht. cbn. destruct c as [b|i|i].
  - unfold active. rewrite Eh, Ek. cbn. by rewrite decide_True.
  - unfold active. by rewrite Eh, Ek.
  - destruct (in_service s) eqn:Es; [by rewrite andb_false_r|]. by destruct (Hu (not_in_service s j u Es Hj)).
Qed.

(** A task the timer interrupted while no lock was held. *)
Definition light (s : state) : Prop :=
  ∀ j t h, tasks s !! j = Some t → hnd t = Some (Timer, h) → drops (stk t) = [].

Lemma step_light c s s' : light s → step c s = Some s' → (∀ i, c = Intr i → serene i s) → light s'.
Proof.
  intros Hl E Hc. unfold step in E. destruct (tasks s !! cur s) as [t|] eqn:Ht; [|done]. cbn in E.
  assert (∀ t', (∀ h, hnd t' = Some (Timer, h) → drops (stk t') = []) → light (set_task s t')) as Hset.
  { intros t' Ht' j u h. rewrite (set_task_lookup s t t' j Ht). case_decide; [by intros [= <-]; apply Ht'|]. apply Hl. }
  assert (∀ f k, light (set_task s (set_active t f k))) as Hact.
  { intros f k. apply Hset. unfold set_active. destruct (hnd t) as [[i h]|] eqn:Eh; [|done]. cbn. intros h' [= -> _].
    by eapply (Hl (cur s)). }
  destruct c as [b|j|i].
  - assert (exec s b (ifl t) (active t) ≫= (λ r, Some (set_task s (set_active t (fst r) (snd r)))) = Some s' → light s') as Hx.
    { intros E'. destruct (exec _ _ _ _) as [[f' k']|]; [|done]. injection E' as <-. apply Hact. }
    destruct (hnd t) as [[i [|x h]]|]; [|by apply Hx..]. injection E as <-. by apply Hset.
  - destruct (active t) as [|[[]| |] k]; try done. destruct (_ !! j) as [t'|] in E; [|done]. cbn in E.
    destruct (finished t'); [done|]. injection E as <-. intros j' u h. apply (Hact (ifl t) k).
  - destruct (ifl t && negb (in_service s)); [|done]. injection E as <-. apply Hset. cbn. intros h [= -> _].
    specialize (Hc _ eq_refl). cbn in Hc. destruct (all_held_split s t Ht) as (rest & Hp & _). rewrite Hc in Hp.
    apply Permutation_nil_l in Hp. symmetry in Hp. apply app_nil in Hp as [Hp _]. unfold held in Hp. by apply app_nil in Hp as [_ Hp].
Qed.

Lemma reach_light s s' : light s → reach serene s s' → light s'.
Proof. intros Hl. induction 1; [done|]. by eapply step_light. Qed.

Lemma started_light bodies : light (started bodies).
Proof. intros j t h Hj. cbn in Hj. rewrite list_lookup_fmap in Hj. by apply fmap_Some in Hj as (f & _ & ->). Qed.

(** Runs in which the interrupts come at moments [ok]. *)
Fixpoint run_ok (ok : intr → state → Prop) `{∀ i s, Decision (ok i s)} (cs : list choice) (s : state) : option state :=
  match cs with
  | [] => Some s
  | c :: cs =>
      if (match c with Intr i => bool_decide (ok i s) | _ => true end) then s' ← step c s; run_ok ok cs s' else None
  end.

Lemma run_reach ok `{∀ i s, Decision (ok i s)} s cs s' : run_ok ok cs s = Some s' → reach ok s s'.
Proof.
  assert (∀ s0 s1, reach ok s0 s1 → run_ok ok cs s1 = Some s' → reach ok s0 s') as Hg;
    [|intros; eapply Hg; [apply reach_refl|done]].
  induction cs as [|c cs IH]; intros s0 s1 H0 E; cbn in *; [congruence|].
  destruct (match c with Intr i => _ | _ => true end) eqn:Ec; [|done].
  destruct (step c s1) as [s2|] eqn:E1; [|done]. cbn in E.
  apply (IH s0 s2); [|done]. eapply reach_step; [done..|]. intros i ->. by apply bool_decide_eq_true in Ec.
Qed.

Ltac solve_bodies :=
  intros ? Hin; repeat (apply elem_of_cons in Hin as [->|Hin]); [idtac..|by apply elem_of_nil in Hin];
  unfold task_bodies; repeat (apply list_elem_of_here || apply list_elem_of_further).

(** C7. The locks of the kernel do not deadlock, if interrupts are kind: let any number of tasks run the bodies started at boot,
    switching anywhere they may, with timer interrupts arriving only when no lock is held, and
    keyboard interrupts when none of [KEYBOARD], [ALLOCATOR], [PIC] is; and none while the end of another is
    owed. Then no lock is held twice; a task that does not run holds none, whether it gave up the processor
    or was preempted; and the current task has finished or can go on: it never spins. *)
Theorem locks_never_hang bodies s : bodies ≠ [] → (∀ f, f ∈ bodies → f ∈ task_bodies) → reach serene (started bodies) s →
  NoDup (all_held s) ∧
  (∀ j t, tasks s !! j = Some t → j ≠ cur s → held t = []) ∧
  ∃ t, tasks s !! cur s = Some t ∧ (finished t = true ∨ is_Some (step (Go true) s)).
Proof.
  intros Hne Hin Hr. pose proof (reach_light _ _ (started_light bodies) Hr) as Hl.
  apply (reach_weaken _ calm) in Hr; [|apply serene_calm]. pose proof (reach_wf _ _ (started_wf _ Hne Hin) Hr) as W.
  split; [apply (wf_nodup s W)|]. split.
  - intros j t Hj Hc. destruct (wf_parked s W j t Hj Hc) as (_ & E1 & E2). unfold held. rewrite E1. cbn.
    destruct (hnd t) as [[i h]|] eqn:Eh; [subst i; by eapply Hl|done].
  - destruct (wf_progress s W) as (t & Ht & Hp). exists t. split; [done|].
    destruct Hp as [?|[?|(l & a & k & j & u & h & _ & _ & _ & _ & Hj & Ehu & Hu)]]; [by left|by right|].
    rewrite (Hl j u h Hj Ehu) in Hu. by apply elem_of_nil in Hu.
Qed.

(** The four tasks of the boot. *)
Definition boot_bodies : list code := [clock_locks; manager_task_locks; demo_arp_locks; shell_run_locks].

Lemma boot_bodies_in f : f ∈ boot_bodies → f ∈ task_bodies.
Proof. revert f. solve_bodies. Qed.

(** The clock prints a line and is then interrupted, and preempted for the manager. *)
Definition handed : state :=
  default (started []) (run_ok serene (replicate 14 (Go true) ++ [Intr Timer] ++ replicate 15 (Go true) ++ [To 1] ++
    replicate 3 (Go true)) (started boot_bodies)).

Lemma locks_never_hang_witness :
  cur handed = 1%nat ∧ NoDup (all_held handed) ∧ is_Some (step (Go true) handed).
Proof.
  assert (run_ok serene (replicate 14 (Go true) ++ [Intr Timer] ++ replicate 15 (Go true) ++ [To 1] ++
    replicate 3 (Go true)) (started boot_bodies) = Some handed) as E by (vm_compute; reflexivity).
  pose proof (run_reach _ _ _ _ E) as Hr. clear E.
  destruct (locks_never_hang boot_bodies handed ltac:(discriminate) boot_bodies_in Hr) as (Hn & _ & t & Ht & Hp).
  split; [vm_compute; reflexivity|]. split; [exact Hn|]. destruct Hp as [Hf|Hp]; [exfalso|exact Hp].
  assert (finished <$> tasks handed !! cur handed = Some false) as Hx by (vm_compute; reflexivity).
  rewrite Ht in Hx. cbn [fmap option_fmap option_map] in Hx. congruence.
Defined.

(** ** How the machine stops *)


(** The clock is interrupted while it prints; the shell, which runs next, prints too. *)
Definition stopped : state :=
  default (started []) (run_ok calm (replicate 12 (Go true) ++ [Intr Timer] ++ replicate 15 (Go true) ++ [To 3] ++
    replicate 8 (Go true)) (started boot_bodies)).


(** C15. A key pressed while somebody holds the keyboard stops the machine: in any state whatever, if a keyboard interrupt is
    taken while the lock of the keyboard is held (as it is, with interrupts enabled, by a task that reads
    [/dev/kbd]), then after the handler's first instruction nothing happens ever again: the handler spins on the lock
    with interrupts disabled. *)
Theorem key_while_reading_hangs s s1 : locked s KEYBOARD → step (Intr Keyboard) s = Some s1 →
  ∀ cs s', run cs s1 = Some s' → (length cs ≤ 1)%nat.
Proof.
  intros Hl E cs s' Hrun. unfold step in E. destruct (tasks s !! cur s) as [t|] eqn:Ht; [|done]. cbn in E.
  destruct (ifl t && negb (in_service s)) eqn:Eg; [|done]. injection E as <-.
  assert (hnd t = None) as Eh by (eapply not_in_service; [|done]; by apply andb_prop in Eg as [_ ?%negb_true_iff]).
  set (in_irq k := set_task s (mkTask false (Some (Keyboard, k)) (stk t))).
  assert (∀ k, tasks (in_irq k) !! cur (in_irq k) = Some (mkTask false (Some (Keyboard, k)) (stk t))) as Hcur.
  { intros k. unfold in_irq. rewrite (set_task_lookup s t _ _ Ht). by rewrite decide_True. }
  assert (∀ k, drops k = [] → locked (in_irq k) KEYBOARD) as Hlk.
  { intros k Hk. destruct (all_held_split s t Ht) as (rest & H1 & H2). unfold locked, in_irq in *. rewrite H1 in Hl. rewrite H2.
    unfold held, hnd_held in *. rewrite Eh in Hl. cbn [hnd stk]. by rewrite Hk. }
  assert (∀ k c, (∃ b, c = Go b) ∨ step c (in_irq k) = None ∨ ∃ k', k = Do Switch :: k') as Hgo.
  { intros k [b|j|i]; [left; by exists b|right..]; unfold step; rewrite Hcur; cbn; [|by left].
    destruct k as [|[[]| |] k]; try (by left). right. by eexists. }
  destruct cs as [|c [|c2 cs]]; [cbn; lia|cbn; lia|exfalso].
  cbn [run] in Hrun. change (set_task s _) with (in_irq [Do (handler Keyboard)]) in Hrun.
  destruct (Hgo [Do (handler Keyboard)] c) as [[b ->]|[E|[k' [=]]]]; [|by rewrite E in Hrun].
  set (k1 := [Do handle_scancode_locks; Do (block [Guard PIC Skip])]).
  assert (step (Go b) (in_irq [Do (handler Keyboard)]) = Some (in_irq k1)) as E1.
  { unfold step. rewrite Hcur. cbn. unfold in_irq, set_task. cbn. by rewrite list_insert_insert_eq. }
  rewrite E1 in Hrun. cbn [mbind option_bind run] in Hrun.
  assert (step c2 (in_irq k1) = None) as E2; [|by rewrite E2 in Hrun].
  destruct (Hgo k1 c2) as [[b2 ->]|[E|[k' [=]]]]; [|done].
  unfold step. rewrite Hcur. cbn. by rewrite (decide_True _ _ (Hlk k1 eq_refl)).
Qed.

(** The shell opens [/dev/kbd] and is in the middle of a read; a key is pressed. *)
Definition to_read : list choice :=
  replicate 12 (Go true) ++ [Go false] ++ replicate 5 (Go true) ++ [Go false] ++ [Go true] ++ [Go false] ++ replicate 9 (Go true) ++ [Go false] ++ [Go true] ++ [Go false] ++ replicate 4 (Go true) ++ [Go false] ++ replicate 2 (Go true) ++ [Go false] ++ replicate 10 (Go true).

Definition reading : state := default (started []) (run to_read (started [shell_run_locks])).
Definition pressed : state := default (started []) (step (Intr Keyboard) reading).

Lemma key_while_reading_hangs_witness :
  locked reading KEYBOARD ∧ step (Intr Keyboard) reading = Some pressed ∧ run [Go true; Go true] pressed = None.
Proof.
  assert (locked reading KEYBOARD) as Hl by (apply (bool_decide_unpack _); vm_compute; exact I).
  assert (step (Intr Keyboard) reading = Some pressed) as E by (vm_compute; reflexivity).
  split; [exact Hl|]. split; [exact E|]. destruct (run [Go true; Go true] pressed) as [s'|] eqn:Er; [exfalso|reflexivity].
  pose proof (key_while_reading_hangs reading pressed Hl E [Go true; Go true] s' Er) as Hlen. cbn in Hlen. lia.
Defined.
